(* ===== verification/_CoqProject ===== *)
-Q . S2P
Prelude.v
GoStrings.v
Netip.v
Policy.v
PolicyAddr.v
PolicyRules.v
PolicyLoad.v
PolicyAuth.v
Capsule.v
VirtualDNS.v
VirtualDNSSpec.v
VirtualDNSFacts.v
Http.v
Textproto.v
Connect.v
Head.v
Boundary.v
BoundaryFacts.v
Exchange.v
ExchangeFacts.v
Forwarder.v
EndToEnd.v
Engine.v
Ingress.v
QemuFrames.v
Netns.v
NetnsFlows.v
NetnsClose.v
Relay.v
Framing.v
Tunnel.v
Rules.v
ConnectH2.v
ExchangeH2.v
AuditLog.v
Process.v
Launcher.v
Start.v
Join.v
Scenarios.v
ScenarioMains.v
TargetServer.v
