(* ===== verification/Prelude.v ===== *)
(** * agents.net: a verification development

    agents.net gives a sandbox ("capsule") one way out: every flow of a guest is
    terminated by an adapter in the sandbox or beside it, and carried as an HTTP
    CONNECT tunnel to a boundary, which alone resolves names and decides, from a
    policy descriptor, what may be reached. This library models the Go code of
    the SDK (under [src/sdk]) and proves what makes that arrangement work:

      - the boundary dials an address only if the policy authorizes the request
        and the address is public, pinned, or listed, and it records exactly one
        decision for every request;
      - the name a guest looked up is the name the boundary decides on, although
        the guest dials a synthetic address in between, and an address whose name
        was forgotten can only be denied;
      - what one side writes on the wire the other reads back: request and
        response heads, refusals, varints and capsules, Ethernet frames, socket
        addresses, audit lines; so that a dial of the client is exactly a decision of
        the boundary, on either wire, and a tunnel a pair of queues;
      - the engines that run one worker per flow keep their budgets and tables in
        every interleaving, leave no connection open, and drain when closed;
      - a relay writes a prefix of what it was sent, all of it if both ends close
        properly, and ends once it is interrupted, even if its peers do nothing;
      - the launcher starts nothing in the sandbox before it is closed, the
        redirect rules confine a workload, and the boundary serves only with the
        policy and the TLS configuration it was started with.

    ** Parts, and how they interact

    A guest flow enters through a TUN device or a QEMU stream into the netstack
    engine ([Engine], [QemuFrames]), through a network namespace with redirected
    sockets ([Netns], [NetnsFlows]), or, inbound, through the launcher's ingress
    listener ([Ingress]). Engine and namespace proxy hand the destination to the
    [Forwarder], which asks the [VirtualDNS] for the name behind a synthetic
    address and dials the boundary with the client of [Connect]; datagrams travel
    as capsules ([Capsule]). The boundary reads the request head ([Head]), asks the
    policy ([Policy]), dials ([Boundary]) and writes an audit line ([AuditLog]). Once a
    tunnel stands, a relay copies it ([Relay]). Around the flows are the programs
    that start all this: the launcher that closes a sandbox before it runs the agent
    ([Launcher]), the redirect rules of the namespace proxy ([Rules]), and the main
    functions ([Start]).

    ** Files

      - [Prelude]: results, tactics, counting and list lemmas;
      - [GoStrings], [Netip], [Http], [Textproto]: the parts of Go's standard library
        the source uses (strings, strconv, net/netip, net/http, net/url's escapes,
        header blocks as bytes);
      - [Policy]: [sdk/cmd/connect-proxy/policy.go]. [PolicyAddr] has the theorems on addresses and ranges,
        [PolicyRules] on ports, rule selection and names, [PolicyLoad] on loading a
        descriptor, [PolicyAuth] on authorization;
      - [Capsule]: [sdk/pkg/tun2connect/capsule.go], over a byte stream that may
        end anywhere with an error;
      - [VirtualDNS]: [dns.go], with Go's linked list and maps as a store of
        numbered elements. [VirtualDNSSpec] has the abstract least-recently-used
        table and the refinement, [VirtualDNSFacts] what follows for every
        sequence of calls;
      - [Connect]: [connect.go] and [dialer.go]: requests, interim responses,
        outcomes, Proxy-Status;
      - [Head] and [Boundary]: [sdk/cmd/connect-proxy/main.go]; the handlers are
        functions to traces of audit records, refusals, dials and tunnels, and
        [BoundaryFacts] has their theorems. [Exchange] puts client and boundary on
        one stream of bytes: what [Request.Write] writes, [readHead] reads, the
        boundary answers and [http.ReadResponse] reads; [ExchangeFacts] has the
        theorems, and [ExchangeH2] their counterpart over HTTP/2. [AuditLog] has the line that [audit]
        prints, with the escapes of encoding/json and a reader for it;
      - [ConnectH2]: [connect_h2.go]: one dial as a function to its events, and any
        number of concurrent dials that share a session and a mutex, as a step
        function on a schedule;
      - [Forwarder]: [forwarder.go]; [EndToEnd]: the theorems that join resolver,
        forwarder, client and boundary;
      - [Engine]: [engine.go] as a step relation: handlers, one worker per flow,
        [Close], the session channel and the wait group;
      - [Relay]: [relay.go], [RelayUDP], the boundary's [relay] and [pumpUDP] and the
        relays of the scenario programs: one step relation, in which a
        [relay_policy] says what a goroutine does when its copy ends and which
        goroutines are waited for. [Framing] is the interface between a relay and
        the byte stream of a tunnel, with its two instances, bytes and capsules;
        [Tunnel] composes the relays of the two ends over that stream;
      - [Process]: programs that act on a system, stop at the first fatal error and
        leave a trace, with what every trace must pass through before it goes on;
      - [Ingress]: the argument and ingress parts of [sdk/cmd/tun2connect];
        [Launcher]: [runLauncher] from the flags to the child, with [dropNetAdmin],
        [configureTUN], [runChild] and the daemon's [main];
      - [Start]: the main functions of [connect-proxy], [qemuproxy] and [netnsproxy],
        with [boundaryTLSConfig] and [loadPolicyFile];
      - [QemuFrames]: frames of [sdk/pkg/qemuproxy/proxy.go]; [Join]: how its [Run] and
        the namespace proxy's wait for their workers, and what they close;
      - [Netns]: [socket_linux.go], [routes_linux.go] and [New] of
        [proxy_linux.go] in [sdk/pkg/netnsproxy]; [NetnsFlows]: [packet_linux.go]
        and the loops of [serveUDP] and [serveTCP] as a step relation; [NetnsClose]:
        what is left of them after [Close]; [Rules]:
        [rules_linux.go], the rules as data, and a class of what the kernel does with
        them;
      - [Scenarios]: the handlers of the allow-list boundary, the vsock forwarder and
        the streaming endpoint of [scenarios/cmd]; [ScenarioMains]: the first two
        from their flags to their end; [TargetServer]: the certificate of the third,
        over a store of files, and its [main].

    Operations keep the names of the code; an operation on a Go pointer takes and
    returns the state; a [(value, error)] pair is a [Result] whose error is the
    format string; a panic or a nil result is [None] or an event; a goroutine is a
    phase that steps advance, and an execution is any sequence of enabled steps.
    A call that blocks has two kinds of steps: an answer of its environment, which
    may never come, and what the program itself makes possible: a context that is
    cancelled, a connection that is closed. The theorems on progress ([forced] in
    [Engine], [NetnsClose], [Join] and [Relay]) promise a step of the second kind.

    ** Parameters

    Code that is not in the repository is an argument of the definitions that use
    it: the JSON decoder, the IDNA profile and Unicode tables, name resolution and
    dialing, httpguts, url parsing, the DNS message
    codec, gVisor's netstack and Ethernet accessors, the HTTP/2 implementation, x509,
    netlink, the sockets, files and system calls. The meaning of nftables
    expressions is the class [Rules.Netfilter] with its laws, which an evaluator
    written out in [Rules] satisfies. What a theorem needs of them is a named hypothesis or a law of their
    class, and a witness instantiates it.

    ** Groups of theorems

    Safety of the boundary: [PolicyAuth], [BoundaryFacts], [EndToEnd], [Start]; of
    the sandbox: [Launcher], [Rules], [Ingress]. Refinement: [VirtualDNSSpec], the
    abstract table; [Tunnel], two queues; [ExchangeFacts] and [ExchangeH2], where the
    wire between client and boundary is the boundary's decision function.
    Invariants over every interleaving: [Engine], [NetnsFlows], [Relay], the shared
    session of [ConnectH2] with its mutex, and the connection budget of [BoundaryFacts].
    Termination and progress: [Capsule], [Engine], [Relay], [Join], [NetnsClose],
    [Launcher.runChild_returns_status], [ScenarioMains.forwarder_shuts_down]. Round
    trips: [Textproto], [ExchangeFacts], [Capsule], [Head], [Connect], [ConnectH2],
    [AuditLog], [QemuFrames], [Netns]. Errors and cleanup: [Connect], [ConnectH2],
    [Netns], [Engine], [TargetServer]. Where the code departs from its documents the theorem states what
    the code does: [PolicyAuth.rule_order_matters_with_resolve],
    [PolicyLoad.loadDescriptor_accepts_trailing_close],
    [Head.masque_decodes_twice], [Relay.scenario_tunnel_truncates],
    [Launcher.runChild_misses_early_exit], [ExchangeFacts.scoped_zone_not_sent] and
    [TargetServer.torn_key_accepted].

    ** Bounds and fuel

    [ReadDatagram] loops until a datagram; its fuel is one more than the bytes
    left, since each capsule takes at least one, and [Capsule.ReadDatagram_total]
    shows that it always answers. The other fuelled definitions are parsers with
    the length of their text ([GoStrings], [Netip], [Ingress], [AuditLog],
    [Textproto], where [ReadMIMEHeader_written] shows that the fuel is enough for every
    block that is written), the responses of a stream, of which the client asks for at
    most nine, the frame reader of [QemuFrames], with the number of frames, and the write loop of
    [Scenarios], with the number of chunks, for which [stream_sends_size] shows that
    it ends. Machine integers are [Z] with their
    wrap-around written out where the code can reach it.

    ** Not modelled

    The passing of time: a deadline that expires is a failed read or write of the
    model, and the idle watch a sequence of instants. gVisor itself, its packet
    buffers, and [NewTUNDevice], which only opens a descriptor with it. The methods
    that only pass a call on to an embedded connection or file ([vsockConn],
    [h2Stream], [bufConn.Read]), usage texts, and log lines. Of a response the client
    receives, the fields that delimit a body, which it never reads. The programs
    under [demo] and [conformance]. *)

From stdpp Require Export base gmap strings list.
From Stdlib Require Export ZArith Lia Ascii String.
From Stdlib Require Import Bool.

#[global] Open Scope Z_scope.

(** Strings compute on a visible first byte. *)
#[global] Arguments String.append !_ _ / : simpl nomatch.
#[global] Arguments Ascii.eqb !_ !_ / : simpl nomatch.

(** ** Results: Go's [(value, error)] pairs.

    An error is identified by the format string the source builds it from; the
    arguments that are interpolated into it are not kept. *)

Inductive Result (A : Type) : Type :=
| Ok (a : A)
| Err (e : string).
Arguments Ok {A} a.
Arguments Err {A} e%_string_scope.

Declare Scope go_scope.
Delimit Scope go_scope with go.

Notation "'let?' x ':=' c 'in' k" :=
  (match c with Ok x => k | Err e => Err e end)
  (at level 10, x pattern, c at level 100, k at level 200) : go_scope.

(** [if err != nil { return ..., errors.New(msg) }]: the callee's error is
    replaced by the caller's. *)
Definition or_err {A} (o : option A) (msg : string) : Result A :=
  match o with Some a => Ok a | None => Err msg end.

Definition ok_of {A} (r : Result A) : option A :=
  match r with Ok a => Some a | Err _ => None end.

Definition is_ok {A} (r : Result A) : bool :=
  match r with Ok _ => true | Err _ => false end.

(** A left fold that stops at the first error: the shape of the loops
    [for _, x := range xs { if err := step(x); err != nil { return err } }]. *)
Fixpoint fold_result {A S : Type} (f : S -> A -> Result S) (s : S) (xs : list A) : Result S :=
  match xs with
  | [] => Ok s
  | x :: xs => match f s x with Ok s' => fold_result f s' xs | Err e => Err e end
  end.

Lemma fold_result_invariant {A S : Type} (P : S -> Prop) (f : S -> A -> Result S) xs :
  (forall s x s', P s -> In x xs -> f s x = Ok s' -> P s') ->
  forall s s', P s -> fold_result f s xs = Ok s' -> P s'.
Proof.
  induction xs as [|x xs IH]; intros Hf s s' Hs; simpl; [congruence|].
  destruct (f s x) as [s1|] eqn:E; [|discriminate]. intros H.
  apply (IH (fun s x s' Hs Hx => Hf s x s' Hs (or_intror Hx)) s1); [|exact H].
  apply (Hf s x); [exact Hs|left; reflexivity|exact E].
Qed.

(** ** Tactics *)

(** Case analysis on every [match] and [if] scrutinee of the goal. *)
Ltac case_goal :=
  repeat match goal with
  | |- context [match ?x with _ => _ end] => destruct x eqn:?; cbn beta iota; simplify_eq
  end.

(** The same in a hypothesis, closing the branches it contradicts. *)
Ltac case_hyp H :=
  repeat match type of H with
  | context [match ?x with _ => _ end] =>
      destruct x eqn:?; cbn beta iota in H; simplify_eq
  end.

(** Turn boolean tests in the context into propositions. *)
Ltac bool_to_prop :=
  repeat match goal with
  | H : (_ && _)%bool = true |- _ => apply andb_true_iff in H; destruct H
  | H : (_ || _)%bool = false |- _ => apply orb_false_iff in H; destruct H
  | H : (_ || _)%bool = true |- _ => apply orb_true_iff in H
  | H : (_ && _)%bool = false |- _ => apply andb_false_iff in H
  | H : negb _ = true |- _ => apply negb_true_iff in H
  | H : negb _ = false |- _ => apply negb_false_iff in H
  | H : (_ <=? _) = true |- _ => apply Z.leb_le in H
  | H : (_ <=? _) = false |- _ => apply Z.leb_gt in H
  | H : (_ <? _) = true |- _ => apply Z.ltb_lt in H
  | H : (_ <? _) = false |- _ => apply Z.ltb_ge in H
  | H : (_ =? _) = true |- _ => apply Z.eqb_eq in H
  | H : (_ =? _) = false |- _ => apply Z.eqb_neq in H
  | H : String.eqb _ _ = true |- _ => apply String.eqb_eq in H
  | H : String.eqb _ _ = false |- _ => apply String.eqb_neq in H
  end.

(** ** Lists *)

Lemma existsb_exists_iff {A} (f : A -> bool) l :
  existsb f l = true <-> exists x, In x l /\ f x = true.
Proof. apply existsb_exists. Qed.

Lemma existsb_false_iff {A} (f : A -> bool) l :
  existsb f l = false <-> forall x, In x l -> f x = false.
Proof.
  split.
  - intros H x Hx. destruct (f x) eqn:E; [|reflexivity].
    exfalso. rewrite <- not_true_iff_false in H. apply H, existsb_exists. eauto.
  - intros H. apply not_true_iff_false. intros E. apply existsb_exists in E as (x & Hx & Ex).
    rewrite (H x Hx) in Ex. discriminate.
Qed.

Lemma find_some_iff_existsb {A} (f : A -> bool) l :
  (exists x, List.find f l = Some x) <-> existsb f l = true.
Proof.
  induction l as [|a l IH]; simpl.
  - split; [intros [x H]; discriminate|discriminate].
  - destruct (f a); simpl; [split; eauto|exact IH].
Qed.

Lemma Forall_snoc {A} (P : A -> Prop) l x : Forall P l -> P x -> Forall P (l ++ [x]).
Proof. intros Hl Hx. apply Forall_app. split; [exact Hl|]. by constructor. Qed.

(** ** Counting the elements of a list that have a property *)

Definition count {A} (P : A -> bool) (l : list A) : Z := Z.of_nat (List.length (List.filter P l)).

Lemma count_app {A} (P : A -> bool) l x : count P (l ++ [x]) = count P l + (if P x then 1 else 0).
Proof.
  unfold count. rewrite List.filter_app, List.length_app. cbn [List.filter].
  destruct (P x); cbn [List.length]; lia.
Qed.

Lemma count_insert {A} (P : A -> bool) l i x y :
  l !! i = Some x ->
  count P (<[i := y]> l) = count P l - (if P x then 1 else 0) + (if P y then 1 else 0).
Proof.
  unfold count. revert i. induction l as [|z l IH]; [done|]. intros [|i] Hi.
  - simpl in Hi. injection Hi as ->. change (<[0%nat := y]> (x :: l)) with (y :: l).
    cbn [List.filter]. destruct (P x), (P y); cbn [List.length]; lia.
  - change (<[S i := y]> (z :: l)) with (z :: <[i := y]> l). cbn [List.filter].
    specialize (IH i Hi). destruct (P z); cbn [List.length]; lia.
Qed.

Lemma count_nonneg {A} (P : A -> bool) l : 0 <= count P l.
Proof. unfold count. lia. Qed.

Lemma count_zero {A} (P : A -> bool) l : count P l = 0 -> Forall (fun x => P x = false) l.
Proof.
  unfold count. induction l as [|x l IH]; [constructor|]. cbn [List.filter].
  destruct (P x) eqn:E; cbn [List.length]; [lia|]. intros H. by constructor; [|apply IH].
Qed.

(** ** Summing a measure over a list *)

Definition sum_of {A} (f : A -> Z) (l : list A) : Z := fold_right (fun x n => f x + n) 0 l.

Lemma sum_of_app {A} (f : A -> Z) l x : sum_of f (l ++ [x]) = sum_of f l + f x.
Proof. unfold sum_of. induction l as [|y l IH]; cbn [fold_right app]; lia. Qed.

Lemma sum_of_insert {A} (f : A -> Z) l i x y :
  l !! i = Some x -> sum_of f (<[i := y]> l) = sum_of f l - f x + f y.
Proof.
  unfold sum_of. revert i. induction l as [|z l IH]; [done|]. intros [|i] Hi.
  - simpl in Hi. injection Hi as ->. change (<[0%nat := y]> (x :: l)) with (y :: l). cbn [fold_right]. lia.
  - change (<[S i := y]> (z :: l)) with (z :: <[i := y]> l). cbn [fold_right]. rewrite (IH i Hi). lia.
Qed.

Lemma sum_of_nonneg {A} (f : A -> Z) l : (forall x, 0 <= f x) -> 0 <= sum_of f l.
Proof. intros Hf. unfold sum_of. induction l as [|x l IH]; cbn [fold_right]; [lia|]. pose proof (Hf x). lia. Qed.

(** ** Integers: high bits of a machine word *)

Lemma shiftr_lxor_zero a b n :
  0 <= n -> (Z.shiftr (Z.lxor a b) n =? 0) = (Z.shiftr a n =? Z.shiftr b n).
Proof.
  intros Hn. rewrite Z.shiftr_lxor. apply eq_true_iff_eq. rewrite !Z.eqb_eq.
  apply Z.lxor_eq_0_iff.
Qed.

(** [a] and a base [b] whose low [n] bits are clear agree above bit [n] exactly
    when [a] lies in the block of size [2^n] that starts at [b]. *)
Lemma shiftr_eq_block a b n :
  0 <= n -> b mod 2 ^ n = 0 ->
  (Z.shiftr a n =? Z.shiftr b n) = ((b <=? a) && (a <? b + 2 ^ n)).
Proof.
  intros Hn Hb. rewrite !Z.shiftr_div_pow2 by assumption.
  assert (0 < 2 ^ n) by (apply Z.pow_pos_nonneg; lia).
  assert (b = 2 ^ n * (b / 2 ^ n)) as Hbd.
  { rewrite (Z.div_mod b (2 ^ n)) at 1 by lia. lia. }
  apply eq_true_iff_eq. rewrite andb_true_iff, Z.eqb_eq, Z.leb_le, Z.ltb_lt.
  split.
  - intros E. pose proof (Z.div_mod a (2 ^ n) ltac:(lia)).
    pose proof (Z.mod_pos_bound a (2 ^ n) ltac:(lia)). rewrite E in *. lia.
  - intros [H1 H2]. symmetry. apply Z.div_unique with (r := a - b); [left; lia|lia].
Qed.
