(* ===== verification/GoStrings.v ===== *)
(** * Go strings: the functions of [strings], [strconv] and [net] the source uses

    A Go string is a sequence of bytes, here [String.string] (one [ascii] per
    byte).  The functions follow the Go standard library on every byte string.
    Where Go consults the Unicode tables (case mapping of a non-ASCII string)
    the result is a parameter, the class [GoUnicode]. *)

From S2P Require Import Prelude.

(** ** Bytes *)

Definition byte_of (c : ascii) : Z := Z.of_N (N_of_ascii c).

Definition ascii_of (z : Z) : ascii := ascii_of_N (Z.to_N z).

(** The bytes that end a line. *)
Definition lf : ascii := "010"%char.
Definition cr : ascii := "013"%char.
Definition crlf : string := String cr (String lf EmptyString).

Definition is_ascii_byte (c : ascii) : bool := byte_of c <? 128.

Definition is_lower_letter (c : ascii) : bool := (97 <=? byte_of c) && (byte_of c <=? 122).
Definition is_upper_letter (c : ascii) : bool := (65 <=? byte_of c) && (byte_of c <=? 90).
Definition is_digit (c : ascii) : bool := (48 <=? byte_of c) && (byte_of c <=? 57).

Definition lower_byte (c : ascii) : ascii :=
  if is_upper_letter c then ascii_of (byte_of c + 32) else c.

(** ** Strings *)

Fixpoint str_all (f : ascii -> bool) (s : string) : bool :=
  match s with EmptyString => true | String c s => f c && str_all f s end.

Fixpoint str_any (f : ascii -> bool) (s : string) : bool :=
  match s with EmptyString => false | String c s => f c || str_any f s end.

Fixpoint str_map (f : ascii -> ascii) (s : string) : string :=
  match s with EmptyString => EmptyString | String c s => String (f c) (str_map f s) end.

(** [len(s)] *)
Definition str_len (s : string) : Z := Z.of_nat (String.length s).

(** [strings.Contains(s, string(c))] for a one-byte needle *)
Definition contains_byte (c : ascii) (s : string) : bool := str_any (Ascii.eqb c) s.

(** [strings.ContainsAny(s, chars)] for ASCII [chars] *)
Definition contains_any (chars s : string) : bool :=
  str_any (fun c => contains_byte c chars) s.

(** [strings.Count(s, string(c))] for a one-byte needle *)
Fixpoint count_byte (c : ascii) (s : string) : Z :=
  match s with
  | EmptyString => 0
  | String x s => (if Ascii.eqb c x then 1 else 0) + count_byte c s
  end.

(** [strings.HasPrefix(s, p)] *)
Definition has_prefix (p s : string) : bool := String.prefix p s.

(** [s[n:]] *)
Fixpoint str_drop (n : nat) (s : string) : string :=
  match n, s with
  | O, _ => s
  | S n, String _ s => str_drop n s
  | S _, EmptyString => EmptyString
  end.

(** [s[:n]] *)
Fixpoint str_take (n : nat) (s : string) : string :=
  match n, s with
  | O, _ => EmptyString
  | S n, String c s => String c (str_take n s)
  | S _, EmptyString => EmptyString
  end.

(** [strings.TrimPrefix(s, p)] and [strings.CutPrefix(s, p)] *)
Definition trim_prefix (p s : string) : string :=
  if has_prefix p s then str_drop (String.length p) s else s.

Definition cut_prefix (p s : string) : option string :=
  if has_prefix p s then Some (str_drop (String.length p) s) else None.

(** [strings.HasSuffix(s, p)]: [len(s) >= len(p) && s[len(s)-len(p):] == p] *)
Definition has_suffix (p s : string) : bool :=
  Nat.leb (String.length p) (String.length s) &&
  String.eqb (str_drop (String.length s - String.length p) s) p.

(** [strings.TrimSuffix(s, p)] *)
Definition trim_suffix (p s : string) : string :=
  if has_suffix p s then str_take (String.length s - String.length p) s else s.

(** [strings.Cut(s, string(c))]: [None] is [found == false] *)
Fixpoint cut (c : ascii) (s : string) : option (string * string) :=
  match s with
  | EmptyString => None
  | String x s' =>
      if Ascii.eqb c x then Some (EmptyString, s')
      else match cut c s' with
           | Some (a, b) => Some (String x a, b)
           | None => None
           end
  end.

(** [strings.Split(s, string(c))] *)
Fixpoint split (c : ascii) (s : string) : list string :=
  match s with
  | EmptyString => [EmptyString]
  | String x s' =>
      if Ascii.eqb c x then EmptyString :: split c s'
      else match split c s' with
           | a :: l => String x a :: l
           | [] => [String x EmptyString]
           end
  end.

(** [strings.Join(parts, string(c))] *)
Fixpoint join (c : ascii) (l : list string) : string :=
  match l with
  | [] => EmptyString
  | [a] => a
  | a :: l => (a +:+ String c (join c l))%string
  end.

(** [strings.LastIndex]-style cut: the text before and after the last [c] *)
Fixpoint cut_last (c : ascii) (s : string) : option (string * string) :=
  match s with
  | EmptyString => None
  | String x s' =>
      match cut_last c s' with
      | Some (a, b) => Some (String x a, b)
      | None => if Ascii.eqb c x then Some (EmptyString, s') else None
      end
  end.

(** [strings.Trim(s, string(c))] for a one-byte cutset *)
Fixpoint trim_left_byte (c : ascii) (s : string) : string :=
  match s with
  | String x s' => if Ascii.eqb c x then trim_left_byte c s' else s
  | EmptyString => EmptyString
  end.

Fixpoint trim_right_byte (c : ascii) (s : string) : string :=
  match s with
  | EmptyString => EmptyString
  | String x s' =>
      match trim_right_byte c s' with
      | EmptyString => if Ascii.eqb c x then EmptyString else String x EmptyString
      | t => String x t
      end
  end.

Definition trim_byte (c : ascii) (s : string) : string :=
  trim_right_byte c (trim_left_byte c s).

(** ** White space: [strings.TrimSpace]

    [unicode.IsSpace] in UTF-8: the ASCII spaces, U+0085, U+00A0, U+1680,
    U+2000..U+200A, U+2028, U+2029, U+202F, U+205F, U+3000. *)
Definition utf8 (l : list Z) : string := string_of_list_ascii (map ascii_of l).

Definition space_encodings : list string :=
  [utf8 [9]; utf8 [10]; utf8 [11]; utf8 [12]; utf8 [13]; utf8 [32];
   utf8 [194; 133]; utf8 [194; 160]; utf8 [225; 154; 128];
   utf8 [226; 128; 128]; utf8 [226; 128; 129]; utf8 [226; 128; 130];
   utf8 [226; 128; 131]; utf8 [226; 128; 132]; utf8 [226; 128; 133];
   utf8 [226; 128; 134]; utf8 [226; 128; 135]; utf8 [226; 128; 136];
   utf8 [226; 128; 137]; utf8 [226; 128; 138]; utf8 [226; 128; 168];
   utf8 [226; 128; 169]; utf8 [226; 128; 175]; utf8 [226; 129; 159];
   utf8 [227; 128; 128]].

(** Every step removes at least one byte, so [len(s)] steps are enough. *)
Fixpoint trim_space_left (fuel : nat) (s : string) : string :=
  match fuel with
  | O => s
  | S fuel =>
      match List.find (fun w => has_prefix w s) space_encodings with
      | Some w => trim_space_left fuel (trim_prefix w s)
      | None => s
      end
  end.

Fixpoint trim_space_right (fuel : nat) (s : string) : string :=
  match fuel with
  | O => s
  | S fuel =>
      match List.find (fun w => has_suffix w s) space_encodings with
      | Some w => trim_space_right fuel (trim_suffix w s)
      | None => s
      end
  end.

Definition trim_space (s : string) : string :=
  trim_space_right (String.length s) (trim_space_left (String.length s) s).

(** ** Letter case

    [strings.ToLower] and [strings.EqualFold] handle an ASCII string byte by
    byte; other strings go through the Unicode tables of the [unicode] package,
    which are data the model does not copy. *)
Class GoUnicode := {
  unicode_to_lower : string -> string;
  unicode_equal_fold : string -> string -> bool;
}.

Definition is_ascii (s : string) : bool := str_all is_ascii_byte s.

Definition to_lower `{GoUnicode} (s : string) : string :=
  if is_ascii s then str_map lower_byte s else unicode_to_lower s.

Definition equal_fold `{GoUnicode} (a b : string) : bool :=
  if is_ascii a && is_ascii b then String.eqb (str_map lower_byte a) (str_map lower_byte b)
  else unicode_equal_fold a b.

(** ** Numbers: [strconv] *)

Definition digit_val (c : ascii) : Z := byte_of c - 48.

(** The value of a digit string, most significant digit first. *)
Fixpoint digits_value (acc : Z) (s : string) : Z :=
  match s with
  | EmptyString => acc
  | String c s => digits_value (acc * 10 + digit_val c) s
  end.

(** [strconv.ParseUint(s, 10, bits)]: base 10, so no sign, no prefix and no
    underscore is accepted; a value over the width is [ErrRange]. *)
Definition parse_uint (bits : Z) (s : string) : option Z :=
  if String.eqb s EmptyString then None
  else if negb (str_all is_digit s) then None
  else let n := digits_value 0 s in
       if n <? 2 ^ bits then Some n else None.

(** Decimal digits of a non-negative integer; [fuel] bounds their number. *)
Fixpoint decimal_digits (fuel : nat) (n : Z) (acc : string) : string :=
  match fuel with
  | O => acc
  | S fuel =>
      let acc := String (ascii_of (48 + n mod 10)) acc in
      if n <? 10 then acc else decimal_digits fuel (n / 10) acc
  end.

(** [strconv.FormatUint(n, 10)]: a 64-bit value has at most 20 digits, and a
    number has no more decimal digits than bits. *)
Definition format_uint (n : Z) : string :=
  decimal_digits (S (Z.to_nat (Z.log2 n))) n EmptyString.

(** [strconv.FormatInt(n, 10)], [strconv.Itoa] *)
Definition format_int (n : Z) : string :=
  if n <? 0 then String "-" (format_uint (- n)) else format_uint n.

(** ** [net.JoinHostPort] and [net.SplitHostPort] *)

Definition join_host_port (host port : string) : string :=
  if contains_byte ":" host
  then ("[" +:+ host +:+ "]:" +:+ port)%string
  else (host +:+ ":" +:+ port)%string.

(** Follows the function's tests in order; the error text is dropped.  With a
    leading bracket the first [']'] must be directly before the last [':']. *)
Definition split_bracketed (rest : string) : option (string * string) :=
  match cut "]" rest with
  | Some (host, String x p) =>
      if negb (Ascii.eqb ":" x) then None
      else if contains_byte ":" p then None
      else if contains_byte "[" rest then None
      else if contains_byte "]" p then None
      else Some (host, p)
  | _ => None
  end.

Definition split_host_port (hostport : string) : option (string * string) :=
  match cut_last ":" hostport, hostport with
  | Some (before, port), String x rest =>
      if Ascii.eqb "[" x then split_bracketed rest
      else if contains_byte ":" before then None
      else if contains_byte "[" hostport then None
      else if contains_byte "]" hostport then None
      else Some (before, port)
  | _, _ => None
  end.

#[global] Arguments format_uint : simpl never.
#[global] Arguments parse_uint : simpl never.
#[global] Arguments digits_value : simpl nomatch.

(** ** Facts about bytes *)

Lemma byte_of_range c : 0 <= byte_of c < 256.
Proof. unfold byte_of. pose proof (N_ascii_bounded c). lia. Qed.

Lemma byte_of_ascii_of z : 0 <= z < 256 -> byte_of (ascii_of z) = z.
Proof. intros H. unfold byte_of, ascii_of. rewrite N_ascii_embedding; lia. Qed.

Lemma ascii_of_byte_of c : ascii_of (byte_of c) = c.
Proof. unfold byte_of, ascii_of. rewrite N2Z.id. apply ascii_N_embedding. Qed.

Example split_host_port_examples :
  map split_host_port ["a.b:1"; "[::1]:8081"; "::1:80"; "a.b"; "[::1]"; "[::1]x:1";
                       "a]:1"; "[a]b]:1"; ":80"; "a:"]%string =
  [Some ("a.b", "1"); Some ("::1", "8081"); None; None; None; None; None; None;
   Some ("", "80"); Some ("a", "")]%string.
Proof. vm_compute. reflexivity. Qed.

Example number_examples :
  map (parse_uint 16) ["0"; "443"; "65535"; "65536"; "+1"; ""; "0080"; "1_0"]%string =
  [Some 0; Some 443; Some 65535; None; None; None; Some 80; None] /\
  map format_int [0; 7; 65535; -12; 18446744073709551615]%Z =
  ["0"; "7"; "65535"; "-12"; "18446744073709551615"]%string.
Proof. vm_compute. split; reflexivity. Qed.

(** ** Facts about [Split], [Join], [Cut] and suffixes *)

Lemma app_string_assoc (a b c : string) : ((a +:+ b) +:+ c = a +:+ (b +:+ c))%string.
Proof. induction a as [|x a IH]; simpl; [reflexivity|by rewrite IH]. Qed.

Lemma app_string_nil_r (a : string) : (a +:+ EmptyString)%string = a.
Proof. induction a as [|x a IH]; simpl; [reflexivity|by rewrite IH]. Qed.

Lemma length_app_string (a b : string) :
  String.length (a +:+ b) = (String.length a + String.length b)%nat.
Proof. induction a as [|x a IH]; simpl; [reflexivity|by rewrite IH]. Qed.

Lemma str_any_app f a b : str_any f (a +:+ b) = str_any f a || str_any f b.
Proof. induction a as [|x a IH]; simpl; [reflexivity|by rewrite IH, orb_assoc]. Qed.

Lemma str_all_app f a b : str_all f (a +:+ b) = str_all f a && str_all f b.
Proof. induction a as [|x a IH]; simpl; [reflexivity|by rewrite IH, andb_assoc]. Qed.

Lemma contains_byte_app c a b :
  contains_byte c (a +:+ b) = contains_byte c a || contains_byte c b.
Proof. apply str_any_app. Qed.

Lemma str_all_cons f c s : str_all f (String c s) = f c && str_all f s.
Proof. reflexivity. Qed.

Lemma contains_byte_cons c x s :
  contains_byte c (String x s) = Ascii.eqb c x || contains_byte c s.
Proof. reflexivity. Qed.

Lemma str_all_not_contains f c s :
  str_all f s = true -> f c = false -> contains_byte c s = false.
Proof.
  intros Hs Hc. induction s as [|x s IH]; [reflexivity|].
  simpl in Hs. bool_to_prop. rewrite contains_byte_cons, IH by assumption.
  destruct (Ascii.eqb_spec c x); [congruence|reflexivity].
Qed.

Lemma split_not_nil c s : split c s <> [].
Proof. destruct s as [|x s]; simpl; [done|]. case_goal; done. Qed.

Lemma split_cons_eq c s : split c (String c s) = EmptyString :: split c s.
Proof. simpl. by rewrite Ascii.eqb_refl. Qed.

Lemma split_cons_ne c x s :
  Ascii.eqb c x = false ->
  exists a l, split c s = a :: l /\ split c (String x s) = String x a :: l.
Proof.
  intros E. simpl. rewrite E. destruct (split c s) as [|a l] eqn:Hs.
  - by apply split_not_nil in Hs.
  - eauto.
Qed.

Lemma join_split c s : join c (split c s) = s.
Proof.
  induction s as [|x s IH]; [reflexivity|].
  destruct (Ascii.eqb c x) eqn:E.
  - apply Ascii.eqb_eq in E as ->. rewrite split_cons_eq.
    destruct (split x s) eqn:Hs; [by apply split_not_nil in Hs|].
    simpl in *. by rewrite IH.
  - destruct (split_cons_ne c x s E) as (a & l & Hs & ->). rewrite Hs in IH.
    destruct l; simpl in *; by rewrite IH.
Qed.

Lemma split_no_sep c s : contains_byte c s = false -> split c s = [s].
Proof.
  induction s as [|x s IH]; intros H; [reflexivity|].
  rewrite contains_byte_cons in H. bool_to_prop.
  destruct (split_cons_ne c x s ltac:(assumption)) as (a & l & Hs & ->).
  rewrite IH in Hs by assumption. congruence.
Qed.

Lemma split_app_sep c a b :
  split c (a +:+ String c b) = split c a ++ split c b.
Proof.
  induction a as [|x a IH]; [apply split_cons_eq|].
  change ((String x a +:+ String c b)%string) with (String x (a +:+ String c b)).
  destruct (Ascii.eqb c x) eqn:E.
  - apply Ascii.eqb_eq in E as <-. by rewrite !split_cons_eq, IH.
  - destruct (split_cons_ne c x (a +:+ String c b)%string E) as (h & l & Hs & ->).
    destruct (split_cons_ne c x a E) as (h' & l' & Hs' & ->).
    rewrite IH, Hs' in Hs. simpl in *. by simplify_eq.
Qed.

Lemma split_parts_no_sep c s : Forall (fun p => contains_byte c p = false) (split c s).
Proof.
  induction s as [|x s IH]; [by repeat constructor|].
  destruct (Ascii.eqb c x) eqn:E.
  - apply Ascii.eqb_eq in E as ->. rewrite split_cons_eq. by constructor.
  - destruct (split_cons_ne c x s E) as (a & l & Hs & ->). rewrite Hs in IH.
    inversion IH; subst. constructor; [|assumption].
    rewrite contains_byte_cons, E. assumption.
Qed.

Lemma split_join c l :
  l <> [] -> Forall (fun p => contains_byte c p = false) l -> split c (join c l) = l.
Proof.
  intros Hl HF. induction l as [|a l IH]; [done|]. inversion HF; subst.
  destruct l as [|b l]; [by apply split_no_sep|].
  change (join c (a :: b :: l)) with ((a +:+ String c (join c (b :: l)))%string).
  rewrite split_app_sep, split_no_sep, IH by done. reflexivity.
Qed.

Lemma length_split c s : Z.of_nat (List.length (split c s)) = count_byte c s + 1.
Proof.
  induction s as [|x s IH]; [reflexivity|].
  simpl count_byte. destruct (Ascii.eqb c x) eqn:E.
  - apply Ascii.eqb_eq in E as ->. rewrite split_cons_eq. simpl List.length. lia.
  - destruct (split_cons_ne c x s E) as (a & l & Hs & ->). rewrite Hs in IH.
    simpl List.length in *. lia.
Qed.

Lemma cut_None c s : cut c s = None <-> contains_byte c s = false.
Proof.
  induction s as [|x s IH]; [done|]. rewrite contains_byte_cons. simpl.
  destruct (Ascii.eqb c x); simpl; [done|].
  destruct (cut c s) as [[a b]|]; [split; [done|intros H; by apply IH in H]|tauto].
Qed.

Lemma cut_app c a b : contains_byte c a = false -> cut c (a +:+ String c b) = Some (a, b).
Proof.
  induction a as [|x a IH]; intros H; simpl.
  - by rewrite Ascii.eqb_refl.
  - rewrite contains_byte_cons in H. bool_to_prop. by rewrite H, IH.
Qed.

Lemma cut_Some c s a b :
  cut c s = Some (a, b) -> s = (a +:+ String c b)%string /\ contains_byte c a = false.
Proof.
  revert a b. induction s as [|x s IH]; intros a b H; simpl in H; [done|].
  destruct (Ascii.eqb c x) eqn:E.
  - apply Ascii.eqb_eq in E as ->. by simplify_eq/=.
  - destruct (cut c s) as [[a' b']|]; [|done]. simplify_eq.
    destruct (IH _ _ eq_refl) as [-> ?]. by rewrite contains_byte_cons, E.
Qed.

Lemma cut_last_None c s : cut_last c s = None <-> contains_byte c s = false.
Proof.
  induction s as [|x s IH]; [done|]. rewrite contains_byte_cons. simpl.
  destruct (cut_last c s) as [[a b]|].
  - split; [done|]. intros H. bool_to_prop. destruct IH as [_ IH].
    by discriminate (IH ltac:(assumption)).
  - destruct IH as [IH _]. rewrite IH by done. by destruct (Ascii.eqb c x).
Qed.

Lemma cut_last_app c a b :
  contains_byte c b = false -> cut_last c (a +:+ String c b) = Some (a, b).
Proof.
  intros H. apply cut_last_None in H. induction a as [|x a IH]; simpl.
  - by rewrite H, Ascii.eqb_refl.
  - by rewrite IH.
Qed.

Lemma str_drop_app a b : str_drop (String.length a) (a +:+ b) = b.
Proof. by induction a. Qed.

Lemma str_take_app a b : str_take (String.length a) (a +:+ b) = a.
Proof. induction a as [|x a IH]; simpl; [by destruct b|by rewrite IH]. Qed.

Lemma str_take_drop n s : (str_take n s +:+ str_drop n s)%string = s.
Proof.
  revert s. induction n as [|n IH]; intros s; [by destruct s|].
  destruct s as [|x s]; simpl; [reflexivity|by rewrite IH].
Qed.

Lemma str_take_app_le n a b :
  (String.length a <= n)%nat -> str_take n (a +:+ b) = (a +:+ str_take (n - String.length a) b)%string.
Proof.
  revert n. induction a as [|x a IH]; intros n Hn; [by rewrite Nat.sub_0_r|].
  destruct n as [|n]; [cbn in Hn; lia|]. cbn in *. by rewrite IH by lia.
Qed.

Lemma str_drop_app_le n a b :
  (String.length a <= n)%nat -> str_drop n (a +:+ b) = str_drop (n - String.length a) b.
Proof.
  revert n. induction a as [|x a IH]; intros n Hn; [by rewrite Nat.sub_0_r|].
  destruct n as [|n]; [cbn in Hn; lia|]. cbn in *. by rewrite IH by lia.
Qed.

Lemma has_suffix_spec p s : has_suffix p s = true <-> exists a, s = (a +:+ p)%string.
Proof.
  unfold has_suffix. rewrite andb_true_iff, Nat.leb_le, String.eqb_eq. split.
  - intros [_ H]. exists (str_take (String.length s - String.length p) s).
    pose proof (str_take_drop (String.length s - String.length p) s) as E.
    rewrite H in E. by symmetry.
  - intros [a ->]. rewrite length_app_string. split; [lia|].
    replace (_ - _)%nat with (String.length a) by lia. apply str_drop_app.
Qed.

Lemma trim_suffix_app a p : trim_suffix p (a +:+ p) = a.
Proof.
  unfold trim_suffix. rewrite (proj2 (has_suffix_spec p (a +:+ p)%string)) by eauto.
  rewrite length_app_string. replace (_ - _)%nat with (String.length a) by lia.
  apply str_take_app.
Qed.

Lemma trim_suffix_none p s : has_suffix p s = false -> trim_suffix p s = s.
Proof. unfold trim_suffix. by intros ->. Qed.

Create Rewrite HintDb go_string.
#[export] Hint Rewrite app_string_assoc app_string_nil_r length_app_string
  str_any_app str_all_app contains_byte_app : go_string.

(** ** Facts about decimal numbers *)

Lemma digit_byte n : 0 <= n < 10 ->
  is_digit (ascii_of (48 + n)) = true /\ digit_val (ascii_of (48 + n)) = n.
Proof.
  intros H. unfold is_digit, digit_val. rewrite byte_of_ascii_of by lia.
  rewrite andb_true_iff, !Z.leb_le. lia.
Qed.

Lemma decimal_digits_value fuel n acc :
  0 <= n < 10 ^ Z.of_nat fuel ->
  digits_value 0 (decimal_digits fuel n acc) = digits_value n acc.
Proof.
  revert n acc. induction fuel as [|fuel IH]; intros n acc H.
  { change (10 ^ Z.of_nat 0) with 1 in H. simpl. f_equal. lia. }
  rewrite Nat2Z.inj_succ, Z.pow_succ_r in H by lia. simpl.
  pose proof (Z.mod_pos_bound n 10 ltac:(lia)) as Hm.
  destruct (n <? 10) eqn:E; bool_to_prop.
  - simpl. rewrite (proj2 (digit_byte _ Hm)), Z.mod_small by lia. f_equal.
  - rewrite IH.
    + simpl. rewrite (proj2 (digit_byte _ Hm)). f_equal.
      pose proof (Z.div_mod n 10). lia.
    + split; [apply Z.div_pos; lia|]. apply Z.div_lt_upper_bound; lia.
Qed.

Lemma decimal_digits_all fuel n acc :
  str_all is_digit acc = true -> str_all is_digit (decimal_digits fuel n acc) = true.
Proof.
  revert n acc. induction fuel as [|fuel IH]; intros n acc H; simpl; [done|].
  pose proof (Z.mod_pos_bound n 10 ltac:(lia)) as Hm.
  assert (str_all is_digit (String (ascii_of (48 + n mod 10)) acc) = true) as Hs.
  { simpl. by rewrite (proj1 (digit_byte _ Hm)). }
  destruct (n <? 10); [exact Hs|by apply IH].
Qed.

Lemma decimal_digits_not_empty fuel n acc :
  acc <> EmptyString -> decimal_digits fuel n acc <> EmptyString.
Proof.
  revert n acc. induction fuel as [|fuel IH]; intros n acc H; simpl; [done|].
  destruct (n <? 10); [done|by apply IH].
Qed.

Lemma format_uint_digits n : str_all is_digit (format_uint n) = true.
Proof. by apply decimal_digits_all. Qed.

Lemma format_uint_not_empty n : format_uint n <> EmptyString.
Proof.
  unfold format_uint. cbn [decimal_digits]. destruct (n <? 10); [done|].
  by apply decimal_digits_not_empty.
Qed.

Lemma format_uint_value n : 0 <= n -> digits_value 0 (format_uint n) = n.
Proof.
  intros H. unfold format_uint. rewrite decimal_digits_value; [reflexivity|].
  split; [done|]. rewrite Nat2Z.inj_succ, Z2Nat.id by apply Z.log2_nonneg.
  destruct (Z.eq_dec n 0) as [->|Hn]; [reflexivity|].
  eapply Z.lt_le_trans; [apply (Z.log2_spec n); lia|].
  apply Z.pow_le_mono_l. lia.
Qed.

Lemma parse_uint_format bits n :
  0 <= n < 2 ^ bits -> parse_uint bits (format_uint n) = Some n.
Proof.
  intros H. unfold parse_uint.
  rewrite (proj2 (String.eqb_neq _ _) (format_uint_not_empty n)), format_uint_digits.
  simpl. rewrite format_uint_value by lia. by rewrite (proj2 (Z.ltb_lt _ _)) by lia.
Qed.

Lemma digits_value_nonneg a s : 0 <= a -> str_all is_digit s = true -> 0 <= digits_value a s.
Proof.
  revert a. induction s as [|c s IH]; intros a Ha Hs; simpl in *; [done|].
  unfold is_digit in Hs. bool_to_prop. apply IH; [unfold digit_val; lia|done].
Qed.

Lemma parse_uint_range bits s n : parse_uint bits s = Some n -> 0 <= n < 2 ^ bits.
Proof.
  unfold parse_uint. intros H. case_hyp H. bool_to_prop.
  split; [by apply digits_value_nonneg|done].
Qed.

Lemma parse_uint_digits bits s n :
  parse_uint bits s = Some n -> s <> EmptyString /\ str_all is_digit s = true.
Proof. unfold parse_uint. intros H. case_hyp H. by bool_to_prop. Qed.

Lemma format_int_nonneg n : 0 <= n -> format_int n = format_uint n.
Proof. intros H. unfold format_int. by rewrite (proj2 (Z.ltb_ge _ _)) by lia. Qed.

(** ** [SplitHostPort] undoes [JoinHostPort] *)

Definition no_brackets (s : string) : bool :=
  negb (contains_byte "[" s) && negb (contains_byte "]" s).

Lemma split_join_plain host port :
  contains_byte ":" host = false -> no_brackets host = true ->
  no_brackets port = true -> contains_byte ":" port = false ->
  split_host_port (host +:+ ":" +:+ port) = Some (host, port).
Proof.
  unfold no_brackets. intros. bool_to_prop.
  unfold split_host_port. change (":" +:+ port)%string with (String ":" port).
  rewrite cut_last_app by done.
  destruct host as [|x host]; simpl; rewrite ?contains_byte_cons in *; bool_to_prop;
    autorewrite with go_string; rewrite ?contains_byte_cons;
    repeat match goal with H : ?b = false |- context [?b] => rewrite H end; done.
Qed.

Lemma split_join_bracketed host port :
  no_brackets host = true -> no_brackets port = true -> contains_byte ":" port = false ->
  split_host_port ("[" +:+ host +:+ "]:" +:+ port) = Some (host, port).
Proof.
  unfold no_brackets. intros. bool_to_prop. unfold split_host_port.
  assert (cut_last ":" ("[" +:+ host +:+ "]:" +:+ port)
          = Some ("[" +:+ host +:+ "]", port))%string as ->.
  { rewrite <- (cut_last_app ":") by done. f_equal. simpl. by rewrite app_string_assoc. }
  simpl. unfold split_bracketed.
  change ("]:" +:+ port)%string with (String "]" (String ":" port)).
  rewrite cut_app by done. simpl.
  autorewrite with go_string. rewrite ?contains_byte_cons.
  repeat match goal with H : ?b = false |- context [?b] => rewrite H end. done.
Qed.

Lemma split_join_host_port host port :
  no_brackets host = true -> no_brackets port = true -> contains_byte ":" port = false ->
  split_host_port (join_host_port host port) = Some (host, port).
Proof.
  intros. unfold join_host_port. destruct (contains_byte ":" host) eqn:E.
  - by apply split_join_bracketed.
  - by apply split_join_plain.
Qed.

(** ** A concrete Unicode table, for the concrete instances: ASCII only *)

Definition ascii_unicode : GoUnicode :=
  {| unicode_to_lower := str_map lower_byte;
     unicode_equal_fold := fun a b => String.eqb (str_map lower_byte a) (str_map lower_byte b) |}.
