(* ===== verification/Netip.v ===== *)
(** * IP addresses: the [net/netip] types and functions the source uses

    [Addr] is Go's [netip.Addr]: the zero value, an IPv4 address as a 32-bit
    integer, or an IPv6 address as a 128-bit integer with a zone.  [Prefix] is
    [netip.Prefix]; an invalid prefix has [p_bits = -1]. *)

From S2P Require Import Prelude GoStrings.

Inductive Addr : Type :=
| AddrZero
| Addr4 (v : Z)
| Addr6 (v : Z) (zone : string).

#[export] Instance Addr_eq_dec : EqDecision Addr.
Proof. solve_decision. Defined.

#[export] Instance Addr_countable : Countable Addr.
Proof.
  refine (inj_countable'
    (fun a => match a with
              | AddrZero => inl tt
              | Addr4 v => inr (inl v)
              | Addr6 v z => inr (inr (v, z)) end)
    (fun x => match x with
              | inl _ => AddrZero
              | inr (inl v) => Addr4 v
              | inr (inr (v, z)) => Addr6 v z end) _).
  by intros [].
Defined.

Definition addr_eqb (a b : Addr) : bool := bool_decide (a = b).

(** ** Accessors *)

Definition IsValid (a : Addr) : bool := match a with AddrZero => false | _ => true end.
Definition Is4 (a : Addr) : bool := match a with Addr4 _ => true | _ => false end.
Definition Is6 (a : Addr) : bool := match a with Addr6 _ _ => true | _ => false end.

(** IPv4-mapped IPv6: the high 64 bits are zero and bits 32..63 are 0xffff. *)
Definition Is4In6 (a : Addr) : bool :=
  match a with Addr6 v _ => Z.shiftr v 32 =? 65535 | _ => false end.

Definition Zone (a : Addr) : string :=
  match a with Addr6 _ z => z | _ => EmptyString end.

Definition Unmap (a : Addr) : Addr :=
  match a with
  | Addr6 v _ => if Is4In6 a then Addr4 (v mod 2 ^ 32) else a
  | _ => a
  end.

(** [binary.BigEndian] on a slice. *)
Definition be_value (bs : list Z) : Z := fold_left (fun v b => Z.lor (Z.shiftl v 8) b) bs 0.

Definition AddrFrom4 (bs : list Z) : Addr := Addr4 (be_value bs).
Definition AddrFrom16 (bs : list Z) : Addr := Addr6 (be_value bs) EmptyString.

Definition AddrFromSlice (bs : list Z) : Addr * bool :=
  match List.length bs with
  | 4%nat => (AddrFrom4 bs, true)
  | 16%nat => (AddrFrom16 bs, true)
  | _ => (AddrZero, false)
  end.

Definition BitLen (a : Addr) : Z :=
  match a with AddrZero => 0 | Addr4 _ => 32 | Addr6 _ _ => 128 end.

Definition bits_of (a : Addr) : Z :=
  match a with AddrZero => 0 | Addr4 v => v | Addr6 v _ => v end.

Definition WithZone (a : Addr) (z : string) : Addr :=
  match a with Addr6 v _ => Addr6 v z | _ => a end.

Definition withoutZone (a : Addr) : Addr := WithZone a EmptyString.

(** [Next]: the zero [Addr] after the last address of a family. *)
Definition Next (a : Addr) : Addr :=
  match a with
  | AddrZero => AddrZero
  | Addr4 v => if v + 1 =? 2 ^ 32 then AddrZero else Addr4 (v + 1)
  | Addr6 v z => if v + 1 =? 2 ^ 128 then AddrZero else Addr6 (v + 1) z
  end.

(** ** Classifiers *)

(** The [i]-th byte of an IPv4 address. *)
Definition v4_byte (v i : Z) : Z := Z.land (Z.shiftr v (8 * (3 - i))) 255.
(** The [i]-th 16-bit group of an IPv6 address. *)
Definition v6_u16 (v i : Z) : Z := Z.land (Z.shiftr v (16 * (7 - i))) 65535.

Definition IPv6Unspecified : Addr := Addr6 0 EmptyString.

Definition IsLoopback (a : Addr) : bool :=
  match Unmap a with
  | Addr4 v => v4_byte v 0 =? 127
  | Addr6 v _ => v =? 1
  | AddrZero => false
  end.

Definition IsMulticast (a : Addr) : bool :=
  match Unmap a with
  | Addr4 v => Z.land (v4_byte v 0) 240 =? 224
  | Addr6 v _ => Z.shiftr v 120 =? 255
  | AddrZero => false
  end.

Definition IsLinkLocalUnicast (a : Addr) : bool :=
  match Unmap a with
  | Addr4 v => (v4_byte v 0 =? 169) && (v4_byte v 1 =? 254)
  | Addr6 v _ => Z.land (v6_u16 v 0) 65472 =? 65152
  | AddrZero => false
  end.

Definition IsPrivate (a : Addr) : bool :=
  match Unmap a with
  | Addr4 v =>
      (v4_byte v 0 =? 10)
      || ((v4_byte v 0 =? 172) && (Z.land (v4_byte v 1) 240 =? 16))
      || ((v4_byte v 0 =? 192) && (v4_byte v 1 =? 168))
  | Addr6 v _ => Z.land (Z.shiftr v 120) 254 =? 252
  | AddrZero => false
  end.

Definition IsGlobalUnicast (a : Addr) : bool :=
  let a := Unmap a in
  match a with
  | AddrZero => false
  | Addr4 v =>
      if (v =? 0) || (v =? 4294967295) then false
      else negb (IsLoopback a) && negb (IsMulticast a) && negb (IsLinkLocalUnicast a)
  | Addr6 v _ =>
      negb (addr_eqb a IPv6Unspecified) && negb (IsLoopback a)
      && negb (IsMulticast a) && negb (IsLinkLocalUnicast a)
  end.

(** ** Prefixes *)

Record Prefix := mkPrefix { p_addr : Addr; p_bits : Z }.

#[export] Instance Prefix_eq_dec : EqDecision Prefix.
Proof. solve_decision. Defined.

Definition PrefixZero : Prefix := mkPrefix AddrZero (-1).

Definition PrefixIsValid (p : Prefix) : bool := 0 <=? p_bits p.

Definition PrefixFrom (a : Addr) (bits : Z) : Prefix :=
  if IsValid a && (0 <=? bits) && (bits <=? BitLen a)
  then mkPrefix (withoutZone a) bits
  else mkPrefix (withoutZone a) (-1).

Definition mask_bits (width bits v : Z) : Z :=
  Z.shiftl (Z.shiftr v (width - bits)) (width - bits).

(** [Masked]: keeps the high [Bits()] bits; an invalid prefix gives the zero one. *)
Definition Masked (p : Prefix) : Prefix :=
  if negb (PrefixIsValid p) then PrefixZero
  else match p_addr p with
       | AddrZero => PrefixZero
       | Addr4 v => mkPrefix (Addr4 (mask_bits 32 (p_bits p) v)) (p_bits p)
       | Addr6 v _ => mkPrefix (Addr6 (mask_bits 128 (p_bits p) v) EmptyString) (p_bits p)
       end.

(** [Contains]: an address with a zone is in no prefix, and an IPv4 address is
    in no IPv6 prefix, nor the converse. *)
Definition Contains (p : Prefix) (a : Addr) : bool :=
  if negb (PrefixIsValid p) then false
  else match p_addr p, a with
       | Addr4 b, Addr4 v => Z.shiftr (Z.lxor v b) (32 - p_bits p) =? 0
       | Addr6 b _, Addr6 v z =>
           String.eqb z EmptyString && (Z.shiftr (Z.lxor v b) (128 - p_bits p) =? 0)
       | _, _ => false
       end.

(** ** Parsing: [ParseAddr], [ParsePrefix] *)

(** One decimal octet: at least one digit, no leading zero, at most 255. *)
Definition parse_octet (s : string) : option Z :=
  match s with
  | EmptyString => None
  | String c rest =>
      if negb (str_all is_digit s) then None
      else if (digit_val c =? 0) && negb (String.eqb rest EmptyString) then None
      else let n := digits_value 0 s in if n <=? 255 then Some n else None
  end.

(** [parseIPv4Fields]: exactly four dot-separated octets. *)
Definition parse_v4 (s : string) : option Z :=
  match split "." s with
  | [a; b; c; d] =>
      match parse_octet a, parse_octet b, parse_octet c, parse_octet d with
      | Some a, Some b, Some c, Some d => Some (((a * 256 + b) * 256 + c) * 256 + d)
      | _, _, _, _ => None
      end
  | _ => None
  end.

Definition hex_val (c : ascii) : option Z :=
  let b := byte_of c in
  if (48 <=? b) && (b <=? 57) then Some (b - 48)
  else if (97 <=? b) && (b <=? 102) then Some (b - 87)
  else if (65 <=? b) && (b <=? 70) then Some (b - 55)
  else None.

(** The leading hex digits of a group: their value, their number, and the rest. *)
Fixpoint take_hex (s : string) (acc : Z) (n : nat) : Z * nat * string :=
  match s with
  | EmptyString => (acc, n, s)
  | String c s' =>
      match hex_val c with
      | Some d => take_hex s' (acc * 16 + d) (S n)
      | None => (acc, n, s)
      end
  end.

(** The loop of [parseIPv6]: [groups] are the 16-bit groups read so far, latest
    first, and [ell] is the number of groups that precede the ["::"].  At most
    eight groups are read, so [fuel = 8] never runs out before they are. *)
Fixpoint parse_v6_loop (fuel : nat) (s : string) (groups : list Z) (ell : option nat)
  : option (list Z * option nat) :=
  match fuel with
  | O => if String.eqb s EmptyString then Some (groups, ell) else None
  | S fuel =>
      let '(acc, n, rest) := take_hex s 0 0 in
      if (4 <? n)%nat then None
      else if (n =? 0)%nat then None
      else match rest with
      | EmptyString => Some (acc :: groups, ell)
      | String x rest' =>
          if Ascii.eqb "." x then
            if bool_decide (ell = None) && negb (List.length groups =? 6)%nat then None
            else if (6 <? List.length groups)%nat then None
            else match parse_v4 s with
                 | Some v => Some (v mod 65536 :: v / 65536 :: groups, ell)
                 | None => None
                 end
          else if negb (Ascii.eqb ":" x) then None
          else match rest' with
          | EmptyString => None
          | String y rest'' =>
              if Ascii.eqb ":" y then
                match ell with
                | Some _ => None
                | None =>
                    let ell := Some (S (List.length groups)) in
                    match rest'' with
                    | EmptyString => Some (acc :: groups, ell)
                    | _ => parse_v6_loop fuel rest'' (acc :: groups) ell
                    end
                end
              else parse_v6_loop fuel rest' (acc :: groups) ell
          end
      end
  end.

Definition groups_value (l : list Z) : Z := fold_left (fun acc g => acc * 65536 + g) l 0.

(** Expand the ellipsis to the missing groups, at least one. *)
Definition finish_v6 (r : option (list Z * option nat)) : option Z :=
  match r with
  | None => None
  | Some (groups, ell) =>
      let l := rev groups in
      let n := (8 - List.length l)%nat in
      match n, ell with
      | O, None => Some (groups_value l)
      | O, Some _ => None
      | _, None => None
      | _, Some k => Some (groups_value (take k l ++ replicate n 0 ++ drop k l))
      end
  end.

Definition parse_v6_body (s : string) : option Z :=
  match s with
  | String a (String b s') =>
      if Ascii.eqb ":" a && Ascii.eqb ":" b then
        match s' with
        | EmptyString => Some 0
        | _ => finish_v6 (parse_v6_loop 8 s' [] (Some O))
        end
      else finish_v6 (parse_v6_loop 8 s [] None)
  | _ => finish_v6 (parse_v6_loop 8 s [] None)
  end.

(** [parseIPv6]: an optional non-empty zone after the first ['%']. *)
Definition parse_v6 (s : string) : option Addr :=
  match cut "%" s with
  | None => (fun v => Addr6 v EmptyString) <$> parse_v6_body s
  | Some (body, zone) =>
      if String.eqb zone EmptyString then None
      else (fun v => Addr6 v zone) <$> parse_v6_body body
  end.

(** [ParseAddr] dispatches on the first ['.'], [':'] or ['%']. *)
Fixpoint parse_addr_scan (rest s : string) : option Addr :=
  match rest with
  | EmptyString => None
  | String c rest =>
      if Ascii.eqb "." c then Addr4 <$> parse_v4 s
      else if Ascii.eqb ":" c then parse_v6 s
      else if Ascii.eqb "%" c then None
      else parse_addr_scan rest s
  end.

Definition ParseAddr (s : string) : option Addr := parse_addr_scan s s.

(** [ParsePrefix]: an address without a zone, a slash, and a decimal length with
    no sign and no leading zero, within the address width. *)
Definition ParsePrefix (s : string) : option Prefix :=
  match cut_last "/" s with
  | None => None
  | Some (ip, bits) =>
      match ParseAddr ip with
      | None => None
      | Some a =>
          if negb (String.eqb (Zone a) EmptyString) then None
          else match bits with
          | EmptyString => None
          | String c rest =>
              if negb (str_all is_digit bits) then None
              else if negb (String.eqb rest EmptyString) && (digit_val c =? 0) then None
              else let n := digits_value 0 bits in
                   if n <=? BitLen a then Some (PrefixFrom a n) else None
          end
      end
  end.

(** ** Printing: [Addr.String] *)

Definition hex_digit (d : Z) : ascii :=
  if d <? 10 then ascii_of (48 + d) else ascii_of (87 + d).

(** [appendHex] of a 16-bit group: lower case, no leading zeros. *)
Definition hex16 (g : Z) : string :=
  let d3 := Z.shiftr g 12 in
  let d2 := Z.land (Z.shiftr g 8) 15 in
  let d1 := Z.land (Z.shiftr g 4) 15 in
  let d0 := Z.land g 15 in
  let s0 := String (hex_digit d0) EmptyString in
  let s1 := String (hex_digit d1) s0 in
  let s2 := String (hex_digit d2) s1 in
  if 4096 <=? g then String (hex_digit d3) s2
  else if 256 <=? g then s2
  else if 16 <=? g then s1
  else s0.

Definition string4 (v : Z) : string :=
  join "." (map (fun i => format_uint (v4_byte v i)) [0; 1; 2; 3]).

Definition groups_of (v : Z) : list Z := map (v6_u16 v) [0; 1; 2; 3; 4; 5; 6; 7].

(** Length of the run of zero groups at the head of a list. *)
Fixpoint zero_run (l : list Z) : nat :=
  match l with g :: l => if g =? 0 then S (zero_run l) else O | [] => O end.

(** The first longest run of at least two zero groups: [(start, length)]. *)
Fixpoint longest_zero_run (i : nat) (l : list Z) (best : nat * nat) : nat * nat :=
  match l with
  | [] => best
  | _ :: l' =>
      let n := zero_run l in
      let best := if (2 <=? n)%nat && (snd best <? n)%nat then (i, n) else best in
      longest_zero_run (S i) l' best
  end.

Definition string6_body (v : Z) : string :=
  let l := groups_of v in
  let '(start, n) := longest_zero_run 0 l (O, O) in
  if (n =? 0)%nat then join ":" (map hex16 l)
  else (join ":" (map hex16 (take start l)) +:+ "::"
        +:+ join ":" (map hex16 (drop (start + n) l)))%string.

Definition with_zone_text (s z : string) : string :=
  if String.eqb z EmptyString then s else (s +:+ "%" +:+ z)%string.

Definition addr_string (a : Addr) : string :=
  match a with
  | AddrZero => "invalid IP"
  | Addr4 v => string4 v
  | Addr6 v z =>
      if Is4In6 a then with_zone_text ("::ffff:" +:+ string4 (v mod 2 ^ 32)) z
      else with_zone_text (string6_body v) z
  end.

Example parse_examples :
  map ParseAddr ["1.2.3.4"; "01.2.3.4"; "1.2.3"; "1.2.3.256"; "::"; "::1"; "1::"; "fe80::1%eth0";
                 "fe80::1%"; "::ffff:1.2.3.4"; "1:2:3:4:5:6:7:8"; "1:2:3:4:5:6:7::"; "::1:2:3:4:5:6:7:8";
                 "1:2:3:4:5:6:1.2.3.4"; "1:2"; "12345::"; "1:::2"; "localhost"; ""]%string =
  [Some (Addr4 16909060); None; None; None; Some (Addr6 0 ""); Some (Addr6 1 "");
   Some (Addr6 (2 ^ 112) ""); Some (Addr6 (65152 * 2 ^ 112 + 1) "eth0"); None;
   Some (Addr6 (65535 * 2 ^ 32 + 16909060) "");
   Some (Addr6 5192455318486707404433266433261576 "");
   Some (Addr6 5192455318486707404433266433261568 ""); None;
   Some (Addr6 5192455318486707404433266449711876 ""); None; None; None; None; None]%string.
Proof. vm_compute. reflexivity. Qed.

Example print_examples :
  map (fun s => addr_string <$> ParseAddr s)
      ["1.2.3.40"; "::"; "::1"; "2001:DB8::1"; "2001:db8:0:0:1:0:0:1"; "1:0:2:3:4:5:6:7";
       "::ffff:1.2.3.4"; "fe80::1%eth0"; "1:2:3:4:5:6:0:0"]%string =
  map Some ["1.2.3.40"; "::"; "::1"; "2001:db8::1"; "2001:db8::1:0:0:1"; "1:0:2:3:4:5:6:7";
       "::ffff:1.2.3.4"; "fe80::1%eth0"; "1:2:3:4:5:6::"]%string.
Proof. vm_compute. reflexivity. Qed.

Example prefix_examples :
  map ParsePrefix ["10.0.0.0/8"; "10.0.0.0/08"; "10.0.0.0/33"; "::/0"; "fe80::%a/10"; "1.2.3.4"]%string =
  [Some (mkPrefix (Addr4 167772160) 8); None; None; Some (mkPrefix (Addr6 0 "") 0); None; None]%string.
Proof. vm_compute. reflexivity. Qed.

#[global] Arguments v4_byte : simpl never.
#[global] Arguments v6_u16 : simpl never.
#[global] Arguments mask_bits : simpl never.
#[global] Arguments Is4In6 : simpl never.
#[global] Arguments Unmap : simpl never.

(** ** Well-formed addresses and prefixes *)

Definition addr_wf (a : Addr) : Prop :=
  match a with
  | AddrZero => True
  | Addr4 v => 0 <= v < 2 ^ 32
  | Addr6 v _ => 0 <= v < 2 ^ 128
  end.

(** A valid prefix: an address without a zone and a length within its width. *)
Definition prefix_wf (p : Prefix) : Prop :=
  addr_wf (p_addr p) /\ IsValid (p_addr p) = true /\ Zone (p_addr p) = EmptyString /\
  0 <= p_bits p <= BitLen (p_addr p).

(** A prefix whose host bits are zero: what [Masked] returns. *)
Definition prefix_masked (p : Prefix) : Prop :=
  bits_of (p_addr p) mod 2 ^ (BitLen (p_addr p) - p_bits p) = 0.

(** The addresses of a masked prefix are one aligned block. *)
Definition prefix_size (p : Prefix) : Z := 2 ^ (BitLen (p_addr p) - p_bits p).

Definition in_block (p : Prefix) (a : Addr) : bool :=
  Bool.eqb (Is4 (p_addr p)) (Is4 a) && IsValid a && String.eqb (Zone a) EmptyString
  && (bits_of (p_addr p) <=? bits_of a) && (bits_of a <? bits_of (p_addr p) + prefix_size p).

Lemma Contains_in_block p a :
  prefix_wf p -> prefix_masked p -> Contains p a = in_block p a.
Proof.
  intros (Hw & Hv & Hz & Hb) Hm. destruct p as [pa pb]. simpl in *.
  unfold Contains, in_block, PrefixIsValid, prefix_masked, prefix_size in *. simpl in *.
  rewrite (proj2 (Z.leb_le 0 pb)) by lia. simpl.
  destruct pa as [|b|b bz], a as [|v|v z]; simpl in *; try done.
  - rewrite shiftr_lxor_zero, shiftr_eq_block by (lia || done). done.
  - rewrite shiftr_lxor_zero, shiftr_eq_block by (lia || done).
    by destruct (String.eqb z EmptyString).
Qed.

Lemma Contains_spec p a :
  prefix_wf p -> prefix_masked p ->
  Contains p a = true <->
  Is4 (p_addr p) = Is4 a /\ IsValid a = true /\ Zone a = EmptyString /\
  bits_of (p_addr p) <= bits_of a < bits_of (p_addr p) + prefix_size p.
Proof.
  intros Hw Hm. rewrite Contains_in_block by done. unfold in_block.
  rewrite !andb_true_iff, Bool.eqb_true_iff, String.eqb_eq, Z.leb_le, Z.ltb_lt. tauto.
Qed.

Lemma mask_bits_spec w n v :
  0 <= n <= w -> 0 <= v ->
  mask_bits w n v = v - v mod 2 ^ (w - n) /\ mask_bits w n v mod 2 ^ (w - n) = 0 /\
  0 <= mask_bits w n v <= v /\
  Z.shiftr (mask_bits w n v) (w - n) = Z.shiftr v (w - n).
Proof.
  intros Hn Hv. unfold mask_bits.
  rewrite Z.shiftl_mul_pow2, !Z.shiftr_div_pow2 by lia.
  assert (0 < 2 ^ (w - n)) by (apply Z.pow_pos_nonneg; lia).
  pose proof (Z.div_mod v (2 ^ (w - n)) ltac:(lia)).
  pose proof (Z.mod_pos_bound v (2 ^ (w - n)) ltac:(lia)).
  pose proof (Z.div_pos v (2 ^ (w - n)) ltac:(lia) ltac:(lia)).
  rewrite Z.mod_mul, Z.div_mul by lia. repeat split; nia.
Qed.

Lemma Masked_wf p : prefix_wf p -> prefix_wf (Masked p) /\ prefix_masked (Masked p).
Proof.
  intros (Hw & Hv & Hz & Hb). destruct p as [pa pb].
  unfold Masked, prefix_wf, prefix_masked, PrefixIsValid. simpl in *.
  rewrite (proj2 (Z.leb_le 0 pb)) by lia. simpl.
  destruct pa as [|v|v z]; simpl in *; [done| |].
  - destruct (mask_bits_spec 32 pb v) as (_ & ? & ? & _); [lia..|]. repeat split; lia || done.
  - destruct (mask_bits_spec 128 pb v) as (_ & ? & ? & _); [lia..|]. repeat split; lia || done.
Qed.

Lemma Masked_Contains p a : prefix_wf p -> Contains (Masked p) a = Contains p a.
Proof.
  intros (Hw & Hv & Hz & Hb). destruct p as [pa pb].
  unfold Masked, Contains, PrefixIsValid. simpl in *.
  rewrite (proj2 (Z.leb_le 0 pb)) by lia. simpl.
  destruct pa as [|b|b bz], a as [|v|v z]; simpl in *;
    rewrite ?(proj2 (Z.leb_le 0 pb)) by lia; simpl; try done.
  - rewrite !shiftr_lxor_zero by lia.
    by rewrite (proj2 (proj2 (proj2 (mask_bits_spec 32 pb b ltac:(lia) ltac:(lia))))).
  - rewrite !shiftr_lxor_zero by lia.
    by rewrite (proj2 (proj2 (proj2 (mask_bits_spec 128 pb b ltac:(lia) ltac:(lia))))).
Qed.

Lemma PrefixFrom_wf a n :
  addr_wf a -> IsValid a = true -> 0 <= n <= BitLen a -> prefix_wf (PrefixFrom a n).
Proof.
  intros Hw Hv Hn. unfold PrefixFrom, prefix_wf. rewrite Hv.
  rewrite (proj2 (Z.leb_le 0 n)), (proj2 (Z.leb_le n (BitLen a))) by lia. simpl.
  destruct a; simpl in *; repeat split; try done; lia.
Qed.

(** A host prefix contains its own address and nothing else. *)
Lemma PrefixFrom_host a b :
  addr_wf a -> IsValid a = true -> Zone a = EmptyString ->
  Contains (PrefixFrom a (BitLen a)) b = true <-> b = a.
Proof.
  intros Hw Hv Hz. unfold PrefixFrom, Contains, PrefixIsValid. rewrite Hv.
  rewrite Z.leb_refl. rewrite (proj2 (Z.leb_le 0 (BitLen a))) by (by destruct a). simpl.
  destruct a as [|v|v z]; simpl in *; [done| |]; subst;
    destruct b as [|w|w y]; simpl; try (split; discriminate);
    rewrite ?shiftr_lxor_zero by lia; rewrite ?Z.sub_diag, ?Z.shiftr_0_r.
  - rewrite Z.eqb_eq. split; [by intros ->|by intros [= ->]].
  - rewrite andb_true_iff, String.eqb_eq, Z.eqb_eq.
    split; [by intros [-> ->]|by intros [= -> ->]].
Qed.

(** ** [Unmap] *)

Lemma Unmap_cases a :
  (Is4In6 a = false /\ Unmap a = a) \/
  (exists v z, a = Addr6 v z /\ Is4In6 a = true /\ Unmap a = Addr4 (v mod 2 ^ 32)).
Proof.
  unfold Unmap. destruct a as [|v|v z]; [by left..|].
  destruct (Is4In6 (Addr6 v z)) eqn:E; [right; eauto|by left].
Qed.

Lemma Unmap_not_mapped a : Is4In6 (Unmap a) = false.
Proof. destruct (Unmap_cases a) as [[H ->]|(v & z & _ & _ & ->)]; done. Qed.

Lemma Unmap_id a : Is4In6 a = false -> Unmap a = a.
Proof. destruct (Unmap_cases a) as [[H ->]|(v & z & _ & H & _)]; [done|by rewrite H]. Qed.

Lemma Unmap_idemp a : Unmap (Unmap a) = Unmap a.
Proof. apply Unmap_id, Unmap_not_mapped. Qed.

Lemma Unmap_wf a : addr_wf a -> addr_wf (Unmap a).
Proof.
  destruct (Unmap_cases a) as [[H ->]|(v & z & -> & _ & ->)]; [done|].
  intros H. unfold addr_wf. apply Z.mod_pos_bound. lia.
Qed.

Lemma Unmap_valid a : IsValid (Unmap a) = IsValid a.
Proof. by destruct (Unmap_cases a) as [[H ->]|(v & z & -> & _ & ->)]. Qed.

Lemma Unmap_zone a : Zone a = EmptyString -> Zone (Unmap a) = EmptyString.
Proof. by destruct (Unmap_cases a) as [[H ->]|(v & z & -> & _ & ->)]. Qed.

Lemma IsValid_bitlen a : IsValid a = true -> 0 < BitLen a.
Proof. by destruct a. Qed.

Create HintDb netip.
#[export] Hint Resolve Unmap_wf Unmap_not_mapped Unmap_zone PrefixFrom_wf : netip.

(** ** Parsed addresses are well formed *)

Lemma parse_octet_range s n : parse_octet s = Some n -> 0 <= n <= 255.
Proof.
  unfold parse_octet. intros H. case_hyp H. bool_to_prop.
  split; [|done]. by apply digits_value_nonneg.
Qed.

Lemma parse_v4_range s v : parse_v4 s = Some v -> 0 <= v < 2 ^ 32.
Proof.
  unfold parse_v4. intros H. case_hyp H.
  repeat match goal with E : parse_octet _ = Some _ |- _ => apply parse_octet_range in E end.
  lia.
Qed.

Lemma hex_val_range c d : hex_val c = Some d -> 0 <= d < 16.
Proof. unfold hex_val. intros H. case_hyp H; bool_to_prop; lia. Qed.

Lemma take_hex_range s acc n acc' n' rest :
  take_hex s acc n = (acc', n', rest) ->
  0 <= acc < 16 ^ Z.of_nat n -> 0 <= acc' < 16 ^ Z.of_nat n'.
Proof.
  revert acc n. induction s as [|c s IH]; intros acc n H Ha; simpl in H; [by simplify_eq|].
  destruct (hex_val c) as [d|] eqn:E; [|by simplify_eq].
  apply hex_val_range in E. apply (IH _ _ H).
  rewrite Nat2Z.inj_succ, Z.pow_succ_r by lia. lia.
Qed.

Lemma take_hex_group s acc n rest :
  take_hex s 0 0 = (acc, n, rest) -> (n <= 4)%nat -> 0 <= acc < 65536.
Proof.
  intros H Hn. apply take_hex_range in H; [|done].
  assert (16 ^ Z.of_nat n <= 16 ^ 4) by (apply Z.pow_le_mono_r; lia). lia.
Qed.

Definition group_ok (g : Z) : Prop := 0 <= g < 65536.

Lemma parse_v6_loop_ok fuel s groups ell groups' ell' :
  parse_v6_loop fuel s groups ell = Some (groups', ell') ->
  (List.length groups + fuel = 8)%nat -> Forall group_ok groups ->
  Forall group_ok groups' /\ (List.length groups' <= 8)%nat.
Proof.
  revert s groups ell. induction fuel as [|fuel IH]; intros s groups ell H Hl HF.
  { simpl in H. case_hyp H. split; [done|lia]. }
  cbn [parse_v6_loop] in H. destruct (take_hex s 0 0) as [[acc n] rest] eqn:Et.
  destruct (4 <? n)%nat eqn:E4; [done|]. destruct (n =? 0)%nat; [done|].
  apply Nat.ltb_ge in E4. assert (group_ok acc) as Hacc by (by eapply take_hex_group).
  destruct rest as [|x rest].
  { simplify_eq. split; [by constructor|simpl; lia]. }
  destruct (Ascii.eqb "." x).
  { case_hyp H. apply parse_v4_range in Heqo. apply Nat.ltb_ge in Heqb0.
    split; [|simpl; lia]. repeat constructor; unfold group_ok; try done.
    all: try (apply Z.mod_pos_bound; lia). all: Z.div_mod_to_equations; lia. }
  destruct (negb (Ascii.eqb ":" x)); [done|]. destruct rest as [|y rest]; [done|].
  destruct (Ascii.eqb ":" y).
  - destruct ell; [done|]. destruct rest.
    + simplify_eq. split; [by constructor|simpl; lia].
    + eapply IH; [exact H|simpl; lia|by constructor].
  - eapply IH; [exact H|simpl; lia|by constructor].
Qed.

Lemma groups_value_range l acc :
  Forall group_ok l -> 0 <= acc ->
  0 <= fold_left (fun a g => a * 65536 + g) l acc
    < (acc + 1) * 65536 ^ Z.of_nat (List.length l).
Proof.
  intros HF. revert acc. induction HF as [|g l Hg HF IH]; intros acc Ha; simpl fold_left.
  - simpl. lia.
  - unfold group_ok in Hg. specialize (IH (acc * 65536 + g) ltac:(lia)).
    simpl List.length. rewrite Nat2Z.inj_succ, Z.pow_succ_r by lia.
    assert (0 < 65536 ^ Z.of_nat (List.length l)) by (apply Z.pow_pos_nonneg; lia). nia.
Qed.

Lemma groups_value_128 l :
  Forall group_ok l -> (List.length l = 8)%nat -> 0 <= groups_value l < 2 ^ 128.
Proof.
  intros HF Hl. pose proof (groups_value_range l 0 HF ltac:(lia)) as H.
  rewrite Hl in H. exact H.
Qed.

Lemma finish_v6_range r v :
  finish_v6 r = Some v ->
  match r with Some (g, _) => Forall group_ok g /\ (List.length g <= 8)%nat | None => True end ->
  0 <= v < 2 ^ 128.
Proof.
  destruct r as [[g ell]|]; simpl; [|done]. intros H [HF Hl].
  apply Forall_rev in HF. rewrite length_rev in H.
  destruct (8 - List.length g)%nat as [|m] eqn:En.
  - destruct ell; [done|]. simplify_eq. apply groups_value_128; [done|rewrite length_rev; lia].
  - destruct ell as [k|]; [|done]. simplify_eq. apply groups_value_128.
    + apply Forall_app; split; [by apply Forall_take|].
      apply (Forall_app _ (replicate (S m) 0)); split; [|by apply Forall_drop].
      apply Forall_replicate. unfold group_ok. lia.
    + rewrite !length_app, length_replicate, length_take, length_drop, length_rev. lia.
Qed.

Lemma parse_v6_body_range s v : parse_v6_body s = Some v -> 0 <= v < 2 ^ 128.
Proof.
  assert (forall s ell, finish_v6 (parse_v6_loop 8 s [] ell) = Some v -> 0 <= v < 2 ^ 128) as Hf.
  { intros s' ell H. eapply finish_v6_range; [exact H|].
    destruct (parse_v6_loop 8 s' [] ell) as [[g e]|] eqn:E; [|done].
    eapply parse_v6_loop_ok; [exact E|done|constructor]. }
  unfold parse_v6_body. intros H. case_hyp H; try by eapply Hf.
  lia.
Qed.

Lemma ParseAddr_wf s a : ParseAddr s = Some a -> addr_wf a /\ IsValid a = true.
Proof.
  unfold ParseAddr. generalize s at 1. intros rest.
  induction rest as [|c rest IH]; simpl; [done|].
  destruct (Ascii.eqb "." c); [|destruct (Ascii.eqb ":" c); [|destruct (Ascii.eqb "%" c); [done|exact IH]]].
  - destruct (parse_v4 s) as [v|] eqn:E; [|done]. intros [= <-].
    split; [by eapply parse_v4_range|done].
  - unfold parse_v6. intros H. case_hyp H;
      match type of H with _ <$> parse_v6_body ?b = _ =>
        destruct (parse_v6_body b) eqn:E; [|done] end;
      simplify_eq/=; (split; [by eapply parse_v6_body_range|done]).
Qed.

Lemma ParsePrefix_wf s p : ParsePrefix s = Some p -> prefix_wf p.
Proof.
  unfold ParsePrefix. intros H. case_hyp H. bool_to_prop.
  destruct (ParseAddr_wf _ _ Heqo0). apply PrefixFrom_wf; [done..|].
  split; [|done]. by apply digits_value_nonneg.
Qed.

(** ** IPv4 text round trip *)

Lemma octet_text_ok :
  forallb (fun i => let n := Z.of_nat i in
             match parse_octet (format_uint n) with Some m => m =? n | None => false end
             && negb (contains_byte "." (format_uint n)))
          (seq 0 256) = true.
Proof. vm_compute. reflexivity. Qed.

Lemma octet_text n : 0 <= n < 256 ->
  parse_octet (format_uint n) = Some n /\ contains_byte "." (format_uint n) = false.
Proof.
  intros H. pose proof octet_text_ok as Hall. rewrite forallb_forall in Hall.
  specialize (Hall (Z.to_nat n)). rewrite in_seq in Hall. specialize (Hall ltac:(lia)).
  cbv zeta in Hall. rewrite Z2Nat.id in Hall by lia. bool_to_prop.
  destruct (parse_octet _); [|done]. bool_to_prop. by subst.
Qed.

Lemma v4_byte_range v i : 0 <= v4_byte v i < 256.
Proof. unfold v4_byte. change 255 with (Z.ones 8). rewrite Z.land_ones by lia. apply Z.mod_pos_bound. lia. Qed.

Lemma v4_byte_div v i : 0 <= i <= 3 -> v4_byte v i = (v / 2 ^ (8 * (3 - i))) mod 256.
Proof.
  intros H. unfold v4_byte. change 255 with (Z.ones 8).
  by rewrite Z.land_ones, Z.shiftr_div_pow2 by lia.
Qed.

Lemma parse_addr_scan_v4 rest s :
  str_all (fun c => is_digit c || Ascii.eqb "." c) rest = true ->
  contains_byte "." rest = true -> parse_addr_scan rest s = Addr4 <$> parse_v4 s.
Proof.
  induction rest as [|c rest IH]; [done|]. rewrite contains_byte_cons. simpl. intros Ha Hc.
  destruct (Ascii.eqb "." c) eqn:E; [done|]. rewrite orb_false_r in Ha. bool_to_prop.
  destruct (Ascii.eqb ":" c) eqn:E1; [apply Ascii.eqb_eq in E1 as <-; done|].
  destruct (Ascii.eqb "%" c) eqn:E2; [apply Ascii.eqb_eq in E2 as <-; done|].
  apply IH; [done|]. by destruct Hc.
Qed.

Lemma parse_v4_string4 v : 0 <= v < 2 ^ 32 -> parse_v4 (string4 v) = Some v.
Proof.
  intros H. unfold parse_v4, string4.
  rewrite split_join; [|done|]; cycle 1.
  { apply Forall_forall. intros p Hp. apply list_elem_of_In, in_map_iff in Hp as (i & <- & _).
    apply octet_text, v4_byte_range. }
  cbn [map].
  rewrite !(fun i => proj1 (octet_text (v4_byte v i) (v4_byte_range v i))).
  rewrite !v4_byte_div by lia. f_equal. Z.div_mod_to_equations. lia.
Qed.

Lemma str_all_impl (f g : ascii -> bool) s :
  (forall c, f c = true -> g c = true) -> str_all f s = true -> str_all g s = true.
Proof.
  intros Hfg. induction s as [|c s IH]; simpl; [done|].
  rewrite !andb_true_iff. intros [Hc Hs]. auto.
Qed.

Lemma string4_text v :
  str_all (fun c => is_digit c || Ascii.eqb "." c) (string4 v) = true /\
  contains_byte "." (string4 v) = true.
Proof.
  unfold string4. cbn [map join]. split.
  - assert (forall n, str_all (fun c => is_digit c || Ascii.eqb "." c) (format_uint n) = true) as Hd.
    { intros n. eapply str_all_impl; [|apply format_uint_digits]. by intros c ->. }
    rewrite !str_all_app, !str_all_cons, !str_all_app, !str_all_cons, !str_all_app, !str_all_cons, !Hd.
    reflexivity.
  - rewrite contains_byte_app, contains_byte_cons. apply orb_true_r.
Qed.

Lemma ParseAddr_string4 v : 0 <= v < 2 ^ 32 -> ParseAddr (addr_string (Addr4 v)) = Some (Addr4 v).
Proof.
  intros H. unfold ParseAddr. change (addr_string (Addr4 v)) with (string4 v).
  destruct (string4_text v) as [Ht Hd].
  rewrite parse_addr_scan_v4, parse_v4_string4 by done. reflexivity.
Qed.
