(* ===== verification/Policy.v ===== *)
(** * The policy descriptor and its evaluation

    [sdk/cmd/connect-proxy/policy.go]: loading a descriptor into a [policy],
    and [authorize], which decides a destination and returns the exact
    addresses the boundary may dial.

    Parameters: the JSON decoder ([json_decode]), the IDNA profile of
    [golang.org/x/net/idna] ([ToASCII]), and the resolver [lookupNetIP]. *)

From S2P Require Import Prelude GoStrings Netip.
From Stdlib Require Import Floats.SpecFloat.

Local Open Scope go_scope.

(** ** Descriptor data *)

(** A decoded JSON value of Go type [any]: a [float64], a string, or another kind. *)
Inductive json_any : Type :=
| JNumber (v : spec_float)
| JString (s : string)
| JOther.

(** A nil slice is [None]; an empty non-nil slice is [Some []]. *)
Record descriptorRule := mkDescriptorRule {
  dr_id : string;
  dr_name : string;
  dr_suffix : string;
  dr_depth : Z;
  dr_ip : string;
  dr_cidr : string;
  dr_ports : option (list json_any);
  dr_transports : option (list string);
  dr_resolve : option (list string);
}.

Record descriptor := mkDescriptor {
  d_schema : Z;
  d_version : string;
  d_sandbox : string;
  d_default : string;
  d_rules : list descriptorRule;
  d_resolved_addresses : list descriptorRule;
  d_udp : bool;
  d_h2 : bool;
}.

(** ** Ports and transports *)

Record portSet := mkPortSet { ps_any : bool; ps_ranges : list (Z * Z) }.

Definition permits (p : portSet) (port : Z) : bool :=
  if ps_any p then true
  else existsb (fun r => (fst r <=? port) && (port <=? snd r)) (ps_ranges p).

Definition parsePort (value : string) : Result Z :=
  match parse_uint 16 value with
  | Some number => if number =? 0 then Err "invalid port %q" else Ok number
  | None => Err "invalid port %q"
  end.

(** [int64(v)] when [v == float64(int64(v))]: [v] is integral and in range. *)
Definition float64_as_int (v : spec_float) : option Z :=
  match v with
  | S754_zero _ => Some 0
  | S754_finite s m e =>
      let a := if 0 <=? e then Some (Zpos m * 2 ^ e)
               else if Zpos m mod 2 ^ (- e) =? 0 then Some (Zpos m / 2 ^ (- e))
               else None in
      match a with
      | Some a =>
          let z := if s then - a else a in
          if (- 2 ^ 63 <=? z) && (z <? 2 ^ 63) then Some z else None
      | None => None
      end
  | _ => None
  end.

(** The body of the loop of [parsePorts]: one range from one list entry. *)
Definition parsePortEntry (value : json_any) : Result (Z * Z) :=
  let? text := match value with
               | JNumber v => or_err (format_int <$> float64_as_int v) "port %v is not an integer"
               | JString v => Ok v
               | JOther => Err "port %v has type %T"
               end in
  match cut "-" text with
  | None =>
      let? first := parsePort text in
      Ok (first, first)
  | Some (lo, hi) =>
      let? first := parsePort lo in
      let? last := parsePort hi in
      if last <? first then Err "port range %q is reversed" else Ok (first, last)
  end.

Definition parsePorts (values : option (list json_any)) : Result portSet :=
  match values with
  | None => Ok (mkPortSet true [])
  | Some [] => Err "empty ports list"
  | Some values =>
      fold_result (fun set value =>
        let? range := parsePortEntry value in
        Ok (mkPortSet (ps_any set) (ps_ranges set ++ [range])))
        (mkPortSet false []) values
  end.

Record transportSet := mkTransportSet { tcp : bool; udp : bool }.

Definition has (t : transportSet) (network : string) : bool :=
  (String.eqb network "tcp" && tcp t) || (String.eqb network "udp" && udp t).

Definition parseTransports (values : option (list string)) : Result transportSet :=
  match values with
  | None => Ok (mkTransportSet true false)
  | Some [] => Err "empty transports list"
  | Some values =>
      fold_result (fun set value =>
        if String.eqb value "tcp" then Ok (mkTransportSet true (udp set))
        else if String.eqb value "udp" then Ok (mkTransportSet (tcp set) true)
        else Err "unknown transport %q")
        (mkTransportSet false false) values
  end.

(** ** Loaded rules *)

(** [r_resolve] is built by [append] only, so it is nil exactly when empty. *)
Record rule := mkRule {
  r_id : string;
  r_ports : portSet;
  r_transports : transportSet;
  r_resolve : list Addr;
  r_prefix : Prefix;
}.

Record suffixRule := mkSuffixRule {
  s_suffix : string;
  s_depth : Z;     (* maximum labels before the suffix; 0 means unlimited *)
  s_rule : rule;
}.

Record policy := mkPolicy {
  p_version : string;
  p_sandbox : string;
  p_generation : string;
  p_udp : bool;
  p_names : gmap string (list rule);
  p_suffixes : list suffixRule;
  p_wildcard : list rule;
  p_literals : list rule;
  p_exceptions : list rule;
}.

Definition add_name (p : policy) (name : string) (r : rule) : policy :=
  mkPolicy (p_version p) (p_sandbox p) (p_generation p) (p_udp p)
    (<[name := default [] (p_names p !! name) ++ [r]]> (p_names p))
    (p_suffixes p) (p_wildcard p) (p_literals p) (p_exceptions p).

Definition add_suffix (p : policy) (s : suffixRule) : policy :=
  mkPolicy (p_version p) (p_sandbox p) (p_generation p) (p_udp p) (p_names p)
    (p_suffixes p ++ [s]) (p_wildcard p) (p_literals p) (p_exceptions p).

Definition add_wildcard (p : policy) (r : rule) : policy :=
  mkPolicy (p_version p) (p_sandbox p) (p_generation p) (p_udp p) (p_names p)
    (p_suffixes p) (p_wildcard p ++ [r]) (p_literals p) (p_exceptions p).

Definition add_literal (p : policy) (r : rule) : policy :=
  mkPolicy (p_version p) (p_sandbox p) (p_generation p) (p_udp p) (p_names p)
    (p_suffixes p) (p_wildcard p) (p_literals p ++ [r]) (p_exceptions p).

Definition add_exception (p : policy) (r : rule) : policy :=
  mkPolicy (p_version p) (p_sandbox p) (p_generation p) (p_udp p) (p_names p)
    (p_suffixes p) (p_wildcard p) (p_literals p) (p_exceptions p ++ [r]).

(** ** Names *)

(** [idna.New(MapForLookup, StrictDomainName(false), BidiRule).ToASCII]:
    [None] is an error. *)
Class NameProfile := { ToASCII : string -> option string }.

Definition valid_name_byte (c : ascii) : bool :=
  is_lower_letter c || is_digit c || Ascii.eqb "-" c || Ascii.eqb "_" c.

(** A byte of a multi-byte rune is over 127, so checking bytes or runes is the same. *)
Definition validName (name : string) : bool :=
  if String.eqb name EmptyString || (253 <? str_len name) then false
  else forallb (fun label =>
         if String.eqb label EmptyString || (63 <? str_len label) then false
         else str_all valid_name_byte label)
       (split "." name).

Definition normalizeName `{GoUnicode, NameProfile} (host : string) : option string :=
  let name := trim_suffix "." (to_lower host) in
  if String.eqb name EmptyString then None
  else match ParseAddr name with
       | Some _ => None
       | None =>
           match ToASCII name with
           | None => None
           | Some ascii => if validName ascii then Some ascii else None
           end
       end.

(** ** Address ranges *)

Definition MustParsePrefix (s : string) : Prefix :=
  match ParsePrefix s with Some p => p | None => PrefixZero end.

Definition nonPublic : list Prefix := map MustParsePrefix
  ["0.0.0.0/8"; "100.64.0.0/10"; "192.0.0.0/24"; "192.0.2.0/24"; "198.18.0.0/15";
   "198.51.100.0/24"; "203.0.113.0/24"; "240.0.0.0/4"; "64:ff9b::/96"; "64:ff9b:1::/48";
   "100::/64"; "2001::/23"; "2001:db8::/32"; "2002::/16"; "3fff::/20"; "5f00::/16";
   "fec0::/10"]%string.

Definition publicAddress (address : Addr) : bool :=
  if negb (IsGlobalUnicast address) || IsPrivate address then false
  else negb (existsb (fun prefix => Contains prefix address) nonPublic).

Definition classifierRanges : list Prefix := map MustParsePrefix
  ["10.0.0.0/8"; "127.0.0.0/8"; "169.254.0.0/16"; "172.16.0.0/12"; "192.168.0.0/16";
   "224.0.0.0/4"; "::/128"; "::1/128"; "fc00::/7"; "fe80::/10"; "ff00::/8"]%string.

Definition specialPurpose (prefix : Prefix) : bool :=
  existsb (fun r =>
    Bool.eqb (Is4 (p_addr r)) (Is4 (p_addr prefix))
    && (p_bits r <=? p_bits prefix) && Contains r (p_addr prefix))
    (classifierRanges ++ nonPublic).

Definition parsePrefix (text : string) : Result Prefix :=
  match ParsePrefix text with
  | None => Err "cidr %q"
  | Some prefix =>
      if negb (String.eqb (Zone (p_addr prefix)) EmptyString) then Err "cidr %q has a zone"
      else if Is4In6 (p_addr prefix) then
        if p_bits prefix <? 96 then Err "cidr %q: IPv4-mapped prefix shorter than /96"
        else Ok (Masked (PrefixFrom (Unmap (p_addr prefix)) (p_bits prefix - 96)))
      else Ok (Masked prefix)
  end.

(** ** Loading *)

Section Loading.
Context `{GoUnicode, NameProfile}.

(** [kinds]: how many of the four destination fields are set. *)
Definition rule_kinds (dr : descriptorRule) : nat :=
  List.length (List.filter (fun field => negb (String.eqb field EmptyString))
                 [dr_name dr; dr_suffix dr; dr_ip dr; dr_cidr dr]).

(** The loop over [dr.Resolve]. *)
Definition parse_resolve (raws : list string) : Result (list Addr) :=
  fold_result (fun acc raw =>
    match ParseAddr raw with
    | Some address =>
        if negb (String.eqb (Zone address) EmptyString) then Err "resolve address %q"
        else Ok (acc ++ [Unmap address])
    | None => Err "resolve address %q"
    end) [] raws.

Definition rule_resolve (dr : descriptorRule) : Result (list Addr) :=
  match dr_resolve dr with
  | None => Ok []
  | Some raws =>
      if String.eqb (dr_name dr) EmptyString || String.eqb (dr_name dr) "*"
      then Err "resolve requires a name other than *"
      else match raws with
           | [] => Err "empty resolve list"
           | _ => parse_resolve raws
           end
  end.

(** The final [switch]: which list of the policy the rule joins. *)
Definition place_rule (p : policy) (dr : descriptorRule) (r : rule) : Result policy :=
  if String.eqb (dr_name dr) "*" then Ok (add_wildcard p r)
  else if negb (String.eqb (dr_name dr) EmptyString) then
    let? name := or_err (normalizeName (dr_name dr)) "name %q is not a hostname" in
    Ok (add_name p name r)
  else if negb (String.eqb (dr_suffix dr) EmptyString) then
    let? suffix := or_err (normalizeName (dr_suffix dr)) "suffix %q is not a hostname" in
    Ok (add_suffix p (mkSuffixRule suffix (dr_depth dr) r))
  else if negb (String.eqb (dr_ip dr) EmptyString) then
    match ParseAddr (dr_ip dr) with
    | Some address =>
        if negb (String.eqb (Zone address) EmptyString) then Err "ip %q"
        else let address := Unmap address in
             Ok (add_literal p (mkRule (r_id r) (r_ports r) (r_transports r) (r_resolve r)
                                  (PrefixFrom address (BitLen address))))
    | None => Err "ip %q"
    end
  else
    let? prefix := parsePrefix (dr_cidr dr) in
    Ok (add_literal p (mkRule (r_id r) (r_ports r) (r_transports r) (r_resolve r) prefix)).

Definition addRule (p : policy) (dr : descriptorRule) : Result policy :=
  if negb (rule_kinds dr =? 1)%nat then Err "exactly one of name, suffix, ip, cidr is required"
  else if 64 <? str_len (dr_id dr) then Err "id longer than 64 characters"
  else
    let? ports := parsePorts (dr_ports dr) in
    let? transports := parseTransports (dr_transports dr) in
    let? resolve := rule_resolve dr in
    if negb (dr_depth dr =? 0)
       && (String.eqb (dr_suffix dr) EmptyString || (dr_depth dr <? 0) || (126 <? dr_depth dr))
    then Err "depth requires a suffix and a value from 1 to 126"
    else place_rule p dr (mkRule (dr_id dr) ports transports resolve PrefixZero).

Definition only_cidr_and_ports (dr : descriptorRule) : bool :=
  negb (String.eqb (dr_cidr dr) EmptyString) && String.eqb (dr_name dr) EmptyString
  && String.eqb (dr_suffix dr) EmptyString && String.eqb (dr_ip dr) EmptyString
  && bool_decide (dr_transports dr = None) && bool_decide (dr_resolve dr = None)
  && String.eqb (dr_id dr) EmptyString && (dr_depth dr =? 0).

(** The body of the loop over [d.ResolvedAddresses]. *)
Definition addException (p : policy) (dr : descriptorRule) : Result policy :=
  if negb (only_cidr_and_ports dr) then
    Err "policy descriptor: resolved_addresses %d: only cidr and ports are allowed"
  else
    let? prefix := parsePrefix (dr_cidr dr) in
    if negb (specialPurpose prefix) then
      Err "policy descriptor: resolved_addresses %d: %s is not within a special-purpose range"
    else
      let? ports := parsePorts (dr_ports dr) in
      Ok (add_exception p
            (mkRule EmptyString ports (mkTransportSet false false) [] prefix)).

Definition bad_label (s : string) : bool := String.eqb s EmptyString || (256 <? str_len s).

(** [decoder.More()] at the top level: the next byte that is not white space
    exists and closes neither an array nor an object. *)
Fixpoint decoder_more (rest : string) : bool :=
  match rest with
  | EmptyString => false
  | String c rest =>
      if Ascii.eqb " " c || Ascii.eqb "009" c || Ascii.eqb "010" c || Ascii.eqb "013" c
      then decoder_more rest
      else negb (Ascii.eqb "]" c || Ascii.eqb "}" c)
  end.

(** [json_decode] is [decoder.Decode(&d)] with unknown fields disallowed: the
    decoded descriptor and the bytes after the JSON value. *)
Context (json_decode : string -> option (descriptor * string)).

Definition loadDescriptor (data generation : string) : Result policy :=
  match json_decode data with
  | None => Err "policy descriptor: %w"
  | Some (d, rest) =>
      if decoder_more rest then Err "policy descriptor: trailing data"
      else if negb (d_schema d =? 1) then
        Err "policy descriptor: unsupported agents_net_policy %d"
      else if bad_label (d_version d) then Err "policy descriptor: version is required"
      else if bad_label (d_sandbox d) then Err "policy descriptor: sandbox is required"
      else if negb (String.eqb (d_default d) "deny") then
        Err "policy descriptor: default must be deny, got %q"
      else
        let p := mkPolicy (d_version d) (d_sandbox d) generation (d_udp d) ∅ [] [] [] [] in
        let? p := fold_result addRule p (d_rules d) in
        fold_result addException p (d_resolved_addresses d)
  end.
End Loading.

(** ** Evaluation *)

(** The loop of [selectRule], with [reason] the best denial reason so far. *)
Fixpoint selectRule_loop (candidates : list rule) (port : Z) (network reason : string)
  : option rule * string :=
  match candidates with
  | [] => (None, reason)
  | r :: rest =>
      if negb (permits (r_ports r) port) then
        selectRule_loop rest port network
          (if String.eqb reason EmptyString then "port-not-allowed" else reason)
      else if negb (has (r_transports r) network) then
        selectRule_loop rest port network "transport-not-allowed"
      else (Some r, EmptyString)
  end.

Definition selectRule (candidates : list rule) (port : Z) (network : string)
  : option rule * string :=
  selectRule_loop candidates port network EmptyString.

Definition literalRule (p : policy) (address : Addr) (port : Z) : option rule :=
  List.find (fun r => Contains (r_prefix r) address && permits (r_ports r) port) (p_literals p).

Definition excepted (p : policy) (address : Addr) (port : Z) : bool :=
  existsb (fun r => Contains (r_prefix r) address && permits (r_ports r) port) (p_exceptions p).

Definition listed (addresses : list Addr) (address : Addr) : bool :=
  existsb (fun a => addr_eqb a address) addresses.

Record verdict := mkVerdict {
  v_destination : string;
  v_addresses : list Addr;
  v_rule : string;
  v_reason : string;
  v_status : Z;
  v_err : bool;
}.

(** [verdict.deny] *)
Definition deny (v : verdict) (status : Z) (reason : string) : verdict :=
  mkVerdict (v_destination v) (v_addresses v) (v_rule v) reason status (v_err v).

(** A suffix rule matches [name]: the name ends with a dot and the suffix, and
    has at most [depth] labels before it. *)
Definition suffixMatches (name : string) (s : suffixRule) : bool :=
  if negb (has_suffix ("." +:+ s_suffix s)%string name) then false
  else if (0 <? s_depth s)
       && (s_depth s <?
           count_byte "." (str_take (String.length name - String.length (s_suffix s) - 1) name) + 1)
  then false
  else true.

(** The rules that match a normalized name: exact, then suffix, then wildcard. *)
Definition nameCandidates (p : policy) (name : string) : list rule :=
  default [] (p_names p !! name)
  ++ map s_rule (List.filter (suffixMatches name) (p_suffixes p))
  ++ p_wildcard p.

(** The rules whose prefix contains a literal address. *)
Definition literalCandidates (p : policy) (address : Addr) : list rule :=
  List.filter (fun r => Contains (r_prefix r) address) (p_literals p).

(** The test of the last loop of [authorize]: may this resolved address be dialed? *)
Definition admits (p : policy) (selected : rule) (port : Z) (address : Addr) : bool :=
  listed (r_resolve selected) address
  || bool_decide (is_Some (literalRule p address port))
  || excepted p address port
  || publicAddress address.

(** The last loop of [authorize]: unmap, skip zones, keep what is admitted. *)
Definition keep_admitted (p : policy) (selected : rule) (port : Z) (resolved : list Addr)
  : list Addr :=
  List.filter (fun a => String.eqb (Zone a) EmptyString && admits p selected port a)
              (map Unmap resolved).

Section Authorize.
Context `{GoUnicode, NameProfile}.
(** [lookupNetIP(ctx, "ip", name)]; [None] is an error. *)
Context (lookupNetIP : string -> option (list Addr)).

Definition policy_authorize (p : policy) (host port network : string) : verdict :=
  let v := mkVerdict (join_host_port host port) [] EmptyString EmptyString 403 false in
  match parsePort port with
  | Err _ => deny v 400 "malformed-port"
  | Ok number =>
      match ParseAddr (to_lower host) with
      | Some address =>
          if negb (String.eqb (Zone address) EmptyString) then deny v 403 "scoped-ip"
          else
            let address := Unmap address in
            let v := mkVerdict (join_host_port (addr_string address) port) []
                               EmptyString EmptyString 403 false in
            match selectRule (literalCandidates p address) number network with
            | (Some selected, _) =>
                mkVerdict (v_destination v) [address] (r_id selected) EmptyString 403 false
            | (None, reason) =>
                if negb (String.eqb reason EmptyString) then deny v 403 reason
                else deny v 403 "ip-not-on-allowlist"
            end
      | None =>
          match normalizeName host with
          | None => deny v 400 "malformed-target"
          | Some name =>
              let v := mkVerdict (join_host_port name port) [] EmptyString EmptyString 403 false in
              match selectRule (nameCandidates p name) number network with
              | (None, reason) =>
                  if negb (String.eqb reason EmptyString) then deny v 403 reason
                  else deny v 403 "not-on-allowlist"
              | (Some selected, _) =>
                  let v := mkVerdict (v_destination v) [] (r_id selected) EmptyString 403 false in
                  match (match r_resolve selected with
                         | [] => lookupNetIP name
                         | l => Some l
                         end) with
                  | None => mkVerdict (v_destination v) [] (v_rule v) EmptyString 403 true
                  | Some resolved =>
                      match keep_admitted p selected number resolved with
                      | [] => deny v 403 "resolved-address-denied"
                      | addresses =>
                          mkVerdict (v_destination v) addresses (v_rule v) EmptyString 403 false
                      end
                  end
              end
          end
      end
  end.

(** The package-level [authorize]: the current policy, TCP only. *)
Definition authorize (current : option policy) (host port : string)
  : list Addr * string * bool :=
  match current with
  | None => ([], "policy-unavailable"%string, false)
  | Some p =>
      let v := policy_authorize p host port "tcp" in
      (v_addresses v, v_reason v, v_err v)
  end.
End Authorize.
