(* ===== verification/PolicyAddr.v ===== *)
(** * Address classes: [publicAddress] and [specialPurpose] against the table

    The table of special-purpose ranges is the one both functions of
    [policy.go] are about: [publicAddress] decides it with the classifiers of
    [net/netip] and a list of extra prefixes, [specialPurpose] with prefixes
    only. *)

From S2P Require Import Prelude GoStrings Netip Policy.

(** The special-purpose table: the ranges [specialPurpose] ranges over. *)
Definition specialRanges : list Prefix := classifierRanges ++ nonPublic.

Definition special (a : Addr) : bool := existsb (fun r => Contains r a) specialRanges.

(** ** High bits of a word *)

Lemma land_high x k n :
  0 <= k <= n -> 0 <= x < 2 ^ n -> Z.land x (2 ^ n - 2 ^ k) = x - x mod 2 ^ k.
Proof.
  intros Hk Hx.
  assert (2 ^ n - 2 ^ k = Z.shiftl (Z.ones (n - k)) k) as ->.
  { rewrite Z.shiftl_mul_pow2, Z.ones_equiv by lia.
    replace (2 ^ n) with (2 ^ (n - k) * 2 ^ k) by (rewrite <- Z.pow_add_r by lia; f_equal; lia).
    lia. }
  assert (x - x mod 2 ^ k = Z.shiftl (Z.shiftr x k) k) as ->.
  { rewrite Z.shiftl_mul_pow2, Z.shiftr_div_pow2 by lia.
    pose proof (Z.div_mod x (2 ^ k) ltac:(pose proof (Z.pow_pos_nonneg 2 k); lia)). lia. }
  apply Z.bits_inj'. intros i Hi. rewrite Z.land_spec, !Z.shiftl_spec by lia.
  destruct (Z.lt_ge_cases i k).
  - rewrite !(Z.testbit_neg_r _ (i - k)) by lia. apply andb_false_r.
  - rewrite Z.shiftr_spec by lia. replace (i - k + k) with i by lia.
    destruct (Z.lt_ge_cases i n).
    + rewrite Z.ones_spec_low by lia. apply andb_true_r.
    + destruct (Z.eq_dec x 0) as [->|]; [by rewrite Z.bits_0|].
      rewrite (Z.bits_above_log2 x i); [done|lia|].
      apply Z.log2_lt_pow2; [lia|]. eapply Z.lt_le_trans; [apply Hx|].
      apply Z.pow_le_mono_r; lia.
Qed.

(** ** The table as blocks *)

Definition prefix_okb (p : Prefix) : bool :=
  IsValid (p_addr p) && String.eqb (Zone (p_addr p)) EmptyString
  && (0 <=? bits_of (p_addr p)) && (bits_of (p_addr p) <? 2 ^ BitLen (p_addr p))
  && (0 <=? p_bits p) && (p_bits p <=? BitLen (p_addr p))
  && (bits_of (p_addr p) mod 2 ^ (BitLen (p_addr p) - p_bits p) =? 0).

Lemma prefix_okb_spec p : prefix_okb p = true -> prefix_wf p /\ prefix_masked p.
Proof.
  unfold prefix_okb, prefix_wf, prefix_masked. intros H. bool_to_prop.
  destruct (p_addr p); simpl in *; repeat split; done || lia.
Qed.

Lemma specialRanges_ok p : In p specialRanges -> prefix_wf p /\ prefix_masked p.
Proof.
  intros Hp. apply prefix_okb_spec.
  assert (forallb prefix_okb specialRanges = true) as H by (vm_compute; reflexivity).
  rewrite forallb_forall in H. by apply H.
Qed.

Lemma existsb_ext_in {A} (f g : A -> bool) l :
  (forall x, In x l -> f x = g x) -> existsb f l = existsb g l.
Proof.
  induction l as [|a l IH]; intros H; simpl; [done|].
  rewrite (H a (or_introl eq_refl)), IH; [done|]. intros x Hx. apply H. by right.
Qed.

Lemma contains_blocks l a :
  (forall p, In p l -> In p specialRanges) ->
  existsb (fun r => Contains r a) l = existsb (fun r => in_block r a) l.
Proof.
  intros Hl. apply existsb_ext_in. intros p Hp.
  destruct (specialRanges_ok p (Hl p Hp)). by apply Contains_in_block.
Qed.

(** The table as bounds on the address bits, per family. *)
Definition block4 (p : Prefix) : list (Z * Z) :=
  if Is4 (p_addr p) then [(bits_of (p_addr p), bits_of (p_addr p) + prefix_size p)] else [].
Definition block6 (p : Prefix) : list (Z * Z) :=
  if Is4 (p_addr p) then [] else [(bits_of (p_addr p), bits_of (p_addr p) + prefix_size p)].

Definition in_blocks (v : Z) (l : list (Z * Z)) : bool :=
  existsb (fun b => (fst b <=? v) && (v <? snd b)) l.

Lemma in_block_4 l v :
  existsb (fun r => in_block r (Addr4 v)) l = in_blocks v (flat_map block4 l).
Proof.
  unfold in_blocks. induction l as [|p l IH]; simpl; [done|].
  rewrite existsb_app, IH. f_equal. unfold in_block, block4.
  destruct (Is4 (p_addr p)); simpl; by rewrite ?orb_false_r.
Qed.

Lemma in_block_6 l v :
  existsb (fun r => in_block r (Addr6 v EmptyString)) l = in_blocks v (flat_map block6 l).
Proof.
  unfold in_blocks. induction l as [|p l IH]; simpl; [done|].
  rewrite existsb_app, IH. f_equal. unfold in_block, block6.
  destruct (Is4 (p_addr p)); simpl; by rewrite ?orb_false_r.
Qed.

Lemma special_4 v : special (Addr4 v) = in_blocks v (flat_map block4 specialRanges).
Proof. unfold special. by rewrite contains_blocks, in_block_4. Qed.

Lemma special_6 v : special (Addr6 v EmptyString) = in_blocks v (flat_map block6 specialRanges).
Proof. unfold special. by rewrite contains_blocks, in_block_6. Qed.

Lemma nonPublic_4 v :
  existsb (fun r => Contains r (Addr4 v)) nonPublic = in_blocks v (flat_map block4 nonPublic).
Proof.
  rewrite contains_blocks, in_block_4; [done|]. intros p Hp. apply in_app_iff. by right.
Qed.

Lemma nonPublic_6 v :
  existsb (fun r => Contains r (Addr6 v EmptyString)) nonPublic
  = in_blocks v (flat_map block6 nonPublic).
Proof.
  rewrite contains_blocks, in_block_6; [done|]. intros p Hp. apply in_app_iff. by right.
Qed.

(** ** [publicAddress] decides the table *)

Lemma v4_class v :
  0 <= v < 2 ^ 32 ->
  publicAddress (Addr4 v) =
    negb ((v =? 0) || (v =? 4294967295) || (v / 2 ^ 24 =? 127)
          || ((v / 2 ^ 24) - (v / 2 ^ 24) mod 16 =? 224)
          || ((v / 2 ^ 24 =? 169) && (v / 2 ^ 16 mod 256 =? 254)))
    && negb ((v / 2 ^ 24 =? 10)
             || ((v / 2 ^ 24 =? 172) && (v / 2 ^ 16 mod 256 - v / 2 ^ 16 mod 256 mod 16 =? 16))
             || ((v / 2 ^ 24 =? 192) && (v / 2 ^ 16 mod 256 =? 168)))
    && negb (in_blocks v (flat_map block4 nonPublic)).
Proof.
  intros Hv. unfold publicAddress, IsGlobalUnicast, IsPrivate, IsLoopback, IsMulticast,
    IsLinkLocalUnicast.
  rewrite nonPublic_4, !Unmap_id by done. cbv beta iota zeta.
  assert (v4_byte v 0 = v / 2 ^ 24) as ->.
  { rewrite v4_byte_div by lia. apply Z.mod_small. Z.div_mod_to_equations; lia. }
  rewrite (v4_byte_div v 1) by lia. change (8 * (3 - 1)) with 16.
  change 240 with (2 ^ 8 - 2 ^ 4) at 1 2.
  rewrite !(land_high _ 4 8) by (Z.div_mod_to_equations; lia).
  change (2 ^ 4) with 16.
  repeat match goal with |- context [?a =? ?b] => destruct (a =? b) end; reflexivity.
Qed.

(** Replace a block list by its value and turn the tests on it into bounds. *)
Ltac compute_blocks :=
  repeat match goal with
  | |- context [in_blocks ?v (flat_map ?f ?l)] =>
      let l' := eval vm_compute in (flat_map f l) in
      change (in_blocks v (flat_map f l)) with (in_blocks v l')
  end;
  unfold in_blocks; cbn [existsb fst snd].

Lemma high_bits_eq m k x :
  0 < m -> k mod m = 0 -> (x - x mod m =? k) = (k <=? x) && (x <? k + m).
Proof.
  intros Hm Hk. apply eq_true_iff_eq. rewrite andb_true_iff, Z.eqb_eq, Z.leb_le, Z.ltb_lt.
  pose proof (Z.div_mod x m ltac:(lia)). pose proof (Z.mod_pos_bound x m ltac:(lia)).
  apply Z.mod_divide in Hk as [q ->]; [|lia]. split; [lia|].
  intros [H1 H2]. assert (x / m = q) by (symmetry; apply (Z.div_unique x m q (x - q * m)); lia).
  nia.
Qed.

Lemma split_v4 v : 0 <= v < 4294967296 ->
  exists a b c,
    v = a * 16777216 + b * 65536 + c /\ v / 16777216 = a /\ (v / 65536) mod 256 = b /\
    0 <= a < 256 /\ 0 <= b < 256 /\ 0 <= c < 65536.
Proof.
  intros H. exists (v / 16777216), (v / 65536 mod 256), (v mod 65536).
  Z.div_mod_to_equations. lia.
Qed.

Lemma public_special_4 v : 0 <= v < 2 ^ 32 -> publicAddress (Addr4 v) = negb (special (Addr4 v)).
Proof.
  intros Hv. rewrite v4_class, special_4 by done.
  change (2 ^ 32) with 4294967296 in Hv.
  change (2 ^ 24) with 16777216. change (2 ^ 16) with 65536.
  destruct (split_v4 v Hv) as (a & b & c & Ev & -> & -> & Ha & Hb & Hc).
  rewrite (high_bits_eq 16 224), (high_bits_eq 16 16) by done.
  compute_blocks. apply eq_true_iff_eq. lia.
Qed.

Lemma v6_u16_0 v : 0 <= v < 2 ^ 128 -> v6_u16 v 0 = v / 2 ^ 112.
Proof.
  intros Hv. unfold v6_u16. change 65535 with (Z.ones 16). change (16 * (7 - 0)) with 112.
  rewrite Z.land_ones, Z.shiftr_div_pow2 by lia. apply Z.mod_small.
  split; [apply Z.div_pos; lia|apply Z.div_lt_upper_bound; lia].
Qed.

Lemma div_eq_block v d q : 0 < d -> (v / d =? q) = (q * d <=? v) && (v <? q * d + d).
Proof.
  intros Hd. apply eq_true_iff_eq. rewrite andb_true_iff, Z.eqb_eq, Z.leb_le, Z.ltb_lt.
  pose proof (Z.div_mod v d ltac:(lia)). pose proof (Z.mod_pos_bound v d ltac:(lia)).
  split; [nia|]. intros [H1 H2]. symmetry. apply (Z.div_unique v d q (v - q * d)); lia.
Qed.

Lemma div_block v d lo n :
  0 < d -> (lo <=? v / d) && (v / d <? lo + n) = (lo * d <=? v) && (v <? (lo + n) * d).
Proof.
  intros Hd. apply eq_true_iff_eq. rewrite !andb_true_iff, !Z.leb_le, !Z.ltb_lt.
  pose proof (Z.div_mod v d ltac:(lia)). pose proof (Z.mod_pos_bound v d ltac:(lia)).
  split; intros [H1 H2]; split; nia.
Qed.

Lemma v6_class v :
  0 <= v < 2 ^ 128 -> Is4In6 (Addr6 v EmptyString) = false ->
  publicAddress (Addr6 v EmptyString) =
    negb (v =? 0) && negb (v =? 1)
    && negb ((255 * 2 ^ 120 <=? v) && (v <? 255 * 2 ^ 120 + 2 ^ 120))
    && negb ((65152 * 2 ^ 112 <=? v) && (v <? (65152 + 64) * 2 ^ 112))
    && negb ((252 * 2 ^ 120 <=? v) && (v <? (252 + 2) * 2 ^ 120))
    && negb (in_blocks v (flat_map block6 nonPublic)).
Proof.
  intros Hv Hm. unfold publicAddress, IsGlobalUnicast, IsPrivate, IsLoopback, IsMulticast,
    IsLinkLocalUnicast.
  rewrite nonPublic_6, !(Unmap_id _ Hm). cbv beta iota zeta.
  assert (addr_eqb (Addr6 v EmptyString) IPv6Unspecified = (v =? 0)) as ->.
  { unfold addr_eqb, IPv6Unspecified. apply eq_true_iff_eq.
    rewrite bool_decide_eq_true, Z.eqb_eq. split; congruence. }
  rewrite v6_u16_0 by done. rewrite !Z.shiftr_div_pow2 by lia.
  assert (0 <= v / 2 ^ 112 < 2 ^ 16).
  { split; [apply Z.div_pos; lia|apply Z.div_lt_upper_bound; lia]. }
  assert (0 <= v / 2 ^ 120 < 2 ^ 8).
  { split; [apply Z.div_pos; lia|apply Z.div_lt_upper_bound; lia]. }
  change 65472 with (2 ^ 16 - 2 ^ 6). change 254 with (2 ^ 8 - 2 ^ 1).
  rewrite !land_high by lia. change (2 ^ 6) with 64. change (2 ^ 1) with 2.
  rewrite (high_bits_eq 64 65152), (high_bits_eq 2 252) by done.
  rewrite !div_block, div_eq_block by lia.
  repeat match goal with
  | |- context [?a =? ?b] => destruct (a =? b)
  | |- context [?a <=? ?b] => destruct (a <=? b)
  | |- context [?a <? ?b] => destruct (a <? b)
  end; reflexivity.
Qed.

Lemma public_special_6 v :
  0 <= v < 2 ^ 128 -> Is4In6 (Addr6 v EmptyString) = false ->
  publicAddress (Addr6 v EmptyString) = negb (special (Addr6 v EmptyString)).
Proof.
  intros Hv Hm. rewrite v6_class, special_6 by done.
  repeat match goal with |- context [2 ^ ?n] =>
    let k := eval vm_compute in (2 ^ n) in change (2 ^ n) with k end.
  compute_blocks. apply eq_true_iff_eq. lia.
Qed.

Lemma public_special a :
  addr_wf a -> IsValid a = true -> Zone a = EmptyString -> Is4In6 a = false ->
  publicAddress a = negb (special a).
Proof.
  destruct a as [|v|v z]; intros Hw Hv Hz Hm; [discriminate Hv|exact (public_special_4 v Hw)|].
  change (z = EmptyString) in Hz. subst z. exact (public_special_6 v Hw Hm).
Qed.

Lemma prefix_size_pos p : prefix_wf p -> 0 < prefix_size p.
Proof. intros (_ & _ & _ & H). unfold prefix_size. apply Z.pow_pos_nonneg; lia. Qed.

Lemma contains_base p : prefix_wf p -> prefix_masked p -> Contains p (p_addr p) = true.
Proof.
  intros Hw Hm. pose proof (prefix_size_pos p Hw). apply Contains_spec; [done..|].
  destruct Hw as (_ & Hv & Hz & Hb). split; [done|]. split; [done|]. split; [done|lia].
Qed.

Lemma Is4_bitlen a b :
  IsValid a = true -> IsValid b = true -> Is4 a = Is4 b -> BitLen a = BitLen b.
Proof. by destruct a, b. Qed.

(** A longer prefix whose base lies in a block lies in the block entirely. *)
Lemma block_inclusion b1 n1 b2 n2 :
  0 <= n2 <= n1 -> b1 mod 2 ^ n1 = 0 -> b2 mod 2 ^ n2 = 0 ->
  b1 <= b2 < b1 + 2 ^ n1 -> b2 + 2 ^ n2 <= b1 + 2 ^ n1.
Proof.
  intros Hn H1 H2 Hb.
  assert (0 < 2 ^ n2) by (apply Z.pow_pos_nonneg; lia).
  assert (0 < 2 ^ n1) by (apply Z.pow_pos_nonneg; lia).
  assert (2 ^ n1 = 2 ^ (n1 - n2) * 2 ^ n2) as E.
  { rewrite <- Z.pow_add_r by lia. f_equal. lia. }
  apply Z.mod_divide in H1 as [q1 ->]; [|lia]. apply Z.mod_divide in H2 as [q2 ->]; [|lia].
  rewrite E in *. clear E. generalize dependent (2 ^ n2). intros s.
  generalize (2 ^ (n1 - n2)). intros k Hb Hs _.
  assert (q2 < (q1 + 1) * k) as Hq by (apply (Z.mul_lt_mono_pos_r s); nia).
  assert ((q2 + 1) * s <= (q1 + 1) * k * s) by (apply Z.mul_le_mono_nonneg_r; lia). nia.
Qed.

Lemma specialPurpose_spec p :
  specialPurpose p = true <->
  exists r, In r specialRanges /\ Is4 (p_addr r) = Is4 (p_addr p) /\
            p_bits r <= p_bits p /\ Contains r (p_addr p) = true.
Proof.
  unfold specialPurpose, specialRanges. rewrite existsb_exists.
  split; intros (r & Hr & H); exists r; (split; [done|]).
  - bool_to_prop. by apply Bool.eqb_prop in H.
  - destruct H as (-> & Hb & ->). rewrite Bool.eqb_reflx, andb_true_r. by apply Z.leb_le.
Qed.

Lemma prefix_included r p :
  prefix_wf r -> prefix_masked r -> prefix_wf p -> prefix_masked p ->
  p_bits r <= p_bits p -> Contains r (p_addr p) = true ->
  forall a, Contains p a = true -> Contains r a = true.
Proof.
  intros Hrw Hrm Hpw Hpm Hb Hc a Ha.
  apply Contains_spec in Hc as (H4 & Hv & Hz & Hcb); [|done..].
  apply Contains_spec in Ha as (H4' & Hv' & Hz' & Hab); [|done..].
  apply Contains_spec; [done..|]. repeat split; [congruence|done|done|lia|].
  assert (BitLen (p_addr r) = BitLen (p_addr p)) as E.
  { apply Is4_bitlen; [apply Hrw|apply Hpw|done]. }
  unfold prefix_masked, prefix_size in *. rewrite E in *.
  destruct Hpw as (_ & _ & _ & Hpb). destruct Hrw as (_ & _ & _ & Hrb). rewrite E in Hrb.
  pose proof (block_inclusion (bits_of (p_addr r)) (BitLen (p_addr p) - p_bits r)
    (bits_of (p_addr p)) (BitLen (p_addr p) - p_bits p) ltac:(lia) Hrm Hpm Hcb). lia.
Qed.

(** The last address of a masked prefix. *)
Definition last_addr (p : Prefix) : Addr :=
  match p_addr p with
  | Addr4 b => Addr4 (b + prefix_size p - 1)
  | Addr6 b _ => Addr6 (b + prefix_size p - 1) EmptyString
  | AddrZero => AddrZero
  end.

Lemma last_addr_in p :
  prefix_wf p -> prefix_masked p ->
  Contains p (last_addr p) = true /\ bits_of (last_addr p) = bits_of (p_addr p) + prefix_size p - 1.
Proof.
  intros Hw Hm. pose proof (prefix_size_pos p Hw). pose proof Hw as (Ha & Hv & Hz & Hb).
  split.
  - apply Contains_spec; [done..|]. unfold last_addr.
    destruct (p_addr p); simpl in *; [done|repeat split; lia..].
  - unfold last_addr. by destruct (p_addr p).
Qed.

Lemma included_prefix r p :
  prefix_wf r -> prefix_masked r -> prefix_wf p -> prefix_masked p ->
  (forall a, Contains p a = true -> Contains r a = true) ->
  Is4 (p_addr r) = Is4 (p_addr p) /\ p_bits r <= p_bits p /\ Contains r (p_addr p) = true.
Proof.
  intros Hrw Hrm Hpw Hpm Hi.
  pose proof (Hi _ (contains_base p Hpw Hpm)) as Hc.
  destruct (last_addr_in p Hpw Hpm) as [Hl El]. apply Hi in Hl.
  pose proof Hc as Hc'. apply Contains_spec in Hc' as (H4 & Hv & Hz & Hcb); [|done..].
  apply Contains_spec in Hl as (_ & _ & _ & Hlb); [|done..].
  repeat split; [done| |done].
  assert (BitLen (p_addr r) = BitLen (p_addr p)) as E.
  { apply Is4_bitlen; [apply Hrw|apply Hpw|done]. }
  assert (prefix_size p <= prefix_size r) as Hs by lia.
  unfold prefix_size in Hs. rewrite E in Hs.
  destruct Hpw as (_ & _ & _ & Hpb). destruct Hrw as (_ & _ & _ & Hrb).
  apply Z.pow_le_mono_r_iff in Hs; lia.
Qed.

(** ** Properties *)

(** [publicAddress], which combines the classifiers of [net/netip]
    with the [nonPublic] list, accepts a resolved address exactly when no range
    of the special-purpose table that [specialPurpose] uses contains it: the
    two routines of the code agree on every address. *)
Theorem publicAddress_decides_table (a : Addr) :
  addr_wf a -> IsValid a = true -> Zone a = EmptyString ->
  publicAddress (Unmap a) = negb (special (Unmap a)).
Proof.
  intros Hw Hv Hz. apply public_special; auto with netip. by rewrite Unmap_valid.
Qed.

Lemma publicAddress_decides_table_witness :
  publicAddress (Unmap (Addr6 (65535 * 2 ^ 32 + 2130706433) "")) =
  negb (special (Unmap (Addr6 (65535 * 2 ^ 32 + 2130706433) ""))) /\
  special (Unmap (Addr6 (65535 * 2 ^ 32 + 2130706433) "")) = true.
Proof.
  split; [|vm_compute; reflexivity].
  apply publicAddress_decides_table; [unfold addr_wf; lia|reflexivity|reflexivity].
Defined.

(** [specialPurpose] accepts a masked prefix exactly when one single
    range of the table contains every address of the prefix. *)
Theorem specialPurpose_iff_one_range (p : Prefix) :
  prefix_wf p -> prefix_masked p ->
  specialPurpose p = true <->
  exists r, In r specialRanges /\ forall a, Contains p a = true -> Contains r a = true.
Proof.
  intros Hw Hm. rewrite specialPurpose_spec. split.
  - intros (r & Hr & _ & Hb & Hc). exists r. split; [done|].
    destruct (specialRanges_ok r Hr). by apply prefix_included.
  - intros (r & Hr & Hi). exists r. split; [done|].
    destruct (specialRanges_ok r Hr). by apply included_prefix.
Qed.

Lemma specialPurpose_iff_one_range_witness :
  exists r, In r specialRanges /\
    forall a, Contains (mkPrefix (Addr4 167837696) 16) a = true -> Contains r a = true.
Proof.
  apply (specialPurpose_iff_one_range (mkPrefix (Addr4 167837696) 16));
    [repeat split; simpl; lia || done|vm_compute; reflexivity|vm_compute; reflexivity].
Defined.

Lemma special_not_public p a :
  prefix_wf p -> prefix_masked p -> specialPurpose p = true ->
  addr_wf a -> Is4In6 a = false -> Contains p a = true -> publicAddress a = false.
Proof.
  intros Hw Hm Hs Ha H46 Hc.
  apply specialPurpose_spec in Hs as (r & Hr & _ & Hb & Hrc).
  destruct (specialRanges_ok r Hr) as [Hrw Hrm].
  pose proof (prefix_included r p Hrw Hrm Hw Hm Hb Hrc a Hc) as Hra.
  apply Contains_spec in Hc as (_ & Hv & Hz & _); [|done..].
  rewrite public_special by done. apply negb_false_iff. apply existsb_exists. eauto.
Qed.
