(* ===== verification/PolicyRules.v ===== *)
(** * Ports, rule selection and name matching: what the pieces of [policy.go] decide *)

From S2P Require Import Prelude GoStrings Netip Policy.
From Stdlib Require Import Permutation.

Local Open Scope go_scope.

(** ** Ports *)

Definition port_range_ok (r : Z * Z) : Prop := 1 <= fst r <= snd r /\ snd r <= 65535.

Lemma parsePort_range s n : parsePort s = Ok n -> 1 <= n <= 65535.
Proof.
  unfold parsePort. intros H. case_hyp H. bool_to_prop.
  match goal with E : parse_uint _ _ = _ |- _ => apply parse_uint_range in E end. lia.
Qed.

Lemma parsePort_format n : 1 <= n <= 65535 -> parsePort (format_uint n) = Ok n.
Proof.
  intros H. unfold parsePort. rewrite parse_uint_format by lia.
  by rewrite (proj2 (Z.eqb_neq n 0)) by lia.
Qed.

Lemma parsePortEntry_range v r : parsePortEntry v = Ok r -> port_range_ok r.
Proof.
  unfold parsePortEntry. intros H. case_hyp H; bool_to_prop;
    repeat match goal with E : parsePort _ = Ok _ |- _ => apply parsePort_range in E end;
    unfold port_range_ok; simpl; lia.
Qed.

Definition add_port_entry (set : portSet) (value : json_any) : Result portSet :=
  let? range := parsePortEntry value in
  Ok (mkPortSet (ps_any set) (ps_ranges set ++ [range])).

(** The loop appends one range per entry, in order. *)
Lemma add_port_entries vs set set' :
  fold_result add_port_entry set vs = Ok set' ->
  ps_any set' = ps_any set /\
  exists rs, ps_ranges set' = ps_ranges set ++ rs /\
             Forall2 (fun v r => parsePortEntry v = Ok r) vs rs.
Proof.
  revert set. induction vs as [|v vs IH]; intros set H; simpl in H.
  { simplify_eq. split; [done|]. exists []. rewrite app_nil_r. by split; constructor. }
  unfold add_port_entry at 1 in H. destruct (parsePortEntry v) as [r|] eqn:E; [|done].
  apply IH in H as (Ha & rs & Hr & HF). split; [exact Ha|].
  exists (r :: rs). simpl in Hr. rewrite Hr, <- app_assoc. split; [done|by constructor].
Qed.

Lemma parsePorts_entries vs ps :
  parsePorts (Some vs) = Ok ps ->
  vs <> [] /\ ps_any ps = false /\ Forall2 (fun v r => parsePortEntry v = Ok r) vs (ps_ranges ps).
Proof.
  unfold parsePorts. destruct vs as [|v vs]; [done|]. intros H.
  apply add_port_entries in H as (Ha & rs & Hr & HF). simpl in Ha, Hr.
  split; [done|]. split; [done|]. by rewrite Hr.
Qed.

Definition portSet_wf (ps : portSet) : Prop := Forall port_range_ok (ps_ranges ps).

Lemma parsePorts_wf o ps : parsePorts o = Ok ps -> portSet_wf ps.
Proof.
  destruct o as [vs|]; [|intros [= <-]; constructor].
  intros H. apply parsePorts_entries in H as (_ & _ & HF). unfold portSet_wf.
  induction HF; constructor; [by eapply parsePortEntry_range|done].
Qed.

(** A loaded [ports] list permits a port exactly when one of its
    entries, read on its own, covers the port; every entry lies within
    1..65535 with its bounds in order, so port 0 is never permitted by a list. *)
Theorem parsePorts_permits_entries (vs : list json_any) (ps : portSet) (port : Z) :
  parsePorts (Some vs) = Ok ps ->
  (permits ps port = true <->
   exists v lo hi, In v vs /\ parsePortEntry v = Ok (lo, hi) /\
                   1 <= lo <= hi /\ hi <= 65535 /\ lo <= port <= hi).
Proof.
  intros H. apply parsePorts_entries in H as (_ & Ha & HF).
  unfold permits. rewrite Ha, existsb_exists. split.
  - intros ([lo hi] & Hin & Hp). bool_to_prop. simpl in *.
    apply list_elem_of_In, list_elem_of_lookup in Hin as [i Hi].
    destruct (Forall2_lookup_r _ _ _ _ _ HF Hi) as (v & Hv & E).
    pose proof (parsePortEntry_range _ _ E) as [Hr1 Hr2]. simpl in *.
    exists v, lo, hi. split; [|done].
    apply list_elem_of_In. by eapply list_elem_of_lookup_2.
  - intros (v & lo & hi & Hin & E & _ & _ & Hp).
    apply list_elem_of_In, list_elem_of_lookup in Hin as [i Hi].
    destruct (Forall2_lookup_l _ _ _ _ _ HF Hi) as (r & Hr & E').
    rewrite E in E'. simplify_eq. exists (lo, hi). split.
    + apply list_elem_of_In. by eapply list_elem_of_lookup_2.
    + simpl. rewrite andb_true_iff, !Z.leb_le. lia.
Qed.

Lemma parsePorts_permits_entries_witness :
  permits (mkPortSet false [(443, 443); (8000, 8099)]) 8050 = true.
Proof.
  apply (parsePorts_permits_entries [JString "443"; JString "8000-8099"]).
  - vm_compute. reflexivity.
  - exists (JString "8000-8099"), 8000, 8099.
    split; [right; left; reflexivity|]. split; [vm_compute; reflexivity|lia].
Defined.

(** ** Rule selection *)

Definition allows (port : Z) (network : string) (r : rule) : bool :=
  permits (r_ports r) port && has (r_transports r) network.

(** What a denial reports: the transport when some candidate permits the port,
    else the port when there is a candidate at all. *)
Definition denial_reason (candidates : list rule) (port : Z) : string :=
  if existsb (fun r => permits (r_ports r) port) candidates then "transport-not-allowed"
  else match candidates with [] => EmptyString | _ => "port-not-allowed" end.

Lemma selectRule_loop_spec cs port network reason :
  selectRule_loop cs port network reason =
  match List.find (allows port network) cs with
  | Some r => (Some r, EmptyString)
  | None =>
      (None, if existsb (fun r => permits (r_ports r) port) cs then "transport-not-allowed"%string
             else match cs with
                  | [] => reason
                  | _ => if String.eqb reason EmptyString then "port-not-allowed"%string else reason
                  end)
  end.
Proof.
  revert reason. induction cs as [|r cs IH]; intros reason; [done|].
  simpl. unfold allows at 1. destruct (permits (r_ports r) port) eqn:Ep; simpl.
  - destruct (has (r_transports r) network); simpl; [done|].
    rewrite IH. destruct (List.find _ cs); [done|].
    destruct (existsb _ cs); [done|]. by destruct cs.
  - rewrite IH. destruct (List.find _ cs); [done|].
    destruct (existsb _ cs); [done|]. destruct cs; [done|].
    destruct (String.eqb reason EmptyString) eqn:E; [done|]. by rewrite E.
Qed.

Lemma selectRule_spec cs port network :
  selectRule cs port network =
  match List.find (allows port network) cs with
  | Some r => (Some r, EmptyString)
  | None => (None, denial_reason cs port)
  end.
Proof.
  unfold selectRule. rewrite selectRule_loop_spec. unfold denial_reason.
  destruct (List.find _ cs); [done|]. destruct (existsb _ cs); [done|]. by destruct cs.
Qed.

Lemma denial_reason_empty cs port : denial_reason cs port = EmptyString <-> cs = [].
Proof. unfold denial_reason. destruct cs; simpl; [done|]. split; [|done]. by case_goal. Qed.

Lemma find_None_existsb {A} (f : A -> bool) l : List.find f l = None <-> existsb f l = false.
Proof.
  induction l as [|a l IH]; simpl; [done|]. destruct (f a); simpl; [done|exact IH].
Qed.

Lemma existsb_permutation {A} (f : A -> bool) l l' :
  Permutation l l' -> existsb f l = existsb f l'.
Proof.
  intros HP. apply eq_true_iff_eq. rewrite !existsb_exists.
  split; intros (x & Hx & E); exists x; (split; [|done]).
  - by apply (Permutation_in _ HP).
  - by apply (Permutation_in _ (Permutation_sym HP)).
Qed.

Lemma denial_reason_permutation cs cs' port :
  Permutation cs cs' -> denial_reason cs port = denial_reason cs' port.
Proof.
  intros HP. unfold denial_reason. rewrite (existsb_permutation _ _ _ HP).
  destruct (existsb _ cs'); [done|]. destruct cs as [|r cs], cs' as [|r' cs']; try done.
  - by apply Permutation_nil in HP.
  - by apply Permutation_sym, Permutation_nil in HP.
Qed.

(** [selectRule] selects the first candidate that permits the port
    and the transport; when none does, whether it refuses and the reason it
    reports do not depend on the order of the candidates: the transport when
    some candidate permits the port, the port when there is any candidate, and
    the empty reason only when there is none. *)
Theorem selectRule_first_allowing (cs cs' : list rule) (port : Z) (network : string) :
  Permutation cs cs' ->
  match selectRule cs port network with
  | (Some r, reason) =>
      reason = EmptyString /\ allows port network r = true /\
      (exists before after, cs = before ++ r :: after /\
         forall q, In q before -> allows port network q = false) /\
      exists r', selectRule cs' port network = (Some r', EmptyString)
  | (None, reason) =>
      (forall q, In q cs -> allows port network q = false) /\
      reason = denial_reason cs port /\
      selectRule cs' port network = (None, reason)
  end.
Proof.
  intros HP. rewrite !selectRule_spec.
  destruct (List.find (allows port network) cs) as [r|] eqn:E.
  - split; [done|]. split; [by destruct (List.find_some _ _ E)|]. split.
    + clear HP. induction cs as [|q cs IH]; simpl in E; [done|].
      destruct (allows port network q) eqn:Eq.
      * simplify_eq. by exists [], cs.
      * destruct (IH E) as (b & a & -> & Hb). exists (q :: b), a. split; [done|].
        intros q' [->|Hq']; [done|by apply Hb].
    + destruct (List.find _ cs') eqn:E'; [eauto|].
      apply find_None_existsb in E'. rewrite <- (existsb_permutation _ _ _ HP) in E'.
      apply find_None_existsb in E'. congruence.
  - split; [by apply existsb_false_iff, find_None_existsb|]. split; [done|].
    apply find_None_existsb in E. rewrite (existsb_permutation _ _ _ HP) in E.
    apply find_None_existsb in E. rewrite E. f_equal. by apply denial_reason_permutation.
Qed.

(** A rule on one port and TCP, for the concrete instances. *)
Definition sample_rule (id : string) (port : Z) : rule :=
  mkRule id (mkPortSet false [(port, port)]) (mkTransportSet true false) [] PrefixZero.

Lemma selectRule_first_allowing_witness :
  selectRule [sample_rule "b" 80; sample_rule "a" 22] 443 "tcp" = (None, "port-not-allowed"%string).
Proof.
  pose proof (selectRule_first_allowing [sample_rule "a" 22; sample_rule "b" 80]
    [sample_rule "b" 80; sample_rule "a" 22] 443 "tcp" (perm_swap _ _ [])) as H.
  destruct H as (_ & _ & H). exact H.
Defined.

(** ** Names by labels *)

(** The labels of a name. *)
Definition labels (name : string) : list string := split "." name.

Definition valid_label (l : string) : Prop :=
  1 <= str_len l <= 63 /\ str_all valid_name_byte l = true.

(** [validName] accepts exactly the names of at most 253 bytes whose
    dot-separated labels each have 1 to 63 bytes from [a-z 0-9 - _]. *)
Theorem validName_labels (name : string) :
  validName name = true <->
  str_len name <= 253 /\ Forall valid_label (labels name).
Proof.
  unfold validName, labels. destruct (String.eqb name EmptyString) eqn:Ee; simpl.
  { apply String.eqb_eq in Ee as ->. split; [done|]. intros [_ HF].
    inversion HF as [|? ? [Hl _] _]; subst. unfold str_len in Hl. simpl in Hl. lia. }
  assert (forall l, (if String.eqb l EmptyString || (63 <? str_len l) then false
                     else str_all valid_name_byte l) = true <-> valid_label l) as Hl.
  { intros l. unfold valid_label. destruct l as [|c l]; [unfold str_len; simpl; split; [done|lia]|].
    simpl String.eqb. unfold str_len. simpl String.length. rewrite orb_false_l.
    destruct (63 <? Z.of_nat (S (String.length l))) eqn:E; bool_to_prop; [split; [done|lia]|].
    split; [|tauto]. intros ->. lia. }
  destruct (253 <? str_len name) eqn:E; bool_to_prop; [split; [done|lia]|].
  rewrite forallb_forall, Forall_forall.
  split; [intros H; split; [done|]; intros x Hx|intros [_ H] x Hx].
  - apply Hl, H. by apply list_elem_of_In.
  - apply Hl, H. by apply list_elem_of_In.
Qed.

Lemma suffix_labels a suffix :
  labels (a +:+ ("." +:+ suffix)) = labels a ++ labels suffix.
Proof. apply split_app_sep. Qed.

(** A suffix rule matches a name exactly when the name's labels are at
    least one label, and at most [depth] labels when a depth is set, followed by
    the labels of the suffix: the suffix itself never matches, and neither does a
    name that merely ends with the same bytes. *)
Theorem suffixMatches_by_labels (name : string) (s : suffixRule) :
  suffixMatches name s = true <->
  exists pre, pre <> [] /\ labels name = pre ++ labels (s_suffix s) /\
              (0 < s_depth s -> Z.of_nat (List.length pre) <= s_depth s).
Proof.
  unfold suffixMatches.
  destruct (has_suffix ("." +:+ s_suffix s) name) eqn:Hs; cbn [negb].
  - apply has_suffix_spec in Hs as [a ->].
    assert (str_take (String.length (a +:+ ("." +:+ s_suffix s))
                      - String.length (s_suffix s) - 1) (a +:+ ("." +:+ s_suffix s)) = a) as ->.
    { rewrite !length_app_string. simpl String.length.
      replace (_ - _ - _)%nat with (String.length a) by lia. apply str_take_app. }
    rewrite suffix_labels, <- (length_split "." a).
    destruct (0 <? s_depth s) eqn:Ed; simpl.
    + destruct (s_depth s <? Z.of_nat (List.length (split "." a))) eqn:El; bool_to_prop.
      * split; [done|]. intros (pre & _ & E & Hd).
        apply app_inv_tail in E. subst pre. specialize (Hd ltac:(lia)). unfold labels in Hd. lia.
      * split; [|done]. intros _. exists (labels a). split; [apply split_not_nil|].
        split; [done|]. intros _. exact El.
    + split; [|done]. intros _. exists (labels a). split; [apply split_not_nil|].
      split; [done|]. bool_to_prop. lia.
  - split; [done|]. intros (pre & Hp & E & _). exfalso.
    assert (name = (join "." pre +:+ ("." +:+ s_suffix s))%string) as Hn.
    { rewrite <- (join_split "." name). unfold labels in E. rewrite E.
      rewrite <- (join_split "." (s_suffix s)) at 2.
      pose proof (split_not_nil "." (s_suffix s)) as Hne.
      destruct (split "." (s_suffix s)) as [|b l]; [done|]. clear E Hs Hne.
      induction pre as [|a pre IH]; [done|]. destruct pre as [|a' pre]; [done|].
      change (join "." (a :: (a' :: pre)))
        with ((a +:+ ("." +:+ join "." (a' :: pre)))%string).
      rewrite !app_string_assoc. simpl app. simpl app in IH.
      change (join "." (a :: a' :: pre ++ b :: l))
        with ((a +:+ ("." +:+ join "." (a' :: pre ++ b :: l)))%string).
      by rewrite IH. }
    assert (has_suffix ("." +:+ s_suffix s) name = true) by (apply has_suffix_spec; eauto).
    congruence.
Qed.
