(* ===== verification/PolicyLoad.v ===== *)
(** * Loading a descriptor: what [loadDescriptor] guarantees

    The well-formedness invariant of a loaded [policy], and that every step of
    the loader preserves it. *)

From S2P Require Import Prelude GoStrings Netip Policy PolicyAddr PolicyRules.
From Stdlib Require Import Floats.SpecFloat.

Local Open Scope go_scope.

(** ** The invariant *)

(** An address that may be dialed or listed: valid, unzoned, not IPv4-mapped. *)
Definition plain_addr (a : Addr) : Prop :=
  addr_wf a /\ IsValid a = true /\ Zone a = EmptyString /\ Is4In6 a = false.

Definition rule_wf (r : rule) : Prop :=
  str_len (r_id r) <= 64 /\ portSet_wf (r_ports r) /\
  tcp (r_transports r) || udp (r_transports r) = true /\
  Forall plain_addr (r_resolve r).

Definition prefix_rule_wf (r : rule) : Prop :=
  prefix_wf (r_prefix r) /\ prefix_masked (r_prefix r) /\ r_resolve r = [].

Record policy_wf (p : policy) : Prop := {
  wf_version : 1 <= str_len (p_version p) <= 256;
  wf_sandbox : 1 <= str_len (p_sandbox p) <= 256;
  wf_names : forall name rs, p_names p !! name = Some rs ->
    validName name = true /\ rs <> [] /\ Forall rule_wf rs;
  wf_suffixes : Forall (fun s =>
    validName (s_suffix s) = true /\ 0 <= s_depth s <= 126 /\
    rule_wf (s_rule s) /\ r_resolve (s_rule s) = []) (p_suffixes p);
  wf_wildcard : Forall (fun r => rule_wf r /\ r_resolve r = []) (p_wildcard p);
  wf_literals : Forall (fun r => rule_wf r /\ prefix_rule_wf r) (p_literals p);
  wf_exceptions : Forall (fun r =>
    portSet_wf (r_ports r) /\ prefix_rule_wf r /\ specialPurpose (r_prefix r) = true)
    (p_exceptions p);
}.

(** ** Pieces *)

Lemma bad_label_false s : bad_label s = false -> 1 <= str_len s <= 256.
Proof.
  unfold bad_label. intros H. bool_to_prop. destruct s; [done|].
  unfold str_len in *. simpl String.length in *. lia.
Qed.

Lemma parsePrefix_wf text p : parsePrefix text = Ok p -> prefix_wf p /\ prefix_masked p.
Proof.
  unfold parsePrefix. destruct (ParsePrefix text) as [q|] eqn:E; [|done].
  apply ParsePrefix_wf in E. intros H. case_hyp H; bool_to_prop; apply Masked_wf; [|done].
  destruct E as (Hw & Hv & Hz & Hb).
  destruct (Unmap_cases (p_addr q)) as [[H4 _]|(v & z & Ea & _ & EU)]; [congruence|].
  assert (addr_wf (Unmap (p_addr q))) as HU by (by apply Unmap_wf).
  rewrite EU in *. rewrite Ea in *. apply PrefixFrom_wf; [done..|]. simpl in *. lia.
Qed.

Lemma parseTransports_some o t : parseTransports o = Ok t -> tcp t || udp t = true.
Proof.
  unfold parseTransports. destruct o as [[|v vs]|]; [done| |by intros [= <-]].
  set (step := fun set value => _). intros H.
  assert (forall s x s', step s x = Ok s' -> tcp s' || udp s' = true) as Hstep.
  { intros s x s'. unfold step. case_goal; intros [= <-]; simpl; [done|apply orb_true_r]. }
  simpl in H. destruct (step _ v) as [s1|] eqn:E; [|done].
  apply (fold_result_invariant (fun s => tcp s || udp s = true)) in H; [done| |by eapply Hstep].
  intros s x s' _ _. apply Hstep.
Qed.

Lemma parse_resolve_plain raws l : parse_resolve raws = Ok l -> Forall plain_addr l.
Proof.
  unfold parse_resolve. intros H.
  apply (fold_result_invariant (Forall plain_addr)) in H; [done| |constructor].
  intros acc raw acc' Hacc _ Hs. cbv beta in Hs.
  destruct (ParseAddr raw) as [a|] eqn:E; [|done].
  destruct (String.eqb (Zone a) EmptyString) eqn:Ez; [|done]. simpl in Hs. simplify_eq.
  apply ParseAddr_wf in E as [Hw Hv]. apply String.eqb_eq in Ez.
  apply Forall_app. split; [done|]. repeat constructor; auto with netip.
  by rewrite Unmap_valid.
Qed.

Lemma rule_resolve_plain dr l :
  rule_resolve dr = Ok l ->
  Forall plain_addr l /\ (dr_name dr = EmptyString \/ dr_name dr = "*"%string -> l = []).
Proof.
  unfold rule_resolve. destruct (dr_resolve dr) as [raws|]; [|intros [= <-]; by split].
  destruct (_ || _) eqn:E; [done|]. bool_to_prop. intros Hl. split; [|tauto].
  destruct raws; [done|by eapply parse_resolve_plain].
Qed.

Section Load.
Context `{GoUnicode, NameProfile}.

Lemma normalizeName_valid host name : normalizeName host = Some name -> validName name = true.
Proof. unfold normalizeName. intros H'. by case_hyp H'. Qed.

Lemma place_rule_wf p dr r p' :
  policy_wf p -> rule_wf r -> 0 <= dr_depth dr <= 126 ->
  (dr_name dr = EmptyString \/ dr_name dr = "*"%string -> r_resolve r = []) ->
  place_rule p dr r = Ok p' -> policy_wf p'.
Proof.
  intros Hp Hr Hd Hres Hplace. unfold place_rule in Hplace. destruct Hp.
  destruct (String.eqb (dr_name dr) "*") eqn:Estar.
  { simplify_eq. apply String.eqb_eq in Estar. split; try done.
    apply Forall_snoc; auto. }
  destruct (String.eqb (dr_name dr) EmptyString) eqn:Ename; cbn [negb] in Hplace.
  2:{ destruct (normalizeName (dr_name dr)) as [name|] eqn:En; [|done]. simpl in Hplace.
      simplify_eq. split; try done. intros k rs Hk. simpl in Hk.
      apply lookup_insert_Some in Hk as [[<- <-]|[_ Hk]]; [|by apply wf_names0].
      split; [by eapply normalizeName_valid|]. split; [by destruct (default [] _)|].
      apply Forall_snoc; [|done].
      destruct (p_names p !! name) eqn:El; [by eapply wf_names0|constructor]. }
  apply String.eqb_eq in Ename. specialize (Hres (or_introl Ename)).
  destruct (String.eqb (dr_suffix dr) EmptyString); cbn [negb] in Hplace.
  2:{ destruct (normalizeName (dr_suffix dr)) as [sfx|] eqn:En; [|done]. simpl in Hplace.
      simplify_eq. split; try done. apply Forall_snoc; [done|].
      split; [by eapply normalizeName_valid|done]. }
  destruct (String.eqb (dr_ip dr) EmptyString); cbn [negb] in Hplace.
  - destruct (parsePrefix (dr_cidr dr)) as [pre|] eqn:Ep; [|done]. simplify_eq.
    apply parsePrefix_wf in Ep as [Hw Hm].
    split; try done. apply Forall_snoc; [done|]. split; [done|by split].
  - destruct (ParseAddr (dr_ip dr)) as [a|] eqn:Ea; [|done].
    destruct (String.eqb (Zone a) EmptyString); [|done]. simpl in Hplace. simplify_eq.
    apply ParseAddr_wf in Ea as [Hw Hv].
    assert (addr_wf (Unmap a)) by (by apply Unmap_wf).
    assert (IsValid (Unmap a) = true) by (by rewrite Unmap_valid).
    pose proof (IsValid_bitlen _ ltac:(eassumption)).
    split; try done. apply Forall_snoc; [done|]. split; [done|].
    split; [apply PrefixFrom_wf; [done|done|lia]|]. split; [|done].
    unfold prefix_masked, PrefixFrom.
    rewrite Z.leb_refl, (proj2 (Z.leb_le 0 _)) by lia.
    replace (IsValid (Unmap a)) with true. simpl.
    by destruct (Unmap a); simpl; rewrite ?Z.sub_diag, ?Z.mod_1_r.
Qed.

Lemma addRule_wf p dr p' : policy_wf p -> addRule p dr = Ok p' -> policy_wf p'.
Proof.
  intros Hp Hadd. unfold addRule in Hadd. destruct (negb _); [done|].
  destruct (64 <? str_len (dr_id dr)) eqn:Eid; [done|].
  destruct (parsePorts (dr_ports dr)) as [ports|] eqn:Eports; [|done].
  destruct (parseTransports (dr_transports dr)) as [tr|] eqn:Etr; [|done].
  destruct (rule_resolve dr) as [res|] eqn:Eres; [|done].
  destruct (_ && _) eqn:Ed; [done|].
  apply rule_resolve_plain in Eres as [Hres Hnil].
  eapply place_rule_wf; [exact Hp| | | |exact Hadd]; [| |exact Hnil].
  2:{ destruct (dr_depth dr =? 0) eqn:E0; bool_to_prop; [lia|].
      destruct Ed as [Ed|Ed]; [done|]. bool_to_prop. lia. }
  split; [by apply Z.ltb_ge in Eid|]. split; [by eapply parsePorts_wf|].
  split; [by eapply parseTransports_some|done].
Qed.

Lemma addException_wf p dr p' : policy_wf p -> addException p dr = Ok p' -> policy_wf p'.
Proof.
  intros Hp Hadd. unfold addException in Hadd. destruct (negb _); [done|].
  destruct (parsePrefix (dr_cidr dr)) as [pre|] eqn:Ep; [|done].
  destruct (specialPurpose pre) eqn:Es; [|done]. cbn [negb] in Hadd.
  destruct (parsePorts (dr_ports dr)) as [ports|] eqn:Eports; [|done]. simplify_eq.
  apply parsePrefix_wf in Ep as [Hw Hm]. apply parsePorts_wf in Eports.
  destruct Hp. split; try done. apply Forall_snoc; [done|]. split; [done|split; [by split|done]].
Qed.

Context (json_decode : string -> option (descriptor * string)).

Lemma loadDescriptor_wf (data generation : string) (p : policy) :
  loadDescriptor json_decode data generation = Ok p -> policy_wf p.
Proof.
  unfold loadDescriptor. destruct (json_decode data) as [[d rest]|]; [|done].
  destruct (decoder_more rest); [done|]. destruct (negb _); [done|].
  destruct (bad_label (d_version d)) eqn:Ev; [done|].
  destruct (bad_label (d_sandbox d)) eqn:Es; [done|]. destruct (negb _); [done|].
  apply bad_label_false in Ev, Es. intros Hload.
  destruct (fold_result addRule _ (d_rules d)) as [p1|] eqn:E1; [|done].
  apply (fold_result_invariant policy_wf) in Hload; [done| |].
  - intros q dr q' Hq _. by apply addException_wf.
  - apply (fold_result_invariant policy_wf) in E1; [done| |].
    + intros q dr q' Hq _. by apply addRule_wf.
    + by split.
Qed.

(** Claim C25: a descriptor that loads yields a well-formed policy: labels
    within their bounds, every port list within 1..65535, at least one
    transport per rule, name and suffix keys that are valid hostnames, depths
    of at most 126, static resolution only on exact names and only with
    plain addresses, canonical prefixes on literal rules, and exceptions that
    each lie within one special-purpose range. *)
Theorem loadDescriptor_well_formed (data generation : string) (p : policy) :
  loadDescriptor json_decode data generation = Ok p -> policy_wf p.
Proof. apply loadDescriptor_wf. Qed.
End Load.

(** ** A concrete descriptor *)

(** An IDNA profile that keeps every name. *)
#[local] Existing Instance ascii_unicode.
#[local] Instance ascii_profile : NameProfile := {| ToASCII := Some |}.

Definition rule_of (name suffix : string) (depth : Z) (ip cidr : string) : descriptorRule :=
  mkDescriptorRule "r" name suffix depth ip cidr (Some [JString "443"]) None None.

Definition sample_descriptor : descriptor :=
  mkDescriptor 1 "v7" "sandbox" "deny"
    [mkDescriptorRule "api" "API.example.com." "" 0 "" "" (Some [JString "443"; JString "8000-8099"])
       (Some ["tcp"; "udp"]%string) (Some ["10.0.0.7"; "::ffff:1.2.3.4"]%string);
     rule_of "" "example.org" 2 "" ""; rule_of "*" "" 0 "" "";
     rule_of "" "" 0 "192.0.2.9" ""; rule_of "" "" 0 "" "10.9.8.7/8"]
    [mkDescriptorRule "" "" "" 0 "" "10.1.0.0/16" None None None]
    true false.

Definition load_sample : Result policy :=
  loadDescriptor (fun _ => Some (sample_descriptor, EmptyString)) EmptyString "g1".

Definition sample_policy : policy :=
  match load_sample with Ok p => p | Err _ => mkPolicy "" "" "" false ∅ [] [] [] [] end.

Lemma loadDescriptor_well_formed_witness :
  policy_wf sample_policy /\ List.length (p_literals sample_policy) = 2%nat.
Proof.
  split; [|vm_compute; reflexivity].
  apply (loadDescriptor_well_formed (fun _ => Some (sample_descriptor, EmptyString)) EmptyString "g1").
  vm_compute. reflexivity.
Defined.

(** The check for trailing data accepts a descriptor followed by
    anything that starts with a closing brace or bracket: [decoder.More]
    answers false there, although the text is not one JSON value. *)
Theorem loadDescriptor_accepts_trailing_close (junk data generation : string) :
  let decode rest := loadDescriptor (fun _ => Some (sample_descriptor, rest)) data generation in
  decode (String "}" junk) = decode EmptyString /\ decode (String "]" junk) = decode EmptyString /\
  is_ok (decode EmptyString) = true /\
  decode ("{"%string +:+ junk) = Err "policy descriptor: trailing data".
Proof. cbv zeta. repeat split; vm_compute; reflexivity. Qed.
