(* ===== verification/PolicyAuth.v ===== *)
(** * What [authorize] grants and denies

    Soundness of a grant, the outcomes and their reasons, the exact condition
    for literals, and the effect of the order of the rules. *)

From S2P Require Import Prelude GoStrings Netip Policy PolicyAddr PolicyRules PolicyLoad.
From Stdlib Require Import Permutation.

(** ** The specification's vocabulary *)

(** [r] is one of the rules that match a name, whatever its position. *)
Definition names_rule (p : policy) (name : string) (r : rule) : Prop :=
  (exists rs, p_names p !! name = Some rs /\ In r rs) \/
  (exists s, In s (p_suffixes p) /\ suffixMatches name s = true /\ s_rule s = r) \/
  In r (p_wildcard p).

(** A literal rule or an exception covers an address and a port. *)
Definition covers (port : Z) (a : Addr) (r : rule) : Prop :=
  Contains (r_prefix r) a = true /\ permits (r_ports r) port = true.

(** A resolved address may be dialed: the rule lists it, a literal rule covers
    it, an exception covers it, or it is outside the special-purpose table. *)
Definition dialable (p : policy) (selected : rule) (port : Z) (a : Addr) : Prop :=
  In a (r_resolve selected) \/
  (exists r, In r (p_literals p) /\ covers port a r) \/
  (exists r, In r (p_exceptions p) /\ covers port a r) \/
  special a = false.

Definition resolver_addresses (lookupNetIP : string -> option (list Addr)) : Prop :=
  forall name l, lookupNetIP name = Some l -> Forall addr_wf l.

(** The reasons a verdict can carry, with the status of each. *)
Definition denial_reasons : list (Z * string) :=
  [(400, "malformed-port"); (400, "malformed-target"); (403, "scoped-ip");
   (403, "ip-not-on-allowlist"); (403, "not-on-allowlist"); (403, "port-not-allowed");
   (403, "transport-not-allowed"); (403, "resolved-address-denied")]%string.

(** The same rules in another order. *)
Record reordered (p q : policy) : Prop := {
  ro_names : forall name, Permutation (default [] (p_names p !! name)) (default [] (p_names q !! name));
  ro_suffixes : Permutation (p_suffixes p) (p_suffixes q);
  ro_wildcard : Permutation (p_wildcard p) (p_wildcard q);
  ro_literals : Permutation (p_literals p) (p_literals q);
  ro_exceptions : Permutation (p_exceptions p) (p_exceptions q);
}.

(** A verdict without the identifier of the rule that matched. *)
Definition decision (v : verdict) : string * list Addr * string * Z * bool :=
  (v_destination v, v_addresses v, v_reason v, v_status v, v_err v).

(** ** Helpers *)

Lemma in_nameCandidates p name r : In r (nameCandidates p name) <-> names_rule p name r.
Proof.
  unfold nameCandidates, names_rule. rewrite !in_app_iff, in_map_iff.
  assert (In r (default [] (p_names p !! name)) <-> exists rs, p_names p !! name = Some rs /\ In r rs)
    as ->.
  { destruct (p_names p !! name) as [rs|]; simpl; [|by split; [|intros (? & ? & ?)]].
    split; [eauto|intros (? & [= ->] & ?); done]. }
  split; (intros [Hn|[Hs|Hw]]; [by left|right; left|by right; right]).
  - destruct Hs as (s & <- & Hs). apply filter_In in Hs as [? ?]. eauto.
  - destruct Hs as (s & Hs & Hm & <-). exists s. split; [done|]. by apply filter_In.
Qed.

Lemma covers_iff l port a :
  existsb (fun r => Contains (r_prefix r) a && permits (r_ports r) port) l = true <->
  exists r, In r l /\ covers port a r.
Proof.
  rewrite existsb_exists. unfold covers.
  split; intros (r & Hr & Hc); exists r; (split; [done|]); by apply andb_true_iff.
Qed.

Lemma literalRule_covers p a port :
  bool_decide (is_Some (literalRule p a port)) = true <->
  exists r, In r (p_literals p) /\ covers port a r.
Proof.
  rewrite bool_decide_eq_true. unfold literalRule, is_Some.
  by rewrite find_some_iff_existsb, covers_iff.
Qed.

Lemma listed_In l a : listed l a = true <-> In a l.
Proof.
  unfold listed, addr_eqb. rewrite existsb_exists. split.
  - intros (b & Hb & E). apply bool_decide_eq_true in E. by subst.
  - intros Hin. exists a. split; [done|]. by apply bool_decide_eq_true.
Qed.

Lemma public_plain a :
  addr_wf a -> Zone a = EmptyString -> Is4In6 a = false -> publicAddress a = true ->
  plain_addr a /\ special a = false.
Proof.
  intros Hw Hz Hm Hp. assert (IsValid a = true) as Hv by (by destruct a).
  rewrite public_special in Hp by done. by apply negb_true_iff in Hp.
Qed.

Lemma covers_plain p l a port :
  policy_wf p -> (l = p_literals p \/ l = p_exceptions p) ->
  addr_wf a -> Zone a = EmptyString -> Is4In6 a = false ->
  (exists r, In r l /\ covers port a r) -> plain_addr a.
Proof.
  intros Hp Hl Hw Hz Hm (r & Hin & Hc & _).
  assert (prefix_wf (r_prefix r) /\ prefix_masked (r_prefix r)) as [Hpw Hpm].
  { destruct Hl as [-> | ->].
    - pose proof (wf_literals _ Hp) as HF. rewrite List.Forall_forall in HF.
      destruct (HF r Hin) as (_ & ? & ? & _). done.
    - pose proof (wf_exceptions _ Hp) as HF. rewrite List.Forall_forall in HF.
      destruct (HF r Hin) as (_ & (? & ? & _) & _). done. }
  apply Contains_spec in Hc as (_ & Hv & _); [by split|done..].
Qed.

Lemma names_rule_wf p name r : policy_wf p -> names_rule p name r -> rule_wf r.
Proof.
  intros Hp [(rs & El & Hin)|[(s & Hs & _ & <-)|Hin]].
  - destruct (wf_names _ Hp _ _ El) as (_ & _ & HF). rewrite List.Forall_forall in HF. auto.
  - pose proof (wf_suffixes _ Hp) as HF. rewrite List.Forall_forall in HF.
    by destruct (HF s Hs) as (_ & _ & ? & _).
  - pose proof (wf_wildcard _ Hp) as HF. rewrite List.Forall_forall in HF.
    by destruct (HF r Hin).
Qed.

Lemma admits_dialable p r port a :
  addr_wf a -> Zone a = EmptyString -> Is4In6 a = false ->
  admits p r port a = true -> dialable p r port a.
Proof.
  intros Hw Hz Hm Ha. unfold admits in Ha. unfold dialable.
  apply orb_true_iff in Ha as [Ha|Ha]; [|by right; right; right; apply public_plain].
  apply orb_true_iff in Ha as [Ha|Ha]; [|by right; right; left; apply covers_iff].
  apply orb_true_iff in Ha as [Ha|Ha]; [by left; apply listed_In|].
  by right; left; apply literalRule_covers.
Qed.

Lemma admits_plain p r port a :
  policy_wf p -> rule_wf r -> addr_wf a -> Zone a = EmptyString -> Is4In6 a = false ->
  admits p r port a = true -> plain_addr a.
Proof.
  intros Hp Hr Hw Hz Hm Ha. unfold admits in Ha.
  apply orb_true_iff in Ha as [Ha|Ha]; [|by apply public_plain].
  apply orb_true_iff in Ha as [Ha|Ha].
  2:{ eapply (covers_plain p (p_exceptions p) a port); auto. by apply covers_iff. }
  apply orb_true_iff in Ha as [Ha|Ha].
  2:{ eapply (covers_plain p (p_literals p) a port); auto. by apply literalRule_covers. }
  apply listed_In in Ha. destruct Hr as (_ & _ & _ & HF).
  rewrite List.Forall_forall in HF. auto.
Qed.

Lemma keep_admitted_in p r port resolved a :
  In a (keep_admitted p r port resolved) <->
  exists raw, In raw resolved /\ a = Unmap raw /\ Zone a = EmptyString /\ admits p r port a = true.
Proof.
  unfold keep_admitted. rewrite filter_In, in_map_iff, andb_true_iff, String.eqb_eq.
  split.
  - intros ((raw & <- & Hin) & Hz & Ha). eauto.
  - intros (raw & Hin & -> & Hz & Ha). eauto.
Qed.

Lemma selectRule_some cs port network r reason :
  selectRule cs port network = (Some r, reason) ->
  In r cs /\ allows port network r = true /\ reason = EmptyString.
Proof.
  rewrite selectRule_spec. destruct (List.find _ cs) eqn:E; [|done]. intros [= <- <-].
  by apply List.find_some in E as [? ?].
Qed.

(** ** Grants *)

Section Grants.
Context `{GoUnicode, NameProfile}.
Context (lookupNetIP : string -> option (list Addr)).

Lemma authorize_grants (p : policy) (host port network : string) (a : Addr) :
  policy_wf p -> resolver_addresses lookupNetIP ->
  let v := policy_authorize lookupNetIP p host port network in
  In a (v_addresses v) ->
  v_reason v = EmptyString /\ v_err v = false /\ plain_addr a /\
  exists number r,
    parsePort port = Ok number /\ allows number network r = true /\ v_rule v = r_id r /\
    ((exists lit, ParseAddr (to_lower host) = Some lit /\ v_addresses v = [Unmap lit] /\
        In r (p_literals p) /\ Contains (r_prefix r) a = true) \/
     (exists name raw, normalizeName host = Some name /\ names_rule p name r /\
        a = Unmap raw /\
        (In raw (r_resolve r) \/
         r_resolve r = [] /\ exists l, lookupNetIP name = Some l /\ In raw l) /\
        dialable p r number a)).
Proof.
  intros Hp Hl. cbv zeta. unfold policy_authorize.
  destruct (parsePort port) as [number|] eqn:Eport; [|done].
  destruct (ParseAddr (to_lower host)) as [lit|] eqn:Elit.
  - destruct (String.eqb (Zone lit) EmptyString) eqn:Ez; [|done]. cbn [negb].
    destruct (selectRule _ number network) as [[r|] reason] eqn:Es; [|by case_goal].
    cbn [v_addresses v_reason v_err v_rule]. intros [<-|[]].
    apply selectRule_some in Es as (Hin & Hal & _).
    unfold literalCandidates in Hin. apply filter_In in Hin as [Hin Hc].
    apply ParseAddr_wf in Elit as [Hw Hv]. apply String.eqb_eq in Ez.
    split; [done|]. split; [done|].
    split; [split; [auto with netip|]; rewrite Unmap_valid; auto with netip|].
    exists number, r. repeat split; [done|]. left. eauto.
  - destruct (normalizeName host) as [name|] eqn:En; [|done].
    destruct (selectRule _ number network) as [[r|] reason] eqn:Es; [|by case_goal].
    apply selectRule_some in Es as (Hin & Hal & _). apply in_nameCandidates in Hin.
    pose proof (names_rule_wf _ _ _ Hp Hin) as Hr.
    destruct (match r_resolve r with [] => lookupNetIP name | _ => _ end) as [resolved|] eqn:El;
      [|done].
    destruct (keep_admitted p r number resolved) as [|b l] eqn:Ek; [done|].
    cbn [v_addresses v_reason v_err v_rule]. rewrite <- Ek, keep_admitted_in.
    intros (raw & Hraw & -> & Hz & Ha).
    assert (addr_wf raw /\ (In raw (r_resolve r) \/ r_resolve r = [] /\
            exists l, lookupNetIP name = Some l /\ In raw l)) as [Hw Hsrc].
    { destruct Hr as (_ & _ & _ & HF). destruct (r_resolve r) as [|x xs] eqn:Ex.
      - split; [|by eauto]. pose proof (Hl _ _ El) as HF'. rewrite List.Forall_forall in HF'. auto.
      - simplify_eq. split; [|by left]. rewrite List.Forall_forall in HF. by apply HF. }
    split; [done|]. split; [done|].
    split; [by eapply admits_plain; eauto with netip|].
    exists number, r. repeat split; [done|]. right. exists name, raw.
    repeat split; try done. apply admits_dialable; auto with netip.
Qed.

(** Claim C1: every address [authorize] returns is a plain address that the
    policy allows to be dialed. The port parses; a literal host was granted
    by a literal rule that contains it and allows the port and the network,
    and its only address is itself; a name was granted by a rule that matches
    it and allows both, the address was listed by that rule or resolved for
    that name, and it is listed, covered by a literal rule or an exception,
    or outside every special-purpose range. *)
Theorem authorize_grants_only_dialable (p : policy) (host port network : string) (a : Addr) :
  policy_wf p -> resolver_addresses lookupNetIP ->
  let v := policy_authorize lookupNetIP p host port network in
  In a (v_addresses v) ->
  v_reason v = EmptyString /\ v_err v = false /\ plain_addr a /\
  exists number r,
    parsePort port = Ok number /\ allows number network r = true /\ v_rule v = r_id r /\
    ((exists lit, ParseAddr (to_lower host) = Some lit /\ v_addresses v = [Unmap lit] /\
        In r (p_literals p) /\ Contains (r_prefix r) a = true) \/
     (exists name raw, normalizeName host = Some name /\ names_rule p name r /\
        a = Unmap raw /\
        (In raw (r_resolve r) \/
         r_resolve r = [] /\ exists l, lookupNetIP name = Some l /\ In raw l) /\
        dialable p r number a)).
Proof. apply authorize_grants. Qed.
End Grants.

#[local] Instance sample_unicode : GoUnicode := ascii_unicode.
#[local] Instance sample_profile : NameProfile := ascii_profile.

(** A resolver that returns a public and a private address for every name. *)
Definition sample_resolver (name : string) : option (list Addr) :=
  Some [Addr4 134744072; Addr4 3232235521; Addr4 167837697].

Lemma sample_policy_wf : policy_wf sample_policy.
Proof.
  apply (loadDescriptor_wf (fun _ => Some (sample_descriptor, EmptyString)) EmptyString "g1").
  vm_compute. reflexivity.
Qed.

Lemma sample_resolver_ok : resolver_addresses sample_resolver.
Proof. intros name l [= <-]. repeat constructor; simpl; lia. Qed.

(** [8.8.8.8] is public and [10.1.0.1] is covered; [192.168.0.1] is dropped. *)
Lemma authorize_grants_only_dialable_witness :
  v_addresses (policy_authorize sample_resolver sample_policy "a.b.Example.org" "443" "tcp")
    = [Addr4 134744072; Addr4 167837697] /\
  plain_addr (Addr4 167837697).
Proof.
  split; [vm_compute; reflexivity|].
  apply (authorize_grants_only_dialable sample_resolver sample_policy "a.b.Example.org" "443" "tcp"
           (Addr4 167837697) sample_policy_wf sample_resolver_ok).
  vm_compute. right. left. reflexivity.
Defined.

(** ** Outcomes *)

Lemma denial_reason_registered cs port :
  cs <> [] -> denial_reason cs port = "transport-not-allowed"%string \/
              denial_reason cs port = "port-not-allowed"%string.
Proof. unfold denial_reason. destruct cs; [done|]. intros _. case_goal; eauto. Qed.

Section Outcomes.
Context `{GoUnicode, NameProfile}.
Context (lookupNetIP : string -> option (list Addr)).

Lemma authorize_cases (p : policy) (host port network : string) :
  let v := policy_authorize lookupNetIP p host port network in
  (v_addresses v <> [] /\ v_reason v = EmptyString /\ v_err v = false /\ v_status v = 403) \/
  (v_addresses v = [] /\ In (v_status v, v_reason v) denial_reasons /\ v_err v = false) \/
  (v_addresses v = [] /\ v_reason v = EmptyString /\ v_err v = true /\ v_status v = 403 /\
   exists name, normalizeName host = Some name /\ lookupNetIP name = None).
Proof.
  assert (forall cs n reason, selectRule cs n network = (None, reason) ->
    reason = EmptyString \/ In (403, reason) denial_reasons) as Hreason.
  { intros cs n reason. rewrite selectRule_spec. destruct (List.find _ cs); [done|].
    intros [= <-]. destruct cs as [|r cs]; [by left|right].
    destruct (denial_reason_registered (r :: cs) n) as [-> | ->];
      [done|simpl; tauto..]. }
  cbv zeta. unfold policy_authorize.
  destruct (parsePort port) as [n|]; [|right; left; simpl; tauto].
  destruct (ParseAddr (to_lower host)) as [lit|].
  - destruct (negb _); [right; left; simpl; tauto|].
    destruct (selectRule _ n network) as [[r|] reason] eqn:Es; [left; simpl; done|].
    right; left. apply Hreason in Es. destruct (String.eqb reason EmptyString) eqn:E;
      simpl; [tauto|]. apply String.eqb_neq in E. simpl in Es. tauto.
  - destruct (normalizeName host) as [name|]; [|right; left; simpl; tauto].
    destruct (selectRule _ n network) as [[r|] reason] eqn:Es.
    + destruct (r_resolve r) as [|x xs].
      * destruct (lookupNetIP name) as [resolved|] eqn:El.
        -- destruct (keep_admitted p r n resolved); [right; left; simpl; tauto|by left].
        -- right; right. cbn. repeat split. by exists name.
      * destruct (keep_admitted p r n (x :: xs)); [right; left; simpl; tauto|by left].
    + right; left. apply Hreason in Es. destruct (String.eqb reason EmptyString) eqn:E;
        simpl; [tauto|]. apply String.eqb_neq in E. simpl in Es. tauto.
Qed.

(** Every verdict is exactly one of three: a grant, with at least
    one address, no reason and no error; a denial, with no address and one of
    eight reasons, the two malformed ones under status 400 and the others
    under 403; or a resolver failure, with neither address nor reason. *)
Theorem authorize_outcomes (p : policy) (host port network : string) :
  let v := policy_authorize lookupNetIP p host port network in
  (v_addresses v <> [] /\ v_reason v = EmptyString /\ v_err v = false /\ v_status v = 403) \/
  (v_addresses v = [] /\ In (v_status v, v_reason v) denial_reasons /\ v_err v = false) \/
  (v_addresses v = [] /\ v_reason v = EmptyString /\ v_err v = true /\ v_status v = 403 /\
   exists name, normalizeName host = Some name /\ lookupNetIP name = None).
Proof. apply authorize_cases. Qed.
End Outcomes.

(** ** Literals *)

Lemma selectRule_permutation cs cs' n network :
  Permutation cs cs' ->
  match selectRule cs n network, selectRule cs' n network with
  | (Some r, _), (Some r', _) =>
      In r cs /\ In r' cs /\ allows n network r = true /\ allows n network r' = true
  | (None, reason), (None, reason') => reason = reason'
  | _, _ => False
  end.
Proof.
  intros HP. rewrite !selectRule_spec.
  pose proof (existsb_permutation (allows n network) _ _ HP) as E.
  destruct (List.find _ cs) as [r|] eqn:E1, (List.find _ cs') as [r'|] eqn:E2.
  - apply List.find_some in E1 as [? ?], E2 as [? ?]. repeat split; try done.
    by apply (Permutation_in _ (Permutation_sym HP)).
  - apply find_None_existsb in E2. rewrite <- E in E2. apply find_None_existsb in E2. congruence.
  - apply find_None_existsb in E1. rewrite E in E1. apply find_None_existsb in E1. congruence.
  - by apply denial_reason_permutation.
Qed.

Lemma filter_permutation {A} (f : A -> bool) l l' :
  Permutation l l' -> Permutation (List.filter f l) (List.filter f l').
Proof.
  induction 1; simpl; [done| | |by etrans]; repeat case_match; eauto using Permutation.
Qed.

Section Literals.
Context `{GoUnicode, NameProfile}.

Lemma literal_decision lookupNetIP (p : policy) (host port network : string)
    (number : Z) (lit : Addr) :
  ParseAddr (to_lower host) = Some lit -> Zone lit = EmptyString -> parsePort port = Ok number ->
  let v := policy_authorize lookupNetIP p host port network in
  (v_addresses v = [Unmap lit] /\ v_reason v = EmptyString <->
   exists r, In r (p_literals p) /\ Contains (r_prefix r) (Unmap lit) = true /\
             allows number network r = true) /\
  (v_addresses v = [Unmap lit] \/ v_addresses v = [] /\ v_reason v <> EmptyString) /\
  forall lookupNetIP' q host' lit',
    ParseAddr (to_lower host') = Some lit' -> Zone lit' = EmptyString ->
    Unmap lit' = Unmap lit -> Permutation (p_literals p) (p_literals q) ->
    decision (policy_authorize lookupNetIP' q host' port network) = decision v.
Proof.
  intros Elit Ez Eport. cbv zeta. unfold policy_authorize. rewrite Elit, Ez, Eport.
  cbn [negb String.eqb]. split; [|split].
  - destruct (selectRule _ number network) as [[r|] reason] eqn:Es.
    + apply selectRule_some in Es as (Hin & Hal & _). apply filter_In in Hin as [Hin Hc].
      split; [eauto|done].
    + rewrite selectRule_spec in Es. destruct (List.find _ _) eqn:Ef; [done|].
      split; [by case_goal; intros [? _]|]. intros (r & Hin & Hc & Hal).
      assert (allows number network r = false); [|congruence].
      apply find_None_existsb in Ef. rewrite existsb_false_iff in Ef. apply Ef.
      by apply filter_In.
  - destruct (selectRule _ number network) as [[r|] reason] eqn:Es; [by left|right].
    destruct (String.eqb reason EmptyString) eqn:Er; simpl; [done|].
    by apply String.eqb_neq in Er.
  - intros lookup' q host' lit' Elit' Ez' Eu HP. rewrite Elit', Ez', Eu. cbn [negb String.eqb].
    pose proof (selectRule_permutation _ _ number network
      (filter_permutation (fun r => Contains (r_prefix r) (Unmap lit)) _ _ HP)) as Hs.
    unfold literalCandidates in *.
    destruct (selectRule _ number network) as [[r|] reason] eqn:E1,
      (selectRule (List.filter _ (p_literals q)) number network) as [[r'|] reason'] eqn:E2;
      try done.
    subst reason'. by case_goal.
Qed.

(** A literal host is decided by the literal rules alone. It is
    granted, with itself as only address, exactly when a literal rule contains
    it and allows the port and the network, and denied otherwise. The decision
    is the same for every spelling of the address (IPv4-mapped or not), every
    resolver, every order of the literal rules, and whatever name, suffix and
    wildcard rules and resolved-address exceptions the policy has. *)
Theorem literal_decided_by_literal_rules lookupNetIP (p : policy) (host port network : string)
    (number : Z) (lit : Addr) :
  ParseAddr (to_lower host) = Some lit -> Zone lit = EmptyString -> parsePort port = Ok number ->
  let v := policy_authorize lookupNetIP p host port network in
  (v_addresses v = [Unmap lit] /\ v_reason v = EmptyString <->
   exists r, In r (p_literals p) /\ Contains (r_prefix r) (Unmap lit) = true /\
             allows number network r = true) /\
  (v_addresses v = [Unmap lit] \/ v_addresses v = [] /\ v_reason v <> EmptyString) /\
  forall lookupNetIP' q host' lit',
    ParseAddr (to_lower host') = Some lit' -> Zone lit' = EmptyString ->
    Unmap lit' = Unmap lit -> Permutation (p_literals p) (p_literals q) ->
    decision (policy_authorize lookupNetIP' q host' port network) = decision v.
Proof. apply literal_decision. Qed.
End Literals.

Lemma literal_decided_by_literal_rules_witness :
  v_addresses (policy_authorize sample_resolver sample_policy "::FFFF:192.0.2.9" "443" "tcp")
    = [Addr4 3221225993].
Proof.
  apply (literal_decided_by_literal_rules sample_resolver sample_policy "::FFFF:192.0.2.9" "443" "tcp" 443
           (Addr6 (65535 * 2 ^ 32 + 3221225993) EmptyString));
    [vm_compute; reflexivity|reflexivity|vm_compute; reflexivity|].
  exists (mkRule "r" (mkPortSet false [(443, 443)]) (mkTransportSet true false) []
            (mkPrefix (Addr4 3221225993) 32)).
  split; [vm_compute; tauto|]. split; vm_compute; reflexivity.
Defined.

(** ** The order of the rules *)

Lemma reordered_candidates p q name :
  reordered p q -> Permutation (nameCandidates p name) (nameCandidates q name).
Proof.
  intros [Hn Hs Hw _ _]. unfold nameCandidates.
  apply Permutation_app; [apply Hn|]. apply Permutation_app; [|exact Hw].
  by apply Permutation_map, filter_permutation.
Qed.

Lemma admits_reordered p q r r' port a :
  reordered p q -> r_resolve r = r_resolve r' -> admits p r port a = admits q r' port a.
Proof.
  intros [_ _ _ Hl He] Er. unfold admits. rewrite Er. do 2 f_equal; [f_equal|].
  - apply eq_true_iff_eq. rewrite !literalRule_covers.
    split; intros (x & Hx & Hc); exists x; (split; [|done]).
    + by apply (Permutation_in _ Hl).
    + by apply (Permutation_in _ (Permutation_sym Hl)).
  - by apply existsb_permutation.
Qed.

Lemma keep_admitted_reordered p q r r' port l :
  reordered p q -> r_resolve r = r_resolve r' ->
  keep_admitted p r port l = keep_admitted q r' port l.
Proof.
  intros Hpq Er. unfold keep_admitted. apply filter_ext. intros a.
  by rewrite (admits_reordered p q r r').
Qed.

Section Order.
Context `{GoUnicode, NameProfile}.
Context (lookupNetIP : string -> option (list Addr)).

(** Claim C37: the rules are unordered as far as static resolution allows it.
    When the rules that match a name and allow a port and network agree on
    their [resolve] list, reordering the rules of a policy in any way changes
    neither the destination, the addresses, the reason, the status nor the
    error of any verdict; only the reported rule may change. *)
Theorem rule_order_irrelevant_without_resolve (p q : policy) :
  reordered p q ->
  (forall name number network r r',
     names_rule p name r -> names_rule p name r' ->
     allows number network r = true -> allows number network r' = true ->
     r_resolve r = r_resolve r') ->
  forall host port network,
    decision (policy_authorize lookupNetIP p host port network) =
    decision (policy_authorize lookupNetIP q host port network).
Proof.
  intros Hpq Hres host port network. unfold policy_authorize.
  destruct (parsePort port) as [n|]; [|done].
  destruct (ParseAddr (to_lower host)) as [lit|].
  - destruct (negb _); [done|].
    pose proof (selectRule_permutation _ _ n network
      (filter_permutation (fun r => Contains (r_prefix r) (Unmap lit)) _ _ (ro_literals _ _ Hpq))) as Hs.
    unfold literalCandidates in *.
    destruct (selectRule _ n network) as [[r|] reason],
      (selectRule (List.filter _ (p_literals q)) n network) as [[r'|] reason']; try done.
    subst reason'. by case_goal.
  - destruct (normalizeName host) as [name|]; [|done].
    pose proof (selectRule_permutation _ _ n network (reordered_candidates _ _ name Hpq)) as Hs.
    destruct (selectRule (nameCandidates p name) n network) as [[r|] reason],
      (selectRule (nameCandidates q name) n network) as [[r'|] reason']; try done.
    + destruct Hs as (H1 & H2 & A1 & A2). apply in_nameCandidates in H1, H2.
      pose proof (Hres _ _ _ _ _ H1 H2 A1 A2) as Er.
      rewrite Er. destruct (match r_resolve r' with [] => _ | _ => _ end) as [l|]; [|done].
      rewrite (keep_admitted_reordered p q r r' n l Hpq Er).
      by destruct (keep_admitted q r' n l).
    + subst reason'. by case_goal.
Qed.
End Order.

Definition static_rule (id : string) (resolve : list Addr) : rule :=
  mkRule id (mkPortSet false [(443, 443)]) (mkTransportSet true false) resolve PrefixZero.

Definition named_policy (rs : list rule) : policy :=
  mkPolicy "v" "s" "g" false {["api.test"%string := rs]} [] [] [] [].

Lemma named_reordered rs rs' : Permutation rs rs' -> reordered (named_policy rs) (named_policy rs').
Proof.
  intros HP. split; simpl; try done. intros name.
  destruct (decide (name = "api.test"%string)) as [-> |Hn].
  - by rewrite !lookup_singleton_eq.
  - by rewrite !lookup_singleton_ne.
Qed.

Lemma rule_order_irrelevant_without_resolve_witness :
  decision (policy_authorize sample_resolver
    (named_policy [static_rule "a" []; sample_rule "b" 80]) "api.test" "443" "tcp") =
  decision (policy_authorize sample_resolver
    (named_policy [sample_rule "b" 80; static_rule "a" []]) "api.test" "443" "tcp").
Proof.
  apply (rule_order_irrelevant_without_resolve sample_resolver
           (named_policy [static_rule "a" []; sample_rule "b" 80])).
  - apply named_reordered. apply perm_swap.
  - assert (forall name r, names_rule (named_policy [static_rule "a" []; sample_rule "b" 80]) name r ->
              r_resolve r = []) as Hr.
    { intros name r [(rs & El & Hin)|[(s & [] & _)|[]]]. simpl in El.
      apply lookup_singleton_Some in El as [_ <-]. destruct Hin as [<-|[<-|[]]]; reflexivity. }
    intros name number network r r' H1 H2 _ _. by rewrite (Hr _ _ H1), (Hr _ _ H2).
Defined.

(** With [resolve] the order does matter: two policies that differ
    only in the order of two rules for one name, both allowing the port, grant
    different addresses, because only the first rule that allows the port is
    used; when the resolver fails, one order grants and the other fails. *)
Theorem rule_order_matters_with_resolve :
  let pinned := static_rule "pinned" [Addr4 3232235777] in
  let open := static_rule "open" [] in
  reordered (named_policy [pinned; open]) (named_policy [open; pinned]) /\
  (let v := policy_authorize (fun _ => None) (named_policy [pinned; open]) "api.test" "443" "tcp" in
   v_addresses v = [Addr4 3232235777] /\ v_err v = false) /\
  (let v := policy_authorize (fun _ => None) (named_policy [open; pinned]) "api.test" "443" "tcp" in
   v_addresses v = [] /\ v_err v = true).
Proof.
  split; [apply named_reordered, perm_swap|]. split; vm_compute; by split.
Qed.
