(* ===== verification/Capsule.v ===== *)
(** * The capsule codec of connect-udp

    [sdk/pkg/tun2connect/capsule.go]: QUIC variable-length integers and the
    DATAGRAM capsules of a [CapsuleStream].

    A byte is a [Z] in [0..255]. A reader is the bytes it will still deliver
    and the error it ends with; the fuel of [ReadDatagram] is the number of
    bytes left, which every capsule decreases. *)

From S2P Require Import Prelude Netip.

Local Open Scope go_scope.

(** ** Machine integers *)

Definition u8 (z : Z) : Z := z mod 2 ^ 8.
Definition u16 (z : Z) : Z := z mod 2 ^ 16.
Definition u32 (z : Z) : Z := z mod 2 ^ 32.
Definition u64 (z : Z) : Z := z mod 2 ^ 64.

Definition is_byte (b : Z) : Prop := 0 <= b < 256.

Definition len (p : list Z) : Z := Z.of_nat (List.length p).

(** The [n] low bytes of [z], most significant first: [binary.BigEndian]. *)
Fixpoint big_endian (n : nat) (z : Z) : list Z :=
  match n with
  | O => []
  | S n => u8 (Z.shiftr z (8 * Z.of_nat n)) :: big_endian n z
  end.

(** ** Readers *)

Definition io_EOF : string := "EOF".
Definition io_ErrUnexpectedEOF : string := "unexpected EOF".

Record reader := mkReader { r_bytes : list Z; r_final : string }.

Definition ReadByte (r : reader) : Result (Z * reader) :=
  match r_bytes r with
  | [] => Err (r_final r)
  | b :: rest => Ok (b, mkReader rest (r_final r))
  end.

(** [io.ReadFull] into a buffer of [n] bytes. *)
Definition ReadFull (r : reader) (n : Z) : Result (list Z * reader) :=
  if n <=? len (r_bytes r) then
    Ok (take (Z.to_nat n) (r_bytes r), mkReader (drop (Z.to_nat n) (r_bytes r)) (r_final r))
  else match r_bytes r with
       | [] => Err (r_final r)
       | _ => Err (if String.eqb (r_final r) io_EOF then io_ErrUnexpectedEOF else r_final r)
       end.

(** ** Variable-length integers *)

(** [None] is the panic of the default case. *)
Definition appendVarint (b : list Z) (v : Z) : option (list Z) :=
  if v <? 2 ^ 6 then Some (b ++ [u8 v])
  else if v <? 2 ^ 14 then Some (b ++ big_endian 2 (Z.lor (u16 v) 0x4000))
  else if v <? 2 ^ 30 then Some (b ++ big_endian 4 (Z.lor (u32 v) 0x80000000))
  else if v <? 2 ^ 62 then Some (b ++ big_endian 8 (Z.lor v 0xc000000000000000))
  else None.

(** The loop of [readVarint]: [n] more bytes. *)
Fixpoint readVarint_rest (n : nat) (v : Z) (r : reader) : Result (Z * reader) :=
  match n with
  | O => Ok (v, r)
  | S n =>
      match ReadByte r with
      | Err e => Err (if String.eqb e io_EOF then io_ErrUnexpectedEOF else e)
      | Ok (b, r) => readVarint_rest n (Z.lor (u64 (Z.shiftl v 8)) b) r
      end
  end.

Definition readVarint (r : reader) : Result (Z * reader) :=
  let? (b0, r) := ReadByte r in
  readVarint_rest (Z.to_nat (Z.shiftl 1 (Z.shiftr b0 6) - 1)) (Z.land b0 0x3f) r.

(** ** Capsules *)

Definition capsuleTypeDatagram : Z := 0.
Definition maxCapsulePayload : Z := 2 ^ 16.

(** The single [Write] of [WriteDatagram]. *)
Definition WriteDatagram (p : list Z) : option (list Z) :=
  match appendVarint [] capsuleTypeDatagram with
  | None => None
  | Some buf =>
      match appendVarint buf (u64 (len p + 1)) with
      | None => None
      | Some buf =>
          match appendVarint buf 0 with
          | None => None
          | Some buf => Some (buf ++ p)
          end
      end
  end.

(** One turn of the loop of [ReadDatagram]: [None] for [continue]. *)
Definition readCapsule (r : reader) : Result (option (list Z) * reader) :=
  let? (ctype, r) := readVarint r in
  let? (clen, r) := readVarint r in
  if maxCapsulePayload <? clen then Err "tun2connect: capsule of %d bytes exceeds limit"
  else
    let? (value, r) := ReadFull r clen in
    if negb (ctype =? capsuleTypeDatagram) then Ok (None, r)
    else match readVarint (mkReader value io_EOF) with
         | Err _ => Err "tun2connect: malformed DATAGRAM capsule"
         | Ok (ctxID, rd) =>
             if negb (ctxID =? 0) then Ok (None, r)
             else Ok (Some (drop (List.length value - List.length (r_bytes rd)) value), r)
         end.

(** [None] when the fuel runs out. *)
Fixpoint ReadDatagram_loop (fuel : nat) (r : reader) : option (Result (list Z * reader)) :=
  match fuel with
  | O => None
  | S fuel =>
      match readCapsule r with
      | Err e => Some (Err e)
      | Ok (Some p, r) => Some (Ok (p, r))
      | Ok (None, r) => ReadDatagram_loop fuel r
      end
  end.

Definition ReadDatagram (r : reader) : option (Result (list Z * reader)) :=
  ReadDatagram_loop (S (List.length (r_bytes r))) r.

(** Read datagrams until the stream fails: the read loop of a session. *)
Fixpoint ReadDatagrams (fuel : nat) (r : reader) : option (list (list Z) * string) :=
  match fuel with
  | O => None
  | S fuel =>
      match ReadDatagram r with
      | None => None
      | Some (Err e) => Some ([], e)
      | Some (Ok (p, r)) =>
          match ReadDatagrams fuel r with
          | None => None
          | Some (ps, e) => Some (p :: ps, e)
          end
      end
  end.

(** ** The wire, for the specification *)

(** What a peer may send that a reader has to understand or skip. *)
Inductive capsule : Type :=
| Datagram (p : list Z)
| OtherContext (ctx : Z) (p : list Z)
| OtherType (ctype : Z) (value : list Z).

Definition varint (v : Z) : list Z := default [] (appendVarint [] v).

Definition encode (c : capsule) : list Z :=
  match c with
  | Datagram p => default [] (WriteDatagram p)
  | OtherContext ctx p => varint 0 ++ varint (len (varint ctx ++ p)) ++ varint ctx ++ p
  | OtherType ctype value => varint ctype ++ varint (len value) ++ value
  end.

Definition is_datagram (c : capsule) : bool :=
  match c with Datagram _ => true | _ => false end.

Definition capsule_ok (c : capsule) : Prop :=
  match c with
  | Datagram p => len p + 1 <= maxCapsulePayload
  | OtherContext ctx p => 0 < ctx < 2 ^ 62 /\ len (varint ctx ++ p) <= maxCapsulePayload
  | OtherType ctype value => 0 < ctype < 2 ^ 62 /\ len value <= maxCapsulePayload
  end.

Example varint_examples :
  map varint [37; 15293; 494878333; 151288809941952652] =
  [[0x25]; [0x7b; 0xbd]; [0x9d; 0x7f; 0x3e; 0x7d];
   [0xc2; 0x19; 0x7c; 0x5e; 0xff; 0x14; 0xe8; 0x8c]].
Proof. vm_compute. reflexivity. Qed.

Example read_examples :
  ReadDatagram (mkReader (encode (OtherType 23 [9; 9]) ++ encode (Datagram [1; 2; 3]) ++ [7]) io_EOF)
  = Some (Ok ([1; 2; 3], mkReader [7] io_EOF)).
Proof. vm_compute. reflexivity. Qed.

(** ** Integers *)

Lemma lor_disjoint a b n : 0 <= n -> 0 <= a < 2 ^ n -> Z.lor (b * 2 ^ n) a = b * 2 ^ n + a.
Proof.
  intros Hn Ha. rewrite <- Z.shiftl_mul_pow2 by lia.
  assert (Z.land (Z.shiftl b n) a = 0) as Hd.
  { apply Z.bits_inj'. intros i Hi. rewrite Z.land_spec, Z.shiftl_spec, Z.bits_0 by lia.
    destruct (Z.lt_ge_cases i n) as [Hlt|Hge].
    - by rewrite Z.testbit_neg_r by lia.
    - rewrite <- (Z.mod_small a (2 ^ n)) by lia.
      by rewrite Z.mod_pow2_bits_high, andb_false_r by lia. }
  by rewrite Z.add_nocarry_lxor, <- Z.lxor_lor by done.
Qed.

Lemma u8_byte z : is_byte (u8 z).
Proof. unfold is_byte, u8. change (2 ^ 8) with 256. apply Z.mod_pos_bound. lia. Qed.

Lemma big_endian_bytes n z : Forall is_byte (big_endian n z).
Proof. induction n; simpl; constructor; [apply u8_byte|done]. Qed.

Lemma big_endian_length n z : List.length (big_endian n z) = n.
Proof. induction n; simpl; congruence. Qed.

Lemma big_endian_head n z :
  big_endian (S n) z = u8 (z / 2 ^ (8 * Z.of_nat n)) :: big_endian n z.
Proof. simpl. by rewrite Z.shiftr_div_pow2 by lia. Qed.

Lemma be_value_acc n : forall z acc, 0 <= acc ->
  fold_left (fun v b => Z.lor (Z.shiftl v 8) b) (big_endian n z) acc =
    acc * 2 ^ (8 * Z.of_nat n) + z mod 2 ^ (8 * Z.of_nat n).
Proof.
  induction n as [|n IH]; intros z acc Hacc.
  { cbn. rewrite Z.mod_1_r. lia. }
  rewrite big_endian_head. cbn [fold_left]. unfold u8.
  pose proof (Z.mod_pos_bound (z / 2 ^ (8 * Z.of_nat n)) (2 ^ 8) ltac:(lia)) as Hb.
  rewrite Z.shiftl_mul_pow2 by lia. rewrite lor_disjoint by lia. rewrite IH by lia.
  replace (8 * Z.of_nat (S n)) with (8 * Z.of_nat n + 8) by lia.
  rewrite Z.pow_add_r by lia. set (m := 2 ^ (8 * Z.of_nat n)).
  assert (0 < m) by (subst m; apply Z.pow_pos_nonneg; lia).
  rewrite (Z.rem_mul_r z m (2 ^ 8)) by lia. ring.
Qed.

Lemma be_value_big_endian n z : 0 <= z < 2 ^ (8 * Z.of_nat n) -> be_value (big_endian n z) = z.
Proof. intros Hz. unfold be_value. rewrite be_value_acc by lia. by rewrite Z.mod_small by lia. Qed.

(** ** Varints *)

(** The [2^t] byte form of [v]: the tag [t] in the two top bits. *)
Definition form (t : nat) (v : Z) : list Z :=
  big_endian (2 ^ t) (Z.of_nat t * 2 ^ (8 * 2 ^ Z.of_nat t - 2) + v).

Lemma readVarint_rest_big_endian n acc z rest e :
  0 <= acc -> (acc + 1) * 2 ^ (8 * Z.of_nat n) <= 2 ^ 64 ->
  readVarint_rest n acc (mkReader (big_endian n z ++ rest) e) =
  Ok (acc * 2 ^ (8 * Z.of_nat n) + z mod 2 ^ (8 * Z.of_nat n), mkReader rest e).
Proof.
  revert acc. induction n as [|n IH]; intros acc Hacc Hb.
  { simpl. rewrite Z.mod_1_r. do 2 f_equal. lia. }
  rewrite big_endian_head. cbn [readVarint_rest ReadByte r_bytes app r_final].
  replace (8 * Z.of_nat (S n)) with (8 * Z.of_nat n + 8) in * by lia.
  rewrite Z.pow_add_r in * by lia. change (2 ^ 8) with 256 in *.
  set (m := 2 ^ (8 * Z.of_nat n)) in *. assert (0 < m) by (apply Z.pow_pos_nonneg; lia).
  pose proof (u8_byte (z / m)) as Hu. unfold is_byte in Hu.
  assert (acc * 256 < 2 ^ 64) by nia.
  rewrite Z.shiftl_mul_pow2 by lia. unfold u64. rewrite (Z.mod_small (acc * 2 ^ 8)) by lia.
  rewrite lor_disjoint by lia. change (2 ^ 8) with 256.
  assert (z mod (m * 256) = z mod m + m * u8 (z / m)) as Ez.
  { unfold u8. change (2 ^ 8) with 256. apply Z.rem_mul_r; lia. }
  rewrite IH; [|lia|fold m; nia]. fold m. rewrite Ez. do 2 f_equal. ring.
Qed.

Lemma readVarint_form t v rest e :
  (t < 4)%nat -> 0 <= v < 2 ^ (8 * 2 ^ Z.of_nat t - 2) ->
  readVarint (mkReader (form t v ++ rest) e) = Ok (v, mkReader rest e).
Proof.
  intros Ht Hv. unfold form, readVarint.
  assert (exists n, (2 ^ t = S n)%nat /\ 2 ^ Z.of_nat t = Z.of_nat n + 1 /\ (n < 8)%nat)
    as (n & En & Ez & Hn).
  { destruct t as [|[|[|[|t]]]]; [exists 0%nat|exists 1%nat|exists 3%nat|exists 7%nat|lia];
      repeat split; lia. }
  rewrite En, Ez in *. rewrite big_endian_head. cbn [ReadByte r_bytes app r_final].
  replace (8 * (Z.of_nat n + 1) - 2) with (8 * Z.of_nat n + 6) in * by lia.
  rewrite Z.pow_add_r in * by lia. change (2 ^ 6) with 64 in *.
  set (m := 2 ^ (8 * Z.of_nat n)) in *. assert (0 < m) by (apply Z.pow_pos_nonneg; lia).
  assert (0 <= v / m < 64) as Hq.
  { split; [apply Z.div_pos; lia|apply Z.div_lt_upper_bound; lia]. }
  assert (u8 ((Z.of_nat t * (m * 64) + v) / m) = Z.of_nat t * 64 + v / m) as ->.
  { replace (Z.of_nat t * (m * 64) + v) with (Z.of_nat t * 64 * m + v) by ring.
    rewrite Z.div_add_l by lia. unfold u8. apply Z.mod_small. lia. }
  assert (Z.shiftr (Z.of_nat t * 64 + v / m) 6 = Z.of_nat t) as ->.
  { rewrite Z.shiftr_div_pow2 by lia. change (2 ^ 6) with 64.
    rewrite Z.div_add_l by lia. rewrite Z.div_small; lia. }
  assert (Z.land (Z.of_nat t * 64 + v / m) 63 = v / m) as ->.
  { change 63 with (Z.ones 6). rewrite Z.land_ones by lia. change (2 ^ 6) with 64.
    rewrite Z.add_comm, Z.mod_add by lia. apply Z.mod_small. lia. }
  rewrite Z.shiftl_mul_pow2, Ez by lia.
  replace (Z.to_nat (1 * (Z.of_nat n + 1) - 1)) with n by lia.
  rewrite readVarint_rest_big_endian.
  - fold m. replace (Z.of_nat t * (m * 64) + v) with (v + Z.of_nat t * 64 * m) by ring.
    rewrite Z.mod_add by lia. pose proof (Z.div_mod v m ltac:(lia)). do 2 f_equal. lia.
  - lia.
  - fold m. assert (m * 64 <= 2 ^ 62); [|nia].
    assert (m <= 2 ^ 56); [|lia]. apply Z.pow_le_mono_r; lia.
Qed.

(** The size class [appendVarint] chooses. *)
Definition varint_class (v : Z) : nat :=
  if v <? 2 ^ 6 then 0 else if v <? 2 ^ 14 then 1 else if v <? 2 ^ 30 then 2 else 3.

Lemma appendVarint_form b v :
  0 <= v < 2 ^ 62 -> appendVarint b v = Some (b ++ form (varint_class v) v).
Proof.
  intros Hv. unfold appendVarint, form, varint_class.
  destruct (v <? 2 ^ 6) eqn:E6.
  { bool_to_prop. do 2 f_equal. }
  destruct (v <? 2 ^ 14) eqn:E14.
  { bool_to_prop. do 2 f_equal. change 0x4000 with (1 * 2 ^ 14).
    unfold u16. rewrite Z.mod_small, Z.lor_comm, lor_disjoint by lia. done. }
  destruct (v <? 2 ^ 30) eqn:E30.
  { bool_to_prop. do 2 f_equal. change 0x80000000 with (2 * 2 ^ 30).
    unfold u32. rewrite Z.mod_small, Z.lor_comm, lor_disjoint by lia. done. }
  rewrite (proj2 (Z.ltb_lt _ _)) by lia. do 2 f_equal.
  change 0xc000000000000000 with (3 * 2 ^ 62).
  rewrite Z.lor_comm, lor_disjoint by lia. done.
Qed.

Lemma varint_class_ok v : 0 <= v < 2 ^ 62 ->
  (varint_class v < 4)%nat /\ v < 2 ^ (8 * 2 ^ Z.of_nat (varint_class v) - 2).
Proof. unfold varint_class. intros Hv. case_goal; bool_to_prop; simpl; lia. Qed.

Lemma readVarint_append v rest e :
  0 <= v < 2 ^ 62 -> readVarint (mkReader (varint v ++ rest) e) = Ok (v, mkReader rest e).
Proof.
  intros Hv. unfold varint. rewrite appendVarint_form by done. simpl.
  destruct (varint_class_ok v Hv). apply readVarint_form; lia.
Qed.

Lemma varint_bytes v : 0 <= v < 2 ^ 62 -> Forall is_byte (varint v).
Proof.
  intros Hv. unfold varint. rewrite appendVarint_form by done. apply big_endian_bytes.
Qed.

Lemma varint_length v : 0 <= v < 2 ^ 62 -> List.length (varint v) = (2 ^ varint_class v)%nat.
Proof.
  intros Hv. unfold varint. rewrite appendVarint_form by done. apply big_endian_length.
Qed.

Lemma readVarint_rest_inv n acc r v r' :
  Forall is_byte (r_bytes r) -> 0 <= acc -> (acc + 1) * 2 ^ (8 * Z.of_nat n) <= 2 ^ 64 ->
  readVarint_rest n acc r = Ok (v, r') ->
  acc * 2 ^ (8 * Z.of_nat n) <= v < (acc + 1) * 2 ^ (8 * Z.of_nat n) /\
  r_final r' = r_final r /\ exists c, r_bytes r = c ++ r_bytes r' /\ List.length c = n.
Proof.
  revert acc r. induction n as [|n IH]; intros acc r HF Hacc Hb Hr.
  { simpl in Hr. simplify_eq. simpl. split; [lia|]. split; [done|]. by exists []. }
  cbn [readVarint_rest] in Hr. unfold ReadByte in Hr.
  destruct (r_bytes r) as [|b rest] eqn:E; [done|]. apply Forall_cons in HF as [Hbyte HF].
  unfold is_byte in Hbyte.
  replace (8 * Z.of_nat (S n)) with (8 * Z.of_nat n + 8) in * by lia.
  rewrite Z.pow_add_r in * by lia. change (2 ^ 8) with 256 in *.
  assert (0 < 2 ^ (8 * Z.of_nat n)) as Hm by (apply Z.pow_pos_nonneg; lia).
  rewrite Z.shiftl_mul_pow2 in Hr by lia. unfold u64 in Hr.
  rewrite (Z.mod_small (acc * 2 ^ 8)), lor_disjoint in Hr by nia. change (2 ^ 8) with 256 in Hr.
  apply IH in Hr as (Hv & Hf & c & Hc & Hlen); [|done|lia|nia].
  split; [nia|]. split; [done|]. exists (b :: c). simpl in *. by rewrite Hc, Hlen.
Qed.

Lemma readVarint_inv r v r' :
  Forall is_byte (r_bytes r) -> readVarint r = Ok (v, r') ->
  exists t c, (t < 4)%nat /\ r_bytes r = c ++ r_bytes r' /\ List.length c = (2 ^ t)%nat /\
              r_final r' = r_final r /\ 0 <= v < 2 ^ (8 * 2 ^ Z.of_nat t - 2).
Proof.
  intros HF Hr. unfold readVarint, ReadByte in Hr.
  destruct (r_bytes r) as [|b rest] eqn:E; [done|]. apply Forall_cons in HF as [Hb HF].
  unfold is_byte in Hb. rewrite Z.shiftr_div_pow2 in Hr by lia. change (2 ^ 6) with 64 in Hr.
  assert (0 <= b / 64 < 4) as Ht.
  { split; [apply Z.div_pos; lia|apply Z.div_lt_upper_bound; lia]. }
  change 0x3f with (Z.ones 6) in Hr. rewrite Z.land_ones in Hr by lia.
  pose proof (Z.mod_pos_bound b (2 ^ 6) ltac:(lia)) as Hm.
  generalize dependent (b mod 2 ^ 6). intros acc Hr Hm. rewrite Z.shiftl_1_l in Hr.
  set (t := Z.to_nat (b / 64)) in *. assert (Z.of_nat t = b / 64) as Et by lia.
  rewrite <- Et in Hr.
  assert (exists n, Z.to_nat (2 ^ Z.of_nat t - 1) = n /\ (2 ^ t = S n)%nat /\
          2 ^ Z.of_nat t = Z.of_nat n + 1 /\ (n < 8)%nat) as (n & En & Es & Ez & Hn).
  { assert (t < 4)%nat as Hlt by lia. clear - Hlt.
    destruct t as [|[|[|[|t]]]]; [exists 0%nat|exists 1%nat|exists 3%nat|exists 7%nat|lia];
      repeat split; lia. }
  rewrite En in Hr.
  assert (2 ^ (8 * Z.of_nat n) <= 2 ^ 56) by (apply Z.pow_le_mono_r; lia).
  assert (0 < 2 ^ (8 * Z.of_nat n)) by (apply Z.pow_pos_nonneg; lia).
  apply readVarint_rest_inv in Hr as (Hv & Hf & c & Hc & Hlen); [|done|lia|nia].
  exists t, (b :: c). split; [lia|]. split; [simpl in *; congruence|].
  split; [simpl; lia|]. split; [done|]. rewrite Ez.
  replace (8 * (Z.of_nat n + 1) - 2) with (8 * Z.of_nat n + 6) by lia.
  rewrite Z.pow_add_r by lia. change (2 ^ 6) with 64 in *. nia.
Qed.

(** Variable-length integers round trip. Every value below 2^62 is
    encoded (without the panic) as 1, 2, 4 or 8 bytes appended to the buffer,
    the reader returns the value and leaves exactly the bytes that follow, and
    no shorter byte string decodes to the value. *)
Theorem varint_roundtrip_shortest (b : list Z) (v : Z) :
  0 <= v < 2 ^ 62 ->
  exists enc, appendVarint b v = Some (b ++ enc) /\ Forall is_byte enc /\
    In (List.length enc) [1; 2; 4; 8]%nat /\
    (forall rest e, readVarint (mkReader (enc ++ rest) e) = Ok (v, mkReader rest e)) /\
    (forall bs e r', Forall is_byte bs -> readVarint (mkReader bs e) = Ok (v, r') ->
       (List.length enc <= List.length bs)%nat).
Proof.
  intros Hv. exists (varint v). pose proof (varint_class_ok v Hv) as [Hc Hlt].
  split; [|split; [|split; [|split]]].
  - unfold varint. by rewrite !appendVarint_form.
  - by apply varint_bytes.
  - rewrite varint_length by done.
    destruct (varint_class v) as [|[|[|[|k]]]]; simpl; try lia; tauto.
  - intros. by apply readVarint_append.
  - intros bs e r' HF Hr. apply readVarint_inv in Hr as (t & c & Ht & Hbs & Hlen & _ & Hvt); [|done].
    simpl in Hbs. rewrite Hbs, length_app, Hlen, varint_length by done.
    apply Nat.le_trans with (2 ^ t)%nat; [|lia]. apply Nat.pow_le_mono_r; [lia|].
    clear - Hvt Ht. unfold varint_class.
    destruct t as [|[|[|[|t]]]]; simpl in Hvt; case_goal; bool_to_prop; lia.
Qed.

Lemma varint_roundtrip_shortest_witness :
  exists enc, appendVarint [7] 15293 = Some ([7] ++ enc) /\ List.length enc = 2%nat /\
              readVarint (mkReader (enc ++ [1]) io_EOF) = Ok (15293, mkReader [1] io_EOF).
Proof.
  destruct (varint_roundtrip_shortest [7] 15293 ltac:(lia)) as (enc & E & _ & _ & Hr & _).
  exists enc. split; [exact E|]. split; [|apply Hr].
  vm_compute in E. injection E as <-. reflexivity.
Defined.

(** ** Capsules *)

Lemma ReadFull_exact p rest e :
  ReadFull (mkReader (p ++ rest) e) (len p) = Ok (p, mkReader rest e).
Proof.
  unfold ReadFull, len. cbn [r_bytes r_final]. rewrite length_app.
  rewrite (proj2 (Z.leb_le _ _)) by lia. by rewrite Nat2Z.id, take_app_length, drop_app_length.
Qed.

Lemma ReadFull_inv r n p r' :
  0 <= n -> ReadFull r n = Ok (p, r') ->
  r_bytes r = p ++ r_bytes r' /\ len p = n /\ r_final r' = r_final r.
Proof.
  unfold ReadFull, len. intros Hn Hr. destruct (n <=? _) eqn:E; [|by case_hyp Hr]. bool_to_prop.
  simplify_eq. simpl. rewrite take_drop, length_take. split; [done|]. split; [lia|done].
Qed.

Lemma WriteDatagram_encode p :
  len p + 1 < 2 ^ 62 ->
  WriteDatagram p = Some (varint 0 ++ varint (len p + 1) ++ varint 0 ++ p).
Proof.
  intros Hp. assert (0 <= len p) by (unfold len; lia).
  unfold WriteDatagram, capsuleTypeDatagram, u64. rewrite Z.mod_small by lia.
  unfold varint. by rewrite !appendVarint_form, <- !app_assoc by lia.
Qed.

Lemma len_app p q : len (p ++ q) = len p + len q.
Proof. unfold len. rewrite length_app. lia. Qed.

Lemma readCapsule_encode c rest e :
  capsule_ok c ->
  readCapsule (mkReader (encode c ++ rest) e) =
  Ok (match c with Datagram p => Some p | _ => None end, mkReader rest e).
Proof.
  unfold maxCapsulePayload. destruct c as [p|ctx p|ctype value]; intros Hc; unfold capsule_ok, encode in *;
    unfold maxCapsulePayload in Hc.
  - assert (0 <= len p) by (unfold len; lia). rewrite WriteDatagram_encode by lia. cbn [from_option id].
    rewrite <- !app_assoc. unfold readCapsule. rewrite !readVarint_append by lia.
    unfold maxCapsulePayload. rewrite (proj2 (Z.ltb_ge _ _)) by lia.
    change (varint 0 ++ p ++ rest) with ((0 :: p) ++ rest).
    replace (len p + 1) with (len (0 :: p)) by (unfold len; simpl; lia).
    rewrite ReadFull_exact. change (readVarint (mkReader (0 :: p) io_EOF)) with
      (Ok (A := Z * reader) (0, mkReader p io_EOF)). simpl negb. cbv iota.
    cbn [r_bytes List.length]. by rewrite Nat.sub_succ_l, Nat.sub_diag by done.
  - assert (0 <= len (varint ctx ++ p)) by (unfold len; lia). destruct Hc as [Hctx Hlen].
    rewrite <- !app_assoc. unfold readCapsule. rewrite !readVarint_append by lia.
    unfold maxCapsulePayload. rewrite (proj2 (Z.ltb_ge _ _)) by lia.
    rewrite (app_assoc (varint ctx) p rest), ReadFull_exact, readVarint_append by lia.
    simpl negb. cbv iota. by rewrite (proj2 (Z.eqb_neq _ _)) by lia.
  - assert (0 <= len value) by (unfold len; lia). destruct Hc as [Hctx Hlen].
    rewrite <- !app_assoc. unfold readCapsule. rewrite !readVarint_append by lia.
    unfold maxCapsulePayload. rewrite (proj2 (Z.ltb_ge _ _)) by lia.
    rewrite ReadFull_exact. unfold capsuleTypeDatagram. by rewrite (proj2 (Z.eqb_neq _ _)) by lia.
Qed.

(** What one turn of the loop consumed and produced. *)
Lemma readCapsule_inv r o r' :
  Forall is_byte (r_bytes r) -> readCapsule r = Ok (o, r') ->
  r_final r' = r_final r /\
  exists c, r_bytes r = c ++ r_bytes r' /\ (2 <= List.length c)%nat /\
    match o with
    | Some p => Forall is_byte p /\ len p < maxCapsulePayload /\ len p + 3 <= len c
    | None => True
    end.
Proof.
  intros HF Hr. unfold readCapsule in Hr.
  destruct (readVarint r) as [[ctype r1]|] eqn:E1; [|done].
  apply readVarint_inv in E1 as (t1 & c1 & _ & Hb1 & Hl1 & Hf1 & _); [|done].
  rewrite Hb1 in HF. apply Forall_app in HF as [_ HF1].
  destruct (readVarint r1) as [[clen r2]|] eqn:E2; [|done].
  apply readVarint_inv in E2 as (t2 & c2 & _ & Hb2 & Hl2 & Hf2 & Hc); [|done].
  rewrite Hb2 in HF1. apply Forall_app in HF1 as [_ HF2].
  destruct (maxCapsulePayload <? clen) eqn:Emax; [done|]. bool_to_prop.
  destruct (ReadFull r2 clen) as [[value r3]|] eqn:E3; [|done].
  apply ReadFull_inv in E3 as (Hb3 & Hl3 & Hf3); [|lia].
  rewrite Hb3 in HF2. apply Forall_app in HF2 as [HFv _].
  assert (1 <= 2 ^ t1 /\ 1 <= 2 ^ t2)%nat as [Hp1 Hp2].
  { split; apply Nat.neq_0_lt_0, Nat.pow_nonzero; lia. }
  assert (r3 = r' -> r_final r' = r_final r /\ r_bytes r = (c1 ++ c2 ++ value) ++ r_bytes r') as Hr3.
  { intros <-. split; [congruence|]. by rewrite Hb1, Hb2, Hb3, <- !app_assoc. }
  assert (2 <= List.length (c1 ++ c2 ++ value))%nat as Hlc by (rewrite !length_app; lia).
  destruct (negb (ctype =? capsuleTypeDatagram)).
  { simplify_eq. destruct Hr3 as [? Hb]; [done|]. split; [done|]. by eexists. }
  destruct (readVarint (mkReader value io_EOF)) as [[ctx rd]|] eqn:E4; [|done].
  apply readVarint_inv in E4 as (t4 & c4 & _ & Hb4 & Hl4 & _ & _); [|done]. simpl in Hb4.
  assert (1 <= 2 ^ t4)%nat by (apply Nat.neq_0_lt_0, Nat.pow_nonzero; lia).
  destruct (negb (ctx =? 0)); simplify_eq; (destruct Hr3 as [? Hb]; [done|]).
  { split; [done|]. by eexists. }
  split; [done|]. eexists. split; [exact Hb|]. split; [done|].
  rewrite length_app, Nat.add_sub, drop_app_length.
  apply Forall_app in HFv as [_ HFp]. unfold len in *.
  rewrite !length_app in *. split; [done|]. lia.
Qed.

Lemma ReadDatagram_loop_enough fuel r :
  Forall is_byte (r_bytes r) -> (List.length (r_bytes r) < fuel)%nat ->
  exists res, ReadDatagram_loop fuel r = Some res /\
  match res with
  | Ok (p, r') =>
      Forall is_byte p /\ len p < maxCapsulePayload /\ r_final r' = r_final r /\
      exists c, r_bytes r = c ++ r_bytes r' /\ len p + 3 <= len c
  | Err _ => True
  end.
Proof.
  revert r. induction fuel as [|fuel IH]; intros r HF Hfuel; [lia|]. simpl.
  destruct (readCapsule r) as [[[p|] r1]|e] eqn:E; [| |by eexists].
  - apply readCapsule_inv in E as (Hf & c & Hc & _ & Hp & Hl & Hl3); [|done].
    eexists. split; [done|]. do 3 (split; [done|]). by exists c.
  - apply readCapsule_inv in E as (Hf & c & Hc & Hlc & _); [|done].
    rewrite Hc in HF, Hfuel. rewrite length_app in Hfuel. apply Forall_app in HF as [_ HF].
    destruct (IH r1 HF ltac:(lia)) as (res & Hres & Hok). exists res. split; [done|].
    destruct res as [[p r']|]; [|done]. destruct Hok as (Hp & Hl & Hf' & c' & Hc' & Hl3).
    split; [done|]. split; [done|]. split; [congruence|].
    exists (c ++ c'). rewrite Hc, Hc', <- app_assoc. split; [done|]. rewrite len_app.
    unfold len in *. lia.
Qed.

Lemma ReadDatagram_loop_fuel fuel fuel' r :
  Forall is_byte (r_bytes r) ->
  (List.length (r_bytes r) < fuel)%nat -> (List.length (r_bytes r) < fuel')%nat ->
  ReadDatagram_loop fuel r = ReadDatagram_loop fuel' r.
Proof.
  revert fuel' r. induction fuel as [|fuel IH]; intros [|fuel'] r HF H1 H2; try lia. simpl.
  destruct (readCapsule r) as [[[p|] r1]|e] eqn:E; [done| |done].
  apply readCapsule_inv in E as (_ & c & Hc & Hlc & _); [|done].
  rewrite Hc in HF, H1, H2. rewrite length_app in *. apply Forall_app in HF as [_ HF].
  apply IH; [done|lia|lia].
Qed.

(** Claim C27: whatever bytes a peer sends, [ReadDatagram] returns: the fuel it
    is given always suffices, a payload it returns is shorter than the limit of
    2^16 bytes, and the bytes it consumed are a prefix of the stream longer
    than the payload by at least the three bytes of the framing. *)
Theorem ReadDatagram_total (r : reader) :
  Forall is_byte (r_bytes r) ->
  exists res, ReadDatagram r = Some res /\
  (forall fuel, (List.length (r_bytes r) < fuel)%nat -> ReadDatagram_loop fuel r = Some res) /\
  match res with
  | Ok (p, r') =>
      Forall is_byte p /\ len p < maxCapsulePayload /\ r_final r' = r_final r /\
      exists c, r_bytes r = c ++ r_bytes r' /\ len p + 3 <= len c
  | Err _ => True
  end.
Proof.
  intros HF. unfold ReadDatagram.
  destruct (ReadDatagram_loop_enough (S (List.length (r_bytes r))) r HF ltac:(lia))
    as (res & Hres & Hok).
  exists res. split; [done|]. split; [|done].
  intros fuel Hf. rewrite <- Hres. apply ReadDatagram_loop_fuel; [done|lia|lia].
Qed.

Lemma ReadDatagram_total_witness :
  exists res, ReadDatagram (mkReader [0; 3; 0; 65] io_EOF) = Some res /\ is_ok res = false.
Proof.
  destruct (ReadDatagram_total (mkReader [0; 3; 0; 65] io_EOF)) as (res & E & _).
  { simpl. repeat constructor; unfold is_byte; lia. }
  exists res. split; [exact E|]. vm_compute in E. injection E as <-. reflexivity.
Defined.

Definition payloads (cs : list capsule) : list (list Z) :=
  flat_map (fun c => match c with Datagram p => [p] | _ => [] end) cs.

Lemma encode_nonempty c : capsule_ok c -> (1 <= List.length (encode c))%nat.
Proof.
  unfold capsule_ok, maxCapsulePayload. destruct c as [p|ctx p|ctype value]; intros Hc; simpl.
  - rewrite WriteDatagram_encode by lia. simpl. lia.
  - simpl. lia.
  - rewrite length_app, varint_length by lia.
    pose proof (Nat.pow_nonzero 2 (varint_class ctype) ltac:(lia)). lia.
Qed.

Lemma encode_count cs :
  Forall capsule_ok cs -> (List.length cs <= List.length (flat_map encode cs))%nat.
Proof.
  induction 1 as [|c cs Hc _ IH]; simpl; [lia|]. rewrite length_app.
  pose proof (encode_nonempty c Hc). lia.
Qed.

Lemma ReadDatagram_loop_encode fuel cs e :
  Forall capsule_ok cs -> (List.length cs < fuel)%nat ->
  (payloads cs = [] /\ ReadDatagram_loop fuel (mkReader (flat_map encode cs) e) = Some (Err e)) \/
  exists p cs', payloads cs = p :: payloads cs' /\ (List.length cs' < List.length cs)%nat /\
    Forall capsule_ok cs' /\
    ReadDatagram_loop fuel (mkReader (flat_map encode cs) e) =
      Some (Ok (p, mkReader (flat_map encode cs') e)).
Proof.
  intros Hcs. revert fuel. induction Hcs as [|c cs Hc Hcs IH]; intros [|fuel] Hf; simpl in Hf;
    try lia; [by left|].
  cbn [flat_map ReadDatagram_loop]. rewrite readCapsule_encode by done.
  destruct c as [p|ctx p|ctype value].
  - right. exists p, cs. split; [done|]. split; [simpl; lia|]. by split.
  - destruct (IH fuel ltac:(lia)) as [Hnil|(q & cs' & Hp & Hl & Hr)]; [by left|right].
    exists q, cs'. split; [done|]. split; [simpl; lia|done].
  - destruct (IH fuel ltac:(lia)) as [Hnil|(q & cs' & Hp & Hl & Hr)]; [by left|right].
    exists q, cs'. split; [done|]. split; [simpl; lia|done].
Qed.

(** Claim C26: a session preserves datagram boundaries and order. The reader of
    a stream of capsules, in which the payloads written by [WriteDatagram] are
    mixed with capsule types and contexts it does not know, delivers exactly the
    payloads, in order, and then the error the stream ends with. *)
Theorem session_roundtrip (cs : list capsule) (e : string) :
  Forall capsule_ok cs ->
  ReadDatagrams (S (List.length cs)) (mkReader (flat_map encode cs) e) = Some (payloads cs, e).
Proof.
  remember (List.length cs) as n eqn:En. assert (List.length cs <= n)%nat as Hn by lia. clear En.
  revert cs Hn. induction n as [n IH] using lt_wf_ind. intros cs Hn Hcs.
  cbn [ReadDatagrams]. unfold ReadDatagram. cbn [r_bytes].
  pose proof (encode_count cs Hcs) as Hle.
  destruct (ReadDatagram_loop_encode (S (List.length (flat_map encode cs))) cs e Hcs ltac:(lia))
    as [[-> ->]|(p & cs' & -> & Hl & Hcs' & ->)]; [done|].
  destruct n as [|n]; [lia|]. by rewrite (IH n) by (done || lia).
Qed.

Lemma session_roundtrip_witness :
  ReadDatagrams 4 (mkReader (flat_map encode [Datagram [1]; OtherType 23 [9; 9]; Datagram []]) io_EOF)
    = Some ([[1]; []], io_EOF).
Proof.
  apply (session_roundtrip [Datagram [1]; OtherType 23 [9; 9]; Datagram []]).
  repeat (apply List.Forall_cons || apply List.Forall_nil); vm_compute; intuition congruence.
Defined.

(** The limit on both ends. A payload of at most 2^16 - 1 bytes, which
    is every UDP payload, is read back whole with the rest of the stream left in
    place; a longer one is written all the same, and the reader refuses it. *)
Theorem datagram_limit (p rest : list Z) (e : string) :
  len p < 2 ^ 61 ->
  exists buf, WriteDatagram p = Some buf /\
  ReadDatagram (mkReader (buf ++ rest) e) =
    Some (if len p <? 2 ^ 16 then Ok (p, mkReader rest e)
          else Err "tun2connect: capsule of %d bytes exceeds limit").
Proof.
  intros Hp. assert (0 <= len p) by (unfold len; lia). eexists.
  split; [apply WriteDatagram_encode; lia|].
  unfold ReadDatagram. cbn [ReadDatagram_loop]. destruct (len p <? 2 ^ 16) eqn:E; bool_to_prop.
  - pose proof (readCapsule_encode (Datagram p) rest e) as Hr. unfold encode in Hr.
    rewrite WriteDatagram_encode in Hr by lia. cbn [from_option id] in Hr.
    rewrite Hr; [done|]. unfold capsule_ok, maxCapsulePayload. lia.
  - unfold readCapsule. rewrite <- !app_assoc, !readVarint_append by lia.
    unfold maxCapsulePayload. by rewrite (proj2 (Z.ltb_lt _ _)) by lia.
Qed.

Lemma datagram_limit_witness :
  exists buf, WriteDatagram [1; 2] = Some buf /\
  ReadDatagram (mkReader (buf ++ [5]) io_EOF) = Some (Ok ([1; 2], mkReader [5] io_EOF)).
Proof. exact (datagram_limit [1; 2] [5] io_EOF ltac:(vm_compute; reflexivity)). Defined.
