(* ===== verification/VirtualDNS.v ===== *)
(** * Virtual DNS: the name-preservation state

    [sdk/pkg/tun2connect/dns.go]. The [names] and [reverse] maps and the
    [container/list] order all point to the same list elements, so the model
    has a store of elements: an element is its index in [d_elements].

    [None] as the result of an operation is a run-time panic (a nil element).
    The mutex makes each operation atomic. Parameters: the DNS codec
    [golang.org/x/net/dns/dnsmessage]. *)

From S2P Require Import Prelude GoStrings Netip.

Local Open Scope go_scope.

(** ** Lists of elements: [container/list] *)

Notation element := nat (only parsing).

Definition list_remove (e : element) (l : list element) : list element :=
  List.filter (fun x => negb (Nat.eqb e x)) l.

(** [MoveToFront] does nothing for an element of another list. *)
Definition MoveToFront (e : element) (l : list element) : list element :=
  if existsb (Nat.eqb e) l then e :: list_remove e l else l.

Definition list_back (l : list element) : option element := last l.

(** ** State *)

Record binding := mkBinding { b_name : string; b_addr : Addr }.

Record family := mkFamily {
  pool : Prefix;
  reserved : Prefix;
  last_addr : Addr;
  names : gmap string element;
  order : list element;           (* front is most recently used *)
}.

Record VirtualDNS := mkVirtualDNS {
  TTL : Z;                        (* nanoseconds *)
  v4 : family;
  v6 : family;
  reverse : gmap Addr element;
  elements : gmap element binding;
  next_element : element;
}.

Definition v4Pool : Prefix := Eval vm_compute in default PrefixZero (ParsePrefix "100.64.0.0/10").
Definition v6Pool : Prefix := Eval vm_compute in default PrefixZero (ParsePrefix "100::/64").
Definition v4Reserved : Prefix :=
  Eval vm_compute in default PrefixZero (ParsePrefix "100.127.255.0/24").
Definition v6Reserved : Prefix :=
  Eval vm_compute in default PrefixZero (ParsePrefix "100::ffff:ffff:ffff:ff00/120").

Definition maxSyntheticNames : Z := 2 ^ 16.
Definition Second : Z := 1000000000.
Definition DefaultTTL : Z := 30 * Second.
Definition ErrPoolExhausted : string := "tun2connect: synthetic address pool exhausted".

Definition NewVirtualDNS : VirtualDNS :=
  mkVirtualDNS DefaultTTL
    (mkFamily v4Pool v4Reserved (p_addr v4Pool) ∅ [])
    (mkFamily v6Pool v6Reserved (p_addr v6Pool) ∅ [])
    ∅ ∅ 0%nat.

Definition get_family (v6flag : bool) (d : VirtualDNS) : family := if v6flag then v6 d else v4 d.

(** Write the family back, with the rest of the state. *)
Definition set_family (v6flag : bool) (f : family) (d : VirtualDNS) : VirtualDNS :=
  if v6flag then mkVirtualDNS (TTL d) (v4 d) f (reverse d) (elements d) (next_element d)
  else mkVirtualDNS (TTL d) f (v6 d) (reverse d) (elements d) (next_element d).

Definition set_order (o : list element) (f : family) : family :=
  mkFamily (pool f) (reserved f) (last_addr f) (names f) o.

(** ** Operations *)

Section Operations.
Context `{GoUnicode}.

Definition canonical (name : string) : string := to_lower (trim_suffix "." name).

(** The eviction of the least recently used name. *)
Definition evict (v6flag : bool) (d : VirtualDNS) : option VirtualDNS :=
  let f := get_family v6flag d in
  match list_back (order f) with
  | None => None
  | Some oldest =>
      match elements d !! oldest with
      | None => None
      | Some evicted =>
          let f := mkFamily (pool f) (reserved f) (last_addr f)
                     (delete (b_name evicted) (names f)) (list_remove oldest (order f)) in
          let d := set_family v6flag f d in
          Some (mkVirtualDNS (TTL d) (v4 d) (v6 d) (delete (b_addr evicted) (reverse d))
                  (elements d) (next_element d))
      end
  end.

(** [PushFront] of a new binding, and its entries in the two maps. *)
Definition push_binding (v6flag : bool) (name : string) (addr : Addr) (d : VirtualDNS)
  : VirtualDNS :=
  let f := get_family v6flag d in
  let e := next_element d in
  let f := mkFamily (pool f) (reserved f) addr (<[name := e]> (names f)) (e :: order f) in
  let d := set_family v6flag f d in
  mkVirtualDNS (TTL d) (v4 d) (v6 d) (<[addr := e]> (reverse d))
    (<[e := mkBinding name addr]> (elements d)) (S e).

Definition resolve (d : VirtualDNS) (name : string) (v6flag : bool)
  : option (Result Addr * VirtualDNS) :=
  let name := canonical name in
  if String.eqb name EmptyString then Some (Err "tun2connect: empty name", d)
  else
    let f := get_family v6flag d in
    match names f !! name with
    | Some e =>
        match elements d !! e with
        | None => None
        | Some b => Some (Ok (b_addr b), set_family v6flag (set_order (MoveToFront e (order f)) f) d)
        end
    | None =>
        let addr := Next (last_addr f) in
        if negb (Contains (pool f) addr) || Contains (reserved f) addr
        then Some (Err ErrPoolExhausted, d)
        else
          let evicted := if maxSyntheticNames <=? Z.of_nat (List.length (order f))
                         then evict v6flag d else Some d in
          match evicted with
          | None => None
          | Some d => Some (Ok addr, push_binding v6flag name addr d)
          end
    end.

Definition Resolve4 (d : VirtualDNS) (name : string) := resolve d name false.
Definition Resolve6 (d : VirtualDNS) (name : string) := resolve d name true.

(** [ok = false] is [None] inside. *)
Definition Reverse (d : VirtualDNS) (addr : Addr) : option (option string * VirtualDNS) :=
  match reverse d !! Unmap addr with
  | None => Some (None, d)
  | Some e =>
      match elements d !! e with
      | None => None
      | Some b =>
          let v6flag := Is6 (b_addr b) in
          let f := get_family v6flag d in
          Some (Some (b_name b), set_family v6flag (set_order (MoveToFront e (order f)) f) d)
      end
  end.
End Operations.

(** [ttlSeconds]: [time.Duration] division truncates toward zero. *)
Definition ttlSeconds (ttl : Z) : Z :=
  (Z.min (Z.max (Z.quot ttl Second) 0) (2 ^ 31 - 1)) mod 2 ^ 32.

(** ** The DNS codec *)

Record Header := mkHeader {
  h_ID : Z; h_Response : bool; h_OpCode : Z; h_Authoritative : bool;
  h_RecursionDesired : bool; h_RecursionAvailable : bool; h_RCode : Z;
}.
Record Question := mkQuestion { q_Name : string; q_Type : Z; q_Class : Z }.
Record ResourceHeader := mkResourceHeader {
  rh_Name : string; rh_Type : Z; rh_Class : Z; rh_TTL : Z;
}.

Definition TypeA : Z := 1.
Definition TypeAAAA : Z := 28.
Definition ClassINET : Z := 1.
Definition RCodeSuccess : Z := 0.
Definition RCodeServerFailure : Z := 2.

(** The calls of [dnsmessage.Parser] and [dnsmessage.Builder] that the code
    makes; a builder is passed along. *)
Class DNSMessage := {
  parser : Type;
  Parser_Start : list Z -> Result (parser * Header);
  Parser_Question : parser -> Result Question;
  builder : Type;
  NewBuilder : Header -> builder;
  EnableCompression : builder -> builder;
  StartQuestions : builder -> Result builder;
  Builder_Question : builder -> Question -> Result builder;
  StartAnswers : builder -> Result builder;
  AResource : builder -> ResourceHeader -> Addr -> Result builder;
  AAAAResource : builder -> ResourceHeader -> Addr -> Result builder;
  Finish : builder -> Result (list Z);
}.

Section HandleQuery.
Context `{GoUnicode, DNSMessage}.

Definition response_header (hdr : Header) (rcode : Z) : Header :=
  mkHeader (h_ID hdr) true (h_OpCode hdr) true (h_RecursionDesired hdr) true rcode.

(** The switch on class and type: the address to answer with, the response
    code, and the new state. *)
Definition query_answer (d : VirtualDNS) (q : Question)
  : option (option Addr * Z * VirtualDNS) :=
  if negb (q_Class q =? ClassINET) then Some (None, RCodeSuccess, d)
  else
    let resolved :=
      if q_Type q =? TypeA then Some (Resolve4 d (q_Name q))
      else if q_Type q =? TypeAAAA then Some (Resolve6 d (q_Name q))
      else None in
    match resolved with
    | None => Some (None, RCodeSuccess, d)
    | Some None => None
    | Some (Some (Ok addr, d)) => Some (Some addr, RCodeSuccess, d)
    | Some (Some (Err _, d)) => Some (None, RCodeServerFailure, d)
    end.

Definition build_response (ttl : Z) (hdr : Header) (q : Question) (answer : option Addr)
    (rcode : Z) : Result (list Z) :=
  let b := EnableCompression (NewBuilder (response_header hdr rcode)) in
  let? b := StartQuestions b in
  let? b := Builder_Question b q in
  match answer with
  | None => Finish b
  | Some addr =>
      let? b := StartAnswers b in
      let rh := mkResourceHeader (q_Name q) (q_Type q) (q_Class q) (ttlSeconds ttl) in
      let? b := (if q_Type q =? TypeA then AResource b rh addr else AAAAResource b rh addr) in
      Finish b
  end.

Definition HandleQuery (d : VirtualDNS) (query : list Z)
  : option (Result (list Z) * VirtualDNS) :=
  match (let? (p, hdr) := Parser_Start query in
         let? q := Parser_Question p in Ok (hdr, q)) with
  | Err e => Some (Err e, d)
  | Ok (hdr, q) =>
      match query_answer d q with
      | None => None
      | Some (answer, rcode, d) => Some (build_response (TTL d) hdr q answer rcode, d)
      end
  end.
End HandleQuery.
