(* ===== verification/VirtualDNSSpec.v ===== *)
(** * Virtual DNS: specification and refinement

    The abstract state of one address family is the list of its bindings, most
    recently used first, and the number of the last address handed out. The
    element store, the maps and the linked list of [VirtualDNS] refine it. *)

From S2P Require Import Prelude GoStrings Netip VirtualDNS.
From Stdlib Require Import Permutation.

(** ** The specification *)

(** [l_last] is the address as a number; [l_bindings] is most recent first. *)
Record lru := mkLru { l_last : Z; l_bindings : list binding }.

Record spec := mkSpec { s4 : lru; s6 : lru }.

Definition get_lru (v6flag : bool) (s : spec) : lru := if v6flag then s6 s else s4 s.
Definition set_lru (v6flag : bool) (l : lru) (s : spec) : spec :=
  if v6flag then mkSpec (s4 s) l else mkSpec l (s6 s).

Definition mk_addr (v6flag : bool) (z : Z) : Addr :=
  if v6flag then Addr6 z EmptyString else Addr4 z.

(** The pool without its first address and without the reserved block. *)
Definition pool_base (v6flag : bool) : Z := if v6flag then 2 ^ 120 else 1681915904.
Definition pool_limit (v6flag : bool) : Z :=
  if v6flag then 2 ^ 120 + 2 ^ 64 - 256 else 1681915904 + 2 ^ 22 - 256.

Definition spec_init : spec :=
  mkSpec (mkLru (pool_base false) []) (mkLru (pool_base true) []).

Definition touch (name : string) (b : binding) (l : lru) : lru :=
  mkLru (l_last l)
    (b :: List.filter (fun x => negb (String.eqb (b_name x) name)) (l_bindings l)).

Definition push (name : string) (v6flag : bool) (l : lru) : lru :=
  let kept := if maxSyntheticNames <=? Z.of_nat (List.length (l_bindings l))
              then removelast (l_bindings l) else l_bindings l in
  mkLru (l_last l + 1) (mkBinding name (mk_addr v6flag (l_last l + 1)) :: kept).

Section SpecOperations.
Context `{GoUnicode}.

Definition spec_resolve (s : spec) (name : string) (v6flag : bool) : Result Addr * spec :=
  let name := canonical name in
  let l := get_lru v6flag s in
  if String.eqb name EmptyString then (Err "tun2connect: empty name", s)
  else match List.find (fun b => String.eqb (b_name b) name) (l_bindings l) with
       | Some b => (Ok (b_addr b), set_lru v6flag (touch name b l) s)
       | None =>
           if l_last l + 1 <? pool_limit v6flag
           then (Ok (mk_addr v6flag (l_last l + 1)), set_lru v6flag (push name v6flag l) s)
           else (Err ErrPoolExhausted, s)
       end.

Definition spec_reverse (s : spec) (addr : Addr) : option string * spec :=
  let addr := Unmap addr in
  let v6flag := Is6 addr in
  let l := get_lru v6flag s in
  match List.find (fun b => bool_decide (b_addr b = addr)) (l_bindings l) with
  | Some b => (Some (b_name b), set_lru v6flag (touch (b_name b) b l) s)
  | None => (None, s)
  end.
End SpecOperations.

(** ** The representation relation *)

Notation entry := (nat * binding)%type (only parsing).

Record family_repr (v6flag : bool) (els : gmap element binding) (next : element)
    (f : family) (E : list entry) (l : lru) : Prop := {
  fr_pool : pool f = if v6flag then v6Pool else v4Pool;
  fr_reserved : reserved f = if v6flag then v6Reserved else v4Reserved;
  fr_last : last_addr f = mk_addr v6flag (l_last l);
  fr_range : pool_base v6flag <= l_last l < pool_limit v6flag;
  fr_order : order f = map fst E;
  fr_bindings : l_bindings l = map snd E;
  fr_nodup : NoDup (map fst E);
  fr_entry : forall e b, In (e, b) E ->
    els !! e = Some b /\ (e < next)%nat /\
    exists z, b_addr b = mk_addr v6flag z /\ pool_base v6flag < z <= l_last l;
  fr_names : forall n e, names f !! n = Some e <-> exists a, In (e, mkBinding n a) E;
  fr_bound : Z.of_nat (List.length E) <= maxSyntheticNames;
}.

(** [E] gives the entries of each family. *)
Record repr_with (d : VirtualDNS) (s : spec) (E : bool -> list entry) : Prop := {
  rp_family : forall v6flag,
    family_repr v6flag (elements d) (next_element d) (get_family v6flag d) (E v6flag) (get_lru v6flag s);
  rp_reverse : forall a e,
    reverse d !! a = Some e <-> exists v6flag n, In (e, mkBinding n a) (E v6flag);
}.

Definition repr (d : VirtualDNS) (s : spec) : Prop := exists E, repr_with d s E.

(** ** Addresses *)

Lemma mk_addr_inj f z f' z' : mk_addr f z = mk_addr f' z' -> f = f' /\ z = z'.
Proof. destruct f, f'; simpl; intros Hm; split; congruence. Qed.

Lemma mk_addr_Is6 f z : Is6 (mk_addr f z) = f.
Proof. by destruct f. Qed.

Lemma pools_ok (f : bool) :
  let p := if f then v6Pool else v4Pool in
  let r := if f then v6Reserved else v4Reserved in
  prefix_wf p /\ prefix_masked p /\ prefix_wf r /\ prefix_masked r.
Proof.
  destruct f; (split; [|split; [|split]]);
    (vm_compute; reflexivity) || (unfold prefix_wf; simpl; repeat split; lia).
Qed.

(** The pool test of [resolve], as a bound on the number of the address. *)
Lemma next_in_pool f z :
  pool_base f <= z < pool_limit f ->
  Next (mk_addr f z) = mk_addr f (z + 1) /\
  negb (Contains (if f then v6Pool else v4Pool) (mk_addr f (z + 1)))
  || Contains (if f then v6Reserved else v4Reserved) (mk_addr f (z + 1))
  = negb (z + 1 <? pool_limit f).
Proof.
  intros Hz. destruct (pools_ok f) as (Hp1 & Hp2 & Hr1 & Hr2).
  rewrite !Contains_in_block by done. destruct f; unfold pool_base, pool_limit in *; split.
  - simpl. rewrite (proj2 (Z.eqb_neq _ _)) by lia. done.
  - unfold in_block, prefix_size. simpl. apply eq_true_iff_eq. lia.
  - simpl. rewrite (proj2 (Z.eqb_neq _ _)) by lia. done.
  - unfold in_block, prefix_size. simpl. apply eq_true_iff_eq. lia.
Qed.

(** ** Lists of entries *)

Lemma list_remove_notin e l : ~ In e l -> list_remove e l = l.
Proof.
  unfold list_remove. induction l as [|x l IH]; simpl; intros Hn; [done|].
  rewrite (proj2 (Nat.eqb_neq e x)) by (intros ->; tauto). simpl. f_equal. tauto.
Qed.

Lemma list_remove_map e (E : list entry) :
  list_remove e (map fst E) = map fst (List.filter (fun x => negb (Nat.eqb e (fst x))) E).
Proof.
  unfold list_remove. induction E as [|x E IH]; simpl; [done|].
  destruct (e =? fst x)%nat; simpl; congruence.
Qed.

Lemma filter_all {A} (f : A -> bool) l : (forall x, In x l -> f x = true) -> List.filter f l = l.
Proof.
  induction l as [|x l IH]; simpl; intros Hl; [done|].
  rewrite Hl by (by left). f_equal. auto.
Qed.

Lemma front_permutation e b (E : list entry) :
  NoDup (map fst E) -> In (e, b) E ->
  Permutation E ((e, b) :: List.filter (fun x => negb (Nat.eqb e (fst x))) E).
Proof.
  induction E as [|[e' b'] E IH]; simpl; intros Hnd Hin; [done|].
  apply NoDup_cons in Hnd as [Hn Hnd].
  assert (forall x, In x (map fst E) -> x <> e') as Hne.
  { intros x Hx ->. apply Hn, list_elem_of_In, Hx. }
  destruct (e =? e')%nat eqn:Ee; simpl.
  - apply Nat.eqb_eq in Ee. subst e'. destruct Hin as [[= ->]|Hin].
    + constructor. rewrite filter_all; [done|]. intros [x bx] Hx. simpl.
      apply negb_true_iff, Nat.eqb_neq. intros ->. apply (Hne x); [|done].
      by apply (in_map fst) in Hx.
    + exfalso. apply (Hne e); [|done]. by apply (in_map fst) in Hin.
  - destruct Hin as [[= -> ->]|Hin]; [by rewrite Nat.eqb_refl in Ee|].
    rewrite (IH Hnd Hin) at 1. apply perm_swap.
Qed.

Section Family.
Context (flag : bool) (els : gmap element binding) (next : element).

Lemma entry_elem_unique f E l e b b' :
  family_repr flag els next f E l -> In (e, b) E -> In (e, b') E -> b = b'.
Proof.
  intros Hf H1 H2. apply (fr_entry _ _ _ _ _ _ Hf) in H1 as [H1 _], H2 as [H2 _]. congruence.
Qed.

Lemma entry_name_unique f E l e b e' b' :
  family_repr flag els next f E l -> In (e, b) E -> In (e', b') E -> b_name b = b_name b' ->
  (e, b) = (e', b').
Proof.
  destruct b as [n a], b' as [n' a']. simpl. intros Hf H1 H2 <-.
  assert (names f !! n = Some e /\ names f !! n = Some e') as [E1 E2].
  { split; apply (fr_names _ _ _ _ _ _ Hf); eauto. }
  assert (e = e') as <- by congruence. f_equal. by eapply entry_elem_unique.
Qed.

Lemma find_name_entry f E l name :
  family_repr flag els next f E l ->
  match List.find (fun b => String.eqb (b_name b) name) (l_bindings l) with
  | Some b => exists e, In (e, b) E /\ b_name b = name /\ names f !! name = Some e
  | None => names f !! name = None
  end.
Proof.
  intros Hf. destruct (List.find _ _) as [b|] eqn:Ef.
  - apply List.find_some in Ef as [Hin En]. apply String.eqb_eq in En.
    rewrite (fr_bindings _ _ _ _ _ _ Hf) in Hin. apply in_map_iff in Hin as ([e b'] & Eb & Hin).
    simpl in Eb. subst b'. exists e. split; [done|]. split; [done|].
    apply (fr_names _ _ _ _ _ _ Hf). destruct b as [n a]. simpl in En. subst. eauto.
  - destruct (names f !! name) as [e|] eqn:En; [|done]. exfalso.
    apply (fr_names _ _ _ _ _ _ Hf) in En as [a Hin].
    apply List.find_none with (x := mkBinding name a) in Ef.
    + simpl in Ef. by rewrite String.eqb_refl in Ef.
    + rewrite (fr_bindings _ _ _ _ _ _ Hf). by apply (in_map snd) in Hin.
Qed.

(** Reordering the entries is harmless when the order follows. *)
Lemma family_repr_permutation f E l E' :
  family_repr flag els next f E l -> Permutation E E' ->
  family_repr flag els next (set_order (map fst E') f) E' (mkLru (l_last l) (map snd E')).
Proof.
  intros Hf HP. assert (forall x, In x E' <-> In x E) as Hin.
  { intros x. split; apply Permutation_in; [by apply Permutation_sym|done]. }
  destruct Hf. split; simpl; try done.
  - apply NoDup_ListNoDup. eapply Permutation_NoDup; [by apply Permutation_map|].
    by apply NoDup_ListNoDup.
  - intros e b Hb. by apply fr_entry0, Hin.
  - intros n e. rewrite fr_names0. by setoid_rewrite Hin.
  - by rewrite <- (Permutation_length HP).
Qed.

Lemma in_order f E l e b :
  family_repr flag els next f E l -> In (e, b) E -> existsb (Nat.eqb e) (order f) = true.
Proof.
  intros Hf Hin. apply existsb_exists. exists e. split; [|apply Nat.eqb_refl].
  rewrite (fr_order _ _ _ _ _ _ Hf). by apply (in_map fst) in Hin.
Qed.

Lemma touch_repr f E l e b :
  family_repr flag els next f E l -> In (e, b) E ->
  exists E', Permutation E E' /\
    family_repr flag els next (set_order (MoveToFront e (order f)) f) E' (touch (b_name b) b l).
Proof.
  intros Hf Hin.
  pose proof (front_permutation e b E (fr_nodup _ _ _ _ _ _ Hf) Hin) as HP.
  eexists. split; [exact HP|]. pose proof (family_repr_permutation f E l _ Hf HP) as Hr.
  unfold MoveToFront. rewrite (in_order f E l e b), (fr_order _ _ _ _ _ _ Hf), list_remove_map by done.
  simpl in Hr. unfold touch. rewrite (fr_bindings _ _ _ _ _ _ Hf).
  replace (List.filter (fun x => negb (String.eqb (b_name x) (b_name b))) (map snd E))
    with (map snd (List.filter (fun x => negb (Nat.eqb e (fst x))) E)); [exact Hr|].
  assert (forall x, In x E -> negb (Nat.eqb e (fst x)) = negb (String.eqb (b_name (snd x)) (b_name b)))
    as Heq.
  { intros [e' b'] Hx. f_equal. apply eq_true_iff_eq. rewrite Nat.eqb_eq, String.eqb_eq. simpl.
    split.
    - intros <-. by rewrite (entry_elem_unique f E l e b' b).
    - intros En. by injection (entry_name_unique f E l _ _ _ _ Hf Hx Hin En). }
  clear - Heq. induction E as [|x E IH]; simpl; [done|].
  rewrite <- (Heq x) by (by left). destruct (negb (Nat.eqb e (fst x))); simpl;
    rewrite IH; auto with datatypes.
Qed.

(** Dropping the entry at the back, as [evict] does. *)
Lemma drop_last_repr f E l e b :
  family_repr flag els next f (E ++ [(e, b)]) l ->
  family_repr flag els next
    (mkFamily (pool f) (reserved f) (last_addr f) (delete (b_name b) (names f))
       (list_remove e (order f))) E (mkLru (l_last l) (removelast (l_bindings l))) /\
  ~ In e (map fst E).
Proof.
  intros Hf. pose proof (fr_nodup _ _ _ _ _ _ Hf) as Hnd. rewrite map_app in Hnd.
  apply NoDup_app in Hnd as (Hnd & Hdis & _).
  assert (~ In e (map fst E)) as Hn.
  { intros Hin. apply (Hdis e); [by apply list_elem_of_In|]. simpl. set_solver. }
  assert (forall x, In x E -> In x (E ++ [(e, b)])) as Hsub by (intros x; rewrite in_app_iff; tauto).
  split; [|done]. pose proof (fun e b e' b' => entry_name_unique f _ l e b e' b' Hf) as Huniq. destruct Hf. split; simpl; try done.
  - rewrite fr_order0, map_app. unfold list_remove. rewrite List.filter_app. simpl.
    rewrite Nat.eqb_refl. simpl. rewrite app_nil_r. by apply list_remove_notin.
  - rewrite fr_bindings0, map_app. simpl. by rewrite removelast_last.
  - intros e' b' Hin. by apply fr_entry0, Hsub.
  - intros n e'. rewrite lookup_delete_Some, fr_names0. split.
    + intros [Hne [a Hin]]. apply in_app_iff in Hin as [Hin|[[= -> ->]|[]]]; [eauto|done].
    + intros [a Hin]. split; [|eauto]. intros <-.
      assert ((e', mkBinding (b_name b) a) = (e, b)) as Heq.
      { apply Huniq; [by apply Hsub|apply in_app_iff; right; by left|done]. }
      apply (f_equal fst) in Heq. simpl in Heq. subst e'. by apply (in_map fst) in Hin.
  - rewrite length_app in fr_bound0. simpl in fr_bound0. lia.
Qed.

(** A fresh entry at the front, as [push_binding] adds it. *)
Lemma push_front_repr f E l name :
  family_repr flag els next f E l ->
  names f !! name = None -> l_last l + 1 < pool_limit flag ->
  Z.of_nat (List.length E) < maxSyntheticNames ->
  let a := mk_addr flag (l_last l + 1) in
  let b := mkBinding name a in
  family_repr flag (<[next := b]> els) (S next)
    (mkFamily (pool f) (reserved f) a (<[name := next]> (names f)) (next :: order f))
    ((next, b) :: E) (mkLru (l_last l + 1) (b :: l_bindings l)).
Proof.
  intros Hf Hname Hlim Hlen. cbv zeta.
  assert (forall e b, In (e, b) E -> (e < next)%nat) as Hlt.
  { intros e b Hin. by destruct (fr_entry _ _ _ _ _ _ Hf e b Hin) as (_ & ? & _). }
  destruct Hf. split; cbn [pool reserved last_addr names order l_last l_bindings]; try done.
  - lia.
  - simpl. congruence.
  - simpl. congruence.
  - simpl. constructor; [|done]. intros Hin. apply list_elem_of_In, in_map_iff in Hin
      as ([e b] & Eb & Hin). simpl in Eb. subst e. apply Hlt in Hin. lia.
  - intros e b [[= <- <-]|Hin].
    + rewrite lookup_insert_eq. split; [done|]. split; [lia|].
      exists (l_last l + 1). simpl. split; [done|lia].
    + destruct (fr_entry0 e b Hin) as (He & Hn & z & Ez & Hz).
      rewrite lookup_insert_ne by lia. split; [done|]. split; [lia|]. exists z. split; [done|lia].
  - intros n e. rewrite lookup_insert_Some, fr_names0. split.
    + intros [[<- <-]|[Hne [a Hin]]]; eexists; [by left|right; exact Hin].
    + intros [a [[= <- <- _]|Hin]]; [by left|right]. split; [|eauto]. intros <-.
      assert (names f !! name = Some e); [|congruence]. apply fr_names0. eauto.
  - simpl. lia.
Qed.

Lemma store_grows f E l b :
  family_repr flag els next f E l -> family_repr flag (<[next := b]> els) (S next) f E l.
Proof.
  intros Hf. destruct Hf. split; try done. intros e x Hin.
  destruct (fr_entry0 e x Hin) as (He & Hn & Hz). rewrite lookup_insert_ne by lia.
  split; [done|]. split; [lia|done].
Qed.
End Family.

(** ** The whole state *)

Lemma get_set_family g f x d :
  get_family g (set_family f x d) = if Bool.eqb g f then x else get_family g d.
Proof. by destruct g, f. Qed.

Lemma get_set_lru g f l s : get_lru g (set_lru f l s) = if Bool.eqb g f then l else get_lru g s.
Proof. by destruct g, f. Qed.

Lemma set_family_rest f x d :
  reverse (set_family f x d) = reverse d /\ elements (set_family f x d) = elements d /\
  next_element (set_family f x d) = next_element d /\ TTL (set_family f x d) = TTL d.
Proof. by destruct f. Qed.

(** Replace the entries of one family. *)
Definition set_entries (f : bool) (E1 : list entry) (E : bool -> list entry) : bool -> list entry :=
  fun g => if Bool.eqb g f then E1 else E g.

Lemma entry_family d s E f g e n e' n' a :
  repr_with d s E -> In (e, mkBinding n a) (E f) -> In (e', mkBinding n' a) (E g) ->
  f = g /\ e = e' /\ n = n'.
Proof.
  intros Hr H1 H2.
  destruct (fr_entry _ _ _ _ _ _ (rp_family _ _ _ Hr f) _ _ H1) as (_ & _ & z & Ez & _).
  destruct (fr_entry _ _ _ _ _ _ (rp_family _ _ _ Hr g) _ _ H2) as (_ & _ & z' & Ez' & _).
  simpl in *. rewrite Ez in Ez'. apply mk_addr_inj in Ez' as [<- _]. split; [done|].
  assert (reverse d !! a = Some e /\ reverse d !! a = Some e') as [R1 R2].
  { split; apply (rp_reverse _ _ _ Hr); eauto. }
  assert (e = e') as <- by congruence. split; [done|].
  by injection (entry_elem_unique _ _ _ _ _ _ _ _ _ (rp_family _ _ _ Hr f) H1 H2).
Qed.

(** Moving an entry to the front, in either operation. *)
Lemma touch_step d s E f e b :
  repr_with d s E -> In (e, b) (E f) ->
  repr (set_family f (set_order (MoveToFront e (order (get_family f d))) (get_family f d)) d)
       (set_lru f (touch (b_name b) b (get_lru f s)) s).
Proof.
  intros Hr Hin.
  destruct (touch_repr f _ _ _ _ _ e b (rp_family _ _ _ Hr f) Hin) as (E1 & HP & Hf).
  destruct (set_family_rest f (set_order (MoveToFront e (order (get_family f d))) (get_family f d)) d)
    as (Erev & Eels & Enext & _).
  exists (set_entries f E1 E). split.
  - intros g. rewrite Eels, Enext, get_set_family, get_set_lru. unfold set_entries.
    destruct (Bool.eqb g f) eqn:Eg; [|apply (rp_family _ _ _ Hr)].
    apply Bool.eqb_prop in Eg. by subst g.
  - intros a x. rewrite Erev, (rp_reverse _ _ _ Hr). unfold set_entries.
    assert (forall g n, In (x, mkBinding n a) (if Bool.eqb g f then E1 else E g) <->
                        In (x, mkBinding n a) (E g)) as Hiff.
    { intros g n. destruct (Bool.eqb g f) eqn:Eg; [|done]. apply Bool.eqb_prop in Eg. subst g.
      split; apply Permutation_in; [by apply Permutation_sym|done]. }
    by setoid_rewrite Hiff.
Qed.

Lemma evict_step d s E f E0 e b :
  repr_with d s E -> E f = E0 ++ [(e, b)] ->
  exists d', evict f d = Some d' /\
    repr_with d' (set_lru f (mkLru (l_last (get_lru f s)) (removelast (l_bindings (get_lru f s)))) s)
      (set_entries f E0 E) /\
    (forall n, names (get_family f d) !! n = None -> names (get_family f d') !! n = None).
Proof.
  intros Hr HE. pose proof (rp_family _ _ _ Hr f) as Hf. rewrite HE in Hf.
  assert (In (e, b) (E f)) as Hin by (rewrite HE; apply in_app_iff; right; by left).
  destruct (drop_last_repr f _ _ _ _ _ _ _ Hf) as [Hf' Hn].
  unfold evict, list_back. rewrite (fr_order _ _ _ _ _ _ Hf), map_app.
  change (map fst [(e, b)]) with [e]. rewrite last_snoc.
  destruct (fr_entry _ _ _ _ _ _ (rp_family _ _ _ Hr f) _ _ Hin) as (-> & _ & _).
  rewrite (fr_order _ _ _ _ _ _ Hf), map_app in Hf'. change (map fst [(e, b)]) with [e] in Hf'.
  set (f' := mkFamily _ _ _ _ _) in *.
  destruct (set_family_rest f f' d) as (Erev & Eels & Enext & _).
  eexists. split; [reflexivity|]. split; [split|].
  - intros g.
    assert (get_family g (mkVirtualDNS (TTL (set_family f f' d)) (v4 (set_family f f' d))
              (v6 (set_family f f' d)) (delete (b_addr b) (reverse (set_family f f' d)))
              (elements (set_family f f' d)) (next_element (set_family f f' d)))
            = get_family g (set_family f f' d)) as -> by by destruct g.
    cbn [elements next_element]. rewrite Eels, Enext, get_set_family, get_set_lru. unfold set_entries.
    destruct (Bool.eqb g f) eqn:Eg; [|apply (rp_family _ _ _ Hr)].
    apply Bool.eqb_prop in Eg. by subst g.
  - intros a x. cbn [reverse]. rewrite Erev, lookup_delete_Some, (rp_reverse _ _ _ Hr).
    destruct b as [nb ab]. cbn [b_addr]. unfold set_entries. split.
    + intros [Hne (g & n & Hx)]. exists g, n. destruct (Bool.eqb g f) eqn:Eg; [|done].
      apply Bool.eqb_prop in Eg. subst g. rewrite HE in Hx.
      apply in_app_iff in Hx as [Hx|[[= -> _ ->]|[]]]; done.
    + intros (g & n & Hx).
      assert (In (x, mkBinding n a) (E g)) as HxE.
      { destruct (Bool.eqb g f) eqn:Eg; [|done]. apply Bool.eqb_prop in Eg. subst g.
        rewrite HE. apply in_app_iff. by left. }
      split; [|eauto]. intros <-.
      destruct (entry_family _ _ _ _ _ _ _ _ _ _ Hr Hin HxE) as (<- & <- & <-).
      rewrite Bool.eqb_reflx in Hx. apply Hn. by apply (in_map fst) in Hx.
  - intros n Hnone.
    assert (names f' !! n = None) as Hf'n by (unfold f'; cbn [names]; by rewrite lookup_delete_None; right).
    by destruct f.
Qed.

Lemma push_step d s E f name :
  repr_with d s E -> names (get_family f d) !! name = None ->
  l_last (get_lru f s) + 1 < pool_limit f -> Z.of_nat (List.length (E f)) < maxSyntheticNames ->
  let a := mk_addr f (l_last (get_lru f s) + 1) in
  repr (push_binding f name a d)
    (set_lru f (mkLru (l_last (get_lru f s) + 1) (mkBinding name a :: l_bindings (get_lru f s))) s).
Proof.
  intros Hr Hname Hlim Hlen. cbv zeta. set (a := mk_addr f (l_last (get_lru f s) + 1)).
  pose proof (push_front_repr f _ _ _ _ _ name (rp_family _ _ _ Hr f) Hname Hlim Hlen) as Hf.
  cbv zeta in Hf. fold a in Hf. unfold push_binding. set (f' := mkFamily _ _ _ _ _) in *.
  destruct (set_family_rest f f' d) as (Erev & Eels & Enext & _).
  exists (set_entries f ((next_element d, mkBinding name a) :: E f) E). split.
  - intros g.
    match goal with |- family_repr _ _ _ (get_family g ?x) _ _ =>
      assert (get_family g x = get_family g (set_family f f' d)) as -> by by destruct g end.
    cbn [elements next_element]. rewrite Eels, get_set_family, get_set_lru. unfold set_entries.
    destruct (Bool.eqb g f) eqn:Eg; [apply Bool.eqb_prop in Eg; by subst g|].
    apply store_grows, (rp_family _ _ _ Hr).
  - intros a' x. cbn [reverse]. rewrite Erev, lookup_insert_Some, (rp_reverse _ _ _ Hr).
    unfold set_entries. split.
    + intros [[<- <-]|[Hne (g & n & Hx)]].
      * exists f, name. rewrite Bool.eqb_reflx. by left.
      * exists g, n. destruct (Bool.eqb g f) eqn:Eg; [|done]. apply Bool.eqb_prop in Eg. subst g.
        by right.
    + intros (g & n & Hx). destruct (Bool.eqb g f) eqn:Eg.
      * apply Bool.eqb_prop in Eg. subst g. destruct Hx as [[= <- _ <-]|Hx]; [by left|right].
        split; [|eauto]. intros <-.
        destruct (fr_entry _ _ _ _ _ _ (rp_family _ _ _ Hr f) _ _ Hx) as (_ & _ & z & Ez & Hz).
        simpl in Ez. apply mk_addr_inj in Ez as [_ <-]. lia.
      * right. split; [|eauto]. intros <-.
        destruct (fr_entry _ _ _ _ _ _ (rp_family _ _ _ Hr g) _ _ Hx) as (_ & _ & z & Ez & Hz).
        simpl in Ez. apply mk_addr_inj in Ez as [<- _]. by rewrite Bool.eqb_reflx in Eg.
Qed.

Lemma repr_init : repr NewVirtualDNS spec_init.
Proof.
  exists (fun _ => []). split.
  - intros g. destruct g; split; try done; try (by constructor);
      try (intros n e; simpl; rewrite lookup_empty; split; [done|by intros [? []]]).
  - intros a e. simpl. rewrite lookup_empty. split; [done|]. by intros (? & ? & []).
Qed.

Section Refinement.
Context `{GoUnicode}.

Lemma resolve_step d s name flag :
  repr d s ->
  exists d', resolve d name flag = Some (fst (spec_resolve s name flag), d') /\
             repr d' (snd (spec_resolve s name flag)).
Proof.
  intros [E Hr]. unfold resolve, spec_resolve. generalize (canonical name). clear name. intros name.
  destruct (String.eqb name EmptyString); [eexists; split; [done|by exists E]|].
  pose proof (rp_family _ _ _ Hr flag) as Hf.
  pose proof (find_name_entry _ _ _ _ _ _ name Hf) as Hfind.
  destruct (List.find _ _) as [b|].
  - destruct Hfind as (e & Hin & En & ->).
    destruct (fr_entry _ _ _ _ _ _ Hf _ _ Hin) as (-> & _). eexists. split; [done|].
    simpl. subst name. by apply (touch_step d s E).
  - rewrite Hfind, (fr_last _ _ _ _ _ _ Hf), (fr_pool _ _ _ _ _ _ Hf), (fr_reserved _ _ _ _ _ _ Hf).
    pose proof (fr_range _ _ _ _ _ _ Hf) as Hrange.
    destruct (next_in_pool flag _ Hrange) as [-> Hcheck]. rewrite Hcheck.
    destruct (l_last (get_lru flag s) + 1 <? pool_limit flag) eqn:Elim; cbn [negb];
      [|eexists; split; [done|by exists E]].
    bool_to_prop. unfold push. rewrite (fr_order _ _ _ _ _ _ Hf), (fr_bindings _ _ _ _ _ _ Hf).
    rewrite !length_map. destruct (maxSyntheticNames <=? Z.of_nat (List.length (E flag))) eqn:Emax.
    + bool_to_prop. destruct (E flag) as [|x0 E0'] eqn:HE using rev_ind; [done|].
      clear IHE0'. destruct x0 as [e b].
      destruct (evict_step d s E flag E0' e b Hr HE) as (d' & -> & Hr' & Hnames).
      eexists. split; [done|]. rewrite <- (fr_bindings _ _ _ _ _ _ Hf).
      pose proof (push_step d' _ _ flag name Hr') as Hp. rewrite get_set_lru, Bool.eqb_reflx in Hp.
      simpl snd. cbn [l_last l_bindings] in Hp.
      replace (set_lru flag (mkLru (l_last (get_lru flag s) + 1) _) s) with
        (set_lru flag (mkLru (l_last (get_lru flag s) + 1)
           (mkBinding name (mk_addr flag (l_last (get_lru flag s) + 1))
              :: removelast (l_bindings (get_lru flag s))))
          (set_lru flag (mkLru (l_last (get_lru flag s)) (removelast (l_bindings (get_lru flag s)))) s))
        by by destruct flag.
      apply Hp; [by apply Hnames|done|]. unfold set_entries. rewrite Bool.eqb_reflx.
      pose proof (fr_bound _ _ _ _ _ _ Hf) as Hb. rewrite length_app in Hb. simpl in Hb. lia.
    + bool_to_prop. eexists. split; [done|]. simpl snd.
      rewrite <- (fr_bindings _ _ _ _ _ _ Hf). by apply (push_step d s E).
Qed.

Lemma reverse_step d s a :
  repr d s ->
  exists d', Reverse d a = Some (fst (spec_reverse s a), d') /\ repr d' (snd (spec_reverse s a)).
Proof.
  intros [E Hr]. unfold Reverse, spec_reverse. generalize (Unmap a). clear a. intros a.
  destruct (reverse d !! a) as [e|] eqn:Erev.
  - apply (rp_reverse _ _ _ Hr) in Erev as (f & n & Hin).
    pose proof (rp_family _ _ _ Hr f) as Hf.
    destruct (fr_entry _ _ _ _ _ _ Hf _ _ Hin) as (-> & _ & z & Ez & _). simpl in Ez.
    cbn [b_addr b_name]. rewrite Ez, mk_addr_Is6. cbv zeta.
    assert (List.find (fun b => bool_decide (b_addr b = mk_addr f z)) (l_bindings (get_lru f s))
            = Some (mkBinding n a)) as ->.
    { destruct (List.find _ _) as [[n' a']|] eqn:Efind.
      - apply List.find_some in Efind as [Hin' Ea]. apply bool_decide_eq_true in Ea. simpl in Ea.
        rewrite (fr_bindings _ _ _ _ _ _ Hf) in Hin'. apply in_map_iff in Hin' as ([e' b'] & Eb & Hin').
        simpl in Eb. subst b' a'. rewrite <- Ez in Hin'.
        destruct (entry_family _ _ _ _ _ _ _ _ _ _ Hr Hin Hin') as (_ & _ & ->). by rewrite Ez.
      - exfalso. apply List.find_none with (x := mkBinding n a) in Efind.
        + simpl in Efind. by rewrite Ez, bool_decide_eq_true_2 in Efind.
        + rewrite (fr_bindings _ _ _ _ _ _ Hf). by apply (in_map snd) in Hin. }
    eexists. split; [done|]. by apply (touch_step d s E f e (mkBinding n a)).
  - assert (List.find (fun b => bool_decide (b_addr b = a)) (l_bindings (get_lru (Is6 a) s)) = None)
      as ->; [|eexists; split; [done|by exists E]].
    destruct (List.find _ _) as [[n a']|] eqn:Efind; [|done]. exfalso.
    apply List.find_some in Efind as [Hin Ea]. apply bool_decide_eq_true in Ea. simpl in Ea. subst a'.
    rewrite (fr_bindings _ _ _ _ _ _ (rp_family _ _ _ Hr (Is6 a))) in Hin.
    apply in_map_iff in Hin as ([e b'] & Eb & Hin). simpl in Eb. subst b'.
    assert (reverse d !! a = Some e); [|congruence]. apply (rp_reverse _ _ _ Hr). eauto.
Qed.
End Refinement.

(** ** Sequences of operations *)

Inductive op : Type :=
| OpResolve (name : string) (v6flag : bool)
| OpReverse (addr : Addr).

Inductive outcome : Type :=
| Resolved (r : Result Addr)
| Reversed (name : option string).

Section Sequences.
Context `{GoUnicode}.

Definition run_op (d : VirtualDNS) (o : op) : option (outcome * VirtualDNS) :=
  match o with
  | OpResolve name v6flag =>
      match resolve d name v6flag with Some (r, d) => Some (Resolved r, d) | None => None end
  | OpReverse a =>
      match Reverse d a with Some (n, d) => Some (Reversed n, d) | None => None end
  end.

(** The concurrent callers of one [VirtualDNS], in the order of its mutex. *)
Fixpoint run (d : VirtualDNS) (os : list op) : option (list outcome * VirtualDNS) :=
  match os with
  | [] => Some ([], d)
  | o :: os =>
      match run_op d o with
      | None => None
      | Some (x, d) =>
          match run d os with None => None | Some (xs, d) => Some (x :: xs, d) end
      end
  end.

Definition spec_op (s : spec) (o : op) : outcome * spec :=
  match o with
  | OpResolve name v6flag => let (r, s) := spec_resolve s name v6flag in (Resolved r, s)
  | OpReverse a => let (n, s) := spec_reverse s a in (Reversed n, s)
  end.

Fixpoint spec_run (s : spec) (os : list op) : list outcome * spec :=
  match os with
  | [] => ([], s)
  | o :: os => let (x, s) := spec_op s o in let (xs, s) := spec_run s os in (x :: xs, s)
  end.

Lemma run_op_step d s o :
  repr d s ->
  exists d', run_op d o = Some (fst (spec_op s o), d') /\ repr d' (snd (spec_op s o)).
Proof.
  intros Hr. destruct o as [name f|a]; simpl.
  - destruct (resolve_step d s name f Hr) as (d' & -> & Hr').
    exists d'. by destruct (spec_resolve s name f).
  - destruct (reverse_step d s a Hr) as (d' & -> & Hr').
    exists d'. by destruct (spec_reverse s a).
Qed.

Lemma run_step d s os :
  repr d s ->
  exists d', run d os = Some (fst (spec_run s os), d') /\ repr d' (snd (spec_run s os)).
Proof.
  revert d s. induction os as [|o os IH]; intros d s Hr; simpl; [by exists d|].
  destruct (run_op_step d s o Hr) as (d1 & -> & Hr1).
  destruct (spec_op s o) as [x s1]. simpl in Hr1.
  destruct (IH d1 s1 Hr1) as (d' & -> & Hr'). exists d'. by destruct (spec_run s1 os).
Qed.

(** Claim C10: [VirtualDNS] implements its specification. Started from
    [NewVirtualDNS], every sequence of [Resolve4], [Resolve6] and [Reverse]
    calls runs without a panic, returns exactly what the specification (one
    list of bindings per family, most recently used first, cut at 2^16)
    returns, and ends in a state whose element store, maps and linked lists
    represent the specification's state. *)
Theorem virtual_dns_refines_spec (os : list op) :
  exists d, run NewVirtualDNS os = Some (fst (spec_run spec_init os), d) /\
            repr d (snd (spec_run spec_init os)).
Proof. apply run_step, repr_init. Qed.
End Sequences.
