(* ===== verification/VirtualDNSFacts.v ===== *)
(** * Virtual DNS: what callers may rely on

    Addresses are never reused, a forgotten address stays dead, a name in use
    survives, the answers stay in the pools, and what a query gets. *)

From S2P Require Import Prelude GoStrings Netip Policy PolicyAddr VirtualDNS VirtualDNSSpec.

(** ** Definitions *)

Section Observed.
Context `{GoUnicode}.

(** The (name, address) pairs a caller learns from a sequence of operations. *)
Definition observe (o : op) (x : outcome) : list (string * Addr) :=
  match o, x with
  | OpResolve name _, Resolved (Ok a) => [(canonical name, a)]
  | OpReverse a, Reversed (Some name) => [(name, Unmap a)]
  | _, _ => []
  end.

Fixpoint observed (os : list op) (xs : list outcome) : list (string * Addr) :=
  match os, xs with
  | o :: os, x :: xs => observe o x ++ observed os xs
  | _, _ => []
  end.
End Observed.

(** [history] holds every binding made so far. *)
Record history_ok (history : list binding) (s : spec) : Prop := {
  h_current : forall f b, In b (l_bindings (get_lru f s)) -> In b history;
  h_allocated : forall b, In b history ->
    exists f z, b_addr b = mk_addr f z /\ pool_base f < z <= l_last (get_lru f s);
  h_unique : forall b b', In b history -> In b' history -> b_addr b = b_addr b' -> b = b';
  h_family : forall f b, In b (l_bindings (get_lru f s)) -> Is6 (b_addr b) = f;
  h_range : forall f, pool_base f <= l_last (get_lru f s) < pool_limit f;
}.

(** ** Bindings of the specification *)

(** The synthetic addresses are not IPv4-mapped. *)
Lemma Unmap_mk_addr f z : pool_base f < z < pool_limit f -> Unmap (mk_addr f z) = mk_addr f z.
Proof.
  intros Hz. destruct f; [|done]. apply Unmap_id. unfold Is4In6. simpl mk_addr. cbv iota.
  apply Z.eqb_neq. rewrite Z.shiftr_div_pow2 by lia. unfold pool_base, pool_limit in *. intros E.
  pose proof (Z.mod_pos_bound z (2 ^ 32) ltac:(lia)). pose proof (Z.div_mod z (2 ^ 32) ltac:(lia)). lia.
Qed.

Lemma synthetic_special f z : pool_base f < z < pool_limit f -> special (mk_addr f z) = true.
Proof.
  intros Hz. unfold special. apply existsb_exists. exists (if f then v6Pool else v4Pool).
  split; [destruct f; vm_compute; tauto|].
  destruct (next_in_pool f (z - 1) ltac:(lia)) as [_ Hc].
  replace (z - 1 + 1) with z in Hc by lia. rewrite (proj2 (Z.ltb_lt z _)) in Hc by lia.
  simpl in Hc. by bool_to_prop.
Qed.

Lemma touch_in name b l x : In x (l_bindings (touch name b l)) -> x = b \/ In x (l_bindings l).
Proof.
  simpl. intros [<-|Hx]; [by left|right]. by apply filter_In in Hx as [? _].
Qed.

Lemma removelast_in {A} (l : list A) x : In x (removelast l) -> In x l.
Proof.
  induction l as [|y l IH]; simpl; [done|]. destruct l; [done|].
  intros [<-|Hx]; [by left|right; auto].
Qed.

Lemma push_in name f l x :
  In x (l_bindings (push name f l)) ->
  x = mkBinding name (mk_addr f (l_last l + 1)) \/ In x (l_bindings l).
Proof.
  unfold push. simpl. intros [<-|Hx]; [by left|right].
  destruct (_ <=? _); [by apply removelast_in|done].
Qed.

Lemma history_touch history s f name b :
  history_ok history s -> In b (l_bindings (get_lru f s)) ->
  history_ok history (set_lru f (touch name b (get_lru f s)) s).
Proof.
  intros Hh Hb. split.
  - intros g x Hx. rewrite get_set_lru in Hx. destruct (Bool.eqb g f).
    + apply touch_in in Hx as [-> |Hx]; eapply h_current; eauto.
    + eapply h_current; eauto.
  - intros x Hx. destruct (h_allocated _ _ Hh x Hx) as (g & z & Ez & Hz). exists g, z.
    rewrite get_set_lru. destruct (Bool.eqb g f) eqn:Eg; [apply Bool.eqb_prop in Eg; by subst|done].
  - apply (h_unique _ _ Hh).
  - intros g x Hx. rewrite get_set_lru in Hx. destruct (Bool.eqb g f) eqn:Eg.
    + apply Bool.eqb_prop in Eg. subst g. apply touch_in in Hx as [-> |Hx]; eapply h_family; eauto.
    + eapply h_family; eauto.
  - intros g. rewrite get_set_lru. pose proof (h_range _ _ Hh g).
    destruct (Bool.eqb g f) eqn:Eg; [apply Bool.eqb_prop in Eg; by subst|done].
Qed.

Lemma history_push history s f name :
  history_ok history s -> l_last (get_lru f s) + 1 < pool_limit f ->
  history_ok (mkBinding name (mk_addr f (l_last (get_lru f s) + 1)) :: history)
    (set_lru f (push name f (get_lru f s)) s).
Proof.
  intros Hh Hlim. pose proof (h_range _ _ Hh) as Hrange.
  assert (forall x, In x history -> b_addr x <> mk_addr f (l_last (get_lru f s) + 1)) as Hfresh.
  { intros x Hx Ex. destruct (h_allocated _ _ Hh x Hx) as (g & z & Ez & Hz).
    rewrite Ez in Ex. apply mk_addr_inj in Ex as [-> ->]. lia. }
  split.
  - intros g x Hx. rewrite get_set_lru in Hx. destruct (Bool.eqb g f).
    + apply push_in in Hx as [-> |Hx]; [by left|right]. eapply h_current; eauto.
    + right. eapply h_current; eauto.
  - intros x [<-|Hx].
    + exists f, (l_last (get_lru f s) + 1). rewrite get_set_lru, Bool.eqb_reflx. simpl.
      specialize (Hrange f). split; [done|lia].
    + destruct (h_allocated _ _ Hh x Hx) as (g & z & Ez & Hz). exists g, z.
      rewrite get_set_lru. split; [done|]. destruct (Bool.eqb g f) eqn:Eg; [|done].
      apply Bool.eqb_prop in Eg. subst. simpl. lia.
  - intros x y [<-|Hx] [<-|Hy]; [done| | |by apply (h_unique _ _ Hh)]; simpl; intros E.
    + by apply Hfresh in Hy.
    + by apply Hfresh in Hx.
  - intros g x Hx. rewrite get_set_lru in Hx. destruct (Bool.eqb g f) eqn:Eg.
    + apply Bool.eqb_prop in Eg. subst g. apply push_in in Hx as [-> |Hx];
        [apply mk_addr_Is6|eapply h_family; eauto].
    + eapply h_family; eauto.
  - intros g. rewrite get_set_lru. destruct (Bool.eqb g f) eqn:Eg; [|done].
    apply Bool.eqb_prop in Eg. subst. simpl. specialize (Hrange f). lia.
Qed.

Lemma find_None_false {A} (p : A -> bool) l :
  List.find p l = None <-> forall x, In x l -> p x = false.
Proof.
  split; [intros E x; by apply List.find_none|]. induction l as [|x l IH]; simpl; intros Hl; [done|].
  rewrite Hl by (by left). auto.
Qed.

(** [b] is among the [k+1] most recently used. *)
Definition within (k : nat) (b : binding) (l : list binding) : Prop :=
  exists l1 l2, l = l1 ++ b :: l2 /\ (List.length l1 <= k)%nat.

Lemma within_weaken k k' b l : (k <= k')%nat -> within k b l -> within k' b l.
Proof. intros Hk (l1 & l2 & -> & Hl). exists l1, l2. split; [done|lia]. Qed.

Lemma within_in k b l : within k b l -> In b l.
Proof. intros (l1 & l2 & -> & _). apply in_app_iff. right. by left. Qed.

(** Names are unique within a family. *)
Definition names_unique (l : list binding) : Prop :=
  forall b b', In b l -> In b' l -> b_name b = b_name b' -> b = b'.

Lemma repr_names_unique d s f : repr d s -> names_unique (l_bindings (get_lru f s)).
Proof.
  intros [E Hr] b b' Hb Hb' Hn. pose proof (rp_family _ _ _ Hr f) as Hf.
  rewrite (fr_bindings _ _ _ _ _ _ Hf) in Hb, Hb'.
  apply in_map_iff in Hb as ([e x] & <- & Hb), Hb' as ([e' x'] & <- & Hb').
  by injection (entry_name_unique _ _ _ _ _ _ _ _ _ _ Hf Hb Hb' Hn).
Qed.

Lemma within_touch k b x l :
  names_unique (l_bindings l) -> In x (l_bindings l) -> within k b (l_bindings l) ->
  within (S k) b (l_bindings (touch (b_name x) x l)).
Proof.
  intros Hu Hx Hb. pose proof (within_in _ _ _ Hb) as Hin. simpl.
  destruct (decide (b_name b = b_name x)) as [E|E].
  - rewrite <- (Hu b x Hin Hx E). exists []. eexists. split; [reflexivity|simpl; lia].
  - destruct Hb as (l1 & l2 & -> & Hl). rewrite List.filter_app. simpl.
    apply String.eqb_neq in E. rewrite E. simpl.
    eexists (x :: _), _. split; [reflexivity|]. simpl.
    pose proof (List.filter_length_le (fun y => negb (String.eqb (b_name y) (b_name x))) l1). lia.
Qed.

Lemma within_push k b name f l :
  Z.of_nat k < maxSyntheticNames - 1 -> within k b (l_bindings l) ->
  within (S k) b (l_bindings (push name f l)).
Proof.
  intros Hk (l1 & l2 & El & Hl). unfold push. simpl. rewrite El.
  destruct (maxSyntheticNames <=? _) eqn:E.
  - bool_to_prop. rewrite length_app in E. simpl in E.
    destruct l2 as [|y l2]; [simpl in E; lia|].
    rewrite removelast_app by done. change (removelast (b :: y :: l2)) with (b :: removelast (y :: l2)).
    eexists (_ :: l1), _. split; [reflexivity|simpl; lia].
  - eexists (_ :: l1), _. split; [reflexivity|simpl; lia].
Qed.

(** The operation changed nothing and told nothing. *)
Ltac no_change :=
  match goal with history : list binding |- _ => exists history end;
  simpl; split; [done|]; split; [done|]; split; [done|eauto].

Section Facts.
Context `{GoUnicode}.

(** One operation: the history grows by fresh bindings only, what the caller
    learns is in it, and a binding that was dropped does not come back. *)
Lemma history_op history s o :
  history_ok history s ->
  exists history', history_ok history' (snd (spec_op s o)) /\
    (forall b, In b history -> In b history') /\
    (forall n a, In (n, a) (observe o (fst (spec_op s o))) -> In (mkBinding n a) history' /\
       (In (mkBinding n a) history ->
        exists f, In (mkBinding n a) (l_bindings (get_lru f s)))) /\
    (forall f b, In b history -> In b (l_bindings (get_lru f (snd (spec_op s o)))) ->
       exists g, In b (l_bindings (get_lru g s))).
Proof.
  intros Hh. pose proof (h_current _ _ Hh) as Hcur.
  destruct o as [name f|a]; simpl; unfold spec_resolve, spec_reverse.
  - generalize (canonical name). clear name. intros name.
    destruct (String.eqb name EmptyString); [no_change|].
    destruct (List.find (fun b => String.eqb (b_name b) name) (l_bindings (get_lru f s)))
      as [b|] eqn:Ef.
    + apply List.find_some in Ef as [Hb En]. apply String.eqb_eq in En. simpl.
      exists history. split; [by apply history_touch|]. split; [done|]. split.
      * intros n x [[= <- <-]|[]]. subst name. destruct b as [n a]. simpl. eauto.
      * intros g x Hx. rewrite get_set_lru. destruct (Bool.eqb g f); [|eauto].
        intros Hin. apply touch_in in Hin as [-> |Hin]; eauto.
    + destruct (l_last (get_lru f s) + 1 <? pool_limit f) eqn:Elim; [|no_change]. bool_to_prop. simpl.
      eexists. split; [by apply history_push|]. split; [by right|].
      assert (forall x, In x history -> x <> mkBinding name (mk_addr f (l_last (get_lru f s) + 1)))
        as Hfresh.
      { intros x Hx ->. destruct (h_allocated _ _ Hh _ Hx) as (g & z & Ez & Hz).
        simpl in Ez. apply mk_addr_inj in Ez as [<- <-]. lia. }
      split.
      * intros n x [[= <- <-]|[]]. split; [by left|]. intros Hx. by apply Hfresh in Hx.
      * intros g x Hx. rewrite get_set_lru. destruct (Bool.eqb g f); [|eauto].
        intros Hin. apply push_in in Hin as [Hin|Hin]; [by apply Hfresh in Hx|eauto].
  - generalize (Unmap a). clear a. intros a.
    destruct (List.find (fun b => bool_decide (b_addr b = a)) (l_bindings (get_lru (Is6 a) s)))
      as [b|] eqn:Ef; [|no_change].
    apply List.find_some in Ef as [Hb En]. apply bool_decide_eq_true in En. simpl.
    exists history. split; [by apply history_touch|]. split; [done|]. split.
    + intros n x [[= <- <-]|[]]. subst a. destruct b as [n a]. simpl in *. eauto.
    + intros g x Hx. rewrite get_set_lru. destruct (Bool.eqb g (Is6 a)); [|eauto].
      intros Hin. apply touch_in in Hin as [-> |Hin]; eauto.
Qed.

Lemma history_init : history_ok [] spec_init.
Proof. split; try done; try (by intros [|] ?); by intros [|]. Qed.

Lemma history_run history s os :
  history_ok history s ->
  exists history', history_ok history' (snd (spec_run s os)) /\
    (forall b, In b history -> In b history') /\
    (forall n a, In (n, a) (observed os (fst (spec_run s os))) -> In (mkBinding n a) history').
Proof.
  revert history s. induction os as [|o os IH]; intros history s Hh; [by exists history|].
  destruct (history_op history s o Hh) as (h1 & Hh1 & Hsub1 & Hobs1 & _). simpl.
  destruct (spec_op s o) as [x s1] eqn:E1. simpl in *.
  destruct (IH h1 s1 Hh1) as (h2 & Hh2 & Hsub2 & Hobs2).
  destruct (spec_run s1 os) as [xs s2]. simpl in *. exists h2. split; [done|].
  split; [auto|]. intros n a Hin. apply in_app_iff in Hin as [Hin|Hin]; [|auto].
  apply Hsub2. by apply Hobs1.
Qed.

(** A binding that was made and dropped is not learned again. *)
Lemma dropped_run history s os b :
  history_ok history s -> In b history ->
  (forall f, ~ In b (l_bindings (get_lru f s))) ->
  ~ In (b_name b, b_addr b) (observed os (fst (spec_run s os))).
Proof.
  revert history s. induction os as [|o os IH]; intros history s Hh Hb Hdrop; [by intros []|].
  destruct (history_op history s o Hh) as (h1 & Hh1 & Hsub1 & Hobs1 & Hback). simpl.
  destruct (spec_op s o) as [x s1] eqn:E1. simpl in *.
  destruct (spec_run s1 os) as [xs s2] eqn:E2. simpl. rewrite in_app_iff. intros [Hin|Hin].
  - destruct (Hobs1 _ _ Hin) as [_ Hx]. destruct b as [n a]. destruct (Hx Hb) as [f Hf].
    by apply (Hdrop f).
  - apply (IH h1 s1 Hh1); [by apply Hsub1| |by rewrite E2].
    intros f Hf. destruct (Hback f b Hb Hf) as [g Hg]. by apply (Hdrop g).
Qed.

(** A reverse miss says that no current binding has the address. *)
Lemma spec_reverse_none history s a b :
  history_ok history s -> fst (spec_reverse s a) = None -> b_addr b = Unmap a ->
  forall f, ~ In b (l_bindings (get_lru f s)).
Proof.
  intros Hh. unfold spec_reverse. destruct (List.find _ _) as [|] eqn:Ef; [done|].
  intros _ Eb f Hin.
  assert (f = Is6 (Unmap a) \/ f <> Is6 (Unmap a)) as [-> |Hne] by (destruct f, (Is6 (Unmap a)); auto).
  - apply List.find_none with (x := b) in Ef; [|done]. by rewrite bool_decide_eq_true_2 in Ef.
  - apply Hne. rewrite <- Eb. symmetry. by apply (h_family _ _ Hh).
Qed.

(** ** From the specification to the code *)

Lemma reachable os xs d :
  run NewVirtualDNS os = Some (xs, d) ->
  exists s history, repr d s /\ history_ok history s /\
    (forall n a, In (n, a) (observed os xs) -> In (mkBinding n a) history).
Proof.
  intros Hrun. destruct (run_step _ _ os repr_init) as (d' & Hrun' & Hr).
  rewrite Hrun in Hrun'. simplify_eq.
  destruct (history_run [] spec_init os history_init) as (h & Hh & _ & Hobs). eauto 10.
Qed.

Lemma resolve_agrees d s name f r d' :
  repr d s -> resolve d name f = Some (r, d') ->
  r = fst (spec_resolve s name f) /\ repr d' (snd (spec_resolve s name f)).
Proof.
  intros Hr Hres. destruct (resolve_step d s name f Hr) as (d1 & E & Hr1).
  rewrite Hres in E. by simplify_eq.
Qed.

(** Claim C18: an address never changes its name. In every sequence of calls
    on one [VirtualDNS], whenever a caller learns a name for an address, by
    resolving the name or by reversing the address, and again learns a name
    for that address, it is the same name, however many names were forgotten
    in between. *)
Theorem addresses_never_reused (os : list op) (xs : list outcome) (d : VirtualDNS)
    (name name' : string) (a : Addr) :
  run NewVirtualDNS os = Some (xs, d) ->
  In (name, a) (observed os xs) -> In (name', a) (observed os xs) -> name = name'.
Proof.
  intros Hrun H1 H2. destruct (reachable _ _ _ Hrun) as (s & h & _ & Hh & Hobs).
  by injection (h_unique _ _ Hh _ _ (Hobs _ _ H1) (Hobs _ _ H2) eq_refl).
Qed.

(** A forgotten address stays dead. Once an address that was handed
    out for a name is missed by [Reverse], no later call resolves a name to
    that address and no later [Reverse] of it finds a name: a stale copy in
    the guest can only be forwarded as a literal. *)
Theorem forgotten_address_stays_dead (os os' : list op) (xs xs' : list outcome)
    (d d1 d2 : VirtualDNS) (name name' : string) (a : Addr) :
  run NewVirtualDNS os = Some (xs, d) -> In (name, a) (observed os xs) ->
  Reverse d a = Some (None, d1) -> run d1 os' = Some (xs', d2) ->
  ~ In (name', a) (observed os' xs').
Proof.
  intros Hrun Hin Hrev Hrun'. destruct (reachable _ _ _ Hrun) as (s & h & Hr & Hh & Hobs).
  assert (Unmap a = a) as Ha.
  { destruct (h_allocated _ _ Hh _ (Hobs _ _ Hin)) as (f & z & Ez & Hz). simpl in Ez. subst a.
    apply Unmap_mk_addr. pose proof (h_range _ _ Hh f). lia. }
  destruct (reverse_step d s a Hr) as (d1' & Hrev' & Hr1). rewrite Hrev in Hrev'. simplify_eq.
  assert (snd (spec_reverse s a) = s) as Es.
  { unfold spec_reverse in *. by destruct (List.find _ _). }
  rewrite Es in Hr1. destruct (run_step d1' s os' Hr1) as (d2' & E2 & _).
  rewrite Hrun' in E2. simplify_eq. intros Hin'.
  destruct (history_run h s os' Hh) as (h' & Hh' & Hsub & Hobs').
  assert (name' = name) as ->.
  { by injection (h_unique _ _ Hh' _ _ (Hobs' _ _ Hin') (Hsub _ (Hobs _ _ Hin)) eq_refl). }
  refine (dropped_run h s os' (mkBinding name a) Hh (Hobs _ _ Hin) _ Hin').
  apply (spec_reverse_none h s a); [done|done|by rewrite Ha].
Qed.

Lemma within_op d s f k b o :
  repr d s -> Z.of_nat k < maxSyntheticNames - 1 -> within k b (l_bindings (get_lru f s)) ->
  within (S k) b (l_bindings (get_lru f (snd (spec_op s o)))).
Proof.
  intros Hr Hk Hb. pose proof (repr_names_unique d s f Hr) as Hu.
  assert (within (S k) b (l_bindings (get_lru f s))) as Hsame by (by apply (within_weaken k); [lia|]).
  destruct o as [name g|a]; simpl; unfold spec_resolve, spec_reverse.
  - generalize (canonical name). clear name. intros name.
    destruct (String.eqb name EmptyString); [done|].
    destruct (List.find (fun x => String.eqb (b_name x) name) (l_bindings (get_lru g s)))
      as [x|] eqn:Ef.
    + apply List.find_some in Ef as [Hx En]. apply String.eqb_eq in En. subst name. simpl.
      rewrite get_set_lru. destruct (Bool.eqb f g) eqn:Eg; [|done].
      apply Bool.eqb_prop in Eg. subst g. by apply within_touch.
    + destruct (l_last (get_lru g s) + 1 <? pool_limit g); [|done]. simpl.
      rewrite get_set_lru. destruct (Bool.eqb f g) eqn:Eg; [|done].
      apply Bool.eqb_prop in Eg. subst g. by apply within_push.
  - generalize (Unmap a). clear a. intros a.
    destruct (List.find (fun x => bool_decide (b_addr x = a)) (l_bindings (get_lru (Is6 a) s)))
      as [x|] eqn:Ef; [|done].
    apply List.find_some in Ef as [Hx _]. simpl. rewrite get_set_lru.
    destruct (Bool.eqb f (Is6 a)) eqn:Eg; [|done]. apply Bool.eqb_prop in Eg. subst f.
    by apply within_touch.
Qed.

Lemma within_run d s f k b os :
  repr d s -> Z.of_nat k + Z.of_nat (List.length os) < maxSyntheticNames ->
  within k b (l_bindings (get_lru f s)) ->
  within (k + List.length os) b (l_bindings (get_lru f (snd (spec_run s os)))).
Proof.
  revert d s k. induction os as [|o os IH]; intros d s k Hr Hk Hb.
  { by rewrite Nat.add_0_r. }
  simpl in Hk. destruct (run_op_step d s o Hr) as (d1 & _ & Hr1).
  pose proof (within_op d s f k b o Hr ltac:(lia) Hb) as Hb1.
  simpl. destruct (spec_op s o) as [x s1]. simpl in *.
  pose proof (IH d1 s1 (S k) Hr1 ltac:(lia) Hb1) as Hfin.
  destruct (spec_run s1 os) as [xs s2]. simpl in *.
  by replace (k + S (List.length os))%nat with (S (k + List.length os)) by lia.
Qed.

(** What a successful [resolve] leaves at the front. *)
Lemma spec_resolve_front s name f a :
  fst (spec_resolve s name f) = Ok a ->
  within 0 (mkBinding (canonical name) a) (l_bindings (get_lru f (snd (spec_resolve s name f)))).
Proof.
  unfold spec_resolve. generalize (canonical name). clear name. intros name.
  destruct (String.eqb name EmptyString); [done|].
  destruct (List.find _ _) as [b|] eqn:Ef.
  - apply List.find_some in Ef as [_ En]. apply String.eqb_eq in En. subst name. simpl.
    intros [= <-]. rewrite get_set_lru, Bool.eqb_reflx. simpl.
    exists []. eexists. split; [by destruct b|done].
  - destruct (_ <? _); [|done]. simpl. intros [= <-]. rewrite get_set_lru, Bool.eqb_reflx.
    exists []. eexists. split; [reflexivity|done].
Qed.

Lemma find_unique {A} (p : A -> bool) l x :
  In x l -> p x = true -> (forall y, In y l -> p y = true -> y = x) -> List.find p l = Some x.
Proof.
  intros Hin Hp Hu. destruct (List.find p l) as [y|] eqn:E.
  - apply List.find_some in E as [Hy Hpy]. f_equal. by apply Hu.
  - by rewrite (List.find_none _ _ E x Hin) in Hp.
Qed.

Lemma name_survives (os os' : list op) (xs xs' : list outcome) (d d1 d2 : VirtualDNS)
    (name : string) (v6flag : bool) (a : Addr) :
  run NewVirtualDNS os = Some (xs, d) ->
  resolve d name v6flag = Some (Ok a, d1) ->
  run d1 os' = Some (xs', d2) -> Z.of_nat (List.length os') < maxSyntheticNames ->
  (exists d3, Reverse d2 a = Some (Some (canonical name), d3)) /\
  (exists d3, resolve d2 name v6flag = Some (Ok a, d3)).
Proof.
  intros Hrun Hres Hrun' Hlen. destruct (reachable _ _ _ Hrun) as (s & h & Hr & Hh & _).
  destruct (resolve_agrees _ _ _ _ _ _ Hr Hres) as [Ea Hr1].
  destruct (history_op h s (OpResolve name v6flag) Hh) as (h1 & Hh1 & _ & _). simpl in Hh1.
  symmetry in Ea. pose proof (spec_resolve_front _ _ _ _ Ea) as Hb.
  assert (canonical name <> EmptyString) as Hne.
  { intros E. unfold spec_resolve in Ea. by rewrite E in Ea. }
  destruct (spec_resolve s name v6flag) as [r s1]. simpl in *. subst r.
  destruct (run_step d1 s1 os' Hr1) as (d2' & E2 & Hr2). rewrite Hrun' in E2. simplify_eq.
  pose proof (within_run _ _ _ 0 _ os' Hr1 ltac:(lia) Hb) as Hb2. apply within_in in Hb2.
  destruct (history_run h1 s1 os' Hh1) as (h2 & Hh2 & _).
  set (s2 := snd (spec_run s1 os')) in *.
  destruct (h_allocated _ _ Hh2 _ (h_current _ _ Hh2 _ _ Hb2)) as (g & z & Ez & Hz). simpl in Ez.
  pose proof (h_family _ _ Hh2 _ _ Hb2) as Hfam. simpl in Hfam.
  split.
  - destruct (reverse_step d2' s2 a Hr2) as (d3 & E3 & _). exists d3. rewrite E3. do 2 f_equal.
    unfold spec_reverse. assert (Unmap a = a) as ->.
    { subst a. apply (Unmap_mk_addr g z). pose proof (h_range _ _ Hh2 g). lia. }
    rewrite Hfam, (find_unique _ _ (mkBinding (canonical name) a)); [done|done| |].
    + by apply bool_decide_eq_true.
    + intros y Hy Ey. apply bool_decide_eq_true in Ey.
      by apply (h_unique _ _ Hh2); [eapply h_current| eapply h_current|].
  - destruct (resolve_step d2' s2 name v6flag Hr2) as (d3 & E3 & _). exists d3. rewrite E3. do 2 f_equal.
    unfold spec_resolve. apply String.eqb_neq in Hne. rewrite Hne.
    rewrite (find_unique _ _ (mkBinding (canonical name) a)); [done|done| |].
    + simpl. apply String.eqb_refl.
    + intros y Hy Ey. apply String.eqb_eq in Ey. by apply (repr_names_unique d2' s2 v6flag Hr2).
Qed.

(** A name in use survives. After a name was resolved to an
    address, fewer than 2^16 further calls, of any kind and for any names,
    leave the pairing in place: the address still reverses to the canonical
    name, and the name still resolves to the address. *)
Theorem name_in_use_survives (os os' : list op) (xs xs' : list outcome) (d d1 d2 : VirtualDNS)
    (name : string) (v6flag : bool) (a : Addr) :
  run NewVirtualDNS os = Some (xs, d) ->
  resolve d name v6flag = Some (Ok a, d1) ->
  run d1 os' = Some (xs', d2) -> Z.of_nat (List.length os') < maxSyntheticNames ->
  (exists d3, Reverse d2 a = Some (Some (canonical name), d3)) /\
  (exists d3, resolve d2 name v6flag = Some (Ok a, d3)).
Proof. apply name_survives. Qed.

Lemma resolve_nonempty d name f a d' :
  resolve d name f = Some (Ok a, d') -> canonical name <> EmptyString.
Proof. unfold resolve. intros Hres E. by rewrite E in Hres. Qed.

Lemma resolve_allocated os xs d name f a d' :
  run NewVirtualDNS os = Some (xs, d) -> resolve d name f = Some (Ok a, d') ->
  exists z, a = mk_addr f z /\ pool_base f < z < pool_limit f.
Proof.
  intros Hrun Hres. destruct (reachable _ _ _ Hrun) as (s & h & Hr & Hh & _).
  destruct (resolve_agrees _ _ _ _ _ _ Hr Hres) as [Ea _]. symmetry in Ea.
  destruct (history_op h s (OpResolve name f) Hh) as (h1 & Hh1 & _ & _). simpl in Hh1.
  pose proof (within_in _ _ _ (spec_resolve_front _ _ _ _ Ea)) as Hb.
  destruct (spec_resolve s name f) as [r s1]. simpl in *. subst r.
  destruct (h_allocated _ _ Hh1 _ (h_current _ _ Hh1 _ _ Hb)) as (g & z & Ez & Hz). simpl in Ez.
  pose proof (h_family _ _ Hh1 _ _ Hb) as Hfam. simpl in Hfam. subst a. rewrite mk_addr_Is6 in Hfam.
  subst g. pose proof (h_range _ _ Hh1 f). exists z. split; [done|lia].
Qed.

(** The answers are synthetic and inert. An address that [resolve]
    returns lies in the family's pool, outside the reserved block at its top,
    is not the first address of the pool, and is a special-purpose address,
    so that the boundary does not accept it as public; the two failures are
    an empty name, and a pool whose last address before the reserved block
    has been handed out. *)
Theorem synthetic_addresses (os : list op) (xs : list outcome) (d d' : VirtualDNS)
    (name : string) (v6flag : bool) (r : Result Addr) :
  run NewVirtualDNS os = Some (xs, d) -> resolve d name v6flag = Some (r, d') ->
  match r with
  | Ok a =>
      Contains (if v6flag then v6Pool else v4Pool) a = true /\
      Contains (if v6flag then v6Reserved else v4Reserved) a = false /\
      a <> p_addr (if v6flag then v6Pool else v4Pool) /\
      special a = true /\ publicAddress a = false
  | Err e =>
      (canonical name = EmptyString /\ d' = d) \/
      (e = ErrPoolExhausted /\ d' = d /\
       last_addr (get_family v6flag d) = mk_addr v6flag (pool_limit v6flag - 1))
  end.
Proof.
  intros Hrun Hres. destruct r as [a|e].
  - destruct (resolve_allocated _ _ _ _ _ _ _ Hrun Hres) as (z & -> & Hz).
    pose proof (synthetic_special v6flag z Hz) as Hs.
    destruct (next_in_pool v6flag (z - 1) ltac:(lia)) as [_ Hc].
    replace (z - 1 + 1) with z in Hc by lia. rewrite (proj2 (Z.ltb_lt z _)) in Hc by lia.
    simpl in Hc. bool_to_prop. split; [done|]. split; [done|].
    split; [destruct v6flag; intros [= E]; unfold pool_base in Hz; lia|]. split; [done|].
    assert (addr_wf (mk_addr v6flag z) /\ Is4In6 (mk_addr v6flag z) = false) as [Hw Hm].
    { pose proof (Unmap_mk_addr _ _ Hz) as Hu. split.
      - destruct v6flag; unfold pool_base, pool_limit in Hz; simpl; lia.
      - rewrite <- Hu. apply Unmap_not_mapped. }
    rewrite public_special, Hs by by destruct v6flag. done.
  - destruct (reachable _ _ _ Hrun) as (s & h & [E Hr] & Hh & _).
    pose proof (rp_family _ _ _ Hr v6flag) as Hf. revert Hres. unfold resolve.
    destruct (String.eqb (canonical name) EmptyString) eqn:En.
    { intros [= <- <-]. left. bool_to_prop. done. }
    destruct (names _ !! _) as [x|]; [destruct (elements d !! x); intros [=]|].
    rewrite (fr_last _ _ _ _ _ _ Hf), (fr_pool _ _ _ _ _ _ Hf), (fr_reserved _ _ _ _ _ _ Hf).
    pose proof (fr_range _ _ _ _ _ _ Hf) as Hrange.
    destruct (next_in_pool v6flag _ Hrange) as [-> ->].
    destruct (_ <? _) eqn:El; cbn [negb]; [by destruct (if _ : bool then _ else _)|].
    intros [= <- <-]. right. bool_to_prop. split; [done|]. split; [done|]. do 2 f_equal. lia.
Qed.

(** A query is answered from the pools alone. [HandleQuery] never
    panics; an answer is an IPv4 address for an A question and an IPv6 address
    for an AAAA question, both of class IN, comes with the success code, and
    reverses to the canonical name of the question; every other type or class
    gets the success code with no answer and leaves the state alone; and a
    resolution that fails gets the failure code with no answer. *)
Theorem HandleQuery_answers `{!DNSMessage} (os : list op) (xs : list outcome) (d : VirtualDNS)
    (query : list Z) (p : parser) (hdr : Header) (q : Question) :
  run NewVirtualDNS os = Some (xs, d) ->
  Parser_Start query = Ok (p, hdr) -> Parser_Question p = Ok q ->
  exists answer rcode d',
    HandleQuery d query = Some (build_response (TTL d') hdr q answer rcode, d') /\
    match answer with
    | Some a =>
        rcode = RCodeSuccess /\ q_Class q = ClassINET /\
        (q_Type q = TypeA /\ Is4 a = true \/ q_Type q = TypeAAAA /\ Is6 a = true) /\
        exists d3, Reverse d' a = Some (Some (canonical (q_Name q)), d3)
    | None =>
        rcode = RCodeSuccess /\ d' = d /\
          (q_Class q <> ClassINET \/ q_Type q <> TypeA /\ q_Type q <> TypeAAAA) \/
        rcode = RCodeServerFailure /\ q_Class q = ClassINET /\
          (q_Type q = TypeA \/ q_Type q = TypeAAAA)
    end.
Proof.
  intros Hrun Hstart Hq. unfold HandleQuery. rewrite Hstart, Hq. unfold query_answer.
  destruct (q_Class q =? ClassINET) eqn:Ec; cbn [negb]; bool_to_prop.
  2:{ exists None, RCodeSuccess, d. eauto 10. }
  destruct (reachable _ _ _ Hrun) as (s & h & Hr & Hh & _).
  assert (forall f, exists r d1, resolve d (q_Name q) f = Some (r, d1) /\
            forall a, r = Ok a -> Is6 a = f /\ IsValid a = true /\
              exists d3, Reverse d1 a = Some (Some (canonical (q_Name q)), d3)) as Hres.
  { intros f. destruct (resolve_step d s (q_Name q) f Hr) as (d1 & Er & _).
    eexists _, d1. split; [exact Er|]. intros a Ea. rewrite Ea in Er.
    destruct (resolve_allocated _ _ _ _ _ _ _ Hrun Er) as (z & -> & Hz).
    rewrite mk_addr_Is6. split; [done|]. split; [by destruct f|].
    eapply (name_survives os [] xs [] d d1 d1); [exact Hrun|exact Er|reflexivity|done]. }
  destruct (q_Type q =? TypeA) eqn:Ea; bool_to_prop;
    [|destruct (q_Type q =? TypeAAAA) eqn:Eb; bool_to_prop].
  - destruct (Hres false) as (r & d1 & Er & Hok). unfold Resolve4. rewrite Er.
    destruct r as [a|e]; eexists _, _, d1; (split; [reflexivity|]); [|by right; auto].
    destruct (Hok a eq_refl) as (H6 & Hv & Hrev). split; [done|]. split; [done|].
    split; [left; split; [done|by destruct a]|done].
  - destruct (Hres true) as (r & d1 & Er & Hok). unfold Resolve6. rewrite Er.
    destruct r as [a|e]; eexists _, _, d1; (split; [reflexivity|]); [|by right; auto].
    destruct (Hok a eq_refl) as (H6 & Hv & Hrev). split; [done|]. split; [done|].
    split; [by right|done].
  - exists None, RCodeSuccess, d. split; [done|]. left. auto.
Qed.
End Facts.

(** ** The TTL *)

(** The TTL of an answer is a DNS TTL: at most 2^31 - 1, zero for a
    negative duration, the whole seconds of the duration when they fit, and the
    maximum when they do not; the conversion to [uint32] never wraps. *)
Theorem ttlSeconds_bounds (ttl : Z) :
  0 <= ttlSeconds ttl <= 2 ^ 31 - 1 /\
  (ttl < 0 -> ttlSeconds ttl = 0) /\
  (0 <= ttl < 2 ^ 31 * Second -> ttlSeconds ttl * Second <= ttl < (ttlSeconds ttl + 1) * Second) /\
  (2 ^ 31 * Second <= ttl -> ttlSeconds ttl = 2 ^ 31 - 1).
Proof.
  unfold ttlSeconds, Second. rewrite Z.mod_small by lia.
  split; [lia|]. split; [|split].
  - intros Ht. pose proof (Z.quot_opp_l ttl 1000000000 ltac:(lia)).
    pose proof (Z.quot_pos (- ttl) 1000000000 ltac:(lia) ltac:(lia)). lia.
  - intros Ht. rewrite Z.quot_div_nonneg by lia.
    pose proof (Z.div_mod ttl 1000000000 ltac:(lia)).
    pose proof (Z.mod_pos_bound ttl 1000000000 ltac:(lia)).
    assert (ttl / 1000000000 < 2 ^ 31) by (apply Z.div_lt_upper_bound; lia).
    assert (0 <= ttl / 1000000000) by (apply Z.div_pos; lia). lia.
  - intros Ht. rewrite Z.quot_div_nonneg by lia.
    assert (2 ^ 31 <= ttl / 1000000000) by (apply Z.div_le_lower_bound; lia). lia.
Qed.

(** ** Concrete instances *)

#[local] Existing Instance ascii_unicode.

(** A resolver that has seen two names, one of them in both families. *)
Definition sample_ops : list op :=
  [OpResolve "API.example.com." false; OpResolve "db.example.com" false;
   OpResolve "api.example.com" true; OpReverse (Addr4 1681915906);
   OpResolve "api.EXAMPLE.com" false; OpReverse (Addr4 1681915999)].

Definition sample_run : list outcome * VirtualDNS :=
  match run NewVirtualDNS sample_ops with Some r => r | None => ([], NewVirtualDNS) end.

Lemma sample_run_ok : run NewVirtualDNS sample_ops = Some sample_run.
Proof. vm_compute. reflexivity. Qed.

Lemma addresses_never_reused_witness :
  In ("db.example.com"%string, Addr4 1681915906) (observed sample_ops (fst sample_run)) /\
  forall name, In (name, Addr4 1681915906) (observed sample_ops (fst sample_run)) ->
    "db.example.com"%string = name.
Proof.
  assert (In ("db.example.com"%string, Addr4 1681915906) (observed sample_ops (fst sample_run))) as Hin
    by (vm_compute; tauto).
  split; [exact Hin|]. intros name.
  exact (addresses_never_reused sample_ops (fst sample_run) (snd sample_run) _ name (Addr4 1681915906)
           sample_run_ok Hin).
Defined.

(** *** Filling the table *)

(** Names made of [n + 1] letters. *)
Fixpoint letters (n : nat) : string :=
  match n with O => "a" | S n => String "a" (letters n) end.

Lemma letters_length n : String.length (letters n) = S n.
Proof. induction n; simpl; congruence. Qed.

Lemma letters_canonical n : canonical (letters n) = letters n.
Proof.
  unfold canonical. rewrite trim_suffix_none.
  - unfold to_lower. assert (is_ascii (letters n) = true) as -> by (by induction n).
    induction n; [done|]. simpl. by rewrite IHn.
  - destruct (has_suffix "." (letters n)) eqn:E; [|done]. exfalso.
    apply has_suffix_spec in E as [s Es].
    assert (forall t, letters n <> (t +:+ ".")%string) as Hno; [|by apply (Hno s)].
    clear. induction n as [|n IH]; intros [|c t]; simpl; try done; intros [= _ E].
    + destruct t; done.
    + by apply (IH t).
Qed.

Definition fill_binding (k : nat) : binding :=
  mkBinding (letters k) (mk_addr false (pool_base false + 1 + Z.of_nat k)).

Definition fill_ops (n : nat) : list op := map (fun k => OpResolve (letters k) false) (seq 0 n).
Definition fill (n : nat) : list binding := rev (map fill_binding (seq 0 n)).

Lemma fill_S n : fill (S n) = fill_binding n :: fill n.
Proof. unfold fill. by rewrite seq_S, map_app, rev_app_distr. Qed.

Lemma fill_length n : List.length (fill n) = n.
Proof. unfold fill. by rewrite length_rev, length_map, length_seq. Qed.

Lemma fill_fresh n m :
  (n <= m)%nat -> List.find (fun b => String.eqb (b_name b) (letters m)) (fill n) = None.
Proof.
  intros Hm. induction n as [|n IH]; [done|]. rewrite fill_S. simpl.
  destruct (String.eqb (letters n) (letters m)) eqn:E; [|apply IH; lia].
  apply String.eqb_eq, (f_equal String.length) in E. rewrite !letters_length in E. lia.
Qed.

Lemma spec_run_app s os os' :
  spec_run s (os ++ os') =
  (fst (spec_run s os) ++ fst (spec_run (snd (spec_run s os)) os'),
   snd (spec_run (snd (spec_run s os)) os')).
Proof.
  revert s. induction os as [|o os IH]; intros s; simpl; [by destruct (spec_run s os')|].
  destruct (spec_op s o) as [x s1]. rewrite IH. by destruct (spec_run s1 os).
Qed.

Lemma spec_fill_one n s :
  Z.of_nat n <= maxSyntheticNames -> l_last (s4 s) = pool_base false + Z.of_nat n ->
  List.find (fun b => String.eqb (b_name b) (letters n)) (l_bindings (s4 s)) = None ->
  spec_op s (OpResolve (letters n) false) =
  (Resolved (Ok (b_addr (fill_binding n))), mkSpec (push (letters n) false (s4 s)) (s6 s)).
Proof.
  intros Hn Hl Hf. unfold spec_op, spec_resolve. rewrite letters_canonical.
  assert (String.eqb (letters n) EmptyString = false) as -> by by destruct n.
  cbn [get_lru]. rewrite Hf, (proj2 (Z.ltb_lt _ _)).
  - rewrite Hl. unfold fill_binding. cbn [b_addr]. do 3 f_equal. f_equal. lia.
  - rewrite Hl. unfold maxSyntheticNames, pool_base, pool_limit in *. lia.
Qed.

Lemma spec_fill n :
  Z.of_nat n <= maxSyntheticNames ->
  snd (spec_run spec_init (fill_ops n)) =
  mkSpec (mkLru (pool_base false + Z.of_nat n) (fill n)) (mkLru (pool_base true) []).
Proof.
  induction n as [|n IH]; intros Hn; [reflexivity|].
  unfold fill_ops. rewrite seq_S, map_app, spec_run_app. cbn [snd map].
  fold (fill_ops n). rewrite IH by lia. cbn [spec_run]. rewrite Nat.add_0_l.
  rewrite spec_fill_one; [|lia|done|by apply fill_fresh].
  cbn [snd s4 s6]. f_equal. unfold push. cbn [l_last l_bindings]. rewrite fill_length.
  rewrite (proj2 (Z.leb_gt _ _)) by lia. rewrite fill_S. unfold fill_binding.
  f_equal; [lia|]. do 3 f_equal. lia.
Qed.

Lemma fill_addresses n b : In b (fill n) ->
  exists k, (k < n)%nat /\ b = fill_binding k.
Proof.
  unfold fill. rewrite <- in_rev, in_map_iff. intros (k & <- & Hk). apply in_seq in Hk.
  exists k. split; [lia|done].
Qed.

(** One name more than the table holds forgets the first one. *)
Lemma spec_overflow_forgets overflow :
  Z.of_nat overflow = maxSyntheticNames ->
  fst (spec_reverse (snd (spec_run spec_init (fill_ops (S overflow)))) (b_addr (fill_binding 0))) = None.
Proof.
  intros Ho. assert (1 <= Z.of_nat overflow) as Ho1 by (rewrite Ho; done).
  unfold fill_ops. rewrite seq_S, map_app, spec_run_app. cbn [snd map]. fold (fill_ops overflow).
  rewrite spec_fill by lia. cbn [spec_run]. rewrite Nat.add_0_l.
  rewrite spec_fill_one; [|lia|done|by apply fill_fresh]. cbn [snd s4 s6].
  unfold push. cbn [l_last l_bindings]. rewrite fill_length, (proj2 (Z.leb_le _ _)) by lia.
  unfold spec_reverse. change (Unmap (b_addr (fill_binding 0))) with (b_addr (fill_binding 0)).
  change (Is6 (b_addr (fill_binding 0))) with false. cbn [get_lru l_bindings s4].
  rewrite (proj2 (find_None_false _ _)); [done|]. intros b [<-|Hb].
  - apply bool_decide_eq_false. unfold fill_binding. cbn [b_addr mk_addr]. intros [= E]. lia.
  - apply bool_decide_eq_false. intros E.
    assert (exists l, fill overflow = l ++ [fill_binding 0] /\ ~ In (fill_binding 0) l) as (l & El & Hl).
    { exists (rev (map fill_binding (seq 1 (overflow - 1)))). split.
      - unfold fill. replace overflow with (S (overflow - 1)) at 1 by lia. done.
      - rewrite <- in_rev, in_map_iff. intros (k & Ek & Hk). apply in_seq in Hk.
        unfold fill_binding in Ek. injection Ek as _ Ek. lia. }
    rewrite El, removelast_last in Hb.
    destruct (fill_addresses overflow b) as (k & _ & ->); [rewrite El; apply in_app_iff; by left|].
    unfold fill_binding in E. cbn [b_addr mk_addr] in E. injection E as E.
    assert (k = 0%nat) as -> by lia. done.
Qed.

(** The first name of a full table, and what the code answers after one more. *)
Lemma forgotten_state :
  exists os xs d d1,
    run NewVirtualDNS os = Some (xs, d) /\
    In (letters 0, b_addr (fill_binding 0)) (observed os xs) /\
    Reverse d (b_addr (fill_binding 0)) = Some (None, d1).
Proof.
  destruct (Z_of_nat_complete maxSyntheticNames ltac:(done)) as [n Hn].
  destruct (run_step _ _ (fill_ops (S n)) repr_init) as (d & Erun & Hr).
  destruct (reverse_step d _ (b_addr (fill_binding 0)) Hr) as (d1 & Erev & _).
  rewrite spec_overflow_forgets in Erev by done.
  exists (fill_ops (S n)), (fst (spec_run spec_init (fill_ops (S n)))), d, d1.
  split; [exact Erun|]. split; [|exact Erev].
  unfold fill_ops. cbn [seq map]. cbn [spec_run].
  rewrite (spec_fill_one 0) by done.
  destruct (spec_run _ (map _ _)) as [xs s]. cbn [fst observed observe]. rewrite letters_canonical.
  by left.
Qed.

Lemma forgotten_address_stays_dead_witness :
  exists d1, forall xs' d2 name',
    run d1 [OpResolve "new.example" false; OpReverse (b_addr (fill_binding 0))] = Some (xs', d2) ->
    ~ In (name', b_addr (fill_binding 0))
         (observed [OpResolve "new.example" false; OpReverse (b_addr (fill_binding 0))] xs').
Proof.
  destruct forgotten_state as (os & xs & d & d1 & Hrun & Hin & Hrev). exists d1.
  intros xs' d2 name' Hrun'.
  exact (forgotten_address_stays_dead os _ xs xs' d d1 d2 (letters 0) name' _ Hrun Hin Hrev Hrun').
Defined.

Lemma name_in_use_survives_witness :
  exists d3, Reverse (snd sample_run) (Addr4 1681915906) = Some (Some "db.example.com"%string, d3).
Proof.
  apply (name_in_use_survives [OpResolve "API.example.com." false] (skipn 2 sample_ops)
    [Resolved (Ok (Addr4 1681915905))] (skipn 2 (fst sample_run))
    (match run NewVirtualDNS (firstn 1 sample_ops) with Some r => snd r | None => NewVirtualDNS end)
    (match run NewVirtualDNS (firstn 2 sample_ops) with Some r => snd r | None => NewVirtualDNS end)
    (snd sample_run) "db.example.com" false (Addr4 1681915906));
    vm_compute; reflexivity.
Defined.

Lemma synthetic_addresses_witness :
  exists a d, resolve (snd sample_run) "new.example" true = Some (Ok a, d) /\
              Contains v6Pool a = true /\ publicAddress a = false.
Proof.
  assert (exists a d, resolve (snd sample_run) "new.example" true = Some (Ok a, d)) as (a & d & E)
    by (eexists _, _; vm_compute; reflexivity).
  exists a, d. split; [exact E|].
  destruct (synthetic_addresses sample_ops (fst sample_run) (snd sample_run) d "new.example" true (Ok a)
              sample_run_ok E) as (Hc & _ & _ & _ & Hp).
  split; [exact Hc|exact Hp].
Defined.

(** A codec that carries one question in its first bytes. *)
#[local] Instance toy_codec : DNSMessage := {|
  parser := Z;
  Parser_Start query := match query with
                        | [qtype] => Ok (qtype, mkHeader 7 false 0 false true false 0)
                        | _ => Err "parse"
                        end;
  Parser_Question qtype := Ok (mkQuestion "DB.example.com." qtype ClassINET);
  builder := list Z;
  NewBuilder h := [h_RCode h];
  EnableCompression b := b;
  StartQuestions b := Ok b;
  Builder_Question b q := Ok (b ++ [q_Type q]);
  StartAnswers b := Ok b;
  AResource b rh a := Ok (b ++ [rh_TTL rh; bits_of a]);
  AAAAResource b rh a := Ok (b ++ [rh_TTL rh; bits_of a]);
  Finish b := Ok b;
|}.

Definition sample_header : Header := mkHeader 7 false 0 false true false 0.
Definition sample_question : Question := mkQuestion "DB.example.com." TypeA ClassINET.

Lemma HandleQuery_answers_witness :
  (exists d1, HandleQuery (snd sample_run) [TypeA] = Some (Ok [0; 1; 30; 1681915906], d1)) /\
  exists answer rcode d',
    HandleQuery (snd sample_run) [TypeA] =
      Some (build_response (TTL d') sample_header sample_question answer rcode, d').
Proof.
  split; [eexists; vm_compute; reflexivity|].
  destruct (HandleQuery_answers (H0 := toy_codec) sample_ops (fst sample_run)
              (snd sample_run) [TypeA] TypeA sample_header sample_question
              sample_run_ok eq_refl eq_refl) as (answer & rcode & d' & E & _).
  exists answer, rcode, d'. exact E.
Defined.
