(* ===== verification/Http.v ===== *)
(** * HTTP values: headers, responses, percent-encoding

    The parts of [net/http], [net/url] and [net/textproto] that the client and
    the boundary use. *)

From S2P Require Import Prelude GoStrings.

(** ** Headers *)

(** [http.Header] and [textproto.MIMEHeader]: values by canonical key. *)
Definition Header : Type := gmap string (list string).

(** [h.Values(key)] and [h.Get(key)] for a [key] in canonical form. *)
Definition Values (h : Header) (key : string) : list string := default [] (h !! key).

Definition Get (h : Header) (key : string) : string :=
  match Values h key with v :: _ => v | [] => EmptyString end.

(** [h.Set(key, value)] for a [key] in canonical form. *)
Definition Set_ (h : Header) (key value : string) : Header := <[key := [value]]> h.

Record Response := mkResponse {
  StatusCode : Z;
  Status : string;
  RespHeader : Header;
}.

(** ** Status codes *)

Definition StatusSwitchingProtocols : Z := 101.
Definition StatusOK : Z := 200.
Definition StatusBadRequest : Z := 400.
Definition StatusForbidden : Z := 403.
Definition StatusMethodNotAllowed : Z := 405.
Definition StatusRequestHeaderFieldsTooLarge : Z := 431.
Definition StatusBadGateway : Z := 502.
Definition StatusServiceUnavailable : Z := 503.
Definition StatusHTTPVersionNotSupported : Z := 505.

(** [http.StatusText], for the codes the boundary sends. *)
Definition StatusText (code : Z) : string :=
  if code =? 400 then "Bad Request"
  else if code =? 403 then "Forbidden"
  else if code =? 405 then "Method Not Allowed"
  else if code =? 431 then "Request Header Fields Too Large"
  else if code =? 502 then "Bad Gateway"
  else if code =? 503 then "Service Unavailable"
  else if code =? 505 then "HTTP Version Not Supported"
  else EmptyString.

(** [http.ParseHTTPVersion] *)
Definition ParseHTTPVersion (vers : string) : option (Z * Z) :=
  match vers with
  | String "H" (String "T" (String "T" (String "P" (String "/"
      (String maj (String "." (String min EmptyString))))))) =>
      if is_digit maj && is_digit min then Some (digit_val maj, digit_val min) else None
  | _ => None
  end.

(** ** Percent-encoding: [url.PathEscape] and [url.PathUnescape] *)

Definition upper_hex (n : Z) : ascii := ascii_of (if n <? 10 then 48 + n else 55 + n).

Definition unhex (c : ascii) : option Z :=
  let b := byte_of c in
  if (48 <=? b) && (b <=? 57) then Some (b - 48)
  else if (97 <=? b) && (b <=? 102) then Some (b - 87)
  else if (65 <=? b) && (b <=? 70) then Some (b - 55)
  else None.

(** [!shouldEscape(c, encodePathSegment)] *)
Definition path_segment_byte (c : ascii) : bool :=
  is_lower_letter c || is_upper_letter c || is_digit c
  || contains_byte c "-_.~$&+:=@".

Fixpoint PathEscape (s : string) : string :=
  match s with
  | EmptyString => EmptyString
  | String c s =>
      if path_segment_byte c then String c (PathEscape s)
      else String "%" (String (upper_hex (byte_of c / 16))
             (String (upper_hex (byte_of c mod 16)) (PathEscape s)))
  end.

(** [None] is a malformed escape. *)
Fixpoint PathUnescape (s : string) : option string :=
  match s with
  | EmptyString => Some EmptyString
  | String "%" s' =>
      match s' with
      | String a (String b s) =>
          match unhex a, unhex b with
          | Some x, Some y => String (ascii_of (16 * x + y)) <$> PathUnescape s
          | _, _ => None
          end
      | _ => None
      end
  | String c s => String c <$> PathUnescape s
  end.

(** [strings.ReplaceAll(s, string(c), with)] for a one-byte pattern *)
Fixpoint replace_byte (c : ascii) (with_ s : string) : string :=
  match s with
  | EmptyString => EmptyString
  | String x s => if Ascii.eqb c x then (with_ +:+ replace_byte c with_ s)%string
                  else String x (replace_byte c with_ s)
  end.

Example escape_examples :
  map PathEscape ["a.b-c_~"; "fe80::1%eth0"; "a/b c"]%string =
  ["a.b-c_~"; "fe80::1%25eth0"; "a%2Fb%20c"]%string /\
  map PathUnescape ["fe80::1%25eth0"; "a%2fb"; "%4"; "%zz"]%string =
  [Some "fe80::1%eth0"; Some "a/b"; None; None]%string.
Proof. vm_compute. split; reflexivity. Qed.

(** ** Lemmas *)

Lemma hex_round n : 0 <= n < 16 -> unhex (upper_hex n) = Some n.
Proof.
  intros Hn.
  assert (forallb (fun k => bool_decide (unhex (upper_hex (Z.of_nat k)) = Some (Z.of_nat k)))
            (List.seq 0 16) = true) as Hall by (vm_compute; reflexivity).
  pose proof (proj1 (List.forallb_forall _ _) Hall (Z.to_nat n)) as Hk. cbn beta in Hk.
  rewrite Z2Nat.id in Hk by lia. apply (bool_decide_eq_true_1 _), Hk, List.in_seq. lia.
Qed.

Lemma PathUnescape_byte c s :
  Ascii.eqb "%" c = false -> PathUnescape (String c s) = String c <$> PathUnescape s.
Proof.
  intros Hc. destruct c as [b0 b1 b2 b3 b4 b5 b6 b7].
  destruct b0, b1, b2, b3, b4, b5, b6, b7; try reflexivity; discriminate Hc.
Qed.

Lemma PathUnescape_escaped c s :
  PathUnescape (String "%" (String (upper_hex (byte_of c / 16))
                  (String (upper_hex (byte_of c mod 16)) s))) = String c <$> PathUnescape s.
Proof.
  pose proof (byte_of_range c). cbn [PathUnescape].
  rewrite !hex_round by (split; [Z.div_mod_to_equations; lia..]).
  replace (16 * (byte_of c / 16) + byte_of c mod 16) with (byte_of c)
    by (Z.div_mod_to_equations; lia).
  by rewrite ascii_of_byte_of.
Qed.

Lemma fmap_append (c : ascii) (s : string) (o : option string) :
  String c <$> (String.append s <$> o) = String.append (String c s) <$> o.
Proof. by destruct o. Qed.

(** Escaping, in which the colons may be escaped as well, is undone, whatever
    follows. *)
Lemma PathUnescape_replace s x :
  PathUnescape (replace_byte ":" "%3A" (PathEscape s) +:+ x) = String.append s <$> PathUnescape x.
Proof.
  induction s as [|c s IH]; [simpl; by destruct (PathUnescape x)|]. cbn [PathEscape].
  rewrite <- fmap_append, <- IH. clear IH.
  destruct (path_segment_byte c) eqn:Ec.
  - cbn [replace_byte]. destruct (Ascii.eqb ":" c) eqn:E.
    + apply Ascii.eqb_eq in E. by subst c.
    + assert (Ascii.eqb "%" c = false) as Hp.
      { destruct (Ascii.eqb "%" c) eqn:Hp; [|done]. apply Ascii.eqb_eq in Hp. subst c. discriminate Ec. }
      cbn [String.append]. by rewrite PathUnescape_byte.
  - assert (forall n, 0 <= n < 16 -> Ascii.eqb ":" (upper_hex n) = false) as Hhex.
    { intros n Hn. apply not_true_iff_false. intros E. apply Ascii.eqb_eq in E.
      pose proof (hex_round n Hn) as Hr. rewrite <- E in Hr. discriminate Hr. }
    pose proof (byte_of_range c).
    cbn [replace_byte]. change (Ascii.eqb ":" "%") with false. cbv iota.
    rewrite !Hhex by (split; [Z.div_mod_to_equations; lia..]).
    cbn [String.append]. by rewrite PathUnescape_escaped.
Qed.

Lemma PathUnescape_prefix a x :
  contains_byte "%" a = false -> PathUnescape (a +:+ x) = String.append a <$> PathUnescape x.
Proof.
  induction a as [|c a IH]; intros Ha; [simpl; by destruct (PathUnescape x)|].
  rewrite contains_byte_cons in Ha. bool_to_prop. rewrite <- fmap_append, <- IH by done.
  cbn [String.append]. by rewrite PathUnescape_byte.
Qed.

Lemma PathUnescape_plain s : contains_byte "%" s = false -> PathUnescape s = Some s.
Proof.
  intros Hs. rewrite <- (app_string_nil_r s) at 1. rewrite PathUnescape_prefix by done.
  simpl. by rewrite app_string_nil_r.
Qed.
