(* ===== verification/Textproto.v ===== *)
(** * Header blocks as bytes

    What the client and the boundary use of [net/textproto] and of the writers
    of [net/http]: reading a line and a header block off a stream, canonical
    field names, and the lines a header is written as. A reader takes the bytes
    that are left and returns what it read and the bytes that are left after it.

    A line longer than the reader's buffer is one line here, as it is for
    [textproto.Reader] unless the stream ends within it. *)

From stdpp Require Import sorting.
From S2P Require Import Prelude GoStrings Http.

Local Open Scope go_scope.

(** ** Bytes *)

Definition tab : ascii := "009"%char.

(** A space or a tab; and the four bytes [textproto.TrimString] trims. *)
Definition is_blank (c : ascii) : bool := Ascii.eqb " " c || Ascii.eqb tab c.
Definition is_text_space (c : ascii) : bool := is_blank c || Ascii.eqb lf c || Ascii.eqb cr c.

(** [validHeaderFieldByte]: the bytes of a token (RFC 9110 5.6.2). *)
Definition field_byte (c : ascii) : bool :=
  is_lower_letter c || is_upper_letter c || is_digit c || contains_byte c "!#$%&'*+-.^_`|~".

(** [validHeaderValueByte] *)
Definition value_byte (c : ascii) : bool :=
  (128 <=? byte_of c) || Ascii.eqb tab c || ((32 <=? byte_of c) && (byte_of c <? 127)).

Definition is_token (s : string) : bool := negb (String.eqb s EmptyString) && str_all field_byte s.

Fixpoint trim_left_by (f : ascii -> bool) (s : string) : string :=
  match s with
  | EmptyString => EmptyString
  | String c s' => if f c then trim_left_by f s' else s
  end.

Fixpoint trim_right_by (f : ascii -> bool) (s : string) : string :=
  match s with
  | EmptyString => EmptyString
  | String c s' =>
      let t := trim_right_by f s' in
      if f c && String.eqb t EmptyString then EmptyString else String c t
  end.

Definition trim_by (f : ascii -> bool) (s : string) : string := trim_right_by f (trim_left_by f s).

(** ** Field names *)

Definition upper_byte (c : ascii) : ascii :=
  if is_lower_letter c then ascii_of (byte_of c - 32) else c.

Fixpoint canonical_bytes (upper : bool) (s : string) : string :=
  match s with
  | EmptyString => EmptyString
  | String c s =>
      String (if upper then upper_byte c else lower_byte c) (canonical_bytes (Ascii.eqb "-" c) s)
  end.

(** [canonicalMIMEHeaderKey]: [None] is an invalid name. A name with a space is
    kept as it is. *)
Definition canonicalMIMEHeaderKey (k : string) : option string :=
  if String.eqb k EmptyString then None
  else if negb (str_all (fun c => field_byte c || Ascii.eqb " " c) k) then None
  else if contains_byte " " k then Some k
  else Some (canonical_bytes true k).

(** ** Reading *)

Inductive mime_error : Type :=
| EndOfStream
| Malformed (line : string).

(** [ReadLine]: [None] is the end of the stream. *)
Definition ReadLine (s : string) : option (string * string) :=
  match cut lf s with
  | Some (line, rest) => Some (trim_suffix (String cr EmptyString) line, rest)
  | None => if String.eqb s EmptyString then None else Some (s, EmptyString)
  end.

Definition starts_blank (s : string) : bool :=
  match s with String c _ => is_blank c | EmptyString => false end.

(** The continuation lines of a field, in [readContinuedLineSlice]. *)
Fixpoint continued (fuel : nat) (acc s : string) : string * string :=
  match fuel with
  | O => (acc, s)
  | S fuel =>
      if starts_blank s then
        match ReadLine (trim_left_by is_blank s) with
        | None => ((acc +:+ " ")%string, EmptyString)
        | Some (line, rest) => continued fuel (acc +:+ " " +:+ trim_by is_blank line)%string rest
        end
      else (acc, s)
  end.

Definition header_add (m : Header) (key value : string) : Header :=
  <[key := Values m key ++ [value]]> m.

(** The loop of [ReadMIMEHeader]. *)
Fixpoint read_fields (fuel : nat) (m : Header) (s : string) : (Header + mime_error) * string :=
  match fuel with
  | O => (inr EndOfStream, s)
  | S fuel =>
      match ReadLine s with
      | None => (inr EndOfStream, s)
      | Some (line, rest) =>
          if String.eqb line EmptyString then (inl m, rest)
          else if negb (contains_byte ":" line) then (inr (Malformed line), rest)
          else
            let (kv, rest) := continued (String.length rest) (trim_by is_blank line) rest in
            match cut ":" kv with
            | None => (inr (Malformed kv), rest)
            | Some (k, v) =>
                match canonicalMIMEHeaderKey k with
                | None => (inr (Malformed kv), rest)
                | Some key =>
                    if negb (str_all value_byte v) then (inr (Malformed kv), rest)
                    else read_fields fuel (header_add m key (trim_left_by is_blank v)) rest
                end
            end
      end
  end.

Definition ReadMIMEHeader (s : string) : (Header + mime_error) * string :=
  if starts_blank s then
    match ReadLine s with
    | None => (inr EndOfStream, s)
    | Some (line, rest) => (inr (Malformed line), rest)
    end
  else read_fields (S (String.length s)) ∅ s.

(** ** Writing *)

(** [headerNewlineToSpace.Replace], then [textproto.TrimString]. *)
Definition header_text (v : string) : string :=
  trim_by is_text_space (str_map (fun c => if Ascii.eqb lf c || Ascii.eqb cr c then " "%char else c) v).

Definition field_line (f : string * string) : string := (fst f +:+ ": " +:+ snd f +:+ crlf)%string.

Fixpoint field_lines (fields : list (string * string)) : string :=
  match fields with
  | [] => EmptyString
  | f :: fields => (field_line f +:+ field_lines fields)%string
  end.

(** [Header.writeSubset]: sorted by name, invalid and excluded names left out. *)
Definition key_le (a b : string * list string) : Prop := String.leb (fst a) (fst b) = true.
#[export] Instance key_le_dec : RelDecision key_le.
Proof. intros a b. unfold key_le. apply _. Defined.

Definition sorted_fields (valid : string -> bool) (exclude : list string) (h : Header)
  : list (string * string) :=
  flat_map (fun kv => map (fun v => (fst kv, header_text v)) (snd kv))
    (List.filter (fun kv => valid (fst kv) && negb (existsb (String.eqb (fst kv)) exclude))
       (merge_sort key_le (map_to_list h))).

Example header_read_examples :
  map (fun s => fst (ReadMIMEHeader s))
    [("host: a" +:+ crlf +:+ "X-iD:  b " +:+ crlf +:+ " c" +:+ crlf +:+ crlf);
     ("Host: a" +:+ crlf); ("Ho st: a" +:+ crlf +:+ crlf); ("nocolon" +:+ crlf +:+ crlf);
     (": a" +:+ crlf +:+ crlf); (" Host: a" +:+ crlf +:+ crlf)]%string =
  [inl (<["Host" := ["a"]]> {["X-Id" := ["b c"]]}); inr EndOfStream; inl {["Ho st" := ["a"]]};
   inr (Malformed "nocolon"); inr (Malformed ": a"); inr (Malformed " Host: a")]%string.
Proof. vm_compute. reflexivity. Qed.

Example sorted_example :
  sorted_fields is_token ["Host"]%string
    (<["X-B" := ["1"; " 2 "]]> (<["Host" := ["h"]]> {["A" := [EmptyString]]}))%string
  = [("A", EmptyString); ("X-B", "1"); ("X-B", "2")]%string.
Proof. vm_compute. reflexivity. Qed.

(** ** Lemmas on bytes *)

(** A fact about one byte that a computation over all of them shows. *)
Ltac each_byte c := destruct c as [[] [] [] [] [] [] [] []]; vm_compute; done.

Lemma field_byte_plain c : field_byte c = true ->
  is_blank c = false /\ Ascii.eqb ":" c = false /\ Ascii.eqb lf c = false /\ value_byte c = true /\
  Ascii.eqb " " c = false.
Proof. each_byte c. Qed.

Lemma value_byte_plain c : value_byte c = true -> Ascii.eqb lf c = false /\ Ascii.eqb cr c = false.
Proof. each_byte c. Qed.

Lemma is_token_spec s : is_token s = true <-> s <> EmptyString /\ str_all field_byte s = true.
Proof. unfold is_token. by rewrite andb_true_iff, negb_true_iff, String.eqb_neq. Qed.

Lemma str_all_inv f c s : str_all f (String c s) = true -> f c = true /\ str_all f s = true.
Proof. by rewrite str_all_cons, andb_true_iff. Qed.

Lemma field_without c s :
  field_byte c = false -> str_all field_byte s = true -> contains_byte c s = false.
Proof. intros Hc Hs. eapply str_all_not_contains; eassumption. Qed.

Lemma value_without c s :
  value_byte c = false -> str_all value_byte s = true -> contains_byte c s = false.
Proof. intros Hc Hs. eapply str_all_not_contains; eassumption. Qed.

Lemma field_value_bytes s : str_all field_byte s = true -> str_all value_byte s = true.
Proof.
  induction s as [|c s IH]; [done|]. rewrite !str_all_cons, !andb_true_iff. intros [Hc Hs].
  split; [by apply field_byte_plain|by apply IH].
Qed.

Lemma trim_left_head f s :
  match s with String c _ => f c = false | EmptyString => True end -> trim_left_by f s = s.
Proof. destruct s as [|c s]; [done|]. intros Hc. cbn. by rewrite Hc. Qed.

Lemma trim_right_app f a b :
  trim_right_by f b <> EmptyString -> trim_right_by f (a +:+ b) = (a +:+ trim_right_by f b)%string.
Proof.
  intros Hb. induction a as [|c a IH]; [done|]. cbn [String.append trim_right_by]. rewrite IH.
  destruct (String.eqb (a +:+ trim_right_by f b) EmptyString) eqn:E; [|by rewrite andb_false_r].
  apply String.eqb_eq in E. by destruct a, (trim_right_by f b).
Qed.

(** Text that neither starts nor ends with a byte of the class. *)
Definition trimmed (f : ascii -> bool) (s : string) : Prop :=
  trim_left_by f s = s /\ trim_right_by f s = s.

Lemma trim_left_length f s : (String.length (trim_left_by f s) <= String.length s)%nat.
Proof. induction s as [|c s IH]; [done|]. cbn. destruct (f c); cbn; lia. Qed.

Lemma trim_left_fixed f c s : trim_left_by f (String c s) = String c s -> f c = false.
Proof.
  cbn [trim_left_by]. destruct (f c); [|done]. intros E. pose proof (trim_left_length f s) as Hl.
  rewrite E in Hl. cbn in Hl. lia.
Qed.

Lemma trim_left_weaken (f g : ascii -> bool) s :
  (forall c, g c = true -> f c = true) -> trim_left_by f s = s -> trim_left_by g s = s.
Proof.
  intros Hfg Hs. apply trim_left_head. destruct s as [|c s]; [done|]. apply trim_left_fixed in Hs.
  destruct (g c) eqn:Hg; [|done]. by rewrite (Hfg c Hg) in Hs.
Qed.

Lemma trim_right_weaken (f g : ascii -> bool) s :
  (forall c, g c = true -> f c = true) -> trim_right_by f s = s -> trim_right_by g s = s.
Proof.
  intros Hfg. induction s as [|c s IH]; [done|]. cbn [trim_right_by].
  destruct (f c && String.eqb (trim_right_by f s) EmptyString) eqn:Ef; [done|]. intros [= E].
  specialize (IH E). rewrite IH, E in *. destruct (g c) eqn:Hg; [|done]. rewrite (Hfg c Hg) in Ef.
  cbn in *. by rewrite Ef.
Qed.

Lemma trim_left_idem f s : trim_left_by f (trim_left_by f s) = trim_left_by f s.
Proof. induction s as [|c s IH]; [done|]. cbn [trim_left_by]. destruct (f c) eqn:Ec; [done|]. cbn. by rewrite Ec. Qed.

Lemma trim_right_idem f s : trim_right_by f (trim_right_by f s) = trim_right_by f s.
Proof.
  induction s as [|c s IH]; [done|]. cbn [trim_right_by]. destruct (_ && _) eqn:E; [done|].
  cbn [trim_right_by]. by rewrite IH, E.
Qed.

Lemma trim_by_trimmed f s : trimmed f (trim_by f s).
Proof.
  unfold trimmed, trim_by. split; [|apply trim_right_idem]. apply trim_left_head.
  pose proof (trim_left_idem f s) as Hi. destruct (trim_left_by f s) as [|c t]; [done|].
  apply trim_left_fixed in Hi. cbn [trim_right_by]. by rewrite Hi.
Qed.

Lemma trim_by_all f g s : str_all g s = true -> str_all g (trim_by f s) = true.
Proof.
  intros Hs. assert (str_all g (trim_left_by f s) = true) as Hl.
  { induction s as [|c s IH]; [done|]. rewrite str_all_cons, andb_true_iff in Hs. destruct Hs as [Hc Hs].
    cbn [trim_left_by]. destruct (f c); [by apply IH|]. by rewrite str_all_cons, Hc. }
  unfold trim_by. revert Hl. generalize (trim_left_by f s). clear. intros s.
  induction s as [|c s IH]; [done|]. rewrite str_all_cons, andb_true_iff. intros [Hc Hs].
  cbn [trim_right_by]. destruct (_ && _); [done|]. by rewrite str_all_cons, Hc, IH.
Qed.

(** ** Reading what was written *)

Lemma ReadLine_line line rest :
  contains_byte lf line = false -> ReadLine (line +:+ crlf +:+ rest) = Some (line, rest).
Proof.
  intros Hl. unfold ReadLine.
  replace (line +:+ crlf +:+ rest)%string with ((line +:+ String cr EmptyString) +:+ String lf rest)%string
    by (by rewrite app_string_assoc).
  rewrite cut_app by (by rewrite contains_byte_app, Hl). by rewrite trim_suffix_app.
Qed.

Lemma continued_none fuel acc s : starts_blank s = false -> continued fuel acc s = (acc, s).
Proof. intros Hs. destruct fuel; cbn [continued]; [done|]. by rewrite Hs. Qed.

(** What a writer sends: a token, and text that is trimmed and has only the
    bytes a value may have. *)
Definition field_ok (f : string * string) : Prop :=
  is_token (fst f) = true /\ str_all value_byte (snd f) = true /\ trimmed is_text_space (snd f).

Lemma blank_is_space c : is_blank c = true -> is_text_space c = true.
Proof. unfold is_text_space. by intros ->. Qed.

Lemma trim_field key value : field_ok (key, value) ->
  exists v, trim_by is_blank (key +:+ ": " +:+ value) = (key +:+ String ":" v)%string /\
    str_all value_byte v = true /\ trim_left_by is_blank v = value.
Proof.
  intros (Hk & Hv & Hl & Hr). cbn [fst snd] in *. apply is_token_spec in Hk as [Hne Hk].
  apply (trim_left_weaken _ is_blank _ blank_is_space) in Hl.
  apply (trim_right_weaken _ is_blank _ blank_is_space) in Hr. unfold trim_by.
  rewrite trim_left_head by (destruct key as [|c key]; [done|]; apply str_all_inv in Hk as [Hk _];
    by apply field_byte_plain in Hk as [? _]).
  destruct (String.eqb value EmptyString) eqn:E; bool_to_prop.
  - subst value. exists EmptyString. split; [|done]. by rewrite trim_right_app.
  - exists (String " " value). split; [|by rewrite str_all_cons].
    replace (key +:+ ": " +:+ value)%string with ((key +:+ ": ") +:+ value)%string
      by (by rewrite app_string_assoc).
    rewrite trim_right_app by (by rewrite Hr). rewrite Hr. by rewrite app_string_assoc.
Qed.

Lemma field_line_text key value : field_ok (key, value) ->
  contains_byte lf (key +:+ ": " +:+ value) = false /\
  contains_byte ":" (key +:+ ": " +:+ value) = true /\
  String.eqb (key +:+ ": " +:+ value) EmptyString = false.
Proof.
  intros (Hk & Hv & _). cbn [fst snd] in *. apply is_token_spec in Hk as [Hne Hk].
  rewrite !contains_byte_app, (field_without lf key), (value_without lf value) by done.
  split_and!; [done|by rewrite orb_true_r|]. destruct key; [done|reflexivity].
Qed.

Definition canonical_key (k : string) : string := canonical_bytes true k.

Lemma canonicalMIMEHeaderKey_token k :
  is_token k = true -> canonicalMIMEHeaderKey k = Some (canonical_key k).
Proof.
  unfold canonicalMIMEHeaderKey. intros Hk. apply is_token_spec in Hk as [Hne Hk].
  rewrite (proj2 (String.eqb_neq _ _)) by done.
  assert (str_all (fun c => field_byte c || Ascii.eqb " " c) k = true) as ->.
  { clear Hne. induction k as [|c k IH]; [done|]. apply str_all_inv in Hk as [Hc Hk].
    by rewrite str_all_cons, Hc, IH. }
  by rewrite (field_without " " k).
Qed.

Definition add_field (m : Header) (f : string * string) : Header :=
  header_add m (canonical_key (fst f)) (snd f).

(** The next line is a field or the end of the block, not a continuation. *)
Lemma fields_start fields rest : Forall field_ok fields ->
  starts_blank (field_lines fields +:+ crlf +:+ rest) = false.
Proof.
  destruct 1 as [|[key value] fields (Hk & _) _]; [done|]. cbn [fst] in Hk.
  apply is_token_spec in Hk as [Hne Hk]. destruct key as [|c key]; [done|].
  apply str_all_inv in Hk as [Hk _]. cbn. by apply field_byte_plain in Hk as [? _].
Qed.

Lemma read_fields_written fields rest m fuel :
  Forall field_ok fields -> (List.length fields < fuel)%nat ->
  read_fields fuel m (field_lines fields +:+ crlf +:+ rest) = (inl (fold_left add_field fields m), rest).
Proof.
  intros HF. revert m fuel. induction HF as [|[key value] fields Hf HF IH]; intros m fuel Hfuel.
  { destruct fuel; [cbn in Hfuel; lia|]. cbn [field_lines read_fields].
    by rewrite (ReadLine_line EmptyString rest). }
  destruct fuel as [|fuel]; [cbn in Hfuel; lia|]. cbn [read_fields field_lines].
  replace ((field_line (key, value) +:+ field_lines fields) +:+ crlf +:+ rest)%string
    with ((key +:+ ": " +:+ value) +:+ crlf +:+ (field_lines fields +:+ crlf +:+ rest))%string
    by (unfold field_line; cbn [fst snd]; by rewrite !app_string_assoc).
  destruct (field_line_text key value Hf) as (Hlf & Hcolon & Hne).
  rewrite ReadLine_line, Hne, Hcolon by done. cbn [negb].
  destruct (trim_field key value Hf) as (v & -> & Hv & Htrim).
  rewrite continued_none by (by apply fields_start). destruct Hf as (Hk & _). cbn [fst] in Hk.
  assert (contains_byte ":" key = false) as Hck.
  { apply is_token_spec in Hk as [_ Hk]. by apply field_without. }
  rewrite cut_app, canonicalMIMEHeaderKey_token, Hv, Htrim by done. cbn [negb].
  cbn in Hfuel. by rewrite IH by lia.
Qed.

Lemma length_field_lines fields rest :
  (List.length fields < S (String.length (field_lines fields +:+ rest)))%nat.
Proof.
  induction fields as [|[k v] fields IH]; [cbn; lia|]. cbn [field_lines List.length].
  rewrite app_string_assoc, (length_app_string (field_line _)).
  assert (1 <= String.length (field_line (k, v)))%nat; [|lia].
  unfold field_line. rewrite !length_app_string. cbn. lia.
Qed.

(** A header block reads back: the fields in order under their canonical names,
    and not a byte more than the block. *)
Lemma ReadMIMEHeader_written fields rest :
  Forall field_ok fields ->
  ReadMIMEHeader (field_lines fields +:+ crlf +:+ rest) = (inl (fold_left add_field fields ∅), rest).
Proof.
  intros HF. unfold ReadMIMEHeader. rewrite fields_start, read_fields_written; [done|done|apply length_field_lines|done].
Qed.

(** The values under a name, in the order of the lines. *)
Definition field_values (key : string) (fields : list (string * string)) : list string :=
  map snd (List.filter (fun f => String.eqb key (canonical_key (fst f))) fields).

Lemma Values_header_add m key value key' :
  Values (header_add m key value) key' = Values m key' ++ (if String.eqb key' key then [value] else []).
Proof.
  unfold header_add, Values, Header in *. destruct (String.eqb key' key) eqn:E; bool_to_prop.
  - subst. by rewrite lookup_insert_eq.
  - rewrite lookup_insert_ne by congruence. by rewrite app_nil_r.
Qed.

Lemma Values_fold_fields fields m key :
  Values (fold_left add_field fields m) key = Values m key ++ field_values key fields.
Proof.
  revert m. induction fields as [|f fields IH]; intros m; cbn [fold_left]; [by rewrite app_nil_r|].
  rewrite IH. unfold add_field. rewrite Values_header_add. unfold field_values. cbn [List.filter].
  destruct (String.eqb key (canonical_key (fst f))); cbn [map]; by rewrite <- app_assoc.
Qed.

Lemma fold_fields_keys fields m key vs :
  fold_left add_field fields m !! key = Some vs ->
  is_Some (m !! key) \/ exists f, In f fields /\ canonical_key (fst f) = key.
Proof.
  revert m. induction fields as [|f fields IH]; intros m; cbn [fold_left]; [by left|].
  intros E. destruct (IH _ E) as [[vs' E']|(g & Hg & Hk)]; [|right; exists g; split; [by right|done]].
  unfold add_field, header_add, Header in *. destruct (decide (key = canonical_key (fst f))) as [->|Hne].
  - right. exists f. split; [by left|done].
  - rewrite lookup_insert_ne in E' by congruence. by left; eexists.
Qed.

Lemma canonical_key_token k : is_token k = true -> is_token (canonical_key k) = true.
Proof.
  rewrite !is_token_spec. unfold canonical_key. intros [Hne Hk].
  assert (forall u, str_all field_byte (canonical_bytes u k) = true) as Hall.
  { clear Hne. induction k as [|c k IH]; [done|]. apply str_all_inv in Hk as [Hc Hk].
    intros u. cbn [canonical_bytes]. rewrite str_all_cons, IH, andb_true_r by done.
    clear IH Hk. destruct u; revert Hc; each_byte c. }
  split; [by destruct k|apply Hall].
Qed.
