(* ===== verification/Connect.v ===== *)
(** * The boundary client: CONNECT and connect-udp over HTTP/1.1

    [sdk/pkg/tun2connect/connect.go] and [DialError] of [dialer.go].

    The transport is an environment: whether the dial and the request write
    succeed, and the sequence of results [http.ReadResponse] gives. What the
    client does to the connection is a list of events. *)

From S2P Require Import Prelude GoStrings Http.

Local Open Scope go_scope.

(** ** Proxy-Status: the reason token on the wire *)

Definition ProxyErrorType (reason : string) : string :=
  let eqr r := String.eqb reason r in
  if eqr "not-on-allowlist"%string || eqr "port-not-allowed"%string || eqr "transport-not-allowed"%string
     || eqr "udp-disabled"%string || eqr "identity-unknown"%string || eqr "port-not-permitted"%string
  then "http_request_denied"
  else if eqr "ip-not-on-allowlist"%string || eqr "resolved-address-denied"%string || eqr "scoped-ip"%string
  then "destination_ip_prohibited"
  else if eqr "resolve-failed"%string then "dns_error"
  else if eqr "dial-failed"%string then "destination_unavailable"
  else if eqr "busy"%string then "connection_limit_reached"
  else if eqr "policy-unavailable"%string then "proxy_configuration_error"
  else if eqr "unsupported-version"%string then "http_protocol_error"
  else "http_request_error".

Definition ProxyStatus (member reason : string) : string :=
  (member +:+ "; error=" +:+ ProxyErrorType reason +:+ "; reason=" +:+ reason)%string.

(** The loop of [ProxyStatusReason] over the parameters. *)
Fixpoint reason_param (params : list string) : string :=
  match params with
  | [] => EmptyString
  | param :: params =>
      match cut "=" (trim_space param) with
      | Some (key, value) =>
          if String.eqb key "reason" then trim_byte "034" value else reason_param params
      | None => reason_param params
      end
  end.

Definition ProxyStatusReason (h : Header) : string :=
  let member := hd EmptyString (split "," (Get h "Proxy-Status")) in
  reason_param (tl (split ";" member)).

(** ** Errors *)

(** [DialError], or any other error. *)
Inductive dial_error : Type :=
| Refused (code : Z) (status reason : string)
| Failed (e : string).

Definition DialError_Error (status reason : string) : string :=
  if negb (String.eqb reason EmptyString)
  then ("boundary refused: " +:+ status +:+ " (" +:+ reason +:+ ")")%string
  else ("boundary refused: " +:+ status)%string.

(** [Error] of a dial's error. *)
Definition error_text (e : dial_error) : string :=
  match e with Refused _ status reason => DialError_Error status reason | Failed e => e end.

Definition refusal (resp : Response) : dial_error :=
  Refused (StatusCode resp) (Status resp) (ProxyStatusReason (RespHeader resp)).

(** ** Requests *)

Record URL := mkURL { u_Scheme : string; u_Host : string; u_Path : string; u_RawPath : string }.

Record Request := mkRequest {
  req_Method : string;
  req_URL : URL;
  req_Host : string;
  req_Header : Header;
}.

Definition udpProxyURL (authority host : string) (port : Z) : URL :=
  let encodedHost := replace_byte ":" "%3A" (PathEscape host) in
  let path h := ("/.well-known/masque/udp/" +:+ h +:+ "/" +:+ format_uint port +:+ "/")%string in
  mkURL "http" authority (path host) (path encodedHost).

(** ** The client *)

Record BoundaryClient := mkBoundaryClient {
  c_Authority : string;
  c_Header : Header;
}.

Definition authority (c : BoundaryClient) : string :=
  if negb (String.eqb (c_Authority c) EmptyString) then c_Authority c else "boundary".

(** The environment of one dial. *)
Record transport := mkTransport {
  t_deadline : option Z;                 (** of the dial's context *)
  t_dial : Result unit;
  t_write : Result unit;
  t_responses : list (Result Response);
  t_cancelled : bool;                    (** the context ends between the final response and [stop] *)
}.

(** What happens to the boundary connection: opened, closed when the context ends
    ([context.AfterFunc]) until that is stopped, its deadline set or cleared, the
    request written, closed. *)
Inductive conn_event : Type :=
| ConnOpen
| ConnWatch
| ConnDeadline (d : option Z)
| ConnSend (r : Request)
| ConnCancelled                          (** the watch closes it: the context has ended *)
| ConnUnwatch
| ConnClose.

Definition maxInterimResponses : Z := 8.

(** The loop of [readFinalResponse]; the reader fails when nothing is left. *)
Fixpoint readFinalResponse_loop (responses : list (Result Response)) (interim : Z)
  : Result Response :=
  match responses with
  | [] => Err "unexpected EOF"
  | Err e :: _ => Err e
  | Ok resp :: rest =>
      if (StatusCode resp <? 100) || (200 <=? StatusCode resp)
         || (StatusCode resp =? StatusSwitchingProtocols)
      then Ok resp
      else if maxInterimResponses <=? interim
      then Err "boundary sent more than %d interim responses"
      else readFinalResponse_loop rest (interim + 1)
  end.

Definition readFinalResponse (responses : list (Result Response)) : Result Response :=
  readFinalResponse_loop responses 0.

(** [req.Header.Add] of every configured value, under canonical keys. *)
Definition add_headers (h extra : Header) : Header :=
  union_with (fun own more => Some (own ++ more)) h extra.

(** The events, and the response when the connection is left open. *)
Definition roundTrip (c : BoundaryClient) (t : transport) (req : Request)
  : list conn_event * Result Response :=
  match t_dial t with
  | Err e => ([], Err e)
  | Ok _ =>
      let req := mkRequest (req_Method req) (req_URL req) (req_Host req)
                   (add_headers (req_Header req) (c_Header c)) in
      let events := [ConnOpen; ConnWatch] ++
        match t_deadline t with Some d => [ConnDeadline (Some d)] | None => [] end ++ [ConnSend req] in
      match t_write t with
      | Err e => (events ++ [ConnClose; ConnUnwatch], Err e)
      | Ok _ =>
          match readFinalResponse (t_responses t) with
          | Err e => (events ++ [ConnClose; ConnUnwatch], Err e)
          | Ok resp => (events ++ [ConnDeadline None] ++ (if t_cancelled t then [ConnCancelled] else []) ++ [ConnUnwatch], Ok resp)
          end
      end
  end.

Definition tcp_request (name : string) (port : Z) : Request :=
  let hostport := join_host_port name (format_uint port) in
  mkRequest "CONNECT" (mkURL EmptyString hostport EmptyString EmptyString) hostport ∅.

Definition DialTCP (c : BoundaryClient) (t : transport) (name : string) (port : Z)
  : list conn_event * (Response + dial_error) :=
  match roundTrip c t (tcp_request name port) with
  | (events, Err e) => (events, inr (Failed e))
  | (events, Ok resp) =>
      if (StatusCode resp <? 200) || (299 <? StatusCode resp)
      then (events ++ [ConnClose], inr (refusal resp))
      else (events, inl resp)
  end.

Definition udp_request (c : BoundaryClient) (name : string) (port : Z) : Request :=
  mkRequest "GET" (udpProxyURL (authority c) name port) (authority c)
    (Set_ (Set_ (Set_ ∅ "Connection" "Upgrade") "Upgrade" "connect-udp") "Capsule-Protocol" "?1").

Definition DialUDP (c : BoundaryClient) (t : transport) (name : string) (port : Z)
  : list conn_event * (Response + dial_error) :=
  match roundTrip c t (udp_request c name port) with
  | (events, Err e) => (events, inr (Failed e))
  | (events, Ok resp) =>
      if negb (StatusCode resp =? StatusSwitchingProtocols)
         || negb (String.eqb (Get (RespHeader resp) "Upgrade") "connect-udp")
      then (events ++ [ConnClose], inr (refusal resp))
      else (events, inl resp)
  end.

Example reason_examples :
  map (fun v => ProxyStatusReason {[ "Proxy-Status"%string := [v] ]})
    ["boundary; error=dns_error; reason=resolve-failed"; "a; reason=x, b; reason=y";
     "a;  reason=  z ;k"; ""; "a; error=e"]%string
  = ["resolve-failed"; "x"; "  z"; ""; ""]%string.
Proof. vm_compute. reflexivity. Qed.

(** ** Lemmas on text *)

(** A printable ASCII byte that is not a space. *)
Definition visible (c : ascii) : bool := (33 <=? byte_of c) && (byte_of c <=? 126).

(** A byte of a registered reason token. *)
Definition token_byte (c : ascii) : bool := is_lower_letter c || is_digit c || Ascii.eqb "-" c.

Lemma token_visible s : str_all token_byte s = true -> str_all visible s = true.
Proof.
  induction s as [|c s IH]; [done|]. rewrite !str_all_cons, !andb_true_iff. intros [Hc Hs].
  split; [|auto]. clear - Hc. unfold token_byte, is_lower_letter, is_digit, visible in *.
  destruct (Ascii.eqb "-" c) eqn:E; [apply Ascii.eqb_eq in E; by subst|]. lia.
Qed.

Definition first_not_visible (w : string) : bool :=
  match w with String c _ => negb (visible c) | EmptyString => false end.
Fixpoint last_not_visible (w : string) : bool :=
  match w with
  | EmptyString => false
  | String c EmptyString => negb (visible c)
  | String _ w => last_not_visible w
  end.

Lemma spaces_not_visible :
  forallb (fun w => first_not_visible w && last_not_visible w) space_encodings = true.
Proof. vm_compute. reflexivity. Qed.

Lemma last_not_visible_app a w : last_not_visible w = true -> last_not_visible (a +:+ w)%string = true.
Proof.
  intros Hw. induction a as [|c a IH]; [done|]. simpl. destruct (a +:+ w)%string eqn:E; [|done].
  destruct a; [|discriminate E]. simpl in E. by subst w.
Qed.

Lemma visible_last s : str_all visible s = true -> last_not_visible s = false.
Proof.
  induction s as [|c s IH]; [done|]. rewrite str_all_cons, andb_true_iff. intros [Hc Hs].
  simpl. destruct s; [by rewrite Hc|auto].
Qed.

Lemma no_space_prefix s :
  str_all visible s = true -> List.find (fun w => has_prefix w s) space_encodings = None.
Proof.
  intros Hs. pose proof spaces_not_visible as Hsp. rewrite forallb_forall in Hsp.
  destruct (List.find _ _) as [w|] eqn:E; [|done]. exfalso.
  apply List.find_some in E as [Hin Hp]. apply Hsp, andb_true_iff in Hin as [Hf _].
  destruct w as [|c w]; [done|]. destruct s as [|d s]; [done|]. unfold has_prefix in Hp. simpl in Hp.
  rewrite str_all_cons in Hs. apply andb_true_iff in Hs as [Hd _].
  destruct (ascii_dec c d); [|done]. subst d. simpl in Hf. by rewrite Hd in Hf.
Qed.

Lemma no_space_suffix s :
  str_all visible s = true -> List.find (fun w => has_suffix w s) space_encodings = None.
Proof.
  intros Hs. pose proof spaces_not_visible as Hsp. rewrite forallb_forall in Hsp.
  destruct (List.find _ _) as [w|] eqn:E; [|done]. exfalso.
  apply List.find_some in E as [Hin Hp]. apply Hsp, andb_true_iff in Hin as [_ Hf].
  apply has_suffix_spec in Hp as [a ->].
  apply (last_not_visible_app a) in Hf. by rewrite visible_last in Hf.
Qed.

Lemma trim_left_visible fuel s : str_all visible s = true -> trim_space_left fuel s = s.
Proof. intros Hs. destruct fuel; [done|]. cbn [trim_space_left]. by rewrite no_space_prefix. Qed.

Lemma trim_right_visible fuel s : str_all visible s = true -> trim_space_right fuel s = s.
Proof. intros Hs. destruct fuel; [done|]. cbn [trim_space_right]. by rewrite no_space_suffix. Qed.

Lemma trim_space_visible s : str_all visible s = true -> trim_space s = s.
Proof. intros Hs. unfold trim_space. by rewrite trim_left_visible, trim_right_visible. Qed.

Lemma find_space s :
  List.find (fun w => has_prefix w (String " " s)) space_encodings = Some (utf8 [32]).
Proof.
  unfold space_encodings. cbn [List.find].
  repeat match goal with |- context [has_prefix (utf8 ?l) (String " " s)] =>
    let b := eval vm_compute in (has_prefix (utf8 l) " ") in
    change (has_prefix (utf8 l) (String " " s)) with b || (replace (has_prefix (utf8 l) (String " " s)) with b by (by destruct s))
  end. reflexivity.
Qed.

Lemma trim_space_leading s : str_all visible s = true -> trim_space (String " " s) = s.
Proof.
  intros Hs. unfold trim_space. cbn [String.length trim_space_left]. rewrite find_space.
  assert (trim_prefix (utf8 [32]) (String " " s) = s) as -> by by destruct s.
  by rewrite trim_left_visible, trim_right_visible.
Qed.

Lemma trim_byte_none c s : contains_byte c s = false -> trim_byte c s = s.
Proof.
  intros Hc. unfold trim_byte. assert (trim_left_byte c s = s) as ->.
  { destruct s as [|x s]; [done|]. rewrite contains_byte_cons in Hc. bool_to_prop. simpl.
    by match goal with E : Ascii.eqb _ _ = false |- _ => rewrite E end. }
  induction s as [|x s IH]; [done|]. rewrite contains_byte_cons in Hc. bool_to_prop.
  cbn [trim_right_byte]. rewrite IH by done.
  match goal with E : Ascii.eqb _ _ = false |- _ => rewrite E end. by destruct s.
Qed.

(** A byte of an error type, of a member name or of a reason. *)
Definition name_byte (c : ascii) : bool := token_byte c || Ascii.eqb "_" c.

Lemma ProxyErrorType_bytes reason : str_all name_byte (ProxyErrorType reason) = true.
Proof. unfold ProxyErrorType. cbv zeta. by repeat case_match. Qed.

Lemma name_visible s : str_all name_byte s = true -> str_all visible s = true.
Proof.
  induction s as [|c s IH]; [done|]. rewrite !str_all_cons, !andb_true_iff. intros [Hc Hs].
  split; [|auto]. clear - Hc. unfold name_byte, token_byte, is_lower_letter, is_digit, visible in *.
  destruct (Ascii.eqb "-" c) eqn:E; [apply Ascii.eqb_eq in E; by subst|].
  destruct (Ascii.eqb "_" c) eqn:E'; [apply Ascii.eqb_eq in E'; by subst|]. lia.
Qed.

Lemma name_without c s :
  name_byte c = false -> str_all name_byte s = true -> contains_byte c s = false.
Proof. intros Hc Hs. eapply str_all_not_contains; eassumption. Qed.

(** ** Properties *)

(** The value a boundary writes, parsed. *)
Lemma ProxyStatusReason_written (member reason : string) (h : Header) :
  str_all name_byte member = true -> str_all name_byte reason = true ->
  Get h "Proxy-Status" = ProxyStatus member reason -> ProxyStatusReason h = reason.
Proof.
  intros Hm Hr Hget. unfold ProxyStatusReason. rewrite Hget.
  unfold ProxyStatus. pose proof (ProxyErrorType_bytes reason) as Ht.
  set (type := ProxyErrorType reason) in *. clearbody type.
  assert (forall c, name_byte c = false -> contains_byte c "; error=; reason=" = false ->
    contains_byte c (member +:+ "; error=" +:+ type +:+ "; reason=" +:+ reason)%string = false) as Hno.
  { intros c Hc Hs. rewrite !contains_byte_app, (name_without c member), (name_without c type),
      (name_without c reason) by done.
    change "; error=; reason="%string with ("; error=" +:+ "; reason=")%string in Hs.
    rewrite contains_byte_app in Hs. apply orb_false_iff in Hs as [H1 H2]. by rewrite H1, H2. }
  rewrite (split_no_sep "," _ (Hno ","%char eq_refl eq_refl)). cbn [hd].
  change ("; error=" +:+ type +:+ "; reason=" +:+ reason)%string with
    (String ";" (" error=" +:+ type +:+ "; reason=" +:+ reason))%string.
  rewrite (split_app_sep ";"), (split_no_sep ";" member) by by apply name_without.
  change (" error=" +:+ type +:+ "; reason=" +:+ reason)%string with
    (" error=" +:+ (type +:+ String ";" (" reason=" +:+ reason)))%string.
  rewrite <- app_string_assoc, (split_app_sep ";"), (split_no_sep ";" (" error=" +:+ type))
    by (rewrite contains_byte_app, (name_without ";" type) by done; reflexivity).
  rewrite (split_no_sep ";" (" reason=" +:+ reason))
    by (rewrite contains_byte_app, (name_without ";" reason) by done; reflexivity).
  cbn [app tl reason_param]. change (" error=" +:+ type)%string with (String " " ("error" +:+ String "=" type))%string.
  rewrite (trim_space_leading ("error" +:+ String "=" type))
    by (rewrite str_all_app, (str_all_cons visible "=" type), (name_visible type) by done; reflexivity).
  rewrite cut_app by done. change (String.eqb "error" "reason") with false. cbv iota.
  change (" reason=" +:+ reason)%string with (String " " ("reason" +:+ String "=" reason)).
  rewrite (trim_space_leading ("reason" +:+ String "=" reason))
    by (rewrite str_all_app, (str_all_cons visible "=" reason), (name_visible reason) by done; reflexivity).
  rewrite cut_app by done. change (String.eqb "reason" "reason") with true. cbv iota.
  by apply trim_byte_none, name_without.
Qed.

(** The reason token survives the wire. For every member name and
    every token of lower-case letters, digits, hyphens and underscores, the
    reason a client reads from the Proxy-Status field that a boundary wrote is
    the reason the boundary gave, and it is the reason of the error that a
    refused dial returns. *)
Theorem reason_roundtrip (member reason : string) (resp : Response) :
  str_all name_byte member = true -> str_all name_byte reason = true ->
  Get (RespHeader resp) "Proxy-Status" = ProxyStatus member reason ->
  refusal resp = Refused (StatusCode resp) (Status resp) reason.
Proof. intros Hm Hr Hget. unfold refusal. by rewrite (ProxyStatusReason_written member reason). Qed.

Lemma reason_roundtrip_witness :
  refusal (mkResponse 403 "403 Forbidden"
    {[ "Proxy-Status"%string := [ProxyStatus "boundary" "resolved-address-denied"] ]})
  = Refused 403 "403 Forbidden" "resolved-address-denied".
Proof.
  apply (reason_roundtrip "boundary" "resolved-address-denied"); vm_compute; reflexivity.
Defined.

Definition interim (r : Response) : bool :=
  (100 <=? StatusCode r) && (StatusCode r <? 200) && negb (StatusCode r =? 101).

Lemma final_not_interim r :
  (StatusCode r <? 100) || (200 <=? StatusCode r) || (StatusCode r =? StatusSwitchingProtocols)
  = negb (interim r).
Proof.
  unfold interim, StatusSwitchingProtocols. apply eq_true_iff_eq. lia.
Qed.

(** The client waits out interim responses, but not for ever. After
    any number of 1xx responses other than 101, the first other response is
    returned when at most eight came before it; with a ninth interim response,
    or when the stream fails first, the dial fails, and no further response is
    read. *)
Theorem readFinalResponse_skips (skipped : list Response) (next : Result Response)
    (rest : list (Result Response)) :
  Forall (fun r => interim r = true) skipped ->
  (forall r, next = Ok r -> interim r = false) ->
  readFinalResponse (map Ok skipped ++ next :: rest) =
  if Z.of_nat (List.length skipped) <=? maxInterimResponses then next
  else Err "boundary sent more than %d interim responses".
Proof.
  intros HF Hnext. unfold readFinalResponse.
  assert (forall n, 0 <= n -> n <= maxInterimResponses ->
    readFinalResponse_loop (map Ok skipped ++ next :: rest) n =
    if n + Z.of_nat (List.length skipped) <=? maxInterimResponses then next
    else Err "boundary sent more than %d interim responses") as Hgen.
  { induction HF as [|r rs Hr _ IH]; intros n Hn Hmax; simpl.
    - rewrite Z.add_0_r, (proj2 (Z.leb_le n maxInterimResponses)) by done. destruct next as [r|e]; [|done].
      by rewrite final_not_interim, (Hnext r eq_refl).
    - rewrite final_not_interim, Hr. cbn [negb].
      destruct (maxInterimResponses <=? n) eqn:E; bool_to_prop.
      + by rewrite (proj2 (Z.leb_gt _ _)) by lia.
      + rewrite IH by lia. by replace (n + 1 + Z.of_nat (List.length rs)) with
          (n + Z.of_nat (S (List.length rs))) by lia. }
  by rewrite Hgen.
Qed.

Lemma readFinalResponse_skips_witness :
  readFinalResponse [Ok (mkResponse 103 "103" ∅); Ok (mkResponse 200 "200 OK" ∅)]
  = Ok (mkResponse 200 "200 OK" ∅).
Proof.
  apply (readFinalResponse_skips [mkResponse 103 "103" ∅] (Ok (mkResponse 200 "200 OK" ∅)) []).
  - repeat constructor.
  - intros r [= <-]. reflexivity.
Defined.

(** The connection after the events: open, its deadline, and whether the end of the
    context closes it. *)
Record conn_state := mkConn { cs_open : bool; cs_deadline : option Z; cs_watched : bool }.

Definition conn_effect (s : conn_state) (e : conn_event) : conn_state :=
  match e with
  | ConnOpen => mkConn true None false
  | ConnWatch => mkConn (cs_open s) (cs_deadline s) true
  | ConnDeadline d => mkConn (cs_open s) d (cs_watched s)
  | ConnSend _ => s
  | ConnCancelled => mkConn (cs_open s && negb (cs_watched s)) (cs_deadline s) (cs_watched s)
  | ConnUnwatch => mkConn (cs_open s) (cs_deadline s) false
  | ConnClose => mkConn false (cs_deadline s) (cs_watched s)
  end.

Definition conn_after (events : list conn_event) : conn_state :=
  fold_left conn_effect events (mkConn false None false).

Definition requests (events : list conn_event) : list Request :=
  flat_map (fun e => match e with ConnSend r => [r] | _ => [] end) events.

(** A tunnel that is handed over: without a deadline, no longer closed by the end of
    the dial's context, and open, unless the context had ended before that. *)
Definition handed_over (t : transport) : conn_state := mkConn (negb (t_cancelled t)) None false.

Definition is_success {A B} (x : A + B) : bool := match x with inl _ => true | inr _ => false end.

(** Claim C30: a dial opens a tunnel exactly when the boundary grants one, and
    leaks no connection. The request is sent at most once, while the deadline and
    the end of the context still bound the exchange. [DialTCP] succeeds exactly when
    the connection opens, the request is written and the final response is any 2xx,
    [DialUDP] when it is 101 with the connect-udp upgrade; the connection is then
    handed over without the deadline and no longer tied to the context, and it is
    open unless the context ended after the final response and before the dial let
    go of it. On every other path the connection that was opened has been closed, and a response
    that is not a success is reported with its status and reason. *)
Theorem dial_outcomes (c : BoundaryClient) (t : transport) (name : string) (port : Z) (udp : bool) :
  let granted resp :=
    if udp then (StatusCode resp =? 101) && String.eqb (Get (RespHeader resp) "Upgrade") "connect-udp"
    else (200 <=? StatusCode resp) && (StatusCode resp <=? 299) in
  let d := if udp then DialUDP c t name port else DialTCP c t name port in
  (if is_ok (t_dial t) then
     exists before req after, fst d = before ++ ConnSend req :: after /\
       conn_after before = mkConn true (t_deadline t) true /\ requests (fst d) = [req]
   else fst d = []) /\
  match snd d with
  | inl resp =>
      conn_after (fst d) = handed_over t /\
      is_ok (t_dial t) = true /\ is_ok (t_write t) = true /\
      readFinalResponse (t_responses t) = Ok resp /\ granted resp = true
  | inr (Refused code status reason) =>
      cs_open (conn_after (fst d)) = false /\
      exists resp, readFinalResponse (t_responses t) = Ok resp /\ granted resp = false /\
        code = StatusCode resp /\ status = Status resp /\
        reason = ProxyStatusReason (RespHeader resp)
  | inr (Failed e) =>
      cs_open (conn_after (fst d)) = false /\
      (is_ok (t_dial t) = false \/ is_ok (t_write t) = false \/
       readFinalResponse (t_responses t) = Err e)
  end.
Proof.
  cbv zeta. unfold DialUDP, DialTCP, roundTrip.
  destruct (t_dial t) as [[]|e]; [|destruct udp; simpl; auto]. cbn [is_ok].
  set (opening := [ConnOpen; ConnWatch] ++ match t_deadline t with Some d => [ConnDeadline (Some d)] | None => [] end).
  assert (conn_after opening = mkConn true (t_deadline t) true /\ requests opening = []) as [Hc Hq]
    by (unfold opening; by destruct (t_deadline t)).
  assert (forall req tail, requests tail = [] ->
    exists before req' after, (([ConnOpen; ConnWatch] ++
        match t_deadline t with Some d => [ConnDeadline (Some d)] | None => [] end ++ [ConnSend req]) ++ tail) = before ++ ConnSend req' :: after /\
      conn_after before = mkConn true (t_deadline t) true /\
      requests (([ConnOpen; ConnWatch] ++
        match t_deadline t with Some d => [ConnDeadline (Some d)] | None => [] end ++ [ConnSend req]) ++ tail) = [req']) as Hsend.
  { intros req tail Ht. exists opening, req, tail. rewrite (app_assoc [ConnOpen; ConnWatch]). fold opening.
    rewrite <- app_assoc. split; [done|]. split; [done|]. unfold requests in *. by rewrite !flat_map_app, Hq, Ht. }
  assert (forall req tail, conn_after (([ConnOpen; ConnWatch] ++
        match t_deadline t with Some d => [ConnDeadline (Some d)] | None => [] end ++ [ConnSend req]) ++ tail) =
      fold_left conn_effect tail (mkConn true (t_deadline t) true)) as Hafter.
  { intros req tail. rewrite (app_assoc [ConnOpen; ConnWatch]). fold opening. unfold conn_after in *.
    by rewrite !fold_left_app, Hc. }
  destruct (t_write t) as [[]|e]; [|destruct udp; cbn [fst snd is_ok]; (split; [by apply Hsend|rewrite Hafter; auto])].
  destruct (readFinalResponse (t_responses t)) as [resp|e] eqn:Er;
    [|destruct udp; cbn [fst snd is_ok]; (split; [by apply Hsend|rewrite Hafter; auto])].
  set (watched := if t_cancelled t then [ConnCancelled] else []).
  set (release := [ConnDeadline None] ++ watched ++ [ConnUnwatch]).
  assert (requests release = [] /\ requests (release ++ [ConnClose]) = [] /\
    fold_left conn_effect release (mkConn true (t_deadline t) true) = handed_over t) as (Hr0 & Hr1 & Hrel)
    by (unfold release, watched, handed_over; by destruct (t_cancelled t)).
  destruct udp.
  - unfold StatusSwitchingProtocols. rewrite <- negb_andb.
    destruct ((StatusCode resp =? 101) && String.eqb (Get (RespHeader resp) "Upgrade") "connect-udp")
      eqn:Eg; cbn [negb fst snd refusal]; rewrite <- ?(app_assoc _ _ [ConnClose]), Hafter;
      (split; [by apply Hsend|]); [by rewrite Eg, Hrel|].
    rewrite fold_left_app. split; [done|]. exists resp. by rewrite Eg.
  - assert ((StatusCode resp <? 200) || (299 <? StatusCode resp) =
      negb ((200 <=? StatusCode resp) && (StatusCode resp <=? 299))) as ->.
    { apply eq_true_iff_eq. lia. }
    destruct ((200 <=? StatusCode resp) && (StatusCode resp <=? 299)) eqn:Eg;
      cbn [negb fst snd refusal]; rewrite <- ?(app_assoc _ _ [ConnClose]), Hafter;
      (split; [by apply Hsend|]); [by rewrite Eg, Hrel|].
    rewrite fold_left_app. split; [done|]. exists resp. by rewrite Eg.
Qed.

(** A dial that opens a connection sends one request. *)
Lemma dial_sends_once c t name port :
  is_ok (t_dial t) = true ->
  exists req, requests (fst (DialTCP c t name port)) = [req] /\ req_Method req = "CONNECT"%string /\
    req_Host req = req_Host (tcp_request name port).
Proof.
  intros Hdial. unfold DialTCP, roundTrip. destruct (t_dial t) as [u|]; [|done]. clear Hdial.
  set (req := mkRequest _ _ _ _). exists req. split; [|done].
  destruct (t_deadline t), (t_write t); try done;
    destruct (readFinalResponse (t_responses t)) as [resp|e], (t_cancelled t); try done; by destruct (_ || _).
Qed.
