(* ===== verification/Head.v ===== *)
(** * The HTTP/1.x request head of the boundary

    [sdk/cmd/connect-proxy/main.go]: [boundedReader], [readHead],
    [connectTarget], [sameAuthority], [upgradeTarget], [masqueTarget].

    [readHead] takes the line and the header block as [textproto] returns them; on
    bytes it is [Exchange.read_head]. Parameters: the token checks of
    [golang.org/x/net/http/httpguts], and [url.ParseRequestURI]. *)

From S2P Require Import Prelude GoStrings Netip Policy PolicyRules Http Connect.

Local Open Scope go_scope.

(** ** Errors of reading a head *)

(** A [headError]; an end of stream or a deadline; any other error. *)
Inductive go_error : Type :=
| HeadError (status : Z) (reason : string)
| ReadError (e : string)
| OtherError (e : string).

(** ** The bounded reader *)

Definition maxHeadBytes : Z := Z.shiftl 64 10.

(** [inner n] is one [Read] of the underlying reader into [n] bytes: how many
    bytes it gave, and its error. The result is the count and the error of
    [Read] into [plen] bytes, and the new [remaining]. *)
Definition bounded_Read (inner : Z -> Z * option go_error) (remaining plen : Z)
  : (Z * option go_error) * Z :=
  if remaining <? 0 then (inner plen, remaining)
  else if remaining =? 0 then
    ((0, Some (HeadError StatusRequestHeaderFieldsTooLarge "head-too-large")), remaining)
  else
    let plen := if remaining <? plen then remaining else plen in
    let (n, err) := inner plen in
    ((n, err), remaining - n).

(** ** Parsing a head *)

Class Httpguts := {
  ValidHeaderFieldName : string -> bool;
  ValidHostHeader : string -> bool;
  HeaderValuesContainsToken : list string -> string -> bool;
}.

Record head := mkHead {
  h_method : string;
  h_target : string;
  h_major : Z;
  h_minor : Z;
  h_header : Header;
}.

Definition headError_400 (reason : string) : go_error := HeadError StatusBadRequest reason.

Section Head.
Context `{GoUnicode, Httpguts}.

(** The request line: method, target and protocol, separated by one space. *)
Definition request_line (line : string) : option (string * string * string) :=
  match cut " " line with
  | None => None
  | Some (method, rest) =>
      match cut " " rest with
      | None => None
      | Some (target, proto) =>
          if String.eqb target EmptyString || contains_byte " " proto
             || negb (ValidHeaderFieldName method)
          then None else Some (method, target, proto)
      end
  end.

(** [line] is what [tp.ReadLine] returned and [mime] what [tp.ReadMIMEHeader]
    returns after it. *)
Definition readHead (line : string + go_error) (mime : Header + go_error) : head + go_error :=
  match line with
  | inr err => inr err
  | inl line =>
      match request_line line with
      | None => inr (headError_400 "malformed-request-line")
      | Some (method, target, proto) =>
          match ParseHTTPVersion proto with
          | None => inr (HeadError StatusHTTPVersionNotSupported "unsupported-version")
          | Some (major, minor) =>
              if negb (major =? 1) then
                inr (HeadError StatusHTTPVersionNotSupported "unsupported-version")
              else
                match mime with
                | inr (OtherError _) => inr (headError_400 "malformed-header")
                | inr err => inr err
                | inl header =>
                    if 1 <? Z.of_nat (List.length (Values header "Host"))
                    then inr (headError_400 "duplicate-host")
                    else if negb (forallb (fun kv => ValidHeaderFieldName (fst kv))
                                    (map_to_list header))
                    then inr (headError_400 "malformed-header")
                    else if (1 <=? minor)
                            && (Z.of_nat (List.length (Values header "Host")) =? 0)
                    then inr (headError_400 "missing-host")
                    else inl (mkHead method target major minor header)
                end
          end
      end
  end.

(** [sameAuthority]: [None] of [split_host_port] is an error. *)
Definition sameAuthority (a b : string) : bool :=
  match split_host_port a, split_host_port b with
  | Some (hostA, portA), Some (hostB, portB) =>
      if negb (String.eqb portA portB) then false
      else match ParseAddr hostA with
           | Some addrA =>
               match ParseAddr hostB with
               | Some addrB => addr_eqb addrA addrB
               | None => false
               end
           | None => equal_fold (trim_suffix "." hostA) (trim_suffix "." hostB)
           end
  | _, _ => false
  end.

(** The error is the reason. *)
Definition connectTarget (h : head) : Result (string * string) :=
  if negb (ValidHostHeader (h_target h)) then Err "malformed-target"
  else match split_host_port (h_target h) with
       | None => Err "malformed-target"
       | Some (host, port) =>
           if String.eqb host EmptyString then Err "malformed-target"
           else if negb (is_ok (parsePort port)) then Err "malformed-port"
           else
             let hostField := Get (h_header h) "Host" in
             if negb (String.eqb hostField EmptyString)
                && negb (sameAuthority hostField (h_target h))
             then Err "authority-mismatch"
             else Ok (host, port)
       end.

(** [url.ParseRequestURI]: whether the URL has userinfo, and its path. *)
Context (ParseRequestURI : string -> option (bool * string)).

Definition upgradeTarget (h : head) : option string :=
  if negb (HeaderValuesContainsToken (Values (h_header h) "Connection") "Upgrade")
     || negb (HeaderValuesContainsToken (Values (h_header h) "Upgrade") "connect-udp")
  then None
  else match ParseRequestURI (h_target h) with
       | None => None
       | Some (hasUser, path) => if hasUser : bool then None else Some path
       end.

Definition isUpgrade (h : head) : bool :=
  HeaderValuesContainsToken (Values (h_header h) "Upgrade") "connect-udp".
End Head.

Definition masqueTarget (path : string) : option (string * string) :=
  match split "/" (trim_byte "/" path) with
  | [s0; s1; s2; s3; s4] =>
      if negb (String.eqb s0 ".well-known") || negb (String.eqb s1 "masque")
         || negb (String.eqb s2 "udp")
      then None
      else match PathUnescape s3 with
           | None => None
           | Some host => if String.eqb host EmptyString then None else Some (host, s4)
           end
  | _ => None
  end.

Example masque_examples :
  map masqueTarget ["/.well-known/masque/udp/example.com/53/"; ".well-known/masque/udp/%3A%3A1/53";
                    "/.well-known/masque/udp//53/"; "/.well-known/masque/udp/a/b/53/"]%string =
  [Some ("example.com", "53"); Some ("::1", "53"); None; None]%string.
Proof. vm_compute. reflexivity. Qed.

(** ** Properties *)

Lemma trim_left_slash s : trim_left_byte "/" (String "/" (String "." s)) = String "." s.
Proof. reflexivity. Qed.

Lemma trim_right_slash s c :
  Ascii.eqb "/" c = false ->
  trim_right_byte "/" (s +:+ String c (String "/" EmptyString)) = (s +:+ String c EmptyString)%string.
Proof.
  intros Hc. induction s as [|x s IH]; [cbn; by rewrite Hc|].
  cbn [String.append trim_right_byte]. rewrite IH. by destruct (s +:+ String c EmptyString)%string eqn:E;
    [destruct s|].
Qed.

(** The last byte of a non-empty string. *)
Lemma string_snoc s : s <> EmptyString -> exists a c, s = (a +:+ String c EmptyString)%string.
Proof.
  induction s as [|c s IH]; [done|]. intros _. destruct s as [|d s]; [by exists EmptyString, c|].
  destruct (IH ltac:(done)) as (a & e & ->). by exists (String c a), e.
Qed.

Lemma masque_path_split h p :
  contains_byte "/" h = false -> contains_byte "/" p = false -> p <> EmptyString ->
  split "/" (trim_byte "/" ("/.well-known/masque/udp/" +:+ h +:+ "/" +:+ p +:+ "/")) =
  [".well-known"; "masque"; "udp"; h; p]%string.
Proof.
  intros Hh Hp Hne. destruct (string_snoc p Hne) as (q & c & ->).
  assert (Ascii.eqb "/" c = false) as Hc.
  { rewrite contains_byte_app, contains_byte_cons in Hp. bool_to_prop. done. }
  unfold trim_byte.
  change ("/.well-known/masque/udp/" +:+ h +:+ "/" +:+ (q +:+ String c EmptyString) +:+ "/")%string with
    (String "/" (String "." ("well-known/masque/udp/" +:+ h +:+ "/" +:+ (q +:+ String c EmptyString) +:+ "/")))%string.
  rewrite trim_left_slash.
  replace (String "." ("well-known/masque/udp/" +:+ h +:+ "/" +:+ (q +:+ String c EmptyString) +:+ "/"))%string
    with ((".well-known/masque/udp/" +:+ h +:+ "/" +:+ q) +:+ String c (String "/" EmptyString))%string
    by (rewrite !app_string_assoc; reflexivity).
  rewrite trim_right_slash by done.
  replace ((".well-known/masque/udp/" +:+ h +:+ "/" +:+ q) +:+ String c EmptyString)%string
    with (".well-known" +:+ String "/" ("masque" +:+ String "/" ("udp" +:+ String "/"
            (h +:+ String "/" (q +:+ String c EmptyString)))))%string
    by (rewrite !app_string_assoc; reflexivity).
  rewrite !split_app_sep, (split_no_sep "/" h), (split_no_sep "/" (q +:+ String c EmptyString)) by done.
  reflexivity.
Qed.

Lemma digits_no_slash p : str_all is_digit p = true -> contains_byte "/" p = false.
Proof. intros Hp. by apply (str_all_not_contains is_digit). Qed.

(** The decoded path of a connect-udp request, whatever its host. *)
Lemma masqueTarget_path host port :
  contains_byte "/" host = false ->
  masqueTarget (u_Path (udpProxyURL "boundary" host port)) =
  match PathUnescape host with
  | Some h => if String.eqb h EmptyString then None else Some (h, format_uint port)
  | None => None
  end.
Proof.
  intros Hh. unfold masqueTarget, udpProxyURL. cbn [u_Path].
  rewrite masque_path_split; [done|done|apply digits_no_slash, format_uint_digits|apply format_uint_not_empty].
Qed.

Lemma masque_path_reads_back (auth host : string) (port : Z) :
  let u := udpProxyURL auth host port in
  PathUnescape (u_RawPath u) = Some (u_Path u) /\
  (host <> EmptyString -> contains_byte "/" host = false -> contains_byte "%" host = false ->
   masqueTarget (u_Path u) = Some (host, format_uint port)).
Proof.
  cbv zeta. split.
  - unfold udpProxyURL. cbn [u_RawPath u_Path].
    rewrite (PathUnescape_prefix "/.well-known/masque/udp/"), PathUnescape_replace by done.
    rewrite (PathUnescape_prefix "/"), PathUnescape_prefix; [done| |done].
    by apply (str_all_not_contains is_digit); [apply format_uint_digits|].
  - intros Hne Hs Hp.
    change (u_Path (udpProxyURL auth host port)) with (u_Path (udpProxyURL "boundary" host port)).
    rewrite masqueTarget_path, PathUnescape_plain by done.
    by rewrite (proj2 (String.eqb_neq _ _)).
Qed.

(** Claim C28: a connect-udp target round trips. The URL a client builds is
    consistent, that is its raw path decodes to its path, for every host and
    port; and the boundary reads the same host and port back from that path for
    every non-empty host without a slash or a percent sign, in particular for
    IPv6 addresses without a zone. *)
Theorem masque_roundtrip (auth host : string) (port : Z) :
  let u := udpProxyURL auth host port in
  PathUnescape (u_RawPath u) = Some (u_Path u) /\
  (host <> EmptyString -> contains_byte "/" host = false -> contains_byte "%" host = false ->
   masqueTarget (u_Path u) = Some (host, format_uint port)).
Proof. apply masque_path_reads_back. Qed.

(** The boundary decodes the path of a connect-udp request a second
    time. For a host without a slash, what [masqueTarget] reads is the
    percent-decoding of the host the client asked for: a scoped IPv6 address is
    refused as a malformed template instead of reaching the policy, and a host
    that spells a percent escape is authorized as another host. *)
Theorem masque_decodes_twice (host : string) (port : Z) :
  (contains_byte "/" host = false ->
   masqueTarget (u_Path (udpProxyURL "boundary" host port)) =
   match PathUnescape host with
   | Some h => if String.eqb h EmptyString then None else Some (h, format_uint port)
   | None => None
   end) /\
  masqueTarget (u_Path (udpProxyURL "boundary" "fe80::1%eth0" port)) = None /\
  masqueTarget (u_Path (udpProxyURL "boundary" "a%2eexample" port))
    = Some ("a.example"%string, format_uint port).
Proof.
  split; [apply masqueTarget_path|]. by split; rewrite masqueTarget_path.
Qed.

(** ** Request heads *)

Lemma ParseHTTPVersion_minor proto major minor :
  ParseHTTPVersion proto = Some (major, minor) -> 0 <= minor <= 9.
Proof.
  unfold ParseHTTPVersion. intros E.
  assert (forall c, is_digit c = true -> 0 <= digit_val c <= 9) as Hd.
  { unfold is_digit, digit_val. intros c Hc. bool_to_prop. lia. }
  repeat (case_match; try discriminate E). simplify_eq. bool_to_prop. by apply Hd.
Qed.

Lemma is_ascii_trim_suffix p s : is_ascii s = true -> is_ascii (trim_suffix p s) = true.
Proof.
  unfold is_ascii, trim_suffix. intros Hs. case_match; [|done].
  rewrite <- (str_take_drop (String.length s - String.length p) s), str_all_app in Hs.
  by bool_to_prop.
Qed.

Section HeadFacts.
Context `{GoUnicode, Httpguts}.

(** What an accepted head guarantees. The request line is a token
    method, one space, a non-empty target without spaces, one space, and an
    HTTP/1.x version without spaces; every field name is a token; there is at
    most one Host value, and exactly one from HTTP/1.1 on. *)
Theorem readHead_accepts (line : string + go_error) (mime : Header + go_error) (h : head) :
  readHead line mime = inl h ->
  h_major h = 1 /\ 0 <= h_minor h <= 9 /\ ValidHeaderFieldName (h_method h) = true /\
  h_target h <> EmptyString /\ contains_byte " " (h_target h) = false /\
  (exists proto, contains_byte " " proto = false /\
     ParseHTTPVersion proto = Some (h_major h, h_minor h) /\
     line = inl (h_method h +:+ " " +:+ h_target h +:+ " " +:+ proto)%string) /\
  mime = inl (h_header h) /\
  (forall key vs, h_header h !! key = Some vs -> ValidHeaderFieldName key = true) /\
  Z.of_nat (List.length (Values (h_header h) "Host")) <= 1 /\
  (1 <= h_minor h -> exists host, Values (h_header h) "Host" = [host]).
Proof.
  unfold readHead. destruct line as [line|]; [|done].
  destruct (request_line line) as [[[method target] proto]|] eqn:Eline; [|done].
  unfold request_line in Eline.
  destruct (cut " " line) as [[m rest]|] eqn:E1; [|done].
  destruct (cut " " rest) as [[t pr]|] eqn:E2; [|done].
  apply cut_Some in E1 as [-> _], E2 as [-> Ht].
  destruct (_ || _) eqn:Eb in Eline; [done|]. simplify_eq. bool_to_prop.
  destruct (ParseHTTPVersion proto) as [[major minor]|] eqn:Ev; [|done].
  destruct (negb (major =? 1)) eqn:Emaj; [done|]. bool_to_prop. subst major.
  destruct mime as [header|[]]; try done.
  destruct (1 <? _) eqn:Edup; [done|]. destruct (negb (forallb _ _)) eqn:Ekeys; [done|].
  destruct (_ && _) eqn:Ehost; [done|]. intros [= <-]. bool_to_prop. cbn.
  split; [done|]. split; [by eapply ParseHTTPVersion_minor|]. do 3 (split; [done|]).
  split; [by exists proto|]. split; [done|]. split.
  - rewrite forallb_forall in Ekeys. intros key vs Hk. apply (Ekeys (key, vs)).
    by apply list_elem_of_In, elem_of_map_to_list.
  - split; [lia|]. intros Hm. destruct Ehost as [Eh|Eh]; bool_to_prop; [lia|].
    destruct (Values header "Host") as [|v [|]]; simpl in *; [lia|eauto|lia].
Qed.

(** The authority-form target. [connectTarget] returns a host and a
    port exactly when the target passes the host check and splits into that
    non-empty host and a port between 1 and 65535, and a Host field, when
    there is one, names the same authority; the three reasons of a refusal
    tell these conditions apart. *)
Theorem connectTarget_decides (h : head) :
  match connectTarget h with
  | Ok (host, port) =>
      ValidHostHeader (h_target h) = true /\ split_host_port (h_target h) = Some (host, port) /\
      host <> EmptyString /\ (exists n, parsePort port = Ok n /\ 1 <= n <= 65535) /\
      (Get (h_header h) "Host" = EmptyString \/
       sameAuthority (Get (h_header h) "Host") (h_target h) = true)
  | Err reason =>
      (reason = "malformed-target"%string /\
       (ValidHostHeader (h_target h) = false \/
        forall host port, split_host_port (h_target h) = Some (host, port) -> host = EmptyString)) \/
      exists host port, split_host_port (h_target h) = Some (host, port) /\ host <> EmptyString /\
        ((reason = "malformed-port"%string /\ is_ok (parsePort port) = false) \/
         (reason = "authority-mismatch"%string /\ is_ok (parsePort port) = true /\
          sameAuthority (Get (h_header h) "Host") (h_target h) = false))
  end.
Proof.
  unfold connectTarget. destruct (ValidHostHeader (h_target h)); cbn [negb]; [|left; auto].
  destruct (split_host_port (h_target h)) as [[host port]|]; [|left; split; [done|by right]].
  destruct (String.eqb host EmptyString) eqn:Eh; bool_to_prop.
  { left. split; [done|]. right. by intros ? ? [= <- <-]. }
  destruct (parsePort port) as [n|e] eqn:Ep; cbn [is_ok negb];
    [|right; exists host, port; repeat split; [done|left; by rewrite Ep]].
  destruct (String.eqb (Get (h_header h) "Host") EmptyString) eqn:Ef; cbn [negb andb]; bool_to_prop.
  { repeat split; [done| |by left]. exists n. split; [done|by eapply parsePort_range]. }
  destruct (sameAuthority _ _) eqn:Es; cbn [negb].
  - repeat split; [done| |by right]. exists n. split; [done|by eapply parsePort_range].
  - right. exists host, port. repeat split; [done|]. right. by rewrite Ep.
Qed.

Lemma connect_reads_back (host : string) (port : Z) (h : head) :
  host <> EmptyString -> is_ascii host = true -> no_brackets host = true -> 1 <= port <= 65535 ->
  h_target h = req_Host (tcp_request host port) ->
  Values (h_header h) "Host" = [req_Host (tcp_request host port)] ->
  ValidHostHeader (h_target h) = true ->
  connectTarget h = Ok (host, format_uint port).
Proof.
  intros Hne Hascii Hbr Hport Htarget Hhost Hvalid. cbn [req_Host tcp_request] in *.
  assert (split_host_port (h_target h) = Some (host, format_uint port)) as Hsplit.
  { rewrite Htarget. apply split_join_host_port; [done| |].
    - unfold no_brackets. by rewrite !(str_all_not_contains is_digit) by (done || apply format_uint_digits).
    - apply (str_all_not_contains is_digit); [apply format_uint_digits|done]. }
  unfold connectTarget, Get. rewrite Hvalid, Hsplit, Hhost, <- Htarget.
  rewrite (proj2 (String.eqb_neq _ _)), parsePort_format by done. cbn [negb is_ok].
  assert (sameAuthority (h_target h) (h_target h) = true) as ->; [|by rewrite andb_false_r].
  unfold sameAuthority. rewrite Hsplit, String.eqb_refl. cbn [negb].
  destruct (ParseAddr host); [by apply bool_decide_eq_true|].
  unfold equal_fold. assert (is_ascii (trim_suffix "." host) = true) as ->; [|apply String.eqb_refl].
  by apply is_ascii_trim_suffix.
Qed.

(** CONNECT round trips. The request the client sends for a host
    without brackets (a name or any IP literal) and a port passes the
    boundary's checks, its Host field included, and the boundary reads the
    same host and port. *)
Theorem connect_roundtrip (host : string) (port : Z) (h : head) :
  host <> EmptyString -> is_ascii host = true -> no_brackets host = true -> 1 <= port <= 65535 ->
  h_target h = req_Host (tcp_request host port) ->
  Values (h_header h) "Host" = [req_Host (tcp_request host port)] ->
  ValidHostHeader (h_target h) = true ->
  connectTarget h = Ok (host, format_uint port).
Proof. apply connect_reads_back. Qed.
End HeadFacts.

(** ** The head limit *)

(** The contract of [io.Reader]: at most as many bytes as the buffer holds. *)
Definition reader_ok (inner : Z -> Z * option go_error) : Prop :=
  forall plen, 0 <= plen -> 0 <= fst (inner plen) <= plen.

(** A sequence of reads, each with its buffer size and its underlying read:
    the bytes delivered and what remains of the budget. *)
Fixpoint bounded_reads (remaining : Z) (reads : list (Z * (Z -> Z * option go_error))) : Z * Z :=
  match reads with
  | [] => (0, remaining)
  | (plen, inner) :: reads =>
      let '((n, _), remaining) := bounded_Read inner remaining plen in
      let (total, remaining) := bounded_reads remaining reads in
      (n + total, remaining)
  end.

(** A request head is bounded. Over any sequence of reads through the
    bounded reader, the bytes delivered never exceed the budget and the budget
    that remains is what was not delivered; when it is spent, every further
    read gives no byte and the error that is answered with 431; once the budget
    is lifted (negative) reads pass through unchanged. *)
Theorem bounded_reader_limits (remaining : Z) (reads : list (Z * (Z -> Z * option go_error))) :
  Forall (fun r => 0 <= fst r /\ reader_ok (snd r)) reads ->
  (0 <= remaining ->
   0 <= fst (bounded_reads remaining reads) <= remaining /\
   snd (bounded_reads remaining reads) = remaining - fst (bounded_reads remaining reads)) /\
  (forall inner plen,
     bounded_Read inner 0 plen =
       ((0, Some (HeadError StatusRequestHeaderFieldsTooLarge "head-too-large")), 0)) /\
  (remaining < 0 -> forall inner plen, bounded_Read inner remaining plen = (inner plen, remaining)).
Proof.
  intros HF. split; [|split; [done|]].
  - revert remaining. induction HF as [|[plen inner] reads [Hp Hin] _ IH]; intros remaining Hr;
      simpl; [lia|]. simpl in Hp, Hin.
    unfold bounded_Read. rewrite (proj2 (Z.ltb_ge _ _)) by done.
    destruct (remaining =? 0) eqn:E0; bool_to_prop.
    { subst remaining. specialize (IH 0 ltac:(lia)).
      destruct (bounded_reads 0 reads) as [total rest]. simpl in *. lia. }
    assert (0 <= (if remaining <? plen then remaining else plen) <= remaining) as Hb
      by (destruct (remaining <? plen) eqn:E; bool_to_prop; lia).
    specialize (Hin (if remaining <? plen then remaining else plen) ltac:(lia)).
    destruct (inner _) as [n err]. simpl in Hin. specialize (IH (remaining - n) ltac:(lia)).
    destruct (bounded_reads (remaining - n) reads) as [total rest]. simpl in *. lia.
  - intros Hr inner plen. unfold bounded_Read. by rewrite (proj2 (Z.ltb_lt _ _)).
Qed.

(** ** Concrete instances *)

(** Token and host checks that accept the bytes the samples use. *)
#[local] Instance sample_httpguts : Httpguts := {|
  ValidHeaderFieldName s :=
    negb (String.eqb s EmptyString) && str_all (fun c => is_lower_letter c || is_upper_letter c || Ascii.eqb "-" c) s;
  ValidHostHeader s := str_all visible s;
  HeaderValuesContainsToken vs t := existsb (String.eqb t) vs;
|}.
#[local] Existing Instance ascii_unicode.

Definition sample_head_result : head + go_error :=
  readHead (inl "CONNECT example.com:443 HTTP/1.1"%string)
    (inl {[ "Host"%string := ["EXAMPLE.com.:443"%string] ]}).

Definition sample_head : head :=
  mkHead "CONNECT" "example.com:443" 1 1 {[ "Host"%string := ["EXAMPLE.com.:443"%string] ]}.

Lemma readHead_accepts_witness :
  sample_head_result = inl sample_head /\ h_minor sample_head <= 9.
Proof.
  assert (sample_head_result = inl sample_head) as E by (vm_compute; reflexivity).
  split; [exact E|].
  destruct (readHead_accepts _ _ sample_head E) as (_ & Hm & _). apply Hm.
Defined.

Lemma connect_roundtrip_witness :
  connectTarget (mkHead "CONNECT" "[2001:db8::1]:8443" 1 1
    {[ "Host"%string := ["[2001:db8::1]:8443"%string] ]}) = Ok ("2001:db8::1"%string, "8443"%string).
Proof.
  apply (connect_roundtrip "2001:db8::1" 8443);
    [discriminate|vm_compute; reflexivity|vm_compute; reflexivity|lia|vm_compute; reflexivity
    |vm_compute; reflexivity|vm_compute; reflexivity].
Defined.

Lemma bounded_reader_limits_witness :
  fst (bounded_reads 10 [(8, fun n => (n, None)); (8, fun n => (n, None))]) = 10 /\
  0 <= fst (bounded_reads 10 [(8, fun n => (n, None)); (8, fun n => (n, None))]) <= 10.
Proof.
  split; [reflexivity|].
  apply (bounded_reader_limits 10 [(8, fun n => (n, None)); (8, fun n => (n, None))]); [|lia].
  repeat constructor; simpl; lia.
Defined.
