(* ===== verification/Boundary.v ===== *)
(** * The boundary: requests, decisions and audit records

    [sdk/cmd/connect-proxy/main.go]: [connectUpstream], [dialAuthorized], the
    handlers of both wires, and the connection budget of [serveListener].

    A handler is a function that returns the trace of what it does: the dials,
    the audit records, the refusals, the responses and the tunnels, in order.
    Parameters: the resolver, whether a dial succeeds and the remote address of
    its connection, the TLS handshake, and what [Head] takes as parameters. *)

From S2P Require Import Prelude GoStrings Netip Policy Http Connect Head.

(** ** Events *)

Record auditRecord := mkAudit {
  a_Time : string;
  a_Listener : string;
  a_Sandbox : string;
  a_Generation : string;
  a_Policy : string;
  a_Wire : string;
  a_Transport : string;
  a_Destination : string;
  a_Address : string;
  a_Peer : string;
  a_Connection : string;
  a_Rule : string;
  a_Decision : string;
  a_Reason : string;
}.

Inductive event : Type :=
| Dial (network address : string) (ok : bool)
| Audit (r : auditRecord)
| Deny (wire : string) (status : Z) (reason : string)
| Respond (text : string)
| Tunnel (network remote : string)   (* relay or pumpUDP *)
| CloseUpstream
| CloseConn
| Panic.

(** The trace of a computation and its result. *)
Definition traced (A : Type) : Type := (list event * A)%type.

Definition tret {A} (a : A) : traced A := ([], a).
Definition emit (e : event) : traced unit := ([e], tt).
Definition tbind {A B} (m : traced A) (f : A -> traced B) : traced B :=
  let (t, a) := m in let (t', b) := f a in (t ++ t', b).

Notation "'do' x <- m ; k" := (tbind m (fun x => k))
  (at level 10, x name, m at level 100, k at level 200) : go_scope.
Notation "m ;; k" := (tbind m (fun _ => k)) (at level 100, k at level 200, right associativity)
  : go_scope.
Local Open Scope go_scope.

Record session := mkSession { s_peer : string; s_id : string }.

(** [connections.Add(1)] on a [uint64]. *)
Definition newSession (connections : Z) (peer : string) : session * Z :=
  let n := (connections + 1) mod 2 ^ 64 in (mkSession peer (format_uint n), n).

Definition proxyStatus (reason : string) : string := ProxyStatus "boundary" reason.

(** The bytes [h1Responder.deny] writes. *)
Definition h1_deny_text (status : Z) (reason : string) : string :=
  ("HTTP/1.1 " +:+ format_uint status +:+ " " +:+ StatusText status +:+ crlf +:+
   "Proxy-Status: " +:+ proxyStatus reason +:+ crlf +:+ "Content-Length: 0" +:+ crlf +:+ crlf)%string.

(** What [h2Responder.deny] writes: the status and the header. *)
Definition h2_deny (status : Z) (reason : string) : Z * Header :=
  (status, Set_ ∅ "Proxy-Status" (proxyStatus reason)).

(** The first URI name, else the first DNS name, else the common name, of the
    first certificate: [None] without a TLS connection state. *)
Record certificate := mkCertificate {
  URIs : list string; DNSNames : list string; CommonName : string;
}.

Definition peerIdentity (cs : option (list certificate)) : string :=
  match cs with
  | None | Some [] => EmptyString
  | Some (leaf :: _) =>
      match URIs leaf with
      | u :: _ => u
      | [] => match DNSNames leaf with d :: _ => d | [] => CommonName leaf end
      end
  end.

(** [conn] is [None] for a plain connection, else the result of the handshake. *)
Definition sessionPeer (conn : option (Result (list certificate))) : Result string :=
  match conn with
  | None => Ok EmptyString
  | Some (Err e) => Err e
  | Some (Ok certs) => Ok (peerIdentity (Some certs))
  end.

Section Boundary.
Context `{GoUnicode, NameProfile, Httpguts}.
Context (lookupNetIP : string -> option (list Addr)).
Context (net_Dial : string -> string -> option string).
Context (ParseRequestURI : string -> option (bool * string)).
(** The policy of the listener, its name, and the clock. *)
Context (current : option policy) (listenerName now : string).

(** The record [audit] writes: time and listener, and the labels of the policy. *)
Definition audit_record (r : auditRecord) : auditRecord :=
  let labels := match current with
                | Some p => (p_sandbox p, p_version p, p_generation p)
                | None => (a_Sandbox r, a_Policy r, a_Generation r)
                end in
  mkAudit now listenerName (fst (fst labels)) (snd labels) (snd (fst labels))
    (a_Wire r) (a_Transport r) (a_Destination r) (a_Address r) (a_Peer r)
    (a_Connection r) (a_Rule r) (a_Decision r) (a_Reason r).

Definition audit (r : auditRecord) : traced unit := emit (Audit (audit_record r)).

(** A record literal with the fields the code sets. *)
Definition record (wire network destination : string) (s : session) (decision reason : string)
  : auditRecord :=
  mkAudit EmptyString EmptyString EmptyString EmptyString EmptyString wire network destination
    EmptyString (s_peer s) (s_id s) EmptyString decision reason.

Definition no_session : session := mkSession EmptyString EmptyString.

Definition allow_record (wire network destination address rule : string) (s : session)
  : auditRecord :=
  mkAudit EmptyString EmptyString EmptyString EmptyString EmptyString wire network destination
    address (s_peer s) (s_id s) rule "allow" EmptyString.

(** [Ok None] is the nil connection without an error that an empty list gives. *)
Fixpoint dial_loop (network : string) (addresses : list Addr) (port : string)
    (err : option string) : traced (Result (option string)) :=
  match addresses with
  | [] => tret (match err with None => Ok None | Some e => Err e end)
  | address :: addresses =>
      let target := join_host_port (addr_string address) port in
      match net_Dial network target with
      | Some remote => emit (Dial network target true) ;; tret (Ok (Some remote))
      | None => emit (Dial network target false) ;;
                dial_loop network addresses port (Some "dial"%string)
      end
  end.

Definition dialAuthorized (network : string) (addresses : list Addr) (port : string)
  : traced (Result (option string)) := dial_loop network addresses port None.

(** [refuse] and [malformed]. *)
Definition refuse (wire network destination : string) (s : session) (status : Z)
    (reason : string) : traced unit :=
  audit (record wire network destination s "block" reason) ;;
  emit (Deny wire status reason).

Definition malformed (wire network destination : string) (s : session) (reason : string)
  : traced unit := refuse wire network destination s StatusBadRequest reason.

(** The result is the upstream's remote address, [None] for nil. *)
Definition connectUpstream (wire network host port : string) (s : session)
  : traced (option string) :=
  let destination := join_host_port host port in
  match current with
  | None =>
      audit (record wire network destination s "fail" "policy-unavailable") ;;
      emit (Deny wire StatusServiceUnavailable "policy-unavailable") ;; tret None
  | Some p =>
      if String.eqb network "udp" && negb (p_udp p) then
        audit (record wire network destination s "block" "udp-disabled") ;;
        emit (Deny wire StatusForbidden "udp-disabled") ;; tret None
      else
        let v := policy_authorize lookupNetIP p host port network in
        let destination := v_destination v in
        if negb (String.eqb (v_reason v) EmptyString) then
          audit (record wire network destination s "block" (v_reason v)) ;;
          emit (Deny wire (v_status v) (v_reason v)) ;; tret None
        else if v_err v then
          audit (record wire network destination s "fail" "resolve-failed") ;;
          emit (Deny wire StatusBadGateway "resolve-failed") ;; tret None
        else
          do upstream <- dialAuthorized network (v_addresses v) port;
          match upstream with
          | Err _ =>
              audit (record wire network destination s "fail" "dial-failed") ;;
              emit (Deny wire StatusBadGateway "dial-failed") ;; tret None
          | Ok None => emit Panic ;; tret None
          | Ok (Some remote) =>
              audit (allow_record wire network destination remote (v_rule v) s) ;;
              tret (Some remote)
          end
  end.

(** What follows an authorized upstream: the response and the tunnel. *)
Definition tunnel (network response : string) (upstream : option string) : traced unit :=
  match upstream with
  | None => tret tt
  | Some remote =>
      emit (Respond response) ;; emit (Tunnel network remote) ;; emit CloseUpstream
  end.

Definition connect_response : string := ("HTTP/1.1 200 OK" +:+ crlf +:+ crlf)%string.
Definition upgrade_response : string :=
  ("HTTP/1.1 101 Switching Protocols" +:+ crlf +:+ "Connection: Upgrade" +:+ crlf +:+
   "Upgrade: connect-udp" +:+ crlf +:+ "Capsule-Protocol: ?1" +:+ crlf +:+ crlf)%string.

Definition handleConnect (h : head) (s : session) : traced unit :=
  match connectTarget h with
  | Err reason => malformed "h1" "tcp" (h_target h) s reason
  | Ok (host, port) =>
      do upstream <- connectUpstream "h1" "tcp" host port s;
      tunnel "tcp" connect_response upstream
  end.

Definition handleConnectUDP (h : head) (s : session) : traced unit :=
  match upgradeTarget ParseRequestURI h with
  | None => malformed "h1" "udp" (h_target h) s "malformed-upgrade"
  | Some path =>
      match masqueTarget path with
      | None => malformed "h1" "udp" (h_target h) s "malformed-template"
      | Some (host, port) =>
          do upstream <- connectUpstream "h1" "udp" host port s;
          tunnel "udp" upgrade_response upstream
      end
  end.

(** [serve], from the result of the handshake and of reading the head. *)
Definition serve (peer : Result string) (connections : Z) (h : head + go_error)
  : traced Z :=
  match peer with
  | Err _ =>
      audit (record "h1" EmptyString EmptyString no_session "fail" "tls-failed") ;;
      emit CloseConn ;; tret connections
  | Ok peer =>
      let (s, connections) := newSession connections peer in
      match h with
      | inr (HeadError status reason) =>
          audit (record "h1" EmptyString EmptyString s "block" reason) ;;
          emit (Deny "h1" status reason) ;; emit CloseConn ;; tret connections
      | inr _ => emit CloseConn ;; tret connections
      | inl h =>
          (if String.eqb (h_method h) "CONNECT" then handleConnect h s
           else if String.eqb (h_method h) "GET" && isUpgrade h then handleConnectUDP h s
           else refuse "h1" EmptyString EmptyString s StatusMethodNotAllowed "connect-only") ;;
          emit CloseConn ;; tret connections
      end
  end.

(** An HTTP/2 request, as the handler reads it; [r_protocol] is empty for a
    plain CONNECT. *)
Record h2_request := mkH2Request {
  r_Method : string; r_protocol : string; r_Path : string; r_Host : string;
}.

Definition serveH2 (s : session) (r : h2_request) : traced unit :=
  if negb (String.eqb (r_Method r) "CONNECT") then
    refuse "h2" EmptyString EmptyString s StatusMethodNotAllowed "connect-only"
  else if negb (String.eqb (r_protocol r) EmptyString) then
    if negb (String.eqb (r_protocol r) "connect-udp") then
      malformed "h2" EmptyString (r_Path r) s "unsupported-protocol"
    else match masqueTarget (r_Path r) with
         | None => malformed "h2" "udp" (r_Path r) s "malformed-template"
         | Some (host, port) =>
             do upstream <- connectUpstream "h2" "udp" host port s;
             tunnel "udp" "200" upstream
         end
  else match split_host_port (r_Host r) with
       | None => malformed "h2" "tcp" (r_Host r) s "malformed-target"
       | Some (host, port) =>
           if String.eqb host EmptyString then
             malformed "h2" "tcp" (r_Host r) s "malformed-target"
           else if negb (is_ok (parsePort port)) then
             malformed "h2" "tcp" (r_Host r) s "malformed-port"
           else
             do upstream <- connectUpstream "h2" "tcp" host port s;
             tunnel "tcp" "200" upstream
       end.
End Boundary.

(** ** The limits of a head *)

(** Durations are nanoseconds. *)
Definition dialTimeout : Z := 15 * 10 ^ 9.
Definition headTimeout : Z := dialTimeout.
Definition idleTimeout : Z := 3600 * 10 ^ 9.

(** What bounds the reads of a connection: its deadline, and the bytes its bounded
    reader still gives. [serve] sets both for the head, and lifts both for the
    tunnel once the head has been read. *)
Record read_limits := mkLimits { read_deadline : option Z; remaining : Z }.

Definition head_limits (now timeout : Z) : read_limits := mkLimits (Some (now + timeout)) maxHeadBytes.

Definition limits_after (h : head + go_error) (l : read_limits) : read_limits :=
  match h with inl _ => mkLimits None (-1) | inr _ => l end.

(** ** The connection budget of [serveListener] *)

(** The slots in use; the accept loop and the end of a handler change it. *)
Inductive listener_step : Type :=
| Accept (isTLS : bool)
| HandlerDone.

(** What the accept loop does with a connection. *)
Inductive accept_outcome : Type :=
| Handled                           (* a handler goroutine was started *)
| RefusedBusy (answered : bool).    (* audited, answered unless TLS, closed *)

(** [None] when no handler is running, that is when the step cannot happen. *)
Definition run_listener_step (maxConnections slots : Z) (st : listener_step)
  : option (Z * list accept_outcome) :=
  match st with
  | Accept isTLS =>
      if slots <? maxConnections then Some (slots + 1, [Handled])
      else Some (slots, [RefusedBusy (negb isTLS)])
  | HandlerDone => if 0 <? slots then Some (slots - 1, []) else None
  end.

Fixpoint run_listener (maxConnections slots : Z) (steps : list listener_step)
  : option (Z * list accept_outcome) :=
  match steps with
  | [] => Some (slots, [])
  | st :: steps =>
      match run_listener_step maxConnections slots st with
      | None => None
      | Some (slots, out) =>
          match run_listener maxConnections slots steps with
          | None => None
          | Some (slots, outs) => Some (slots, out ++ outs)
          end
      end
  end.

(** ** The idle watch *)

(** The times, in nanoseconds, at which data passed or the ticker fired. *)
Inductive idle_step : Type := Touch (at_ : Z) | Tick (at_ : Z).

(** [idleWatch], from the time of the last touch: the tick at which [stop]
    runs, if any. *)
Fixpoint idle_watch (idle last : Z) (steps : list idle_step) : option Z :=
  match steps with
  | [] => None
  | Touch t :: steps => idle_watch idle t steps
  | Tick t :: steps => if idle <=? t - last then Some t else idle_watch idle last steps
  end.

Definition idleWatch (idle start : Z) (steps : list idle_step) : option Z :=
  if idle <=? 0 then None else idle_watch idle start steps.

(** [activityReader.Read]: a read that gave bytes, at a time, touches the watch. *)
Definition activity_Read (now n : Z) : list idle_step := if 0 <? n then [Touch now] else [].

(** [flushWriter.Write]: a write that did not fail is flushed. *)
Definition flush_Write (write : Z -> Z * bool) (p : Z) : (Z * bool) * bool :=
  let (n, failed) := write p in ((n, failed), negb failed).
