(* ===== verification/BoundaryFacts.v ===== *)
(** * The boundary: one decision per request, and only authorized dials *)

From S2P Require Import Prelude GoStrings Netip Policy PolicyAddr PolicyRules PolicyLoad PolicyAuth.
From S2P Require Import Http Connect Head Boundary.

Local Open Scope go_scope.

(** ** Projections of a trace *)

Definition audits (t : list event) : list auditRecord :=
  flat_map (fun e => match e with Audit r => [r] | _ => [] end) t.
Definition denials (t : list event) : list (string * Z * string) :=
  flat_map (fun e => match e with Deny w st r => [(w, st, r)] | _ => [] end) t.
Definition tunnels (t : list event) : list (string * string) :=
  flat_map (fun e => match e with Tunnel n r => [(n, r)] | _ => [] end) t.
Definition responses (t : list event) : list string :=
  flat_map (fun e => match e with Respond x => [x] | _ => [] end) t.
Definition dials (t : list event) : list (string * string * bool) :=
  flat_map (fun e => match e with Dial n a ok => [(n, a, ok)] | _ => [] end) t.

Definition is_dial (e : event) : bool := match e with Dial _ _ _ => true | _ => false end.

(** What one request may look like: dials, one record, then either one
    refusal for the same reason and nothing else, or the response, the tunnel
    to the recorded address, and the release of the upstream connection. *)
Inductive decision_trace (net_Dial : string -> string -> option string) (wire : string)
  : list event -> Prop :=
| refused ds r status :
    forallb is_dial ds = true -> (forall e, In e ds -> e <> CloseUpstream) ->
    In (a_Decision r) ["block"; "fail"]%string ->
    a_Reason r <> EmptyString -> a_Wire r = wire ->
    decision_trace net_Dial wire (ds ++ [Audit r; Deny wire status (a_Reason r)])
| allowed ds target r response :
    forallb is_dial ds = true ->
    a_Decision r = "allow"%string -> a_Reason r = EmptyString -> a_Wire r = wire ->
    net_Dial (a_Transport r) target = Some (a_Address r) ->
    decision_trace net_Dial wire
      (ds ++ [Dial (a_Transport r) target true; Audit r; Respond response;
              Tunnel (a_Transport r) (a_Address r); CloseUpstream]).

(** The labels every record carries. *)
Definition labels_ok (current : option policy) (listenerName now : string) (s : session)
    (r : auditRecord) : Prop :=
  a_Time r = now /\ a_Listener r = listenerName /\ a_Peer r = s_peer s /\
  a_Connection r = s_id s /\
  (forall p, current = Some p ->
     a_Sandbox r = p_sandbox p /\ a_Policy r = p_version p /\ a_Generation r = p_generation p).

(** ** Traces *)

Lemma dials_only_dials ds : forallb is_dial ds = true ->
  audits ds = [] /\ denials ds = [] /\ tunnels ds = [] /\ responses ds = [].
Proof.
  induction ds as [|e ds IH]; [done|]. simpl. intros Hd. apply andb_true_iff in Hd as [He Hd].
  destruct (IH Hd) as (-> & -> & -> & ->). by destruct e.
Qed.

Lemma dials_app t u : dials (t ++ u) = dials t ++ dials u.
Proof. apply flat_map_app. Qed.

Section BoundaryFacts.
Context `{GoUnicode, NameProfile, Httpguts}.
Context (lookupNetIP : string -> option (list Addr)).
Context (net_Dial : string -> string -> option string).
Context (ParseRequestURI : string -> option (bool * string)).
Context (current : option policy) (listenerName now : string).

(** The dial loop: the addresses in order, up to the first that answers. *)
Lemma dial_loop_spec network addresses port err :
  let target a := join_host_port (addr_string a) port in
  match dial_loop net_Dial network addresses port err with
  | (t, Ok (Some remote)) =>
      exists failed a rest, addresses = failed ++ a :: rest /\
        Forall (fun b => net_Dial network (target b) = None) failed /\
        net_Dial network (target a) = Some remote /\
        t = map (fun b => Dial network (target b) false) failed ++ [Dial network (target a) true]
  | (t, Ok None) => addresses = [] /\ err = None /\ t = []
  | (t, Err _) =>
      Forall (fun b => net_Dial network (target b) = None) addresses /\
      (addresses <> [] \/ err <> None) /\
      t = map (fun b => Dial network (target b) false) addresses
  end.
Proof.
  cbv zeta. revert err. induction addresses as [|a addresses IH]; intros err.
  { simpl. destruct err; simpl; [split; [constructor|by split; [right|]]|done]. }
  cbn [dial_loop]. destruct (net_Dial network (join_host_port (addr_string a) port)) as [remote|] eqn:Ed.
  - cbn. exists [], a, addresses. repeat split; [constructor|done].
  - specialize (IH (Some "dial"%string)). unfold tbind, emit. cbn [tbind].
    destruct (dial_loop net_Dial network addresses port (Some "dial"%string)) as [t [[remote|]|e]].
    + destruct IH as (failed & b & rest & -> & HF & Hb & ->).
      exists (a :: failed), b, rest. repeat split; [by constructor|done].
    + by destruct IH as (_ & ? & _).
    + destruct IH as (HF & _ & ->). repeat split; [by constructor|by left].
Qed.

Lemma map_dials_is_dial {A} (f : A -> string) network ok (l : list A) :
  forallb is_dial (map (fun b => Dial network (f b) ok) l) = true.
Proof. induction l; done. Qed.

(** What [connectUpstream] does, in one statement. *)
Lemma connectUpstream_shape wire network host port s :
  let (t, upstream) :=
    connectUpstream lookupNetIP net_Dial current listenerName now wire network host port s in
  match upstream with
  | None =>
      exists ds r status, t = ds ++ [Audit r; Deny wire status (a_Reason r)] /\
        forallb is_dial ds = true /\ (forall e, In e ds -> e <> CloseUpstream) /\
        In (a_Decision r) ["block"; "fail"]%string /\
        a_Reason r <> EmptyString /\ a_Wire r = wire /\ labels_ok current listenerName now s r
  | Some remote =>
      exists ds target r, t = ds ++ [Dial network target true; Audit r] /\
        forallb is_dial ds = true /\ a_Decision r = "allow"%string /\ a_Reason r = EmptyString /\
        a_Wire r = wire /\ a_Transport r = network /\ a_Address r = remote /\
        net_Dial network target = Some remote /\ labels_ok current listenerName now s r
  end.
Proof.
  unfold connectUpstream. destruct current as [p|] eqn:Ec.
  2:{ exists [], (audit_record None listenerName now
            (record wire network (join_host_port host port) s "fail" "policy-unavailable")),
          StatusServiceUnavailable.
      split; [reflexivity|]. cbn. repeat split; auto; done. }
  assert (forall destination decision reason status,
    In decision ["block"; "fail"]%string -> reason <> EmptyString -> forall ds,
    forallb is_dial ds = true ->
    exists ds' r st,
      ds ++ fst (audit (Some p) listenerName now (record wire network destination s decision reason) ;;
                 emit (Deny wire status reason)) = ds' ++ [Audit r; Deny wire st (a_Reason r)] /\
        forallb is_dial ds' = true /\ (forall e, In e ds' -> e <> CloseUpstream) /\
        In (a_Decision r) ["block"; "fail"]%string /\
        a_Reason r <> EmptyString /\ a_Wire r = wire /\
        labels_ok (Some p) listenerName now s r) as Hrefuse.
  { intros destination decision reason status Hd Hr ds Hds.
    exists ds, (audit_record (Some p) listenerName now
                  (record wire network destination s decision reason)), status.
    split; [reflexivity|]. cbn. split; [done|]. split.
    - intros e He ->. rewrite forallb_forall in Hds. by apply Hds in He.
    - repeat split; try done; simpl; congruence. }
  destruct (String.eqb network "udp" && negb (p_udp p)).
  { apply (Hrefuse _ "block"%string "udp-disabled"%string StatusForbidden ltac:(by left) ltac:(done) []). done. }
  pose proof (authorize_cases lookupNetIP p host port network) as Hcases. cbv zeta in Hcases.
  set (v := policy_authorize lookupNetIP p host port network) in *.
  destruct (String.eqb (v_reason v) EmptyString) eqn:Er; cbn [negb]; bool_to_prop.
  2:{ by apply (Hrefuse _ "block"%string (v_reason v) (v_status v) ltac:(by left) Er []). }
  destruct (v_err v) eqn:Ee.
  { apply (Hrefuse _ "fail"%string "resolve-failed"%string StatusBadGateway ltac:(by right; left) ltac:(done) []). done. }
  assert (v_addresses v <> []) as Hne.
  { destruct Hcases as [(? & _)|[(_ & Hin & _)|(_ & _ & ? & _)]]; [done| |congruence].
    rewrite Er in Hin. exfalso. clear - Hin. simpl in Hin. intuition congruence. }
  unfold dialAuthorized. pose proof (dial_loop_spec network (v_addresses v) port None) as Hdial.
  cbv zeta in Hdial.
  destruct (dial_loop net_Dial network (v_addresses v) port None) as [t [[remote|]|e]];
    unfold tbind at 1.
  - destruct Hdial as (failed & a & rest & _ & _ & Ha & ->). cbn.
    exists (map (fun b => Dial network (join_host_port (addr_string b) port) false) failed),
      (join_host_port (addr_string a) port),
      (audit_record (Some p) listenerName now
         (allow_record wire network (v_destination v) remote (v_rule v) s)).
    rewrite <- app_assoc. cbn [app]. split; [reflexivity|]. cbn.
    repeat split; try done; try apply map_dials_is_dial; simpl; congruence.
  - by destruct Hdial as (? & _).
  - destruct Hdial as (_ & _ & ->).
    apply (Hrefuse _ "fail"%string "dial-failed"%string StatusBadGateway ltac:(by right; left) ltac:(done)).
    apply map_dials_is_dial.
Qed.

(** What a refusal by [connectUpstream] can be. *)
Definition upstream_refusals : list (Z * string) :=
  denial_reasons ++ [(503, "policy-unavailable"); (403, "udp-disabled"); (502, "resolve-failed");
                     (502, "dial-failed")]%string.

Lemma denials_app t u : denials (t ++ u) = denials t ++ denials u.
Proof. apply flat_map_app. Qed.

Lemma connectUpstream_refusals wire network host port s :
  forall d, In d (denials (fst (connectUpstream lookupNetIP net_Dial current listenerName now wire network host port s))) ->
  In (snd (fst d), snd d) upstream_refusals.
Proof.
  unfold connectUpstream, upstream_refusals. destruct current as [p|]; [|intros d [<-|[]]; simpl; tauto].
  destruct (String.eqb network "udp" && negb (p_udp p)); [intros d [<-|[]]; simpl; tauto|].
  pose proof (authorize_cases lookupNetIP p host port network) as Hcases. cbv zeta in *.
  destruct (negb (String.eqb (v_reason _) _)) eqn:Er; bool_to_prop.
  { intros d [<-|[]]. cbn [fst snd]. apply in_or_app. left.
    destruct Hcases as [(_ & E & _)|[(_ & Hin & _)|(_ & E & _)]]; [congruence|done|congruence]. }
  destruct (v_err _); [intros d [<-|[]]; simpl; tauto|].
  unfold dialAuthorized. pose proof (dial_loop_spec network (v_addresses (policy_authorize lookupNetIP p host port network)) port None) as Hl.
  cbv zeta in Hl. destruct (dial_loop _ _ _ _ _) as [t [[remote|]|e]]; unfold tbind; cbn -[denial_reasons] in *; intros d Hd.
  - destruct Hl as (failed & a & rest & _ & _ & _ & ->). rewrite !denials_app in Hd.
    rewrite (proj1 (proj2 (dials_only_dials _ (map_dials_is_dial _ _ _ _)))) in Hd. by destruct Hd.
  - destruct Hl as (_ & _ & ->). by destruct Hd.
  - destruct Hl as (_ & _ & ->). rewrite denials_app in Hd.
    rewrite (proj1 (proj2 (dials_only_dials _ (map_dials_is_dial _ _ _ _)))) in Hd.
    destruct Hd as [<-|[]]. simpl. tauto.
Qed.

Definition trace_ok (wire : string) (s : session) (t : list event) : Prop :=
  decision_trace net_Dial wire t /\ Forall (labels_ok current listenerName now s) (audits t).

Lemma refuse_trace wire network destination s status reason :
  reason <> EmptyString ->
  trace_ok wire s (fst (refuse current listenerName now wire network destination s status reason)).
Proof.
  intros Hr. unfold refuse, audit, emit, tbind. cbn. split.
  - apply (refused net_Dial wire []
      (audit_record current listenerName now (record wire network destination s "block" reason)));
      cbn; try done. by left.
  - constructor; [|constructor]. repeat split; simpl; try done; destruct current; simplify_eq; done.
Qed.

Lemma tunnel_trace wire network response host port s :
  trace_ok wire s
    (fst (do upstream <- connectUpstream lookupNetIP net_Dial current listenerName now
                           wire network host port s;
          tunnel network response upstream)).
Proof.
  pose proof (connectUpstream_shape wire network host port s) as Hs.
  destruct (connectUpstream _ _ _ _ _ wire network host port s) as [t upstream]. unfold tbind.
  destruct upstream as [remote|].
  - destruct Hs as (ds & target & r & -> & Hds & Hd & Hr & Hw & Hn & Ha & Hnet & Hl). subst network remote.
    cbn. rewrite <- app_assoc. split; [by apply allowed|].
    unfold audits. rewrite flat_map_app. fold (audits ds).
    destruct (dials_only_dials ds Hds) as (-> & _). by constructor.
  - destruct Hs as (ds & r & status & -> & Hds & Hc & Hd & Hr & Hw & Hl). cbn. rewrite app_nil_r.
    split; [by apply refused|]. unfold audits. rewrite flat_map_app. fold (audits ds).
    destruct (dials_only_dials ds Hds) as (-> & _). by constructor.
Qed.

Lemma connectTarget_reason h reason : connectTarget h = Err reason -> reason <> EmptyString.
Proof. unfold connectTarget. intros E. by repeat (case_match; simplify_eq). Qed.

Lemma handleConnect_trace h s :
  trace_ok "h1" s (fst (handleConnect lookupNetIP net_Dial current listenerName now h s)).
Proof.
  unfold handleConnect. destruct (connectTarget h) as [[host port]|reason] eqn:E.
  - apply tunnel_trace.
  - apply refuse_trace. by eapply connectTarget_reason.
Qed.

Lemma handleConnectUDP_trace h s :
  trace_ok "h1" s
    (fst (handleConnectUDP lookupNetIP net_Dial ParseRequestURI current listenerName now h s)).
Proof.
  unfold handleConnectUDP. destruct (upgradeTarget _ _) as [path|]; [|by apply refuse_trace].
  destruct (masqueTarget path) as [[host port]|]; [apply tunnel_trace|by apply refuse_trace].
Qed.

(** Claim C7: every request is decided once, and the record says what was
    done. On either wire, whatever the request, a handler writes exactly one
    audit record, labelled with the listener, the policy's sandbox, version
    and generation and the session. Unless the decision is "allow", no
    response is written and no tunnel opened, and exactly one refusal with the
    recorded reason follows the record. When it is "allow", there is no
    refusal, a dial to the recorded address succeeded before the record, and
    the response, the tunnel to that address and its release follow. *)
Theorem one_decision_per_request (h : head) (s : session) (r : h2_request) :
  trace_ok "h1" s (fst (handleConnect lookupNetIP net_Dial current listenerName now h s)) /\
  trace_ok "h1" s
    (fst (handleConnectUDP lookupNetIP net_Dial ParseRequestURI current listenerName now h s)) /\
  trace_ok "h2" s (fst (serveH2 lookupNetIP net_Dial current listenerName now s r)).
Proof.
  split; [apply handleConnect_trace|]. split; [apply handleConnectUDP_trace|].
  unfold serveH2. repeat (case_match; try (by apply refuse_trace)); apply tunnel_trace.
Qed.

(** A connection is closed, and read failures aside it leaves a
    record. [serve] ends every connection by closing it. A failed handshake
    leaves one record and nothing else; a refused head one record and one
    refusal with its reason; a stream that ended or timed out in the head
    leaves nothing; any complete head is decided once, under the next
    connection number and the peer of the handshake. *)
Theorem serve_closes_and_records (peer : Result string) (n : Z) (h : head + go_error) :
  let (t, n') := serve lookupNetIP net_Dial ParseRequestURI current listenerName now peer n h in
  exists body, t = body ++ [CloseConn] /\
  match peer with
  | Err _ => n' = n /\ exists r, body = [Audit r] /\ a_Decision r = "fail"%string /\
                                 a_Reason r = "tls-failed"%string
  | Ok peer =>
      let s := mkSession peer (format_uint ((n + 1) mod 2 ^ 64)) in
      n' = (n + 1) mod 2 ^ 64 /\
      match h with
      | inl _ => trace_ok "h1" s body
      | inr (HeadError status reason) =>
          exists r, body = [Audit r; Deny "h1" status reason] /\ a_Decision r = "block"%string /\
                    a_Reason r = reason /\ labels_ok current listenerName now s r
      | inr _ => body = []
      end
  end.
Proof.
  unfold serve. destruct peer as [peer|e].
  2:{ cbn. eexists [_]. split; [reflexivity|]. split; [done|]. eexists. split; [reflexivity|done]. }
  unfold newSession. cbv zeta iota beta. set (s := mkSession _ _).
  destruct h as [h|[status reason|e|e]].
  - set (body := if String.eqb (h_method h) "CONNECT" then _ else _).
    assert (trace_ok "h1" s (fst body)) as Hbody.
    { unfold body. destruct (String.eqb _ _); [apply handleConnect_trace|].
      destruct (_ && _); [apply handleConnectUDP_trace|by apply refuse_trace]. }
    destruct body as [t []]. cbn. exists t. split; [done|]. by split.
  - cbn. eexists [_; _]. split; [reflexivity|]. split; [done|]. eexists. split; [reflexivity|].
    cbn. do 2 (split; [done|]). repeat split; simpl; try done; destruct current; simplify_eq; done.
  - cbn. exists []. by split.
  - cbn. exists []. by split.
Qed.

(** No dial among the events of a refusal. *)
Ltac no_dial :=
  let Hin := fresh in intros Hin; cbn in Hin;
  repeat (destruct Hin as [Hin|Hin]; [discriminate Hin|]); destruct Hin.

(** Every dial of a request is one of the addresses of its verdict. *)
Lemma connectUpstream_dials wire network host port s network' target ok :
  In (Dial network' target ok)
     (fst (connectUpstream lookupNetIP net_Dial current listenerName now wire network host port s)) ->
  network' = network /\ exists p a,
    current = Some p /\ (network = "udp"%string -> p_udp p = true) /\
    In a (v_addresses (policy_authorize lookupNetIP p host port network)) /\
    target = join_host_port (addr_string a) port.
Proof.
  unfold connectUpstream. destruct current as [p|]; [|no_dial].
  destruct (String.eqb network "udp" && negb (p_udp p)) eqn:Eudp; [no_dial|].
  set (v := policy_authorize lookupNetIP p host port network).
  destruct (negb (String.eqb (v_reason v) EmptyString)); [no_dial|].
  destruct (v_err v); [no_dial|].
  unfold dialAuthorized. pose proof (dial_loop_spec network (v_addresses v) port None) as Hdial.
  cbv zeta in Hdial.
  assert (forall t rest,
    (forall e, In e rest -> is_dial e = false) ->
    (forall x, In x t -> exists a b, In a (v_addresses v) /\
                 x = Dial network (join_host_port (addr_string a) port) b) ->
    In (Dial network' target ok) (t ++ rest) ->
    network' = network /\ exists q a, Some p = Some q /\ (network = "udp"%string -> p_udp q = true) /\
      In a (v_addresses (policy_authorize lookupNetIP q host port network)) /\
      target = join_host_port (addr_string a) port) as Hgen.
  { intros t rest Hrest Ht Hin. apply in_app_iff in Hin as [Hin|Hin].
    - apply Ht in Hin as (a & b & Ha & [= -> -> _]). split; [done|]. exists p, a.
      repeat split; try done. intros ->. simpl in Eudp. by destruct (p_udp p).
    - by apply Hrest in Hin. }
  destruct (dial_loop net_Dial network (v_addresses v) port None) as [t [[remote|]|e]];
    unfold tbind at 1.
  - destruct Hdial as (failed & a & rest & Hl & _ & _ & ->). cbn [fst audit emit tbind tret app].
    apply Hgen; [by intros e [<-|[]]|]. intros x Hx. apply in_app_iff in Hx as [Hx|[<-|[]]].
    + apply in_map_iff in Hx as (b & <- & Hb). exists b, false. split; [|done].
      rewrite Hl. apply in_app_iff. by left.
    + exists a, true. split; [|done]. rewrite Hl. apply in_app_iff. right. by left.
  - destruct Hdial as (_ & _ & ->). no_dial.
  - destruct Hdial as (_ & _ & ->). cbn [fst audit emit tbind tret app].
    apply Hgen; [by intros e' [<-|[<-|[]]]|]. intros x Hx.
    apply in_map_iff in Hx as (b & <- & Hb). by exists b, false.
Qed.

(** Claim C6: the boundary dials only what the policy allows, and nothing for
    a request it refuses. Every dial of a request is for the requested port
    and network, under a policy whose verdict on the request is to allow it,
    and to one of the addresses of that verdict. That is a plain address: the
    literal of the request itself, which a literal rule contains; or one that
    the rule that matches the name lists, or that the resolver gave for the
    name when the rule lists none, and that may be dialed under the policy.
    Without a policy, and for UDP when the policy has UDP off, nothing is
    dialed. *)
Theorem dials_only_authorized (wire network host port : string) (s : session)
    (network' target : string) (ok : bool) :
  (forall p, current = Some p -> policy_wf p) -> resolver_addresses lookupNetIP ->
  In (Dial network' target ok)
     (fst (connectUpstream lookupNetIP net_Dial current listenerName now wire network host port s)) ->
  network' = network /\ exists p a number r,
    current = Some p /\ (network = "udp"%string -> p_udp p = true) /\
    (let v := policy_authorize lookupNetIP p host port network in
     In a (v_addresses v) /\ v_reason v = EmptyString /\ v_err v = false /\ v_rule v = r_id r) /\
    target = join_host_port (addr_string a) port /\ plain_addr a /\
    parsePort port = Ok number /\ allows number network r = true /\
    ((exists lit, ParseAddr (to_lower host) = Some lit /\ a = Unmap lit /\
        In r (p_literals p) /\ Contains (r_prefix r) a = true) \/
     (exists name raw, normalizeName host = Some name /\ names_rule p name r /\ a = Unmap raw /\
        (In raw (r_resolve r) \/
         r_resolve r = [] /\ exists l, lookupNetIP name = Some l /\ In raw l) /\
        dialable p r number a)).
Proof.
  intros Hwf Hres Hin. apply connectUpstream_dials in Hin as (-> & p & a & Ec & Hudp & Ha & ->).
  split; [done|].
  pose proof (authorize_grants lookupNetIP p host port network a (Hwf p Ec) Hres Ha)
    as (Hreason & Herr & Hplain & number & r & Hport & Hallows & Hrule & Hcase).
  exists p, a, number, r. do 7 (split; [done|]).
  destruct Hcase as [(lit & El & Hl & Hin & Hc)|Hname]; [left|by right].
  rewrite Hl in Ha. destruct Ha as [<-|[]]. eauto 10.
Qed.

(** The authorized addresses are tried in order. [dialAuthorized]
    dials each address of the list once, in order, until one answers, and
    returns that connection; it fails, after trying all of them, exactly when
    none answers; only an empty list yields neither. *)
Theorem dialAuthorized_first_reachable (network port : string) (addresses : list Addr) :
  let target a := join_host_port (addr_string a) port in
  match dialAuthorized net_Dial network addresses port with
  | (t, Ok (Some remote)) =>
      exists failed a rest, addresses = failed ++ a :: rest /\
        Forall (fun b => net_Dial network (target b) = None) failed /\
        net_Dial network (target a) = Some remote /\
        dials t = map (fun b => (network, target b, false)) failed ++ [(network, target a, true)]
  | (t, Ok None) => addresses = [] /\ t = []
  | (t, Err _) =>
      addresses <> [] /\ Forall (fun b => net_Dial network (target b) = None) addresses /\
      dials t = map (fun b => (network, target b, false)) addresses
  end.
Proof.
  cbv zeta. pose proof (dial_loop_spec network addresses port None) as Hd. cbv zeta in Hd.
  unfold dialAuthorized. assert (forall (l : list Addr) ok,
    dials (map (fun b => Dial network (join_host_port (addr_string b) port) ok) l) =
    map (fun b => (network, join_host_port (addr_string b) port, ok)) l) as Hmap.
  { intros l ok. induction l; simpl; congruence. }
  destruct (dial_loop net_Dial network addresses port None) as [t [[remote|]|e]].
  - destruct Hd as (failed & a & rest & Hl & HF & Ha & ->). exists failed, a, rest.
    do 3 (split; [done|]). rewrite dials_app. by rewrite Hmap.
  - by destruct Hd as (-> & _ & ->).
  - destruct Hd as (HF & Hne & ->). rewrite Hmap. split; [|done]. by destruct Hne.
Qed.
End BoundaryFacts.

(** ** The connection budget *)

Lemma run_listener_bound max slots steps slots' outs :
  0 <= slots <= max -> run_listener max slots steps = Some (slots', outs) -> 0 <= slots' <= max.
Proof.
  revert slots outs. induction steps as [|st steps IH]; intros slots outs Hs; simpl.
  { intros [= <- _]. done. }
  destruct (run_listener_step max slots st) as [[s1 o1]|] eqn:E1; [|done].
  destruct (run_listener max s1 steps) as [[s2 o2]|] eqn:E2; [|done]. intros [= -> _].
  apply (IH s1 o2); [|done]. unfold run_listener_step in E1.
  destruct st; case_hyp E1; bool_to_prop; lia.
Qed.

(** Claim C29: the connection budget holds. In any run of the accept loop and
    its handlers, from an idle listener, the slots in use stay within the
    budget and equal the connections that were handed to a handler minus the
    handlers that ended; and a connection is refused as busy, at any point,
    exactly when every slot is in use: it takes no slot, and it is answered
    unless it speaks TLS. *)
Theorem connection_budget (maxConnections : Z) (steps : list listener_step) (slots : Z)
    (outs : list accept_outcome) (isTLS : bool) :
  0 < maxConnections -> run_listener maxConnections 0 steps = Some (slots, outs) ->
  0 <= slots <= maxConnections /\
  slots = Z.of_nat (List.length (List.filter (fun o => match o with Handled => true | _ => false end) outs))
          - Z.of_nat (List.length (List.filter (fun st => match st with HandlerDone => true | _ => false end) steps)) /\
  run_listener_step maxConnections slots (Accept isTLS) =
    Some (if slots =? maxConnections then (slots, [RefusedBusy (negb isTLS)]) else (slots + 1, [Handled])).
Proof.
  intros Hmax Hrun. pose proof (run_listener_bound maxConnections 0 steps slots outs ltac:(lia) Hrun) as Hb.
  split; [done|]. split.
  - assert (forall s0 s1 o, run_listener maxConnections s0 steps = Some (s1, o) ->
      s1 = s0 + Z.of_nat (List.length (List.filter (fun o => match o with Handled => true | _ => false end) o))
          - Z.of_nat (List.length (List.filter (fun st => match st with HandlerDone => true | _ => false end) steps)))
      as Hgen; [|by apply Hgen in Hrun].
    clear. induction steps as [|st steps IH]; intros s0 s1 o; simpl.
    { intros [= <- <-]. simpl. lia. }
    destruct (run_listener_step maxConnections s0 st) as [[sa oa]|] eqn:E1; [|done].
    destruct (run_listener maxConnections sa steps) as [[sb ob]|] eqn:E2; [|done]. intros [= <- <-].
    apply IH in E2. rewrite List.filter_app, length_app. unfold run_listener_step in E1.
    destruct st; case_hyp E1; simpl; lia.
  - simpl. destruct (slots =? maxConnections) eqn:E; bool_to_prop.
    + by rewrite (proj2 (Z.ltb_ge _ _)) by lia.
    + by rewrite (proj2 (Z.ltb_lt _ _)) by lia.
Qed.

Lemma connection_budget_witness :
  run_listener 2 0 [Accept false; Accept true; Accept false; HandlerDone; Accept false]
    = Some (2, [Handled; Handled; RefusedBusy true; Handled]) /\
  run_listener_step 2 2 (Accept true) = Some (2, [RefusedBusy false]).
Proof.
  split; [reflexivity|].
  exact (proj2 (proj2 (connection_budget 2 [Accept false; Accept true; Accept false; HandlerDone; Accept false]
    2 [Handled; Handled; RefusedBusy true; Handled] true ltac:(lia) eq_refl))).
Defined.

(** ** The idle watch *)

(** Data of a tunnel passes the bounded reader as it comes, and without a deadline. *)
Lemma tunnel_unbounded now timeout h inner plen :
  let l := limits_after (inl h) (head_limits now timeout) in
  read_deadline l = None /\ bounded_Read inner (remaining l) plen = (inner plen, remaining l).
Proof. done. Qed.

(** The time of the last touch, [start] before any. *)
Fixpoint last_touch (start : Z) (steps : list idle_step) : Z :=
  match steps with
  | [] => start
  | Touch t :: steps => last_touch t steps
  | Tick _ :: steps => last_touch start steps
  end.

(** A tunnel is closed for idleness only when it was idle, and at the
    first chance. The watch stops the tunnel at a tick exactly when the timeout
    is enabled, no data passed for at least the timeout before that tick, and
    less than the timeout had passed at every earlier tick. *)
Theorem idleWatch_first_idle_tick (idle start t : Z) (steps : list idle_step) :
  idleWatch idle start steps = Some t <->
  0 < idle /\ exists before after, steps = before ++ Tick t :: after /\
    idle <= t - last_touch start before /\
    forall b1 t1 b2, before = b1 ++ Tick t1 :: b2 -> t1 - last_touch start b1 < idle.
Proof.
  unfold idleWatch. destruct (idle <=? 0) eqn:E0; bool_to_prop; [split; [done|lia]|].
  transitivity (exists before after, steps = before ++ Tick t :: after /\
    idle <= t - last_touch start before /\
    forall b1 t1 b2, before = b1 ++ Tick t1 :: b2 -> t1 - last_touch start b1 < idle);
    [|split; [by split|by intros [_ ?]]].
  revert start. induction steps as [|[u|u] steps IH]; intros start; simpl.
  - split; [done|]. by intros ([|] & ? & ? & _).
  - rewrite IH. clear IH. split.
    + intros (before & after & -> & Ht & Hno). exists (Touch u :: before), after.
      split; [done|]. split; [done|]. intros [|x b1] t1 b2 Eb; [done|].
      injection Eb as <- Eb. simpl. by apply (Hno b1 t1 b2).
    + intros ([|x before] & after & Eb & Ht & Hno); [done|]. injection Eb as <- ->.
      exists before, after. split; [done|]. split; [done|]. intros b1 t1 b2 ->.
      by apply (Hno (Touch u :: b1) t1 b2).
  - destruct (idle <=? u - start) eqn:Eu; bool_to_prop.
    + split.
      * intros [= ->]. exists [], steps. repeat split; [done|]. by intros [|] ? ?.
      * intros ([|x before] & after & Eb & Ht & Hno); [by injection Eb as ->|].
        injection Eb as <- ->. specialize (Hno [] u before eq_refl). simpl in Hno. lia.
    + rewrite IH. clear IH. split.
      * intros (before & after & -> & Ht & Hno). exists (Tick u :: before), after.
        split; [done|]. split; [done|]. intros [|x b1] t1 b2 Eb.
        -- injection Eb as <- _. done.
        -- injection Eb as <- Eb. simpl. by apply (Hno b1 t1 b2).
      * intros ([|x before] & after & Eb & Ht & Hno).
        -- injection Eb as -> ->. simpl in Ht. lia.
        -- injection Eb as <- ->. exists before, after. split; [done|]. split; [done|].
           intros b1 t1 b2 ->. by apply (Hno (Tick u :: b1) t1 b2).
Qed.

(** ** A concrete boundary *)

#[local] Existing Instance ascii_unicode.
#[local] Existing Instance ascii_profile.
#[local] Existing Instance sample_httpguts.

(** Dials to [8.8.8.8] fail, any other address answers. *)
Definition sample_dial (network address : string) : option string :=
  if has_prefix "8.8.8.8:" address then None else Some address.

Definition sample_trace : list event :=
  fst (connectUpstream sample_resolver sample_dial (Some sample_policy) "l" "t" "h1" "tcp"
         "a.example.org" "443" (mkSession "peer" "1")).

Lemma dials_only_authorized_witness :
  dials sample_trace = [("tcp"%string, "8.8.8.8:443"%string, false);
                        ("tcp"%string, "10.1.0.1:443"%string, true)] /\
  exists a, "10.1.0.1:443"%string = join_host_port (addr_string a) "443" /\ plain_addr a.
Proof.
  split; [vm_compute; reflexivity|].
  destruct (dials_only_authorized sample_resolver sample_dial (Some sample_policy) "l" "t" "h1" "tcp"
              "a.example.org" "443" (mkSession "peer" "1") "tcp" "10.1.0.1:443" true) as
    (_ & p & a & number & r & _ & _ & _ & Htarget & Hplain & _).
  - intros p [= <-]. exact sample_policy_wf.
  - exact sample_resolver_ok.
  - vm_compute. right. left. reflexivity.
  - exists a. split; [exact Htarget|exact Hplain].
Defined.
