(* ===== verification/Exchange.v ===== *)
(** * One exchange on the HTTP/1.1 wire, in bytes

    [BoundaryClient.roundTrip] writes its request with [http.Request.Write] and
    reads responses with [http.ReadResponse]; the boundary reads the request with
    [readHead] through its bounded reader, and writes its answer as text
    ([sdk/pkg/tun2connect/connect.go], [sdk/cmd/connect-proxy/main.go]). This file
    puts the two ends on one stream of bytes.

    Of [http.ReadResponse] the status line and the header block are modelled: the
    body and the fields that delimit it are never read by the client.
    Parameters: as in [Head] and [Boundary], and the IDNA encoding of a host with
    non-ASCII bytes. *)

From S2P Require Import Prelude GoStrings Netip Policy PolicyAuth Http Textproto Connect Head.
From S2P Require Import Boundary BoundaryFacts.

Local Open Scope go_scope.

(** ** The checks of [httpguts], as its documentation has them *)

(** The bytes of a Host field: [validHostByte]. *)
Definition host_byte (c : ascii) : bool :=
  is_lower_letter c || is_upper_letter c || is_digit c || contains_byte c "!$%&'()*+,-.:;=[]_~".

Class HttpgutsLaws `{Httpguts} : Prop := {
  field_name_is_token s : ValidHeaderFieldName s = is_token s;
  host_header_bytes s : ValidHostHeader s = str_all host_byte s;
  contains_listed_token vs t :
    is_token t = true -> In t vs -> HeaderValuesContainsToken vs t = true;
}.

(** ** The request on the wire: [Request.Write] *)

(** [removeZone]: an IPv6 zone identifier is left out of the Host field. *)
Definition removeZone (host : string) : string :=
  if negb (has_prefix "[" host) then host
  else match cut_last "]" host with
       | None => host
       | Some (inside, rest) =>
           match cut_last "%" inside with
           | None => host
           | Some (addr, _) => (addr +:+ String "]" rest)%string
           end
       end.

(** [!shouldEscape(c, encodePath)], and the bytes [validEncoded] lets pass. *)
Definition path_byte (c : ascii) : bool :=
  is_lower_letter c || is_upper_letter c || is_digit c || contains_byte c "-_.~$&+,/:;=@".
Definition encoded_path_byte (c : ascii) : bool := path_byte c || contains_byte c "!'()*[]%".

Fixpoint escape_path (s : string) : string :=
  match s with
  | EmptyString => EmptyString
  | String c s =>
      if path_byte c then String c (escape_path s)
      else String "%" (String (upper_hex (byte_of c / 16))
             (String (upper_hex (byte_of c mod 16)) (escape_path s)))
  end.

Definition EscapedPath (u : URL) : string :=
  if negb (String.eqb (u_RawPath u) EmptyString) && str_all encoded_path_byte (u_RawPath u)
     && bool_decide (PathUnescape (u_RawPath u) = Some (u_Path u))
  then u_RawPath u
  else if String.eqb (u_Path u) "*" then "*" else escape_path (u_Path u).

(** [URL.RequestURI] of a URL without a query. *)
Definition RequestURI (u : URL) : string :=
  let path := EscapedPath u in
  if String.eqb path EmptyString then "/" else path.

Definition control_byte (c : ascii) : bool := (byte_of c <? 32) || (byte_of c =? 127).

Definition defaultUserAgent : string := "Go-http-client/1.1".
Definition excluded_fields : list string :=
  ["Host"; "User-Agent"; "Content-Length"; "Transfer-Encoding"; "Trailer"]%string.

Section Write.
Context `{Httpguts}.
Context (punycode : string -> Result string).

Definition user_agent_fields (h : Header) : list (string * string) :=
  let agent := match h !! "User-Agent"%string with
               | Some _ => Get h "User-Agent"
               | None => defaultUserAgent
               end in
  if String.eqb agent EmptyString then [] else [("User-Agent"%string, header_text agent)].

Definition request_fields (host : string) (h : Header) : list (string * string) :=
  ("Host"%string, host) :: user_agent_fields h ++ sorted_fields ValidHeaderFieldName excluded_fields h.

Definition request_head (method target : string) (fields : list (string * string)) : string :=
  (method +:+ " " +:+ target +:+ " HTTP/1.1" +:+ crlf +:+ field_lines fields +:+ crlf)%string.

(** [Request.Write] of a request without a body, to a server that is not a proxy of
    the transport: an invalid Host is sent as an empty one. *)
Definition WriteRequest (r : Request) : Result string :=
  let host := if String.eqb (req_Host r) EmptyString then u_Host (req_URL r) else req_Host r in
  match (if is_ascii host then Ok host else punycode host) with
  | Err e => Err e
  | Ok host =>
      let host := removeZone (if ValidHostHeader host then host else EmptyString) in
      let ruri := if String.eqb (req_Method r) "CONNECT" && String.eqb (u_Path (req_URL r)) EmptyString
                  then host else RequestURI (req_URL r) in
      if str_any control_byte ruri
      then Err "net/http: can't write control character in Request.URL"
      else Ok (request_head (req_Method r) ruri (request_fields host (req_Header r)))
  end.
End Write.

(** ** The response on the wire: [http.ReadResponse] *)

(** [strconv.Atoi] of a short text. *)
Definition atoi (s : string) : option Z :=
  match s with
  | String "-" d => Z.opp <$> parse_uint 63 d
  | String "+" d => parse_uint 63 d
  | _ => parse_uint 63 s
  end.

(** The status line: [proto SP code SP text]. *)
Definition status_line (line : string) : Result (string * Z) :=
  match cut " " line with
  | None => Err "malformed HTTP response"
  | Some (proto, status) =>
      let status := trim_left_byte " " status in
      let code := match cut " " status with Some (code, _) => code | None => status end in
      if negb (str_len code =? 3) then Err "malformed HTTP status code"
      else match atoi code with
           | None => Err "malformed HTTP status code"
           | Some n =>
               if n <? 0 then Err "malformed HTTP status code"
               else match ParseHTTPVersion proto with
                    | None => Err "malformed HTTP version"
                    | Some _ => Ok (status, n)
                    end
           end
  end.

Definition ReadResponse (s : string) : Result Response * string :=
  match ReadLine s with
  | None => (Err "unexpected EOF", EmptyString)
  | Some (line, rest) =>
      match status_line line with
      | Err e => (Err e, rest)
      | Ok (status, code) =>
          let (mime, rest) := ReadMIMEHeader rest in
          (match mime with
           | inl header => Ok (mkResponse code status header)
           | inr EndOfStream => Err "unexpected EOF"
           | inr (Malformed line) => Err ("malformed MIME header line: " +:+ line)%string
           end, rest)
      end
  end.

(** The responses a stream holds, as [readFinalResponse] asks for them. *)
Fixpoint response_stream (fuel : nat) (s : string) : list (Result Response) :=
  match fuel with
  | O => []
  | S fuel =>
      let (r, rest) := ReadResponse s in
      r :: (if is_ok r then response_stream fuel rest else [])
  end.

(** The environment of a dial whose boundary answers with these bytes:
    [roundTrip] reads at most one response more than it skips. *)
Definition answering (s : string) : transport :=
  mkTransport None (Ok tt) (Ok tt) (response_stream (S (S (Z.to_nat maxInterimResponses))) s) false.

(** ** The boundary's end *)

(** What the bounded reader lets through, and the error of the read after it. *)
Definition bounded_stream (s : string) : string * go_error :=
  let n := Z.to_nat maxHeadBytes in
  (str_take n s,
   if maxHeadBytes <=? str_len s
   then HeadError StatusRequestHeaderFieldsTooLarge "head-too-large" else ReadError "EOF").

Section Serve.
Context `{GoUnicode, NameProfile, Httpguts}.
Context (lookupNetIP : string -> option (list Addr)).
Context (net_Dial : string -> string -> option string).
Context (ParseRequestURI : string -> option (bool * string)).
Context (current : option policy) (listenerName now : string).

(** [readHead] on the bytes of a connection, and the bytes after the head. *)
Definition read_head (s : string) : (head + go_error) * string :=
  let (seen, err) := bounded_stream s in
  let unseen := str_drop (Z.to_nat maxHeadBytes) s in
  match ReadLine seen with
  | None => (readHead (inr err) (inr err), unseen)
  | Some (line, rest) =>
      let (mime, rest) := ReadMIMEHeader rest in
      (readHead (inl line)
         (match mime with
          | inl header => inl header
          | inr EndOfStream => inr err
          | inr (Malformed line) => inr (OtherError line)
          end), (rest +:+ unseen)%string)
  end.

(** [serve] on the bytes of a plain connection. *)
Definition serve_bytes (peer : Result string) (connections : Z) (s : string) : traced Z :=
  serve lookupNetIP net_Dial ParseRequestURI current listenerName now peer connections (fst (read_head s)).
End Serve.

(** The bytes the boundary itself writes to an HTTP/1.x client. *)
Fixpoint written (t : list event) : string :=
  match t with
  | [] => EmptyString
  | Deny _ status reason :: t => (h1_deny_text status reason +:+ written t)%string
  | Respond text :: t => (text +:+ written t)%string
  | _ :: t => written t
  end.

Example atoi_examples : map atoi ["200"; "+12"; "-12"; "2x0"; "-"]%string = [Some 200; Some 12; Some (-12); None; None].
Proof. vm_compute. reflexivity. Qed.

Example removeZone_examples :
  map removeZone ["[fe80::1%eth0]:443"; "[fe80::1]:443"; "a%b:1"]%string =
  ["[fe80::1]:443"; "[fe80::1]:443"; "a%b:1"]%string.
Proof. vm_compute. reflexivity. Qed.

Example response_example :
  ReadResponse (upgrade_response +:+ "data") =
  (Ok (mkResponse 101 "101 Switching Protocols"
    (<["Connection" := ["Upgrade"]]> (<["Upgrade" := ["connect-udp"]]> {["Capsule-Protocol" := ["?1"]]}))),
   "data")%string.
Proof. vm_compute. reflexivity. Qed.
