(* ===== verification/ExchangeFacts.v ===== *)
(** * The two ends of the HTTP/1.1 wire meet

    A refusal keeps its status and reason from the boundary's text to the client's
    error, and a dial of the client is the decision of the boundary: both stated on
    the bytes of [Exchange]. *)

From stdpp Require Import sorting.
From S2P Require Import Prelude GoStrings Netip Policy PolicyLoad PolicyAuth Http Textproto Connect Head.
From S2P Require Import Boundary BoundaryFacts Exchange.

Local Open Scope go_scope.

(** ** Responses *)

Lemma ReadResponse_written status_text code fields rest :
  contains_byte lf status_text = false ->
  status_line ("HTTP/1.1 " +:+ status_text) = Ok (status_text, code) -> Forall field_ok fields ->
  ReadResponse ("HTTP/1.1 " +:+ status_text +:+ crlf +:+ field_lines fields +:+ crlf +:+ rest) =
  (Ok (mkResponse code status_text (fold_left add_field fields ∅)), rest).
Proof.
  intros Hlf Hst HF. unfold ReadResponse.
  replace ("HTTP/1.1 " +:+ status_text +:+ crlf +:+ field_lines fields +:+ crlf +:+ rest)%string
    with (("HTTP/1.1 " +:+ status_text) +:+ crlf +:+ (field_lines fields +:+ crlf +:+ rest))%string
    by (by rewrite !app_string_assoc).
  rewrite ReadLine_line, Hst by (by rewrite contains_byte_app, Hlf). by rewrite ReadMIMEHeader_written.
Qed.

(** The first response of a stream is the final one. *)
Lemma readFinal_answering s resp rest :
  ReadResponse s = (Ok resp, rest) -> interim resp = false ->
  readFinalResponse (t_responses (answering s)) = Ok resp.
Proof.
  intros Hr Hi. unfold answering, readFinalResponse. cbn [t_responses response_stream].
  rewrite Hr. cbn [readFinalResponse_loop is_ok]. by rewrite final_not_interim, Hi.
Qed.

(** The statuses of the refusals on the HTTP/1.x wire. *)
Definition refusal_statuses : list Z := [400; 403; 405; 431; 502; 503; 505].

Definition status_text (status : Z) : string := (format_uint status +:+ " " +:+ StatusText status)%string.

Lemma refusal_status_line status : In status refusal_statuses ->
  contains_byte lf (status_text status) = false /\
  status_line ("HTTP/1.1 " +:+ status_text status) = Ok (status_text status, status) /\
  interim (mkResponse status (status_text status) ∅) = false /\
  (status <? 200) || (299 <? status) = true /\ (status =? 101) = false.
Proof. intros Hs. repeat (destruct Hs as [<-|Hs]; [vm_compute; done|]). destruct Hs. Qed.

Lemma trim_right_none f s : str_all (fun c => negb (f c)) s = true -> trim_right_by f s = s.
Proof.
  induction s as [|c s IH]; [done|]. intros Hs. apply str_all_inv in Hs as [Hc Hs]. bool_to_prop.
  cbn [trim_right_by]. by rewrite Hc, IH.
Qed.

(** Text that starts and ends with a visible byte is trimmed. *)
Lemma visible_trimmed c a b :
  visible c = true -> b <> EmptyString -> str_all visible b = true ->
  trimmed is_text_space (String c a +:+ b).
Proof.
  assert (forall x, visible x = true -> is_text_space x = false) as Hv by (intros x; each_byte x).
  intros Hc Hne Hb. assert (trim_right_by is_text_space b = b) as E.
  { apply trim_right_none. clear Hne. induction b as [|x b IH]; [done|]. apply str_all_inv in Hb as [Hx Hb].
    by rewrite str_all_cons, Hv, IH. }
  split.
  - apply trim_left_head. cbn. by apply Hv.
  - rewrite trim_right_app; by rewrite E.
Qed.

Lemma name_value_bytes s : str_all name_byte s = true -> str_all value_byte s = true.
Proof. apply str_all_impl. intros c. each_byte c. Qed.

Lemma proxyStatus_field_ok reason :
  str_all name_byte reason = true -> field_ok ("Proxy-Status"%string, proxyStatus reason).
Proof.
  intros Hr. pose proof (ProxyErrorType_bytes reason) as Ht. unfold proxyStatus, ProxyStatus.
  set (type := ProxyErrorType reason) in *. clearbody type.
  split_and!; [done| |]; cbn [snd].
  - rewrite !str_all_app, (name_value_bytes type), (name_value_bytes reason) by done. reflexivity.
  - change ("boundary" +:+ "; error=" +:+ type +:+ "; reason=" +:+ reason)%string with
      (String "b" ("oundary" +:+ "; error=" +:+ type +:+ "; " +:+ ("reason=" +:+ reason)))%string.
    replace (String "b" ("oundary" +:+ "; error=" +:+ type +:+ "; " +:+ ("reason=" +:+ reason)))%string
      with (String "b" ("oundary; error=" +:+ type +:+ "; ") +:+ ("reason=" +:+ reason))%string
      by (cbn [String.append]; by rewrite !app_string_assoc).
    apply visible_trimmed; [done|done|]. by rewrite str_all_app, (name_visible reason).
Qed.

Lemma deny_fields reason : str_all name_byte reason = true ->
  Forall field_ok [("Proxy-Status", proxyStatus reason); ("Content-Length", "0")]%string.
Proof. intros Hr. constructor; [by apply proxyStatus_field_ok|repeat constructor]. Qed.

(** A refusal, read back from its text. *)
Lemma deny_reads_back status reason rest :
  In status refusal_statuses -> str_all name_byte reason = true ->
  exists resp, ReadResponse (h1_deny_text status reason +:+ rest) = (Ok resp, rest) /\
    StatusCode resp = status /\ refusal resp = Refused status (status_text status) reason /\
    interim resp = false.
Proof.
  intros Hs Hr. destruct (refusal_status_line status Hs) as (Hlf & Hst & Hi & _).
  eexists. split.
  - replace (h1_deny_text status reason +:+ rest)%string with
      ("HTTP/1.1 " +:+ status_text status +:+ crlf +:+
       field_lines [("Proxy-Status", proxyStatus reason); ("Content-Length", "0")] +:+ crlf +:+ rest)%string.
    + apply ReadResponse_written; [done|done|by apply deny_fields].
    + unfold h1_deny_text, status_text, field_lines, field_line. cbn [fst snd].
      by rewrite !app_string_assoc.
  - cbn [StatusCode]. split; [done|]. split; [|exact Hi]. unfold refusal. cbn [StatusCode Status RespHeader]. f_equal.
    apply (ProxyStatusReason_written "boundary"); [done|done|].
    unfold Get. by rewrite Values_fold_fields.
Qed.

(** Claim C31: a refusal survives the wire. For every status the boundary refuses
    with, every reason token and whatever bytes follow, the client reads from the
    text the boundary writes one response and no byte more, and a TCP or a UDP dial
    answered with it closes its connection and fails with that status, its text and
    that reason; the error reads "boundary refused: ", the text of the status, and
    the reason in brackets when there is one. *)
Theorem refusal_survives_wire (status : Z) (reason later : string) (c : BoundaryClient)
    (name : string) (port : Z) (udp : bool) :
  In status refusal_statuses -> str_all name_byte reason = true ->
  let reply := (h1_deny_text status reason +:+ later)%string in
  let d := if udp then DialUDP c (answering reply) name port else DialTCP c (answering reply) name port in
  snd (ReadResponse reply) = later /\ cs_open (conn_after (fst d)) = false /\
  exists e, snd d = inr e /\ e = Refused status (status_text status) reason /\
    error_text e = ("boundary refused: " +:+ status_text status +:+
      match reason with EmptyString => "" | _ => " (" +:+ reason +:+ ")" end)%string.
Proof.
  intros Hs Hr reply d. destruct (deny_reads_back status reason later Hs Hr) as (resp & E & Hc & Hre & Hi).
  destruct (refusal_status_line status Hs) as (_ & _ & _ & H2 & H1).
  pose proof (readFinal_answering _ _ _ E Hi) as Hf. fold reply in E, Hf. rewrite E. split; [done|].
  set (e := Refused status (status_text status) reason).
  assert (snd d = inr e /\ cs_open (conn_after (fst d)) = false) as [E1 E2].
  { unfold d, DialUDP, DialTCP, roundTrip. cbn [t_dial t_write answering].
    change (response_stream _ reply) with (t_responses (answering reply)). rewrite Hf, Hc, Hre, H2.
    unfold StatusSwitchingProtocols. rewrite H1. by destruct udp. }
  rewrite E2. split; [done|]. exists e. split; [done|]. split; [done|].
  cbn [e error_text]. unfold DialError_Error. by destruct reason; rewrite ?app_string_nil_r.
Qed.

Lemma refusal_survives_wire_witness :
  exists e, snd (DialUDP (mkBoundaryClient "" ∅) (answering (h1_deny_text 403 "udp-disabled" +:+ "x")) "example.com" 53)
    = inr e /\ error_text e = "boundary refused: 403 Forbidden (udp-disabled)"%string.
Proof.
  destruct (refusal_survives_wire 403 "udp-disabled" "x" (mkBoundaryClient "" ∅) "example.com" 53 true)
    as (_ & _ & e & E & _ & Htext); [simpl; tauto|reflexivity|].
  exists e. split; [exact E|exact Htext].
Defined.

(** ** Requests *)

Lemma header_text_ok v :
  str_all (fun c => value_byte c || is_text_space c) v = true ->
  str_all value_byte (header_text v) = true /\ trimmed is_text_space (header_text v).
Proof.
  intros Hv. split; [|apply trim_by_trimmed]. apply trim_by_all. induction v as [|c v IH]; [done|].
  apply str_all_inv in Hv as [Hc Hv]. cbn [str_map]. rewrite str_all_cons, IH, andb_true_r by done.
  revert Hc. each_byte c.
Qed.

(** The headers a client may be given: canonical names, and values whose bytes
    are legal or are white space, which is written as spaces. *)
Definition sendable (h : Header) : Prop :=
  forall key vs, h !! key = Some vs ->
    canonical_key key = key /\
    Forall (fun v => str_all (fun c => value_byte c || is_text_space c) v = true) vs.

Section Requests.
Context `{HttpgutsLaws}.

Lemma sorted_fields_in exclude h f :
  In f (sorted_fields ValidHeaderFieldName exclude h) ->
  exists vs v, h !! fst f = Some vs /\ In v vs /\ snd f = header_text v /\
    is_token (fst f) = true /\ ~ In (fst f) exclude.
Proof.
  unfold sorted_fields. rewrite in_flat_map. intros ([key vs] & Hk & Hf).
  apply List.filter_In in Hk as [Hin Hk]. cbn [fst snd] in *. apply in_map_iff in Hf as (v & <- & Hv).
  bool_to_prop. exists vs, v. cbn [fst snd].
  assert (h !! key = Some vs) as E.
  { apply elem_of_map_to_list, list_elem_of_In. eapply Permutation_in; [|exact Hin].
    apply merge_sort_Permutation. }
  rewrite field_name_is_token in *. split_and!; [done..|]. intros Hx.
  assert (existsb (String.eqb key) exclude = true) as He; [|congruence].
  apply existsb_exists. exists key. by rewrite String.eqb_refl.
Qed.

Lemma request_fields_ok host h :
  str_all host_byte host = true -> sendable h -> Forall field_ok (request_fields host h).
Proof.
  intros Hhost Hh. assert (field_ok ("Host"%string, host)) as Hhf.
  { split_and!; [done| |]; cbn [snd].
    - revert Hhost. apply str_all_impl. intros c. each_byte c.
    - assert (str_all (fun c => negb (is_text_space c)) host = true) as Hns.
      { revert Hhost. apply str_all_impl. intros c. each_byte c. }
      split; [|by apply trim_right_none]. apply trim_left_head. destruct host as [|c host]; [done|].
      apply str_all_inv in Hns as [Hns _]. by bool_to_prop. }
  constructor; [done|]. apply Forall_app. split.
  - unfold user_agent_fields. destruct (h !! "User-Agent"%string) as [vs|] eqn:E.
    + destruct (String.eqb (Get h "User-Agent") EmptyString) eqn:En; [constructor|]. constructor; [|constructor].
      destruct (Hh _ _ E) as [_ HF]. split; [done|]. apply header_text_ok. unfold Get, Values.
      rewrite E. cbn [default]. destruct HF as [|v vs Hv _]; [done|exact Hv].
    + repeat constructor.
  - apply List.Forall_forall. intros f Hf.
    destruct (sorted_fields_in _ _ _ Hf) as (vs & v & E & Hv & Hs & Ht & _).
    destruct (Hh _ _ E) as [_ HF]. rewrite List.Forall_forall in HF. split; [done|]. rewrite Hs.
    by apply header_text_ok, HF.
Qed.

(** Exactly one Host field is written. *)
Lemma request_fields_host host h :
  sendable h -> field_values "Host" (request_fields host h) = [host].
Proof.
  intros Hh. unfold request_fields, field_values. cbn [List.filter fst].
  change (String.eqb "Host" (canonical_key "Host")) with true. cbn [map snd]. f_equal.
  rewrite List.filter_app, map_app.
  assert (List.filter (fun f => String.eqb "Host" (canonical_key (fst f))) (user_agent_fields h) = []) as ->.
  { unfold user_agent_fields. by destruct (String.eqb _ EmptyString). }
  destruct (List.filter _ (sorted_fields _ _ h)) as [|f fs] eqn:E; [done|].
  assert (In f (f :: fs)) as Hin by (by left). rewrite <- E in Hin. apply List.filter_In in Hin as [Hin Hk].
  destruct (sorted_fields_in _ _ _ Hin) as (vs & v & Ev & _ & _ & _ & Hno).
  destruct (Hh _ _ Ev) as [Hc _]. rewrite Hc in Hk. apply String.eqb_eq in Hk. exfalso. apply Hno.
  rewrite <- Hk. by left.
Qed.

(** A value of a written header arrives under its name. *)
Lemma request_fields_value host h key vs v :
  sendable h -> h !! key = Some vs -> In v vs -> is_token key = true ->
  existsb (String.eqb key) excluded_fields = false ->
  In (header_text v) (field_values key (request_fields host h)).
Proof.
  intros Hh E Hv Ht Hex. unfold field_values. apply in_map_iff. exists (key, header_text v). split; [done|].
  apply List.filter_In. cbn [fst]. rewrite (proj1 (Hh _ _ E)), String.eqb_refl. split; [|done].
  right. apply in_or_app. right. unfold sorted_fields. apply in_flat_map. exists (key, vs). cbn [fst snd]. split.
  - apply List.filter_In. cbn [fst]. rewrite field_name_is_token, Ht, Hex. split; [|done].
    eapply Permutation_in; [symmetry; apply merge_sort_Permutation|].
    by apply list_elem_of_In, elem_of_map_to_list.
  - apply in_map_iff. by exists v.
Qed.

(** The boundary reads the head that was written, and stops where it ends. *)
Lemma read_head_written method target fields early :
  is_token method = true -> target <> EmptyString ->
  contains_byte " " target = false -> contains_byte lf target = false ->
  Forall field_ok fields -> (exists host, field_values "Host" fields = [host]) ->
  str_len (request_head method target fields) <= maxHeadBytes ->
  read_head (request_head method target fields +:+ early) =
    (inl (mkHead method target 1 1 (fold_left add_field fields ∅)), early).
Proof.
  intros Hm Hne Hsp Hlf HF [host Hhost] Hlen. apply is_token_spec in Hm as Hm'. destruct Hm' as [_ Hmb].
  unfold read_head, bounded_stream. unfold str_len in Hlen.
  assert (String.length (request_head method target fields) <= Z.to_nat maxHeadBytes)%nat as Hl by lia.
  rewrite str_take_app_le, str_drop_app_le by done. set (k := (Z.to_nat maxHeadBytes - _)%nat). clearbody k.
  unfold request_head. set (line := (method +:+ " " +:+ target +:+ " HTTP/1.1")%string).
  replace ((method +:+ " " +:+ target +:+ " HTTP/1.1" +:+ crlf +:+ field_lines fields +:+ crlf) +:+ str_take k early)%string
    with (line +:+ crlf +:+ (field_lines fields +:+ crlf +:+ str_take k early))%string
    by (unfold line; by rewrite !app_string_assoc).
  rewrite ReadLine_line by (unfold line; rewrite !contains_byte_app, Hlf, (field_without lf method) by done; reflexivity).
  rewrite ReadMIMEHeader_written, str_take_drop by done. f_equal.
  unfold readHead. assert (request_line line = Some (method, target, "HTTP/1.1"%string)) as ->.
  { unfold request_line, line. change (" " +:+ target +:+ " HTTP/1.1")%string with (String " " (target +:+ String " " "HTTP/1.1")).
    rewrite cut_app, cut_app by (done || by apply field_without).
    rewrite field_name_is_token, Hm, (proj2 (String.eqb_neq target _)) by done. reflexivity. }
  change (ParseHTTPVersion "HTTP/1.1") with (Some (1, 1)). cbn match. rewrite Values_fold_fields, Hhost.
  assert (forallb (fun kv => ValidHeaderFieldName (fst kv)) (map_to_list (fold_left add_field fields ∅)) = true) as ->; [|done].
  apply forallb_forall. intros [key vs] Hin. apply list_elem_of_In, elem_of_map_to_list in Hin. cbn [fst].
  rewrite field_name_is_token. destruct (fold_fields_keys _ _ _ _ Hin) as [[? E]|(f & Hf & <-)]; [done|].
  rewrite List.Forall_forall in HF. destruct (HF f Hf) as (Ht & _). by apply canonical_key_token.
Qed.
End Requests.

(** ** The requests of the client *)

(** A host a request can name: the bytes of a Host field but brackets and the
    percent sign of a zone. *)
Definition plain_host_byte (c : ascii) : bool := host_byte c && negb (contains_byte c "[]%").
Definition plain_host (host : string) : bool :=
  negb (String.eqb host EmptyString) && str_all plain_host_byte host.

Lemma plain_host_spec host : plain_host host = true ->
  host <> EmptyString /\ str_all host_byte host = true /\ is_ascii host = true /\
  no_brackets host = true /\ contains_byte "%" host = false /\ contains_byte "/" host = false.
Proof.
  unfold plain_host. intros Hh. bool_to_prop.
  assert (forall c, plain_host_byte c = false -> contains_byte c host = false) as Hno.
  { intros c Hc. by eapply str_all_not_contains. }
  split_and!; [done| | | |by apply Hno|by apply Hno].
  - eapply str_all_impl; [|done]. intros c. unfold plain_host_byte. intros Hc. by bool_to_prop.
  - eapply str_all_impl; [|done]. intros c. each_byte c.
  - unfold no_brackets. by rewrite !Hno.
Qed.

Lemma removeZone_none host : contains_byte "%" host = false -> removeZone host = host.
Proof.
  intros Hh. unfold removeZone. destruct (negb _); [done|].
  destruct (cut_last "]" host) as [[inside rest]|] eqn:E; [|done].
  assert (cut_last "%" inside = None) as ->; [|done]. apply cut_last_None.
  assert (exists r, host = (inside +:+ r)%string) as [r ->].
  { clear Hh. revert inside E. induction host as [|c host IH]; intros inside E; cbn in E; [done|].
    destruct (cut_last "]" host) as [[a b]|] eqn:Ec.
    - injection E as <- <-. destruct (IH a eq_refl) as [r ->]. by exists r.
    - destruct (Ascii.eqb "]" c); [|done]. injection E as <- <-. by eexists. }
  rewrite contains_byte_app in Hh. by bool_to_prop.
Qed.

Lemma cut_last_parts c s a b : cut_last c s = Some (a, b) -> s = (a +:+ String c b)%string.
Proof.
  revert a b. induction s as [|x s IH]; intros a b E; cbn in E; [done|].
  destruct (cut_last c s) as [[a' b']|] eqn:Ec.
  - injection E as <- <-. by rewrite (IH a' b' eq_refl).
  - destruct (Ascii.eqb c x) eqn:Ex; [|done]. injection E as <- <-. apply Ascii.eqb_eq in Ex. by subst.
Qed.

Lemma removeZone_bytes f host : str_all f host = true -> str_all f (removeZone host) = true.
Proof.
  intros Hh. unfold removeZone. destruct (negb _); [done|].
  destruct (cut_last "]" host) as [[inside rest]|] eqn:E; [|done]. apply cut_last_parts in E as ->.
  destruct (cut_last "%" inside) as [[addr z]|] eqn:E; [|done]. apply cut_last_parts in E as ->.
  rewrite !str_all_app, !str_all_cons, !andb_true_iff in Hh. rewrite !str_all_app, str_all_cons, !andb_true_iff. tauto.
Qed.

Lemma host_byte_ascii s : str_all host_byte s = true -> is_ascii s = true.
Proof. apply str_all_impl. intros c. each_byte c. Qed.

Lemma str_any_none (f g : ascii -> bool) s :
  (forall c, g c = true -> f c = false) -> str_all g s = true -> str_any f s = false.
Proof.
  intros Hfg. induction s as [|c s IH]; [done|]. intros Hs. apply str_all_inv in Hs as [Hc Hs].
  cbn. by rewrite (Hfg c Hc), IH.
Qed.

(** The path of a connect-udp request is already encoded. *)
Lemma escaped_host_bytes host :
  str_all encoded_path_byte (replace_byte ":" "%3A" (PathEscape host)) = true.
Proof.
  induction host as [|c host IH]; [done|]. cbn [PathEscape].
  destruct (path_segment_byte c) eqn:Ec.
  - cbn [replace_byte]. destruct (Ascii.eqb ":" c); [by rewrite str_all_app, IH|].
    rewrite str_all_cons, IH, andb_true_r. revert Ec. each_byte c.
  - assert (forall n, 0 <= n < 16 -> encoded_path_byte (upper_hex n) = true /\ Ascii.eqb ":" (upper_hex n) = false) as Hhex.
    { intros n Hn. assert (forallb (fun k => encoded_path_byte (upper_hex (Z.of_nat k)) && negb (Ascii.eqb ":" (upper_hex (Z.of_nat k))))
        (List.seq 0 16) = true) as Hall by (vm_compute; reflexivity).
      rewrite forallb_forall in Hall. specialize (Hall (Z.to_nat n) ltac:(apply List.in_seq; lia)).
      rewrite Z2Nat.id in Hall by lia. by bool_to_prop. }
    pose proof (byte_of_range c).
    destruct (Hhex (byte_of c / 16)) as [H1 H1']; [split; [Z.div_mod_to_equations; lia..]|].
    destruct (Hhex (byte_of c mod 16)) as [H2 H2']; [split; [Z.div_mod_to_equations; lia..]|].
    cbn [replace_byte]. change (Ascii.eqb ":" "%") with false. cbv iota. rewrite H1', H2'.
    rewrite !str_all_cons, H1, H2, IH. reflexivity.
Qed.

Lemma raw_path_bytes auth host port :
  str_all encoded_path_byte (u_RawPath (udpProxyURL auth host port)) = true.
Proof.
  unfold udpProxyURL. cbn [u_RawPath]. rewrite !str_all_app, escaped_host_bytes.
  assert (str_all encoded_path_byte (format_uint port) = true) as ->; [|done].
  eapply str_all_impl; [|apply format_uint_digits]. intros c. each_byte c.
Qed.

Lemma udp_RequestURI auth host port :
  RequestURI (udpProxyURL auth host port) = u_RawPath (udpProxyURL auth host port).
Proof.
  unfold RequestURI, EscapedPath. rewrite raw_path_bytes.
  rewrite bool_decide_eq_true_2 by apply (proj1 (masque_path_reads_back auth host port)). reflexivity.
Qed.

Lemma sendable_add h1 h2 : sendable h1 -> sendable h2 -> sendable (add_headers h1 h2).
Proof.
  intros H1 H2 key vs E. unfold add_headers, Header in *. rewrite lookup_union_with in E.
  destruct (h1 !! key) as [a|] eqn:E1, (h2 !! key) as [b|] eqn:E2; cbn in E; simplify_eq.
  - destruct (H1 _ _ E1) as [Hc Ha], (H2 _ _ E2) as [_ Hb]. split; [done|by apply Forall_app].
  - by apply H1.
  - by apply H2.
Qed.

(** The request a dial sends: its own fields, then the configured ones. *)
Definition dial_request (c : BoundaryClient) (udp : bool) (host : string) (port : Z) : Request :=
  let r := if udp then udp_request c host port else tcp_request host port in
  mkRequest (req_Method r) (req_URL r) (req_Host r) (add_headers (req_Header r) (c_Header c)).

Definition dial (c : BoundaryClient) (t : transport) (udp : bool) (host : string) (port : Z)
  : list conn_event * (Response + dial_error) :=
  if udp then DialUDP c t host port else DialTCP c t host port.

(** Its target and Host field as they are written. *)
Definition wire_target (c : BoundaryClient) (udp : bool) (host : string) (port : Z) : string :=
  if udp then u_RawPath (udpProxyURL (authority c) host port) else join_host_port host (format_uint port).
Definition wire_host (c : BoundaryClient) (udp : bool) (host : string) (port : Z) : string :=
  if udp then removeZone (authority c) else join_host_port host (format_uint port).

Lemma sendable_dial c udp host port :
  sendable (c_Header c) -> sendable (req_Header (dial_request c udp host port)).
Proof.
  intros Hc. unfold dial_request. cbn [req_Header]. apply sendable_add; [|done].
  destruct udp; [|by intros key vs]. cbn [req_Header udp_request]. intros key vs.
  unfold Set_, Header in *. rewrite !lookup_insert_Some, lookup_empty. intros E.
  destruct E as [[<- <-]|[_ [[<- <-]|[_ [[<- <-]|[_ [=]]]]]]]; split; [vm_compute; reflexivity|repeat constructor..
    |vm_compute; reflexivity|repeat constructor|vm_compute; reflexivity|repeat constructor].
Qed.

Lemma join_bytes f host port :
  str_all f host = true -> str_all f port = true -> str_all f "[]:" = true ->
  str_all f (join_host_port host port) = true.
Proof.
  intros Hh Hp Hb. rewrite !str_all_cons, !andb_true_iff in Hb. unfold join_host_port.
  destruct (contains_byte ":" host); rewrite !str_all_app, !str_all_cons, !andb_true_iff; cbn; tauto.
Qed.

Lemma hostport_bytes host port : plain_host host = true ->
  str_all host_byte (join_host_port host (format_uint port)) = true /\
  contains_byte "%" (join_host_port host (format_uint port)) = false.
Proof.
  intros Hh. destruct (plain_host_spec host Hh) as (_ & Hb & _ & _ & Hp & _). split.
  - apply join_bytes; [done| |done]. eapply str_all_impl; [|apply format_uint_digits]. intros c. each_byte c.
  - assert (contains_byte "%" (format_uint port) = false) as Hd
      by (apply (str_all_not_contains is_digit); [apply format_uint_digits|done]).
    unfold join_host_port. destruct (contains_byte ":" host); rewrite !contains_byte_app, Hp, Hd; reflexivity.
Qed.

Lemma wire_target_plain c udp host port : plain_host host = true ->
  wire_target c udp host port <> EmptyString /\
  contains_byte " " (wire_target c udp host port) = false /\
  contains_byte lf (wire_target c udp host port) = false.
Proof.
  intros Hh. destruct (hostport_bytes host port Hh) as [Hhp _]. unfold wire_target. destruct udp.
  - split; [done|]. split; apply (str_all_not_contains encoded_path_byte); try done; apply raw_path_bytes.
  - split; [|split; apply (str_all_not_contains host_byte); done].
    unfold join_host_port. apply plain_host_spec in Hh as [Hne _]. destruct (contains_byte ":" host); [done|]. by destruct host.
Qed.

Section Dial.
Context `{HttpgutsLaws}.
Context (punycode : string -> Result string).

(** What [Request.Write] writes for a dial. *)
Lemma dial_written c udp host port :
  plain_host host = true -> str_all host_byte (authority c) = true ->
  WriteRequest punycode (dial_request c udp host port) =
  Ok (request_head (if udp then "GET" else "CONNECT") (wire_target c udp host port)
        (request_fields (wire_host c udp host port) (req_Header (dial_request c udp host port)))).
Proof.
  intros Hh Ha. destruct (hostport_bytes host port Hh) as [Hhp Hpct]. unfold WriteRequest.
  assert (req_Host (dial_request c udp host port) = if udp then authority c else join_host_port host (format_uint port))
    as -> by (by destruct udp).
  assert (String.eqb (if udp then authority c else join_host_port host (format_uint port)) EmptyString = false) as ->.
  { apply String.eqb_neq. destruct udp.
    - unfold authority. destruct (String.eqb (c_Authority c) EmptyString) eqn:E; [done|]. by apply String.eqb_neq in E.
    - unfold join_host_port. destruct (contains_byte ":" host); [done|]. by destruct host. }
  assert (str_all host_byte (if udp then authority c else join_host_port host (format_uint port)) = true) as Hb
    by (by destruct udp).
  rewrite (host_byte_ascii _ Hb). cbv iota. rewrite host_header_bytes, Hb. cbn [negb].
  destruct udp; unfold dial_request, wire_target, wire_host; cbn [req_Method req_URL req_Header udp_request tcp_request u_Path].
  - change (String.eqb "GET" "CONNECT") with false. cbn [andb]. rewrite udp_RequestURI.
    rewrite (str_any_none control_byte encoded_path_byte); [done|intros x; each_byte x|apply raw_path_bytes].
  - change (String.eqb "CONNECT" "CONNECT" && String.eqb EmptyString EmptyString) with true. cbv iota.
    rewrite removeZone_none by done.
    by rewrite (str_any_none control_byte host_byte); [|intros x; each_byte x|].
Qed.

(** A scoped IPv6 address loses its zone on this wire: [Request.Write] sends for
    it the bytes it sends for the address without the zone, so the boundary
    decides another destination than the one the client was asked for. *)
Theorem scoped_zone_not_sent c addr zone port :
  plain_host addr = true -> contains_byte ":" addr = true ->
  str_all plain_host_byte zone = true ->
  WriteRequest punycode (dial_request c false (addr +:+ String "%" zone) port) =
  WriteRequest punycode (dial_request c false addr port).
Proof.
  intros Ha Hcolon Hz. destruct (hostport_bytes addr port Ha) as [Hb Hpct].
  assert (contains_byte "%" zone = false) as Hzp by (by apply (str_all_not_contains plain_host_byte)).
  assert (str_all host_byte (join_host_port (addr +:+ String "%" zone) (format_uint port)) = true) as Hb'.
  { destruct (plain_host_spec addr Ha) as (_ & Hab & _). apply join_bytes; [| |done].
    - rewrite str_all_app, str_all_cons, Hab. cbn. eapply str_all_impl; [|exact Hz].
      intros x. unfold plain_host_byte. intros Hx. by bool_to_prop.
    - eapply str_all_impl; [|apply format_uint_digits]. intros x. each_byte x. }
  assert (removeZone (join_host_port (addr +:+ String "%" zone) (format_uint port)) = join_host_port addr (format_uint port)) as Hr.
  { unfold join_host_port. rewrite contains_byte_app, Hcolon. cbn [orb]. unfold removeZone.
    assert (forall x, has_prefix "[" ("[" +:+ x) = true) as -> by (intros x; by destruct x). cbn [negb].
    replace ("[" +:+ (addr +:+ String "%" zone) +:+ "]:" +:+ format_uint port)%string
      with ((("[" +:+ addr) +:+ String "%" zone) +:+ String "]" (String ":" (format_uint port)))%string
      by (by rewrite !app_string_assoc).
    rewrite cut_last_app by (rewrite contains_byte_cons; cbn; by apply (str_all_not_contains is_digit); [apply format_uint_digits|]).
    rewrite cut_last_app by done. by rewrite !app_string_assoc. }
  unfold WriteRequest, dial_request. cbn [req_Host req_URL req_Method req_Header tcp_request u_Host u_Path].
  assert (forall x, join_host_port x (format_uint port) <> EmptyString) as Hne
    by (intros x; unfold join_host_port; by destruct (contains_byte ":" x), x).
  rewrite !(proj2 (String.eqb_neq (join_host_port _ _) _)) by done.
  rewrite (host_byte_ascii _ Hb), (host_byte_ascii _ Hb'). cbv iota.
  rewrite !host_header_bytes, Hb, Hb', Hr, (removeZone_none (join_host_port addr _)) by done. reflexivity.
Qed.
End Dial.

(** ** What the boundary writes *)

Lemma written_app t u : written (t ++ u) = (written t +:+ written u)%string.
Proof. induction t as [|e t IH]; [done|]. destruct e; cbn [written app]; rewrite IH; try done; by rewrite app_string_assoc. Qed.

Lemma written_dials ds : forallb is_dial ds = true -> written ds = EmptyString.
Proof.
  induction ds as [|e ds IH]; [done|]. cbn [forallb]. intros Hd. apply andb_true_iff in Hd as [He Hd].
  destruct e; cbn in *; try done; by apply IH.
Qed.

(** The response that opens a tunnel. *)
Definition tunnel_response (udp : bool) : string := if udp then upgrade_response else connect_response.

Lemma tunnel_reads_back udp later :
  exists resp, ReadResponse (tunnel_response udp +:+ later) = (Ok resp, later) /\ interim resp = false /\
    if udp then StatusCode resp = 101 /\ Get (RespHeader resp) "Upgrade" = "connect-udp"%string
    else StatusCode resp = 200.
Proof.
  destruct udp; eexists; (split; [|]).
  - change (tunnel_response true +:+ later)%string with
      ("HTTP/1.1 " +:+ "101 Switching Protocols" +:+ crlf +:+
       field_lines [("Connection", "Upgrade"); ("Upgrade", "connect-udp"); ("Capsule-Protocol", "?1")] +:+ crlf +:+ later)%string.
    apply ReadResponse_written; [reflexivity|vm_compute; reflexivity|repeat constructor].
  - by vm_compute.
  - change (tunnel_response false +:+ later)%string with
      ("HTTP/1.1 " +:+ "200 OK" +:+ crlf +:+ field_lines [] +:+ crlf +:+ later)%string.
    apply ReadResponse_written; [reflexivity|vm_compute; reflexivity|constructor].
  - by vm_compute.
Qed.

(** What happens to the connection of a dial that was answered. *)
Definition exchange_events (r : Request) : list conn_event :=
  [ConnOpen; ConnWatch; ConnSend r; ConnDeadline None; ConnUnwatch].

(** A dial whose boundary answers with these bytes. *)
Lemma dial_answered c udp host port reply resp rest :
  ReadResponse reply = (Ok resp, rest) -> interim resp = false ->
  dial c (answering reply) udp host port =
  (let sent := exchange_events (dial_request c udp host port) in
   if (if udp then (StatusCode resp =? 101) && String.eqb (Get (RespHeader resp) "Upgrade") "connect-udp"
       else negb ((StatusCode resp <? 200) || (299 <? StatusCode resp)))
   then (sent, inl resp) else (sent ++ [ConnClose], inr (refusal resp))).
Proof.
  intros Hr Hi. pose proof (readFinal_answering _ _ _ Hr Hi) as Hf. unfold dial, DialUDP, DialTCP, roundTrip.
  cbn [t_dial t_write answering]. change (response_stream _ reply) with (t_responses (answering reply)). rewrite Hf.
  destruct udp.
  - unfold StatusSwitchingProtocols. rewrite <- negb_andb. by destruct (_ && _).
  - by destruct (_ || _).
Qed.

Lemma upstream_refusals_readable status reason :
  In (status, reason) upstream_refusals -> In status refusal_statuses /\ str_all name_byte reason = true.
Proof.
  intros Hin. assert (forallb (fun d => existsb (Z.eqb (fst d)) refusal_statuses && str_all name_byte (snd d)) upstream_refusals = true)
    as Hall by (vm_compute; reflexivity).
  rewrite forallb_forall in Hall. specialize (Hall _ Hin). cbn [fst snd] in Hall. bool_to_prop. split; [|done].
  match goal with Hx : existsb _ _ = true |- _ => apply existsb_exists in Hx as (x & Hx & E) end.
  apply Z.eqb_eq in E. by subst.
Qed.

(** ** A dial and its decision *)

(** [url.ParseRequestURI] of an origin-form target: the decoded path. *)
Definition parses_origin_form (ParseRequestURI : string -> option (bool * string)) : Prop :=
  forall raw path, has_prefix "/" raw = true -> has_prefix "//" raw = false ->
    str_all encoded_path_byte raw = true -> PathUnescape raw = Some path ->
    ParseRequestURI raw = Some (false, path).

Section Meet.
Context `{GoUnicode, NameProfile, HttpgutsLaws}.
Context (punycode : string -> Result string).
Context (lookupNetIP : string -> option (list Addr)).
Context (net_Dial : string -> string -> option string).
Context (ParseRequestURI : string -> option (bool * string)).
Context (current : option policy) (listenerName now : string).

(** The handler the boundary runs on the head of a dial, with its target read. *)
Lemma dial_handled c udp host port peer n h :
  plain_host host = true -> 1 <= port <= 65535 -> parses_origin_form ParseRequestURI ->
  sendable (c_Header c) ->
  let fields := request_fields (wire_host c udp host port) (req_Header (dial_request c udp host port)) in
  h = mkHead (if udp then "GET" else "CONNECT") (wire_target c udp host port) 1 1 (fold_left add_field fields ∅) ->
  let s := mkSession peer (format_uint ((n + 1) mod 2 ^ 64)) in
  let network := if udp then "udp"%string else "tcp"%string in
  serve lookupNetIP net_Dial ParseRequestURI current listenerName now (Ok peer) n (inl h) =
  ((do upstream <- connectUpstream lookupNetIP net_Dial current listenerName now "h1" network host (format_uint port) s;
    tunnel network (tunnel_response udp) upstream) ;;
   emit CloseConn ;; tret ((n + 1) mod 2 ^ 64)).
Proof.
  intros Hh Hport Hparse Hc fields -> s network. unfold serve, newSession. cbv zeta iota beta. fold s.
  cbn [h_method]. pose proof (plain_host_spec host Hh) as (Hne & Hb & Hascii & Hbr & Hpct & Hslash).
  pose proof (sendable_dial c udp host port Hc) as Hsend.
  assert (Values (fold_left add_field fields ∅) "Host" = [wire_host c udp host port]) as Hhost
    by (rewrite Values_fold_fields; by apply request_fields_host).
  destruct udp.
  - change (String.eqb "GET" "CONNECT") with false. change (String.eqb "GET" "GET") with true. cbv iota. cbn [andb].
    assert (forall key v, req_Header (udp_request c host port) !! key = Some [v] -> header_text v = v ->
      is_token key = true -> existsb (String.eqb key) excluded_fields = false ->
      In v (Values (fold_left add_field fields ∅) key)) as Hown.
    { intros key v E Ht Hk Hex. rewrite Values_fold_fields. apply in_or_app. right. rewrite <- Ht.
      destruct (req_Header (dial_request c true host port) !! key) as [vs|] eqn:Evs.
      - apply (request_fields_value _ _ key vs v); try done.
        unfold dial_request, add_headers, Header in *. cbn [req_Header] in *. rewrite lookup_union_with, E in Evs.
        revert Evs. match goal with |- union_with _ _ ?o = _ -> _ => destruct o end; intros [= <-]; by left.
      - unfold dial_request, add_headers, Header in *. cbn [req_Header] in *. rewrite lookup_union_with, E in Evs.
        revert Evs. by match goal with |- union_with _ _ ?o = _ -> _ => destruct o end. }
    assert (HeaderValuesContainsToken (Values (fold_left add_field fields ∅) "Upgrade") "connect-udp" = true) as Hu
      by (apply contains_listed_token; [reflexivity|]; apply Hown; vm_compute; reflexivity).
    assert (HeaderValuesContainsToken (Values (fold_left add_field fields ∅) "Connection") "Upgrade" = true) as Hcn
      by (apply contains_listed_token; [reflexivity|]; apply Hown; vm_compute; reflexivity).
    unfold isUpgrade. cbn [h_header]. rewrite Hu.
    unfold handleConnectUDP, upgradeTarget. cbn [h_header h_target]. rewrite Hu, Hcn. cbn [negb orb]. unfold wire_target.
    destruct (masque_path_reads_back (authority c) host port) as [Hdec Hread].
    rewrite (Hparse _ (u_Path (udpProxyURL (authority c) host port))); [|done|done|apply raw_path_bytes|done].
    by rewrite Hread.
  - change (String.eqb "CONNECT" "CONNECT") with true. cbv iota. unfold handleConnect.
    rewrite (connect_reads_back host port); try done. rewrite host_header_bytes. by apply hostport_bytes.
Qed.

(** Claim C4: a dial of the client is a decision of the boundary. Take a host
    without brackets or zone, a port, and configured headers that can be sent.
    [Request.Write] writes the request; when it fits the head limit, the boundary
    reads that head and nothing after it, whatever the client sends early, and runs
    its decision for exactly that transport, host and port, then closes. The client
    gets from the bytes the boundary writes, and whatever follows them, a tunnel
    exactly when the decision connected an upstream, with the bytes that follow the
    response left in the tunnel; otherwise the connection is closed, and the error
    carries the status and the reason of the one refusal the boundary made. *)
Theorem dial_meets_boundary (c : BoundaryClient) (udp : bool) (host : string) (port : Z)
    (peer : string) (n : Z) :
  plain_host host = true -> 1 <= port <= 65535 -> sendable (c_Header c) ->
  str_all host_byte (authority c) = true -> parses_origin_form ParseRequestURI ->
  let network := if udp then "udp"%string else "tcp"%string in
  let r := dial_request c udp host port in
  exists request, WriteRequest punycode r = Ok request /\
  (str_len request <= maxHeadBytes -> forall early later,
   let s := mkSession peer (format_uint ((n + 1) mod 2 ^ 64)) in
   let (t, upstream) :=
     connectUpstream lookupNetIP net_Dial current listenerName now "h1" network host (format_uint port) s in
   let (trace, n') :=
     serve_bytes lookupNetIP net_Dial ParseRequestURI current listenerName now (Ok peer) n (request +:+ early) in
   let reply := (written trace +:+ later)%string in
   n' = (n + 1) mod 2 ^ 64 /\ snd (read_head (request +:+ early)) = early /\
   snd (ReadResponse reply) = later /\
   match upstream with
   | Some remote =>
       trace = t ++ [Respond (tunnel_response udp); Tunnel network remote; CloseUpstream; CloseConn] /\
       exists resp, dial c (answering reply) udp host port = (exchange_events r, inl resp)
   | None =>
       trace = t ++ [CloseConn] /\
       exists status reason, denials t = [("h1"%string, status, reason)] /\
         dial c (answering reply) udp host port =
           (exchange_events r ++ [ConnClose], inr (Refused status (status_text status) reason))
   end).
Proof.
  intros Hh Hport Hc Ha Hparse network r. eexists. split; [by apply (dial_written punycode)|]. fold r.
  set (fields := request_fields _ _). intros Hlen early later s.
  destruct (wire_target_plain c udp host port Hh) as (Hne & Hsp & Hlf).
  assert (read_head (request_head (if udp then "GET" else "CONNECT") (wire_target c udp host port) fields +:+ early) =
    (inl (mkHead (if udp then "GET" else "CONNECT") (wire_target c udp host port) 1 1 (fold_left add_field fields ∅)), early)) as Hread.
  { pose proof (sendable_dial c udp host port Hc) as Hs. apply read_head_written; try done.
    - by destruct udp.
    - apply request_fields_ok; [|done]. destruct udp; [by apply removeZone_bytes|by apply hostport_bytes].
    - eexists. by apply request_fields_host. }
  unfold serve_bytes. rewrite Hread. cbn [fst snd].
  pose proof (dial_handled c udp host port peer n _ Hh Hport Hparse Hc eq_refl) as Hd.
  cbv zeta in Hd. fold r fields s network in Hd. rewrite Hd. clear Hd.
  pose proof (connectUpstream_shape lookupNetIP net_Dial current listenerName now "h1" network host (format_uint port) s) as Hshape.
  pose proof (connectUpstream_refusals lookupNetIP net_Dial ParseRequestURI current listenerName now "h1" network host (format_uint port) s) as Hreg.
  destruct (connectUpstream _ _ _ _ _ "h1" network host (format_uint port) s) as [t [remote|]]; cbn.
  - destruct Hshape as (ds & target & a & -> & Hds & _). split; [done|]. split; [done|].
    rewrite !written_app, (written_dials ds Hds). cbn [written String.append]. rewrite !app_string_nil_r.
    destruct (tunnel_reads_back udp later) as (resp & E & Hi & Hg). rewrite E. split; [done|].
    split; [by rewrite <- app_assoc|]. exists resp. rewrite (dial_answered c udp host port _ resp later E Hi).
    destruct udp; [destruct Hg as [-> ->]|rewrite Hg]; reflexivity.
  - destruct Hshape as (ds & a & status & -> & Hds & _). rewrite app_nil_r. split; [done|]. split; [done|].
    destruct (upstream_refusals_readable status (a_Reason a)) as [Hst Hre].
    { apply (Hreg ("h1"%string, status, a_Reason a)). cbn [fst]. rewrite denials_app. apply in_or_app. right. by left. }
    rewrite !written_app, (written_dials ds Hds). cbn [written String.append]. rewrite !app_string_nil_r.
    destruct (deny_reads_back status (a_Reason a) later Hst Hre) as (resp & E & Hcode & Href & Hi).
    destruct (refusal_status_line status Hst) as (_ & _ & _ & Hno2 & Hno1).
    rewrite E. split; [done|]. split; [done|]. exists status, (a_Reason a). split.
    { rewrite denials_app, (proj1 (proj2 (dials_only_dials ds Hds))). done. }
    rewrite (dial_answered c udp host port _ resp later E Hi), Hcode, Hno1, Hno2, Href. by destruct udp.
Qed.
End Meet.

(** ** Concrete instances *)

#[local] Existing Instance ascii_unicode.
#[local] Existing Instance ascii_profile.

(** Checks that follow the documentation of [httpguts]. *)
Definition documented_httpguts : Httpguts := {|
  ValidHeaderFieldName := is_token;
  ValidHostHeader := str_all host_byte;
  HeaderValuesContainsToken vs t := existsb (String.eqb t) vs;
|}.

Lemma documented_laws : HttpgutsLaws (H := documented_httpguts).
Proof.
  constructor; [done|done|]. intros vs t _ Hin. apply existsb_exists. exists t. split; [done|apply String.eqb_refl].
Qed.

Definition parse_origin (raw : string) : option (bool * string) :=
  if has_prefix "/" raw then pair false <$> PathUnescape raw else None.

Lemma parse_origin_ok : parses_origin_form parse_origin.
Proof. intros raw path Hp _ _ E. unfold parse_origin. by rewrite Hp, E. Qed.

(** A client with an identity header, and a listener without a policy. *)
Definition sample_client : BoundaryClient :=
  mkBoundaryClient "" {["X-Sandbox-Id" := ["sb 1"]]}%string.

Lemma sample_client_sendable : sendable (c_Header sample_client).
Proof.
  intros key vs E. cbn [c_Header sample_client] in E. apply lookup_singleton_Some in E as [<- <-].
  split; [reflexivity|repeat constructor].
Qed.

Definition sample_request : string :=
  ("CONNECT [2001:db8::1]:443 HTTP/1.1" +:+ crlf +:+ "Host: [2001:db8::1]:443" +:+ crlf +:+
   "User-Agent: Go-http-client/1.1" +:+ crlf +:+ "X-Sandbox-Id: sb 1" +:+ crlf +:+ crlf)%string.

Example sample_request_written :
  WriteRequest (H := documented_httpguts) Err (dial_request sample_client false "2001:db8::1" 443) = Ok sample_request.
Proof. vm_compute. reflexivity. Qed.

Lemma dial_meets_boundary_witness :
  exists request, WriteRequest (H := documented_httpguts) Err (dial_request sample_client true "2001:db8::1" 53) = Ok request /\
  exists status reason,
    dial sample_client
      (answering (written (fst (serve_bytes (H1 := documented_httpguts) (fun _ => None) (fun _ _ => None) parse_origin
                                 None "l" "t" (Ok EmptyString) 0 (request +:+ "x"))) +:+ "y"))
      true "2001:db8::1" 53 =
    (exchange_events (dial_request sample_client true "2001:db8::1" 53) ++ [ConnClose],
     inr (Refused status (status_text status) reason)).
Proof.
  destruct (@dial_meets_boundary _ _ documented_httpguts documented_laws Err (fun _ => None) (fun _ _ => None) parse_origin
    None "l" "t" sample_client true "2001:db8::1" 53 EmptyString 0)
    as (request & E & Hmeet); [reflexivity|lia|exact sample_client_sendable|reflexivity|exact parse_origin_ok|].
  exists request. split; [exact E|]. injection E as Er.
  specialize (Hmeet ltac:(rewrite <- Er; vm_compute; discriminate) "x"%string "y"%string).
  cbv zeta in Hmeet. change (connectUpstream _ _ _ _ _ _ _ _ _ _) with
    (connectUpstream (fun _ => None) (fun _ _ => None) None "l" "t" "h1" "udp" "2001:db8::1" (format_uint 53)
      (mkSession EmptyString (format_uint ((0 + 1) mod 2 ^ 64)))) in Hmeet.
  destruct (serve_bytes _ _ _ _ _ _ _ _ _) as [trace n'] eqn:Es. cbn in Hmeet.
  destruct Hmeet as (_ & _ & _ & _ & status & reason & _ & Hd). exists status, reason. exact Hd.
Defined.
