(* ===== verification/Forwarder.v ===== *)
(** * Forwarding a guest flow

    [sdk/pkg/tun2connect/forwarder.go]: recovering the host of a destination,
    the dials that use it, and the DNS service. The boundary dialer is the
    [BoundaryClient] of [Connect]; the relays are in [Relay]. *)

From S2P Require Import Prelude GoStrings Netip VirtualDNS Http Connect.

Local Open Scope go_scope.

(** A [netip.AddrPort]. *)
Record AddrPort := mkAddrPort { ap_Addr : Addr; ap_Port : Z }.

Definition ErrInvalidDestination : string := "tun2connect: invalid destination".

(** The timeout of [dialContext], in nanoseconds. *)
Definition dial_timeout (DialTimeout : Z) : Z :=
  if DialTimeout <=? 0 then 15 * Second else DialTimeout.

Section Forwarder.
Context `{GoUnicode}.

(** [None] is a panic of the virtual DNS. *)
Definition targetHost (d : VirtualDNS) (destination : AddrPort)
  : option (Result string * VirtualDNS) :=
  if negb (IsValid (ap_Addr destination)) || (ap_Port destination =? 0)
  then Some (Err ErrInvalidDestination, d)
  else
    let address := Unmap (ap_Addr destination) in
    match Reverse d address with
    | None => None
    | Some (Some name, d) => Some (Ok name, d)
    | Some (None, d) => Some (Ok (addr_string address), d)
    end.

(** The events on the boundary connection and the outcome, for one transport. *)
Definition Forwarder_DialTCP (c : BoundaryClient) (t : transport) (d : VirtualDNS)
    (destination : AddrPort)
  : option (list conn_event * (Response + dial_error) * VirtualDNS) :=
  match targetHost d destination with
  | None => None
  | Some (Err e, d) => Some ([], inr (Failed e), d)
  | Some (Ok host, d) => Some (DialTCP c t host (ap_Port destination), d)
  end.

Definition Forwarder_DialUDP (c : BoundaryClient) (t : transport) (d : VirtualDNS)
    (destination : AddrPort)
  : option (list conn_event * (Response + dial_error) * VirtualDNS) :=
  match targetHost d destination with
  | None => None
  | Some (Err e, d) => Some ([], inr (Failed e), d)
  | Some (Ok host, d) => Some (DialUDP c t host (ap_Port destination), d)
  end.

Context `{DNSMessage}.

(** [ServeDNS] on the queries read before the connection ends; [writes] says
    which of the writes succeed. The result is the responses it wrote. *)
Fixpoint ServeDNS (d : VirtualDNS) (queries : list (list Z)) (writes : list bool)
  : option (list (list Z) * VirtualDNS) :=
  match queries with
  | [] => Some ([], d)
  | query :: queries =>
      match HandleQuery d query with
      | None => None
      | Some (Err _, d) => ServeDNS d queries writes
      | Some (Ok response, d) =>
          match writes with
          | false :: _ => Some ([], d)
          | _ =>
              match ServeDNS d queries (tl writes) with
              | None => None
              | Some (rs, d) => Some (response :: rs, d)
              end
          end
      end
  end.
End Forwarder.
