(* ===== verification/EndToEnd.v ===== *)
(** * From a guest's lookup to the boundary's decision

    The virtual DNS, the forwarder, the client and the boundary together: the
    name a guest resolved is the name the boundary authorizes, and an address
    whose name is gone is authorized as a literal only. *)

From S2P Require Import Prelude GoStrings Netip Policy PolicyAddr PolicyRules PolicyLoad PolicyAuth.
From S2P Require Import VirtualDNS VirtualDNSSpec VirtualDNSFacts Http Connect Head Boundary BoundaryFacts Forwarder.

Local Open Scope go_scope.

(** The text of an IPv4 address has no letters. *)
Lemma to_lower_string4 `{GoUnicode} v : to_lower (addr_string (Addr4 v)) = addr_string (Addr4 v).
Proof.
  change (addr_string (Addr4 v)) with (string4 v). destruct (string4_text v) as [Ht _].
  unfold to_lower. assert (is_ascii (string4 v) = true /\ str_map lower_byte (string4 v) = string4 v)
    as [-> ->]; [|done].
  revert Ht. generalize (string4 v). intros s. induction s as [|c s IH]; [done|].
  rewrite str_all_cons, andb_true_iff. intros [Hc Hs]. destruct (IH Hs) as [Ha Hm]. split.
  - unfold is_ascii. rewrite str_all_cons. fold (is_ascii s). rewrite Ha, andb_true_r.
    unfold is_digit, is_ascii_byte in *.
    destruct (Ascii.eqb "." c) eqn:E; [apply Ascii.eqb_eq in E; by subst|]. lia.
  - cbn [str_map]. rewrite Hm. f_equal. unfold lower_byte, is_upper_letter, is_digit in *.
    destruct (Ascii.eqb "." c) eqn:E; [apply Ascii.eqb_eq in E; by subst|].
    destruct ((65 <=? byte_of c) && (byte_of c <=? 90)) eqn:Eu; [lia|done].
Qed.

Section EndToEnd.
Context `{GoUnicode, NameProfile, Httpguts}.

(** The head a request becomes on the wire: its target and Host field. *)
Definition carries (req : Request) (h : head) : Prop :=
  h_target h = req_Host req /\ Values (h_header h) "Host" = [req_Host req].

(** The tunnel that follows a decision dials nothing more. *)
Lemma dial_then_tunnel (u : traced (option string)) response network target ok :
  In (Dial network target ok) (do upstream <- u; tunnel "tcp" response upstream).1 ->
  In (Dial network target ok) u.1.
Proof.
  destruct u as [events [remote|]]; unfold tbind; cbn; rewrite in_app_iff; intros [Hin|Hin]; try done;
    repeat destruct Hin as [Hin|Hin]; done.
Qed.

(** Claim C3: names are preserved end to end. Let a guest have resolved a name
    to an address, in any state the resolver can reach, where the canonical
    form of the name is ASCII text without brackets. For any port, a dial of
    that address, after fewer than 2^16 - 1 other calls and when the
    connection to the boundary opens, sends exactly one CONNECT request, for
    the canonical name. A boundary that receives it as a target and a Host
    field that are legal host text takes that name and port for its
    destination: what it decides, dials and tunnels is what it does for that
    name, and every dial is of an address its policy's verdict on that name
    carries. *)
Theorem name_preserved (os os' : list op) (xs xs' : list outcome) (d d1 d2 : VirtualDNS)
    (name : string) (v6flag : bool) (a : Addr) (port : Z) (c : BoundaryClient) (t : transport)
    (lookupNetIP : string -> option (list Addr)) (net_Dial : string -> string -> option string)
    (current : option policy) (listenerName now : string) (s : session) :
  run NewVirtualDNS os = Some (xs, d) -> resolve d name v6flag = Some (Ok a, d1) ->
  run d1 os' = Some (xs', d2) -> Z.of_nat (List.length os') < maxSyntheticNames ->
  is_ascii (canonical name) = true -> no_brackets (canonical name) = true ->
  1 <= port <= 65535 -> is_ok (t_dial t) = true ->
  exists req events out d3,
    Forwarder_DialTCP c t d2 (mkAddrPort a port) = Some (events, out, d3) /\
    requests events = [req] /\ req_Method req = "CONNECT"%string /\
    forall h, carries req h -> ValidHostHeader (h_target h) = true ->
      connectTarget h = Ok (canonical name, format_uint port) /\
      let served := handleConnect lookupNetIP net_Dial current listenerName now h s in
      served = (do upstream <- connectUpstream lookupNetIP net_Dial current listenerName now
                                 "h1" "tcp" (canonical name) (format_uint port) s;
                tunnel "tcp" connect_response upstream) /\
      forall network target ok, In (Dial network target ok) served.1 ->
        network = "tcp"%string /\ exists p b, current = Some p /\
          In b (v_addresses (policy_authorize lookupNetIP p (canonical name) (format_uint port) "tcp")) /\
          target = join_host_port (addr_string b) (format_uint port).
Proof.
  intros Hrun Hres Hrun' Hlen Hascii Hbr Hport Hdial.
  destruct (name_survives _ _ _ _ _ _ _ _ _ _ Hrun Hres Hrun' Hlen) as [[d3 Hrev] _].
  destruct (resolve_allocated _ _ _ _ _ _ _ Hrun Hres) as (z & Ea & Hz).
  assert (canonical name <> EmptyString) as Hne by (by apply (resolve_nonempty _ _ _ _ _ Hres)).
  unfold Forwarder_DialTCP, targetHost. cbn [ap_Addr ap_Port].
  assert (IsValid a = true) as -> by (subst a; by destruct v6flag).
  rewrite (proj2 (Z.eqb_neq port 0)) by lia. cbn [negb orb].
  assert (Unmap a = a) as -> by (subst a; by apply Unmap_mk_addr). rewrite Hrev.
  destruct (dial_sends_once c t (canonical name) port Hdial) as (req & Hev & Hm & Hhost).
  destruct (DialTCP c t (canonical name) port) as [events out]. simpl in Hev.
  exists req, events, out, d3. split; [done|]. split; [done|]. split; [done|].
  intros h [Ht Hv] Hvalid. rewrite Hhost in Ht, Hv.
  assert (connectTarget h = Ok (canonical name, format_uint port)) as Htarget by (by apply connect_reads_back).
  split; [done|]. unfold handleConnect. rewrite Htarget. split; [done|]. intros network target ok Hin.
  apply dial_then_tunnel, connectUpstream_dials in Hin as (-> & p & b & Ec & _ & Hb & ->).
  split; [done|]. by exists p, b.
Qed.

(** Claim C17: a stale synthetic address fails closed. A destination in the
    IPv4 pool that [Reverse] does not know is forwarded as the text of the
    address, and the boundary denies that host, with no address to dial, under
    every policy with no literal rule that covers it: no name, suffix or
    wildcard rule and no exception can let it through. *)
Theorem forgotten_address_denied (lookupNetIP : string -> option (list Addr)) (p : policy)
    (d d' : VirtualDNS) (v : Z) (port : Z) (network : string) :
  pool_base false < v < pool_limit false -> 1 <= port <= 65535 ->
  Reverse d (Addr4 v) = Some (None, d') ->
  (forall r, In r (p_literals p) -> Contains (r_prefix r) (Addr4 v) = false) ->
  exists host, targetHost d (mkAddrPort (Addr4 v) port) = Some (Ok host, d') /\
    let w := policy_authorize lookupNetIP p host (format_uint port) network in
    v_addresses w = [] /\ v_reason w <> EmptyString.
Proof.
  intros Hv Hport Hrev Hno. exists (addr_string (Addr4 v)). split.
  - unfold targetHost. cbn [ap_Addr ap_Port IsValid negb orb].
    rewrite (proj2 (Z.eqb_neq port 0)) by lia. change (Unmap (Addr4 v)) with (Addr4 v).
    by rewrite Hrev.
  - assert (ParseAddr (to_lower (addr_string (Addr4 v))) = Some (Addr4 v)) as Hparse.
    { rewrite to_lower_string4. apply ParseAddr_string4. unfold pool_base, pool_limit in Hv. lia. }
    destruct (literal_decision lookupNetIP p (addr_string (Addr4 v)) (format_uint port) network
                port (Addr4 v) Hparse eq_refl (parsePort_format _ Hport)) as (Hiff & Hor & _).
    cbv zeta in *. change (Unmap (Addr4 v)) with (Addr4 v) in *.
    destruct Hor as [Ha|Hd]; [|done]. exfalso.
    destruct (authorize_cases lookupNetIP p (addr_string (Addr4 v)) (format_uint port) network)
      as [(_ & Hr & _)|[(Hnil & _)|(Hnil & _)]]; [|congruence..].
    destruct (proj1 Hiff (conj Ha Hr)) as (r & Hin & Hc & _). by rewrite Hno in Hc.
Qed.
End EndToEnd.

(** ** Concrete instances *)

#[local] Existing Instance ascii_unicode.
#[local] Existing Instance ascii_profile.
#[local] Existing Instance sample_httpguts.

Definition sample_transport : transport :=
  mkTransport (Some 15) (Ok tt) (Ok tt) [Ok (mkResponse 200 "200 OK" ∅)] false.

Definition one_name : VirtualDNS :=
  match resolve NewVirtualDNS "DB.example.com." true with Some r => snd r | None => NewVirtualDNS end.

Lemma name_preserved_witness :
  exists req events out d3,
    Forwarder_DialTCP (mkBoundaryClient "" ∅) sample_transport one_name
      (mkAddrPort (Addr6 (2 ^ 120 + 1) EmptyString) 443) =
      Some (events, out, d3) /\ requests events = [req] /\
    forall h, carries req h -> ValidHostHeader (h_target h) = true ->
      connectTarget h = Ok ("db.example.com"%string, "443"%string).
Proof.
  destruct (name_preserved [] [] [] [] NewVirtualDNS one_name one_name "DB.example.com." true
              (Addr6 (2 ^ 120 + 1) EmptyString) 443 (mkBoundaryClient "" ∅) sample_transport
              (fun _ => None) (fun _ _ => None) None "l" "t" (mkSession "peer" "1"))
    as (req & events & out & d3 & E & Hr & _ & Hh);
    [reflexivity|vm_compute; reflexivity|reflexivity|reflexivity|vm_compute; reflexivity
    |vm_compute; reflexivity|lia|reflexivity|].
  exists req, events, out, d3. split; [exact E|]. split; [exact Hr|].
  intros h Hc Hv. exact (proj1 (Hh h Hc Hv)).
Defined.

Lemma forgotten_address_denied_witness :
  exists host, targetHost NewVirtualDNS (mkAddrPort (Addr4 1681915999) 443)
                 = Some (Ok host, NewVirtualDNS) /\
    v_addresses (policy_authorize (fun _ => None) (named_policy []) host "443" "tcp") = [].
Proof.
  destruct (forgotten_address_denied (fun _ => None) (named_policy []) NewVirtualDNS NewVirtualDNS
              1681915999 443 "tcp") as (host & E & Hnil & _).
  - unfold pool_base, pool_limit. lia.
  - lia.
  - reflexivity.
  - intros r [].
  - exists host. split; [exact E|exact Hnil].
Defined.
