(* ===== verification/Engine.v ===== *)
(** * The engine: one worker per guest flow

    [sdk/pkg/tun2connect/engine.go]: the defaults of [New], the session
    budget, the TCP and UDP request handlers with their goroutines, and [Close].
    A step is one visible effect of one goroutine, so the executions of
    [reachable] are the interleavings of the handlers, their workers and [Close].
    [acquire] is one step, because it runs under the engine's mutex; [release] is
    two, because it does not. What a dial or an endpoint of the netstack answers
    is an input of the step. A goroutine in a dial or a relay is blocked: it goes
    on when what it waits for answers, which it may never do, or once the context
    of the engine is cancelled. *)

From S2P Require Import Prelude GoStrings Netip VirtualDNS Forwarder.

Local Open Scope go_scope.

(** ** Configuration *)

Record Config := mkConfig {
  Device : bool;  (** whether each interface value is set *)
  Dialer : bool;
  DNS : bool;
  Addresses : list Prefix;
  MaxConnections : Z;
  EnableUDP : bool;
  UDPIdleTimeout : Z;
  DialTimeout : Z;
}.

Definition invalid_interface_address (address : Prefix) : bool :=
  negb (PrefixIsValid address) || Is4In6 (p_addr address).

(** What [New] checks, and the configuration it keeps. *)
Definition New_config (cfg : Config) : Result Config :=
  if negb (Device cfg) || negb (Dialer cfg) || negb (DNS cfg)
  then Err "tun2connect: Device, Dialer and DNS are all required"
  else if existsb invalid_interface_address (Addresses cfg)
  then Err "tun2connect: invalid interface address %s"
  else Ok (mkConfig true true true (Addresses cfg)
             (if MaxConnections cfg <=? 0 then 1024 else MaxConnections cfg)
             (EnableUDP cfg)
             (if UDPIdleTimeout cfg <=? 0 then 30 * Second else UDPIdleTimeout cfg)
             (if DialTimeout cfg <=? 0 then 15 * Second else DialTimeout cfg)).

(** The calls on the netstack, in the order [New] makes them. *)
Inductive stack_call : Type :=
| EnableSACK
| CreateNIC
| AddProtocolAddress (is4 : bool) (address : Addr) (bits : Z)
| SetPromiscuousMode
| SetSpoofing
| SetRouteTable
| SetTCPHandler
| SetUDPHandler
| StackClose.

Definition address_call (address : Prefix) : stack_call :=
  AddProtocolAddress (Is4 (p_addr address)) (p_addr address) (p_bits address).

(** The calls that can fail, with the message that wraps the failure. *)
Definition fallible_calls (cfg : Config) : list (stack_call * string) :=
  [(EnableSACK, "tun2connect: enable SACK: %s"%string);
   (CreateNIC, "tun2connect: create NIC: %s"%string)] ++
  map (fun a => (address_call a, "tun2connect: add interface address: %s"%string)) (Addresses cfg) ++
  [(SetPromiscuousMode, "tun2connect: promiscuous mode: %s"%string);
   (SetSpoofing, "tun2connect: spoofing: %s"%string)].

Fixpoint run_calls (fails : stack_call -> bool) (calls : list (stack_call * string))
  : list stack_call * option string :=
  match calls with
  | [] => ([], None)
  | (c, msg) :: calls =>
      if fails c then ([c], Some msg)
      else let '(done, r) := run_calls fails calls in (c :: done, r)
  end.

(** [New]: the calls made, and its result; on a failure the deferred function
    closes the stack. *)
Definition New (fails : stack_call -> bool) (cfg : Config) : list stack_call * Result Config :=
  match New_config cfg with
  | Err e => ([], Err e)
  | Ok cfg =>
      match run_calls fails (fallible_calls cfg) with
      | (calls, Some e) => (calls ++ [StackClose], Err e)
      | (calls, None) => (calls ++ [SetRouteTable; SetTCPHandler; SetUDPHandler], Ok cfg)
      end
  end.

(** ** State *)

Inductive conn_state : Type := NoConn | ConnUp | ConnDown.

#[export] Instance conn_state_eq_dec : EqDecision conn_state.
Proof. solve_decision. Defined.

Inductive flow_kind : Type := TCPFlow | UDPFlow | DNSFlow.

(** Where the goroutine of a flow is. *)
Inductive phase : Type :=
| Dialing | Creating | Relaying
| Releasing   (** before [<-e.sessions] *)
| Finishing   (** before [e.workers.Done()] *)
| Ended.

#[export] Instance phase_eq_dec : EqDecision phase.
Proof. solve_decision. Defined.

(** The call the worker makes on the forwarder before it relays. *)
Inductive forwarder_call : Type :=
| CallDialTCP (destination : AddrPort)
| CallDialUDP (destination : AddrPort)
| CallServeDNS.

Record flow := mkFlow {
  f_kind : flow_kind;
  f_address : list Z;          (** [id.LocalAddress] *)
  f_port : Z;                  (** [id.LocalPort] *)
  f_phase : phase;
  f_calls : list forwarder_call;
  f_completes : list bool;     (** arguments of [r.Complete], oldest first *)
  f_accepted : option bool;    (** what [handleUDP] returned *)
  f_guest : conn_state;
  f_upstream : conn_state;
}.

(** [Close] runs once: it sets [closed], cancels the context, waits, and closes the
    stack. *)
Inductive closing : Type := NotClosing | Marked | Waiting | StackClosed.

#[export] Instance closing_eq_dec : EqDecision closing.
Proof. solve_decision. Defined.

Record Engine := mkEngine {
  e_closed : bool;
  e_cancelled : bool;  (** the context, that dials and relays watch *)
  e_sessions : Z;      (** elements of the channel *)
  e_workers : Z;       (** counter of the wait group *)
  e_closing : closing;
  e_flows : list flow;
}.

Definition engine_init : Engine := mkEngine false false 0 0 NotClosing [].

Definition toNetip (a : list Z) : Addr * bool :=
  let '(addr, ok) := AddrFromSlice a in (Unmap addr, ok).

(** ** Operations *)

Section Operations.
Variable cfg : Config.

Definition acquire (e : Engine) : bool * Engine :=
  if e_closed e then (false, e)
  else if e_sessions e <? MaxConnections cfg
  then (true, mkEngine (e_closed e) (e_cancelled e) (e_sessions e + 1) (e_workers e + 1) (e_closing e) (e_flows e))
  else (false, e).

(** The two halves of [release]; receiving from an empty channel blocks. *)
Definition release_session (e : Engine) : option Engine :=
  if e_sessions e =? 0 then None
  else Some (mkEngine (e_closed e) (e_cancelled e) (e_sessions e - 1) (e_workers e) (e_closing e) (e_flows e)).

Definition release_worker (e : Engine) : Engine :=
  mkEngine (e_closed e) (e_cancelled e) (e_sessions e) (e_workers e - 1) (e_closing e) (e_flows e).

Definition add_flow (e : Engine) (f : flow) : Engine :=
  mkEngine (e_closed e) (e_cancelled e) (e_sessions e) (e_workers e) (e_closing e) (e_flows e ++ [f]).

Definition set_flow (e : Engine) (i : nat) (f : flow) : Engine :=
  mkEngine (e_closed e) (e_cancelled e) (e_sessions e) (e_workers e) (e_closing e) (<[i := f]> (e_flows e)).

Definition set_phase (p : phase) (f : flow) : flow :=
  mkFlow (f_kind f) (f_address f) (f_port f) p (f_calls f) (f_completes f) (f_accepted f)
    (f_guest f) (f_upstream f).

Definition handleTCP (e : Engine) (address : list Z) (port : Z) : Engine :=
  let refused := mkFlow TCPFlow address port Ended [] [true] None NoConn NoConn in
  let '(dst, ok) := toNetip address in
  if negb ok then add_flow e refused
  else let '(acquired, e) := acquire e in
       if negb acquired then add_flow e refused
       else add_flow e (mkFlow TCPFlow address port Dialing [CallDialTCP (mkAddrPort dst port)]
                          [] None NoConn NoConn).

(** [endpoint] says whether [r.CreateEndpoint] succeeds. *)
Definition handleUDP (e : Engine) (address : list Z) (port : Z) (endpoint : bool) : Engine :=
  let rejected p := mkFlow UDPFlow address port p [] [] (Some false) NoConn NoConn in
  let '(acquired, e) := acquire e in
  if negb acquired then add_flow e (rejected Ended)
  else if port =? 53 then
    if negb endpoint then add_flow e (rejected Releasing)
    else add_flow e (mkFlow DNSFlow address port Relaying [CallServeDNS] [] (Some true) ConnUp NoConn)
  else if negb (EnableUDP cfg) then add_flow e (rejected Releasing)
  else let '(dst, ok) := toNetip address in
       if negb ok then add_flow e (rejected Releasing)
       else if negb endpoint then add_flow e (rejected Releasing)
       else add_flow e (mkFlow UDPFlow address port Dialing [CallDialUDP (mkAddrPort dst port)]
                          [] (Some true) ConnUp NoConn).

(** What the call the goroutine is blocked in answers. *)
Inductive answer : Type := Succeeded | Failed.

(** The goroutines up to their [release], when the call they are in returns. A
    relay, and the DNS service, end one way: with both of their connections closed. *)
Definition worker (f : flow) (a : answer) : option flow :=
  let upd p completes guest upstream :=
    Some (mkFlow (f_kind f) (f_address f) (f_port f) p (f_calls f) (f_completes f ++ completes)
            (f_accepted f) guest upstream) in
  match f_phase f, f_kind f, a with
  | Dialing, TCPFlow, Failed => upd Releasing [true] (f_guest f) (f_upstream f)
  | Dialing, TCPFlow, Succeeded => upd Creating [] (f_guest f) ConnUp
  | Creating, TCPFlow, Failed => upd Releasing [true] (f_guest f) ConnDown
  | Creating, TCPFlow, Succeeded => upd Relaying [false] ConnUp (f_upstream f)
  | Dialing, UDPFlow, Failed => upd Releasing [] ConnDown (f_upstream f)
  | Dialing, UDPFlow, Succeeded => upd Relaying [] (f_guest f) ConnUp
  | Relaying, DNSFlow, _ => upd Releasing [] ConnDown (f_upstream f)
  | Relaying, _, _ => upd Releasing [] ConnDown ConnDown
  | _, _, _ => None
  end.

Inductive action : Type :=
| TCPRequest (address : list Z) (port : Z)
| UDPRequest (address : list Z) (port : Z) (endpoint : bool)
| Work (i : nat) (a : answer)       (** a goroutine goes on *)
| Answered (i : nat) (a : answer)   (** a dial is answered, or the connections of a relay end *)
| Closing.

(** One step of [Close]: [closed] is set under the mutex, then [e.cancel()];
    [e.workers.Wait()] blocks while the counter is not zero. *)
Definition close_step (e : Engine) : option Engine :=
  let upd closed cancelled c := Some (mkEngine closed cancelled (e_sessions e) (e_workers e) c (e_flows e)) in
  match e_closing e with
  | NotClosing => upd true (e_cancelled e) Marked
  | Marked => upd (e_closed e) true Waiting
  | Waiting => if e_workers e =? 0 then upd (e_closed e) (e_cancelled e) StackClosed else None
  | StackClosed => None
  end.

(** What the goroutine of a flow does by itself. A blocked one goes on once the
    context is cancelled: the dial fails, and the relay finds its connections
    closed. *)
Definition work_step (e : Engine) (i : nat) (a : answer) : option Engine :=
  match e_flows e !! i with
  | None => None
  | Some f =>
      match f_phase f with
      | Releasing => match release_session e with
                     | Some e => Some (set_flow e i (set_phase Finishing f))
                     | None => None
                     end
      | Finishing => Some (set_flow (release_worker e) i (set_phase Ended f))
      | Dialing | Relaying =>
          if e_cancelled e then f ← worker f Failed; Some (set_flow e i f) else None
      | _ => f ← worker f a; Some (set_flow e i f)
      end
  end.

Definition answered_step (e : Engine) (i : nat) (a : answer) : option Engine :=
  f ← e_flows e !! i;
  match f_phase f with
  | Dialing | Relaying => f ← worker f a; Some (set_flow e i f)
  | _ => None
  end.

Definition engine_step (e : Engine) (act : action) : option Engine :=
  match act with
  | TCPRequest address port => Some (handleTCP e address port)
  | UDPRequest address port endpoint => Some (handleUDP e address port endpoint)
  | Work i a => work_step e i a
  | Answered i a => answered_step e i a
  | Closing => close_step e
  end.

Inductive reachable : Engine -> Prop :=
| reach_init : reachable engine_init
| reach_step e act e' : reachable e -> engine_step e act = Some e' -> reachable e'.

Fixpoint engine_run (e : Engine) (acts : list action) : option Engine :=
  match acts with
  | [] => Some e
  | act :: acts => match engine_step e act with Some e => engine_run e acts | None => None end
  end.

(** ** Invariants *)

(** A flow holds an element of the channel until the first half of its release,
    and counts in the wait group until the second. *)
Definition holds (f : flow) : bool :=
  match f_phase f with Finishing | Ended => false | _ => true end.
Definition live (f : flow) : bool := match f_phase f with Ended => false | _ => true end.

(** What is true of one flow, by its kind and the place of its goroutine. *)
Definition flow_ok (f : flow) : Prop :=
  let dst := mkAddrPort (fst (toNetip (f_address f))) (f_port f) in
  match f_kind f with
  | TCPFlow =>
      f_accepted f = None /\
      match f_phase f with
      | Dialing => f_completes f = [] /\ f_guest f = NoConn /\ f_upstream f = NoConn
      | Creating => f_completes f = [] /\ f_guest f = NoConn /\ f_upstream f = ConnUp
      | Relaying => f_completes f = [false] /\ f_guest f = ConnUp /\ f_upstream f = ConnUp
      | _ =>
          (f_completes f = [true] /\ f_guest f = NoConn /\ f_upstream f <> ConnUp) \/
          (f_completes f = [false] /\ f_guest f = ConnDown /\ f_upstream f = ConnDown)
      end /\
      (f_calls f = [CallDialTCP dst] /\ snd (toNetip (f_address f)) = true \/
       f_calls f = [] /\ f_phase f = Ended /\ f_completes f = [true] /\ f_upstream f = NoConn)
  | UDPFlow =>
      f_completes f = [] /\
      match f_phase f with
      | Creating => False
      | Dialing => f_guest f = ConnUp /\ f_upstream f = NoConn
      | Relaying => f_guest f = ConnUp /\ f_upstream f = ConnUp
      | _ => f_guest f <> ConnUp /\ f_upstream f <> ConnUp
      end /\
      (f_accepted f = Some true /\ f_calls f = [CallDialUDP dst] /\ EnableUDP cfg = true /\
         f_port f <> 53 /\ snd (toNetip (f_address f)) = true \/
       f_accepted f = Some false /\ f_calls f = [] /\ f_guest f = NoConn /\ f_upstream f = NoConn)
  | DNSFlow =>
      f_completes f = [] /\ f_upstream f = NoConn /\
      match f_phase f with
      | Dialing | Creating => False
      | Relaying => f_guest f = ConnUp
      | _ => f_guest f = ConnDown
      end /\
      f_accepted f = Some true /\ f_calls f = [CallServeDNS] /\ f_port f = 53
  end.

Local Ltac flow_cases :=
  destruct_and?; destruct_or?; destruct_and?; simplify_eq/=;
  intuition (simplify_eq/=; eauto; congruence).

Lemma set_phase_ok p f :
  flow_ok f -> f_phase f = Releasing /\ p = Finishing \/ f_phase f = Finishing /\ p = Ended ->
  flow_ok (set_phase p f).
Proof.
  unfold flow_ok, set_phase. destruct f as [k ad po ph ca co ac gu up].
  cbn [f_kind f_address f_port f_phase f_calls f_completes f_accepted f_guest f_upstream].
  intros Hf [[-> ->] | [-> ->]]; destruct k; flow_cases.
Qed.

Lemma worker_ok f a f' : flow_ok f -> worker f a = Some f' -> flow_ok f' /\ f_phase f' <> Ended.
Proof.
  unfold flow_ok, worker. destruct f as [k ad po ph ca co ac gu up].
  cbn [f_kind f_address f_port f_phase f_calls f_completes f_accepted f_guest f_upstream].
  intros Hf Hw. destruct ph, k, a; simplify_eq/=; split; try discriminate; flow_cases.
Qed.

Lemma worker_holds f a f' : worker f a = Some f' -> holds f = true /\ holds f' = true.
Proof. unfold worker, holds. destruct (f_phase f), (f_kind f), a; naive_solver. Qed.

Lemma holds_live f : holds f = true -> live f = true.
Proof. unfold holds, live. by destruct (f_phase f). Qed.

Record engine_inv (e : Engine) : Prop := mkInv {
  inv_sessions : e_sessions e = count holds (e_flows e);
  inv_workers : e_workers e = count live (e_flows e);
  inv_budget : e_sessions e <= MaxConnections cfg;
  inv_closed : e_closed e = true <-> e_closing e <> NotClosing;
  inv_cancelled : e_cancelled e = true <-> e_closing e = Waiting \/ e_closing e = StackClosed;
  inv_stack : e_closing e = StackClosed -> e_workers e = 0;
  inv_flows : Forall flow_ok (e_flows e);
}.

Ltac engine_simpl :=
  cbn [e_closed e_cancelled e_sessions e_workers e_closing e_flows add_flow set_flow release_worker
       f_kind f_address f_port f_phase f_calls f_completes f_accepted f_guest f_upstream set_phase] in *.

(** A handler adds one flow: a refused one that is over, or an admitted one
    with an element of the channel. *)
Lemma add_refused e f : engine_inv e -> flow_ok f -> f_phase f = Ended -> engine_inv (add_flow e f).
Proof.
  intros [] Hf Hp. assert (holds f = false) as Hh by (unfold holds; by rewrite Hp).
  assert (live f = false) as Hl by (unfold live; by rewrite Hp).
  constructor; engine_simpl; rewrite ?count_app, ?Hh, ?Hl; try lia; try done.
  by apply Forall_snoc.
Qed.

Lemma add_acquired e f e' :
  engine_inv e -> acquire e = (true, e') -> flow_ok f -> holds f = true -> engine_inv (add_flow e' f).
Proof.
  intros [] Ha Hf Hh. unfold acquire in Ha. destruct (e_closed e) eqn:Ec; [discriminate|].
  destruct (e_sessions e <? MaxConnections cfg) eqn:Em; [|discriminate]. injection Ha as <-.
  constructor; engine_simpl; rewrite ?count_app, ?Hh, ?(holds_live f Hh); try lia.
  1-2: done.
  - intros Hs. assert (false = true) by (apply inv_closed0; by rewrite Hs). discriminate.
  - by apply Forall_snoc.
Qed.

Lemma acquire_refused e e' : acquire e = (false, e') -> e' = e.
Proof. unfold acquire. intros Ha. by case_hyp Ha. Qed.

(** A goroutine's step replaces its own flow. *)
Lemma replace_flow e i f f' :
  engine_inv e -> e_flows e !! i = Some f -> flow_ok f' -> holds f = holds f' -> live f = live f' ->
  engine_inv (set_flow e i f').
Proof.
  intros [] Hi Hf Hh Hl. constructor; engine_simpl;
    rewrite ?(count_insert _ _ _ _ f' Hi), ?Hh, ?Hl; try lia; try done.
  by apply Forall_insert.
Qed.

Lemma release_flags f p :
  f_phase f = p ->
  holds f = match p with Finishing | Ended => false | _ => true end /\
  live f = match p with Ended => false | _ => true end.
Proof. intros <-. done. Qed.

(** What one step of a goroutine does to the engine. *)
Lemma flow_step e i a e' :
  work_step e i a = Some e' \/ answered_step e i a = Some e' ->
  exists f, e_flows e !! i = Some f /\
    ((exists a' f', worker f a' = Some f' /\ e' = set_flow e i f') \/
     (f_phase f = Releasing /\ exists e1, release_session e = Some e1 /\ e' = set_flow e1 i (set_phase Finishing f)) \/
     (f_phase f = Finishing /\ e' = set_flow (release_worker e) i (set_phase Ended f))).
Proof.
  unfold work_step, answered_step.
  destruct (e_flows e !! i) as [f|]; [|by intros [|]]. intros Hs. exists f. split; [done|].
  assert (forall a', (f0 ← worker f a'; Some (set_flow e i f0)) = Some e' ->
    exists a' f', worker f a' = Some f' /\ e' = set_flow e i f') as Hw.
  { intros a'. destruct (worker f a') as [f'|] eqn:E; [|done]. intros [= <-]. by exists a', f'. }
  destruct (f_phase f) eqn:Hp; destruct Hs as [Hs|Hs]; cbn [mbind option_bind] in Hs; try done;
    repeat case_match; simplify_eq/=; eauto 10.
Qed.

Lemma flow_step_inv e i a e' :
  engine_inv e -> work_step e i a = Some e' \/ answered_step e i a = Some e' -> engine_inv e'.
Proof.
  intros Hinv Hs.
  destruct (flow_step e i a e' Hs) as (f & Hi & [(a' & f' & Hw & ->)|[(Hp & e1 & Hrel & ->)|[Hp ->]]]);
    (assert (flow_ok f) as Hf by (eapply Forall_lookup_1; [apply Hinv|done])).
  - destruct (worker_ok _ _ _ Hf Hw) as [Hok _]. destruct (worker_holds _ _ _ Hw) as [Hh Hh'].
    apply (replace_flow e i f f'); auto; [congruence|by rewrite !holds_live].
  - unfold release_session in Hrel. destruct (e_sessions e =? 0) eqn:E0; [done|]. injection Hrel as <-.
    destruct Hinv. assert (flow_ok (set_phase Finishing f)) as Hok by (apply set_phase_ok; auto).
    destruct (release_flags f _ Hp) as [Hh Hl].
    destruct (release_flags (set_phase Finishing f) _ eq_refl) as [Hh' Hl'].
    constructor; engine_simpl;
      rewrite ?(count_insert _ _ _ _ (set_phase Finishing f) Hi), ?Hh, ?Hl, ?Hh', ?Hl'; try lia; try done.
    by apply Forall_insert.
  - destruct Hinv. assert (flow_ok (set_phase Ended f)) as Hok by (apply set_phase_ok; auto).
    destruct (release_flags f _ Hp) as [Hh Hl].
    destruct (release_flags (set_phase Ended f) _ eq_refl) as [Hh' Hl'].
    constructor; engine_simpl;
      rewrite ?(count_insert _ _ _ _ (set_phase Ended f) Hi), ?Hh, ?Hl, ?Hh', ?Hl'; try lia; try done.
    + intros Hs'. specialize (inv_stack0 Hs'). rewrite inv_workers0 in inv_stack0.
      pose proof (count_insert live _ _ _ (set_phase Ended f) Hi) as Hc.
      pose proof (count_nonneg live (<[i := set_phase Ended f]> (e_flows e))).
      rewrite Hl, Hl' in Hc. lia.
    + by apply Forall_insert.
Qed.

Lemma handleTCP_inv e address port : engine_inv e -> engine_inv (handleTCP e address port).
Proof.
  intros Hinv. unfold handleTCP. destruct (toNetip address) as [dst ok] eqn:Hd.
  assert (engine_inv (add_flow e (mkFlow TCPFlow address port Ended [] [true] None NoConn NoConn))) as Href.
  { apply add_refused; [done| |done]. unfold flow_ok. simpl. naive_solver. }
  destruct ok; [|done]. cbn [negb].
  destruct (acquire e) as [[] e'] eqn:Ha; [|by rewrite (acquire_refused _ _ Ha)].
  apply (add_acquired e); try done. unfold flow_ok. simpl. rewrite Hd. naive_solver.
Qed.

Lemma handleUDP_inv e address port endpoint :
  engine_inv e -> engine_inv (handleUDP e address port endpoint).
Proof.
  intros Hinv. unfold handleUDP. destruct (acquire e) as [[] e'] eqn:Ha; cbn [negb].
  2: { rewrite (acquire_refused _ _ Ha). apply add_refused; [done| |done].
       unfold flow_ok. simpl. naive_solver. }
  assert (engine_inv (add_flow e' (mkFlow UDPFlow address port Releasing [] [] (Some false) NoConn NoConn)))
    as Hrel.
  { apply (add_acquired e); try done. unfold flow_ok. simpl. naive_solver. }
  destruct (port =? 53) eqn:E53; bool_to_prop.
  { destruct endpoint; [|done]. cbn [negb]. by apply (add_acquired e). }
  destruct (EnableUDP cfg) eqn:Eu; [|done]. cbn [negb].
  destruct (toNetip address) as [dst ok] eqn:Hd. destruct ok; [|done]. cbn [negb].
  destruct endpoint; [|done]. cbn [negb].
  apply (add_acquired e); try done. unfold flow_ok. simpl. rewrite Hd. naive_solver.
Qed.

Lemma close_step_inv e e' : engine_inv e -> close_step e = Some e' -> engine_inv e'.
Proof.
  intros []. unfold close_step. destruct (e_closing e) eqn:Ec; rewrite ?Ec in *; [..|done].
  1-2: intros [= <-]; constructor; engine_simpl; try done; intuition congruence.
  destruct (e_workers e =? 0) eqn:E0; [|done]. intros [= <-].
  constructor; engine_simpl; try done; bool_to_prop; intuition congruence.
Qed.

Context (Hmax : 0 <= MaxConnections cfg).

Lemma reachable_inv e : reachable e -> engine_inv e.
Proof.
  induction 1 as [|e act e' Hr IH Hs].
  - by constructor; cbn; try lia; try naive_solver; constructor.
  - destruct act; cbn [engine_step] in Hs.
    + injection Hs as <-. by apply handleTCP_inv.
    + injection Hs as <-. by apply handleUDP_inv.
    + by apply (flow_step_inv _ _ _ _ IH (or_introl Hs)).
    + by apply (flow_step_inv _ _ _ _ IH (or_intror Hs)).
    + by apply (close_step_inv _ _ IH Hs).
Qed.

(** ** Draining *)

Definition phase_rank (p : phase) : Z :=
  match p with
  | Dialing => 5 | Creating => 4 | Relaying => 3 | Releasing => 2 | Finishing => 1 | Ended => 0
  end.

Definition closing_rank (c : closing) : Z :=
  match c with NotClosing => 3 | Marked => 2 | Waiting => 1 | StackClosed => 0 end.

Definition flows_rank (l : list flow) : Z := sum_of (fun f => phase_rank (f_phase f)) l.

(** An upper bound on the steps the workers and [Close] can still take. *)
Definition work_left (e : Engine) : Z := flows_rank (e_flows e) + closing_rank (e_closing e).

Definition is_request (act : action) : bool :=
  match act with TCPRequest _ _ | UDPRequest _ _ _ => true | _ => false end.

Lemma flows_rank_app l f : flows_rank (l ++ [f]) = flows_rank l + phase_rank (f_phase f).
Proof. apply (sum_of_app (fun f => phase_rank (f_phase f))). Qed.

Lemma flows_rank_insert l i f f' :
  l !! i = Some f ->
  flows_rank (<[i := f']> l) = flows_rank l - phase_rank (f_phase f) + phase_rank (f_phase f').
Proof. apply (sum_of_insert (fun f => phase_rank (f_phase f))). Qed.

Lemma flows_rank_nonneg l : 0 <= flows_rank l.
Proof. apply (sum_of_nonneg (fun f => phase_rank (f_phase f))). intros g. by destruct (f_phase g). Qed.

Lemma worker_rank f a f' : worker f a = Some f' -> phase_rank (f_phase f') < phase_rank (f_phase f).
Proof. unfold worker. destruct (f_phase f), (f_kind f), a; intros; simplify_eq; cbn; lia. Qed.

Lemma flow_step_rank e i a e' :
  work_step e i a = Some e' \/ answered_step e i a = Some e' -> work_left e' < work_left e.
Proof.
  intros Hs. unfold work_left.
  destruct (flow_step e i a e' Hs) as (f & Hi & [(a' & f' & Hw & ->)|[(Hp & e1 & Hrel & ->)|[Hp ->]]]).
  - engine_simpl. rewrite (flows_rank_insert _ _ _ f' Hi). pose proof (worker_rank _ _ _ Hw). lia.
  - unfold release_session in Hrel. destruct (e_sessions e =? 0); [done|]. injection Hrel as <-. engine_simpl.
    rewrite (flows_rank_insert _ _ _ (set_phase Finishing f) Hi), Hp. cbn. lia.
  - engine_simpl. rewrite (flows_rank_insert _ _ _ (set_phase Ended f) Hi), Hp. cbn. lia.
Qed.

Lemma own_step_rank e act e' :
  is_request act = false -> engine_step e act = Some e' -> work_left e' < work_left e.
Proof.
  destruct act as [| |i a|i a|]; try done; intros _; cbn [engine_step]; [by eauto using flow_step_rank..|].
  - unfold close_step, work_left. destruct (e_closing e) eqn:Ec; [..|done].
    3: destruct (e_workers e =? 0); [|done].
    all: intros [= <-]; engine_simpl; cbn; lia.
Qed.

(** Once closed, a request adds a flow that is over and made no call. *)
Lemma closed_refuses e act e' :
  e_closed e = true -> is_request act = true -> engine_step e act = Some e' ->
  exists f, e' = add_flow e f /\ f_phase f = Ended /\ f_calls f = [].
Proof.
  intros Hc. assert (acquire e = (false, e)) as Ha by (unfold acquire; by rewrite Hc).
  destruct act; try done; intros _ [= <-].
  - unfold handleTCP. destruct (toNetip address) as [dst []]; rewrite ?Ha; eauto.
  - unfold handleUDP. rewrite Ha. eauto.
Qed.

(** The steps that wait for nothing outside the engine. *)
Definition forced (act : action) : bool := match act with Work _ _ | Closing => true | _ => false end.

Lemma live_can_step e i f a :
  reachable e -> e_flows e !! i = Some f -> live f = true ->
  e_cancelled e = true \/ (f_phase f <> Dialing /\ f_phase f <> Relaying) -> is_Some (work_step e i a).
Proof.
  intros Hr Hi Hl Hc. destruct (reachable_inv e Hr) as [Hs _ _ _ _ _ HF].
  pose proof (Forall_lookup_1 _ _ _ _ HF Hi) as Hf. unfold work_step. rewrite Hi.
  unfold flow_ok in Hf. unfold live in Hl. destruct (f_phase f) eqn:Hp; try done.
  1, 3: destruct Hc as [->|[? ?]]; [|done].
  1-3: unfold worker; rewrite Hp; destruct (f_kind f), a; destruct_and?; try done; by eexists.
  unfold release_session. destruct (e_sessions e =? 0) eqn:E0; [|by eexists].
  bool_to_prop. pose proof (Forall_lookup_1 _ _ _ _ (count_zero holds _ (eq_trans (eq_sym Hs) E0)) Hi) as Hh.
  cbn beta in Hh. unfold holds in Hh. by rewrite Hp in Hh.
Qed.

(** A call of [Close] that has begun is over, or it or some worker can step. *)
Lemma close_progress e :
  reachable e -> e_closing e = StackClosed \/
  exists act, forced act = true /\ is_Some (engine_step e act).
Proof.
  intros Hr. destruct (e_closing e) eqn:Ec; [right..|by left].
  1-2: exists Closing; split; [done|]; cbn [engine_step]; unfold close_step; rewrite Ec; by eexists.
  destruct (e_workers e =? 0) eqn:E0.
  { exists Closing. split; [done|]. cbn [engine_step]. unfold close_step. rewrite Ec, E0. by eexists. }
  bool_to_prop. rewrite (inv_workers _ (reachable_inv e Hr)) in E0. unfold count in E0.
  destruct (List.filter live (e_flows e)) as [|f l] eqn:El; [done|].
  assert (In f (List.filter live (e_flows e))) as Hin by (rewrite El; by left).
  apply filter_In in Hin as [Hin Hl]. apply list_elem_of_In, list_elem_of_lookup in Hin as [i Hi].
  exists (Work i Failed). split; [done|]. apply (live_can_step e i f); try done. left.
  apply (inv_cancelled _ (reachable_inv e Hr)). by left.
Qed.

Lemma run_bound e acts e' :
  e_closed e = true -> engine_run e acts = Some e' ->
  Z.of_nat (List.length (List.filter (fun a => negb (is_request a)) acts)) + work_left e' <= work_left e.
Proof.
  revert e. induction acts as [|act acts IH]; intros e Hc; cbn [engine_run].
  { intros [= <-]. simpl. lia. }
  destruct (engine_step e act) as [e1|] eqn:Hs; [|done]. intros Hrun. cbn [List.filter].
  destruct (is_request act) eqn:Er; cbn [negb].
  - destruct (closed_refuses e act e1 Hc Er Hs) as (f & -> & Hp & _).
    specialize (IH (add_flow e f) Hc Hrun). unfold work_left in *. engine_simpl.
    rewrite flows_rank_app, Hp in IH. cbn [phase_rank] in IH. lia.
  - pose proof (own_step_rank e act e1 Er Hs).
    assert (e_closed e1 = true) as Hc1.
    { destruct act as [| |i a|i a|]; try done; cbn [engine_step] in Hs.
      1-2: destruct (flow_step e i a e1 ltac:(auto)) as (f & _ & [(a' & f' & _ & ->)|[(_ & e2 & Hrel & ->)|[_ ->]]]); try done;
        unfold release_session in Hrel; by repeat case_match; simplify_eq/=.
      unfold close_step in Hs; repeat case_match; by simplify_eq/=. }
    specialize (IH e1 Hc1 Hrun). cbn [List.length]. lia.
Qed.
End Operations.

(** ** Properties *)

Lemma run_calls_outcome fails calls :
  match run_calls fails calls with
  | (done, None) => done = map fst calls /\ Forall (fun c => fails c = false) done
  | (done, Some _) =>
      exists before c, done = before ++ [c] /\ fails c = true /\
        Forall (fun c => fails c = false) before /\ exists after, map fst calls = before ++ c :: after
  end.
Proof.
  induction calls as [|[c msg] calls IH]; [done|]. cbn [run_calls map fst].
  destruct (fails c) eqn:Ef; [exists [], c; naive_solver|].
  destruct (run_calls fails calls) as [done [e|]].
  - destruct IH as (before & c' & -> & Hc & Hb & after & E). exists (c :: before), c'. rewrite E.
    split; [done|]. split; [done|]. split; [by constructor|by exists after].
  - destruct IH as [-> Hf]. by split; [|constructor].
Qed.

Lemma New_ok fails cfg0 calls cfg :
  New fails cfg0 = (calls, Ok cfg) ->
  1 <= MaxConnections cfg /\ EnableUDP cfg = EnableUDP cfg0 /\ Addresses cfg = Addresses cfg0 /\
  existsb invalid_interface_address (Addresses cfg) = false /\
  0 < UDPIdleTimeout cfg /\ 0 < DialTimeout cfg /\
  (0 < MaxConnections cfg0 -> MaxConnections cfg = MaxConnections cfg0).
Proof.
  unfold New. destruct (New_config cfg0) as [c|] eqn:Ec; [|done]. intros H.
  assert (c = cfg) as ->. { destruct (run_calls fails (fallible_calls c)) as [? []]; congruence. }
  clear H. unfold New_config in Ec. destruct (negb _ || _ || _); [done|].
  destruct (existsb _ _) eqn:Ee; [done|]. injection Ec as <-. cbn. unfold Second.
  repeat split; try done; repeat case_match; bool_to_prop; lia.
Qed.

(** A new engine is complete or closed. [New] either makes every call
    on the netstack in order - selective acknowledgements, the interface, each
    address, the two modes, then the routes and the two handlers - without a
    failure, for valid unmapped addresses only; or it makes no call at all, or
    it stops at the first call that fails, closes the stack, and never
    installs a handler. *)
Theorem engine_new_complete_or_closed (fails : stack_call -> bool) (cfg : Config) :
  match New fails cfg with
  | (calls, Ok cfg') =>
      calls = [EnableSACK; CreateNIC] ++ map address_call (Addresses cfg) ++
              [SetPromiscuousMode; SetSpoofing; SetRouteTable; SetTCPHandler; SetUDPHandler] /\
      (forall c, In c calls -> ~ In c [SetRouteTable; SetTCPHandler; SetUDPHandler] -> fails c = false) /\
      existsb invalid_interface_address (Addresses cfg) = false
  | (calls, Err _) =>
      calls = [] \/
      exists before c, calls = before ++ [c; StackClose] /\ fails c = true /\
        Forall (fun c => fails c = false) before /\
        Forall (fun c => c <> SetTCPHandler /\ c <> SetUDPHandler) (before ++ [c])
  end.
Proof.
  destruct (New fails cfg) as [calls [cfg'|e]] eqn:EN.
  - destruct (New_ok _ _ _ _ EN) as (_ & _ & EA & Hv & _). rewrite <- EA. unfold New in EN.
    destruct (New_config cfg) as [c|]; [|done].
    pose proof (run_calls_outcome fails (fallible_calls c)) as Hr.
    destruct (run_calls fails (fallible_calls c)) as [done' [?|]]; [done|].
    injection EN as <- ->. destruct Hr as [-> HF]. split; [|split; [|done]].
    + unfold fallible_calls. rewrite !map_app, map_map. cbn. by rewrite <- !app_assoc.
    + intros c Hc Hn. apply in_app_or in Hc as [Hc|Hc]; [|done].
      by apply (proj1 (List.Forall_forall _ _) HF).
  - unfold New in EN. destruct (New_config cfg) as [c|]; [|left; congruence].
    pose proof (run_calls_outcome fails (fallible_calls c)) as Hr.
    destruct (run_calls fails (fallible_calls c)) as [done' [?|]]; [|done].
    injection EN as <- ->. destruct Hr as (before & c' & -> & Hc & Hb & after & E). right.
    exists before, c'. rewrite <- app_assoc. split; [done|]. split; [done|]. split; [done|].
    assert (Forall (fun c => c <> SetTCPHandler /\ c <> SetUDPHandler) (map fst (fallible_calls c))) as HF.
    { unfold fallible_calls. rewrite !map_app, map_map. cbn [map fst].
      repeat (apply Forall_app; split); try (repeat constructor; done).
      apply List.Forall_forall. intros x Hx. apply in_map_iff in Hx as (a & <- & _). done. }
    rewrite E in HF. apply Forall_app in HF as [HF1 HF2]. apply Forall_app. split; [done|].
    by apply Forall_cons in HF2 as [H2 _]; constructor.
Qed.

(** Claim C11: the session budget. In every interleaving of requests, workers
    and [Close], the channel holds exactly one element per flow that has not
    released it, never more than [MaxConnections], the wait group counts exactly
    the goroutines still running, and when the netstack is closed none is. *)
Theorem engine_budget (fails : stack_call -> bool) (cfg0 cfg : Config) (calls : list stack_call)
    (e : Engine) :
  New fails cfg0 = (calls, Ok cfg) -> reachable cfg e ->
  e_sessions e = count holds (e_flows e) /\ count holds (e_flows e) <= MaxConnections cfg /\
  e_workers e = count live (e_flows e) /\
  (e_closing e = StackClosed -> Forall (fun f => f_phase f = Ended) (e_flows e)).
Proof.
  intros HN Hr. destruct (New_ok _ _ _ _ HN) as [Hmax _].
  destruct (reachable_inv cfg ltac:(lia) e Hr) as [Hs Hw Hb _ _ Hst _].
  split; [done|]. split; [lia|]. split; [done|]. intros Hc. specialize (Hst Hc).
  rewrite Hw in Hst. eapply Forall_impl; [apply (count_zero live), Hst|]. intros f. unfold live.
  by destruct (f_phase f).
Qed.

(** Whether a request is admitted now. *)
Definition room (cfg : Config) (e : Engine) : bool := negb (e_closed e) && (e_sessions e <? MaxConnections cfg).

Lemma acquire_room cfg e : (acquire cfg e).1 = room cfg e /\ e_flows (acquire cfg e).2 = e_flows e.
Proof. unfold acquire, room. destruct (e_closed e); [done|]. by destruct (_ <? _). Qed.

Lemma handleTCP_outcome cfg e address port :
  let dst := mkAddrPort (fst (toNetip address)) port in
  exists f, e_flows (handleTCP cfg e address port) = e_flows e ++ [f] /\ f_address f = address /\ f_port f = port /\
    if snd (toNetip address) && room cfg e
    then f_phase f = Dialing /\ f_calls f = [CallDialTCP dst] /\ f_completes f = []
    else f_phase f = Ended /\ f_calls f = [] /\ f_completes f = [true].
Proof.
  unfold handleTCP. destruct (acquire_room cfg e) as [Ha Hf]. destruct (toNetip address) as [d []]; cbn [negb fst snd andb]; [|by eexists].
  rewrite <- Ha. destruct (acquire cfg e) as [[] e'] eqn:Ea; cbn [negb fst snd] in *;
    eexists; (split; [cbn [add_flow e_flows]; rewrite <- Hf; reflexivity|done]).
Qed.

Lemma handleUDP_outcome cfg e address port endpoint :
  let dst := mkAddrPort (fst (toNetip address)) port in
  exists f, e_flows (handleUDP cfg e address port endpoint) = e_flows e ++ [f] /\ f_address f = address /\ f_port f = port /\
    if room cfg e && endpoint && ((port =? 53) || EnableUDP cfg && snd (toNetip address))
    then f_accepted f = Some true /\ f_guest f = ConnUp /\
         f_calls f = [if port =? 53 then CallServeDNS else CallDialUDP dst] /\
         f_phase f = (if port =? 53 then Relaying else Dialing)
    else f_accepted f = Some false /\ f_guest f = NoConn /\ f_calls f = [] /\ In (f_phase f) [Releasing; Ended].
Proof.
  unfold handleUDP. destruct (acquire_room cfg e) as [Ha Hf]. rewrite <- Ha.
  destruct (acquire cfg e) as [[] e'] eqn:Ea; cbn [negb fst snd andb] in *;
    [|eexists; split; [cbn [add_flow e_flows]; rewrite <- Hf; reflexivity|simpl; tauto]].
  destruct (port =? 53) eqn:E53; [|destruct (EnableUDP cfg); [destruct (toNetip address) as [d []]|]]; destruct endpoint;
    cbn [negb fst snd andb orb]; eexists; (split; [cbn [add_flow e_flows]; rewrite <- Hf; reflexivity|simpl; rewrite ?E53; tauto]).
Qed.


(** Over, and without a call on the forwarder. *)
Definition quiet (f : flow) : Prop := f_phase f = Ended /\ f_calls f = [].

Lemma flow_step_flows e i a e' :
  work_step e i a = Some e' \/ answered_step e i a = Some e' ->
  exists f f', e_flows e !! i = Some f /\ f_phase f <> Ended /\
    e_closed e' = e_closed e /\ e_flows e' = <[i := f']> (e_flows e).
Proof.
  intros Hs. destruct (flow_step e i a e' Hs) as (f & Hi & [(a' & f' & Hw & ->)|[(Hp & e1 & Hrel & ->)|[Hp ->]]]).
  - exists f, f'. split_and!; try done. intros Hp. unfold worker in Hw. by rewrite Hp in Hw.
  - exists f, (set_phase Finishing f). unfold release_session in Hrel. destruct (_ =? _); [done|].
    injection Hrel as <-. split_and!; try done. by rewrite Hp.
  - exists f, (set_phase Ended f). split_and!; try done. by rewrite Hp.
Qed.

Lemma closed_run_quiet cfg acts : forall e e' n,
  e_closed e = true -> (n <= List.length (e_flows e))%nat -> Forall quiet (drop n (e_flows e)) ->
  engine_run cfg e acts = Some e' -> Forall quiet (drop n (e_flows e')).
Proof.
  induction acts as [|act acts IH]; intros e e' n Hc Hn Hq; cbn [engine_run].
  { by intros [= <-]. }
  destruct (engine_step cfg e act) as [e1|] eqn:Hs; [|done]. destruct (is_request act) eqn:Er.
  - destruct (closed_refuses cfg e act e1 Hc Er Hs) as (f & -> & Hp & Hf).
    apply IH; [done|cbn [e_flows add_flow]..].
    + rewrite List.length_app. lia.
    + rewrite drop_app_le by done. by apply Forall_snoc.
  - assert (forall i a, work_step e i a = Some e1 \/ answered_step e i a = Some e1 ->
      engine_run cfg e1 acts = Some e' -> Forall quiet (drop n (e_flows e'))) as Hflow.
    { intros i a Hw. destruct (flow_step_flows e i a e1 Hw) as (f & f' & Hi & Hp & Hc1 & E).
      apply IH; [by rewrite Hc1|..].
      - by rewrite E, length_insert.
      - rewrite E. destruct (decide (i < n)%nat); [by rewrite drop_insert_lt|].
        exfalso. apply Hp. apply (Forall_lookup_1 quiet (drop n (e_flows e)) (i - n) f Hq).
        rewrite lookup_drop. by replace (n + (i - n))%nat with i by lia. }
    destruct act as [| |i a|i a|]; try done; cbn [engine_step] in Hs; [eauto..|].
    + unfold close_step in Hs. apply IH; repeat case_match; by simplify_eq/=.
Qed.

Lemma run_reachable cfg acts : forall e e',
  reachable cfg e -> engine_run cfg e acts = Some e' -> reachable cfg e'.
Proof.
  induction acts as [|act acts IH]; intros e e' Hr; cbn [engine_run]; [by intros [= <-]|].
  destruct (engine_step cfg e act) eqn:Hs; [|done]. apply IH. by apply (reach_step cfg e act).
Qed.

(** Claim C13: [Close] drains the engine. Once it has marked the engine closed,
    every request that arrives is refused without a call on the forwarder; the
    workers and [Close] together take at most [work_left] further steps, however
    requests are interleaved with them; once the context is cancelled no running
    worker is stuck, even when nothing its dial or its relay waits for ever
    answers; and until the netstack is closed, [Close] or a worker can go on by
    itself. So [Close] returns, with the netstack closed and no worker left
    behind, even if every relay is idle. *)
Theorem engine_close_drains (fails : stack_call -> bool) (cfg0 cfg : Config) (calls : list stack_call)
    (e e' : Engine) (acts : list action) :
  New fails cfg0 = (calls, Ok cfg) -> reachable cfg e -> e_closed e = true ->
  engine_run cfg e acts = Some e' ->
  Forall quiet (drop (List.length (e_flows e)) (e_flows e')) /\
  Z.of_nat (List.length (List.filter (fun a => negb (is_request a)) acts)) <= work_left e /\
  (forall i f a, e_flows e' !! i = Some f -> live f = true -> e_cancelled e' = true -> is_Some (work_step e' i a)) /\
  (e_closing e' = StackClosed /\ e_workers e' = 0 \/
   exists act, forced act = true /\ is_Some (engine_step cfg e' act)).
Proof.
  intros HN Hr Hc Hrun. destruct (New_ok _ _ _ _ HN) as [Hmax _].
  pose proof (run_reachable cfg acts e e' Hr Hrun) as Hr'.
  split; [|split; [|split]].
  - apply (closed_run_quiet cfg acts e e' _ Hc); [lia| |done]. by rewrite drop_all.
  - pose proof (run_bound cfg e acts e' Hc Hrun) as Hb. unfold work_left in *.
    pose proof (flows_rank_nonneg (e_flows e')).
    assert (0 <= closing_rank (e_closing e')) by (by destruct (e_closing e')). lia.
  - intros i f a Hi Hl Hcan. apply (live_can_step cfg ltac:(lia) e' i f a); auto.
  - destruct (close_progress cfg ltac:(lia) e' Hr') as [Hs|Hs]; [left|by right]. split; [done|].
    by apply (inv_stack cfg _ (reachable_inv cfg ltac:(lia) e' Hr')).
Qed.

(** ** Witnesses *)

Definition sample_config : Config := mkConfig true true true [PrefixFrom (Addr4 1681981439) 24] 2 true 0 0.

Definition sample_running : Config :=
  mkConfig true true true [PrefixFrom (Addr4 1681981439) 24] 2 true (30 * Second) (15 * Second).

(** A refused TCP request, a tunnelled one, a datagram session turned away by the
    budget, and [Close] in the middle of it. *)
Definition sample_actions : list action :=
  [TCPRequest [100; 64; 0; 1] 443; UDPRequest [100; 64; 0; 2] 443 true;
   TCPRequest [100; 64; 0; 3] 443; Answered 0 Succeeded; Answered 1 Failed; Work 0 Succeeded; Closing].

Definition sample_engine : Engine := default engine_init (engine_run sample_running engine_init sample_actions).

Lemma sample_reachable : reachable sample_running sample_engine.
Proof. by apply (run_reachable _ sample_actions engine_init); [constructor|vm_compute]. Qed.

Lemma engine_budget_witness :
  e_sessions sample_engine = 2 /\ count holds (e_flows sample_engine) <= 2.
Proof.
  destruct (engine_budget (fun _ => false) sample_config sample_running
    (fst (New (fun _ => false) sample_config)) sample_engine eq_refl sample_reachable) as (_ & Hb & _).
  split; [vm_compute; reflexivity|exact Hb].
Defined.


(** The execution that drains it: the context is cancelled, the idle relay ends, both
    workers release, the channel and the wait group empty, and the netstack closes. *)
Definition sample_drain : list action :=
  [TCPRequest [100; 64; 0; 4] 80; Closing; Work 0 Failed; Work 1 Failed; Work 0 Failed; Work 1 Failed;
   Work 0 Failed; Closing].

Lemma engine_close_drains_witness :
  exists e', engine_run sample_running sample_engine sample_drain = Some e' /\
    e_closing e' = StackClosed /\ Forall quiet (drop 3 (e_flows e')).
Proof.
  eexists. split; [vm_compute; reflexivity|]. split; [vm_compute; reflexivity|].
  match goal with |- Forall quiet (drop 3 (e_flows ?e')) =>
    destruct (engine_close_drains (fun _ => false) sample_config sample_running
      (fst (New (fun _ => false) sample_config)) sample_engine e' sample_drain
      eq_refl sample_reachable eq_refl ltac:(vm_compute; reflexivity)) as [Hq _]; exact Hq
  end.
Defined.
