(* ===== verification/Ingress.v ===== *)
(** * The launcher: arguments, the boundary address, and the ingress channel

    [sdk/cmd/tun2connect/run.go] and the address parsers of
    [sdk/cmd/tun2connect/main.go]. A connection is the bytes its peer sends;
    [ReadString('\n')] takes a line off it. Parameters: [url.Parse]. *)

From S2P Require Import Prelude GoStrings Netip Http Connect.

Local Open Scope go_scope.

(** ** Arguments *)

Definition contains_scheme (s : string) : bool :=
  match String.index 0 "://" s with Some _ => true | None => false end.

Definition parseRunArgs (args : list string) : option (string * list string) :=
  match args with
  | [] => None
  | boundary :: command =>
      if contains_scheme boundary then Some (boundary, command)
      else Some (("unix://" +:+ boundary)%string, command)
  end.

(** The loop of [parsePinnedPorts]; the map from ports to true is a set. *)
Definition add_pinned (pinned : gset Z) (field : string) : Result (gset Z) :=
  match parse_uint 16 (trim_space field) with
  | None => Err "invalid ingress port %q"
  | Some number => if number =? 0 then Err "invalid ingress port %q" else Ok ({[number]} ∪ pinned)
  end.

Definition parsePinnedPorts (value : string) : Result (gset Z) :=
  if String.eqb value EmptyString then Ok ∅
  else fold_result add_pinned ∅ (split "," value).

(** ** Boundary addresses *)

(** [parseVSOCK]: the context identifier and the port. *)
Definition parseVSOCK (addr : string) : Result (Z * Z) :=
  match cut ":" addr with
  | None => Err "invalid vsock address %q (want cid:port)"
  | Some (rawCID, rawPort) =>
      let? cid := or_err (parse_uint 32 rawCID) "invalid vsock cid %q: %w" in
      let? port := or_err (parse_uint 32 rawPort) "invalid vsock port %q: %w" in
      Ok (cid, port)
  end.

(** What the dial function of [boundaryDialer] connects to. *)
Inductive dial_target : Type :=
| DialUnix (path : string)
| DialHost (host : string)
| DialVSOCK (cid port : Z).

(** [url_parse] gives the scheme, the host and the path. *)
Definition boundaryDialer (url_parse : string -> option (string * string * string))
    (proxy : string) : Result dial_target :=
  match url_parse proxy with
  | None => Err "url"
  | Some (scheme, host, path) =>
      if String.eqb scheme "unix" then Ok (DialUnix path)
      else if String.eqb scheme "tcp" then Ok (DialHost host)
      else if String.eqb scheme "vsock" then
        let? (cid, port) := parseVSOCK host in Ok (DialVSOCK cid port)
      else Err "unsupported proxy scheme %q (want unix://, tcp://, or vsock://)"
  end.

(** What [listenIngress] listens on. *)
Inductive listen_target : Type :=
| ListenVSOCK (port : Z)
| ListenUnix (path : string).

Definition listenIngress (spec : string) : Result listen_target :=
  match cut_prefix "vsock://" spec with
  | Some rawPort =>
      let? port := or_err (parse_uint 32 (trim_prefix ":" rawPort)) "invalid vsock port %q: %w" in
      Ok (ListenVSOCK port)
  | None => Ok (ListenUnix (trim_prefix "unix://" spec))
  end.

(** ** The ingress request head *)

Definition newline : ascii := "010".
Definition cr : string := String "013" EmptyString.

(** [br.ReadString('\n')]: the line with its newline, and what is left;
    [None] when the stream ends before a newline. *)
Definition ReadString (s : string) : option (string * string) :=
  match cut newline s with
  | Some (line, rest) => Some ((line +:+ String newline EmptyString)%string, rest)
  | None => None
  end.

Definition trim_line (line : string) : string :=
  trim_suffix cr (trim_suffix (String newline EmptyString) line).

Section Ingress.
Context `{GoUnicode}.

(** The loop over the header lines: the number of Host fields, the last one,
    and what follows the head. Every line takes a byte, so the length of the
    input is enough fuel. *)
Fixpoint ingress_fields (fuel : nat) (s : string) (hosts : Z) (host : string)
  : Result (Z * string * string) :=
  match fuel with
  | O => Err "malformed-header"
  | S fuel =>
      match ReadString s with
      | None => Err "malformed-header"
      | Some (line, rest) =>
          let line := trim_line line in
          if String.eqb line EmptyString then Ok (hosts, host, rest)
          else match cut ":" line with
               | None => Err "malformed-header"
               | Some (name, value) =>
                   if String.eqb name EmptyString || contains_any (String " " (String "009" EmptyString)) name
                   then Err "malformed-header"
                   else if equal_fold name "Host"
                   then ingress_fields fuel rest (hosts + 1) (trim_space value)
                   else ingress_fields fuel rest hosts host
               end
      end
  end.

(** [ingressTarget]: the target and the tunnel bytes already received, or the
    status and the reason of the refusal. *)
Definition ingressTarget (s : string) (pinned : gset Z) : (string * string) + (Z * string) :=
  match ReadString s with
  | None => inr (StatusBadRequest, "malformed-request-line"%string)
  | Some (line, rest) =>
      match split " " (trim_line line) with
      | [method; target; version] =>
          if String.eqb method EmptyString || String.eqb target EmptyString
          then inr (StatusBadRequest, "malformed-request-line"%string)
          else if negb (String.eqb version "HTTP/1.1") && negb (String.eqb version "HTTP/1.0") then
            if has_prefix "HTTP/" version
            then inr (StatusHTTPVersionNotSupported, "unsupported-version"%string)
            else inr (StatusBadRequest, "malformed-request-line"%string)
          else
            match ingress_fields (S (String.length rest)) rest 0 EmptyString with
            | Err _ => inr (StatusBadRequest, "malformed-header"%string)
            | Ok (hosts, host, tail) =>
                if 1 <? hosts then inr (StatusBadRequest, "duplicate-host"%string)
                else if negb (String.eqb method "CONNECT")
                then inr (StatusMethodNotAllowed, "connect-only"%string)
                else if String.eqb version "HTTP/1.1" && (hosts =? 0)
                then inr (StatusBadRequest, "missing-host"%string)
                else match split_host_port target with
                     | None => inr (StatusBadRequest, "malformed-target"%string)
                     | Some (addr, port) =>
                         if negb (String.eqb addr "127.0.0.1") && negb (String.eqb addr "::1")
                         then inr (StatusBadRequest, "malformed-target"%string)
                         else match parse_uint 16 port with
                              | None => inr (StatusBadRequest, "malformed-port"%string)
                              | Some number =>
                                  if number =? 0
                                  then inr (StatusBadRequest, "malformed-port"%string)
                                  else if (hosts =? 1) && negb (String.eqb host target)
                                  then inr (StatusBadRequest, "authority-mismatch"%string)
                                  else if negb (bool_decide (number ∈ pinned))
                                  then inr (StatusForbidden, "port-not-permitted"%string)
                                  else inl (target, tail)
                              end
                     end
            end
      | _ => inr (StatusBadRequest, "malformed-request-line"%string)
      end
  end.

(** ** Serving one ingress connection *)

Definition maxIngressHead : Z := Z.shiftl 8 10.

Inductive ingress_event : Type :=
| IDial (target : string) (ok : bool)
| IRefuse (status : Z) (proxy_status : string)
| IOpen                              (* the 200 response *)
| ITunnel (target data : string)     (* the client's bytes that go upstream *)
| IClose.

(** The handler goroutine of [serveIngress]: [bytes] is what the gateway
    sends, of which only the first [maxIngressHead] may be the head. *)
Definition serveIngress (dial : string -> bool) (pinned : gset Z) (bytes : string)
  : list ingress_event :=
  match ingressTarget (str_take (Z.to_nat maxIngressHead) bytes) pinned with
  | inr (status, reason) => [IRefuse status (ProxyStatus "ingress" reason); IClose]
  | inl (target, buffered) =>
      if dial target then
        [IDial target true; IOpen;
         ITunnel target (buffered +:+ str_drop (Z.to_nat maxIngressHead) bytes); IClose]
      else [IDial target false; IRefuse StatusBadGateway (ProxyStatus "ingress" "dial-failed"); IClose]
  end.
End Ingress.


Definition sample_head (target : string) : string :=
  ("CONNECT " +:+ target +:+ " HTTP/1.1" +:+ crlf +:+ "hOST: " +:+ target +:+ crlf +:+ crlf +:+ "data")%string.

Example ingress_examples :
  let u := ascii_unicode in
  map (fun t => ingressTarget (sample_head t) {[8080]})
    ["127.0.0.1:8080"; "[::1]:8080"; "127.0.0.1:80"; "10.0.0.1:8080"; "127.0.0.1:0"]%string =
  [inl ("127.0.0.1:8080", "data"); inl ("[::1]:8080", "data"); inr (403, "port-not-permitted");
   inr (400, "malformed-target"); inr (400, "malformed-port")]%string.
Proof. vm_compute. reflexivity. Qed.

(** ** Properties *)

Lemma decimal_digits_length k fuel n acc :
  (1 <= k)%nat -> 0 <= n < 10 ^ Z.of_nat k ->
  (String.length (decimal_digits fuel n acc) <= k + String.length acc)%nat.
Proof.
  revert k n acc. induction fuel as [|fuel IH]; intros k n acc Hk Hn; cbn [decimal_digits]; [lia|].
  destruct (n <? 10) eqn:E; bool_to_prop; [simpl; lia|].
  destruct k as [|[|k]]; [lia|simpl in Hn; lia|].
  eapply Nat.le_trans; [apply (IH (S k)); [lia|]|simpl; lia].
  rewrite (Nat2Z.inj_succ (S k)), Z.pow_succ_r in Hn by lia.
  split; [apply Z.div_pos; lia|apply Z.div_lt_upper_bound; lia].
Qed.

Lemma format_uint_length k n :
  (1 <= k)%nat -> 0 <= n < 10 ^ Z.of_nat k -> (String.length (format_uint n) <= k)%nat.
Proof.
  intros Hk Hn. unfold format_uint.
  pose proof (decimal_digits_length k (S (Z.to_nat (Z.log2 n))) n EmptyString Hk Hn). simpl in *. lia.
Qed.

Lemma str_take_app_ge n a b :
  (String.length a <= n)%nat -> str_take n (a +:+ b) = (a +:+ str_take (n - String.length a) b)%string.
Proof.
  revert n. induction a as [|c a IH]; intros n Hn; simpl; [by rewrite Nat.sub_0_r|].
  destruct n as [|n]; simpl in Hn; [lia|]. simpl. rewrite IH by lia. done.
Qed.

Lemma str_drop_app_ge n a b :
  (String.length a <= n)%nat -> str_drop n (a +:+ b) = str_drop (n - String.length a) b.
Proof.
  revert n. induction a as [|c a IH]; intros n Hn; simpl; [by rewrite Nat.sub_0_r|].
  destruct n as [|n]; simpl in Hn; [lia|]. simpl. rewrite IH by lia. done.
Qed.

Section IngressFacts.
Context `{GoUnicode}.

Lemma ingressTarget_pinned s pinned target tail :
  ingressTarget s pinned = inl (target, tail) ->
  exists addr port number,
    split_host_port target = Some (addr, port) /\ (addr = "127.0.0.1" \/ addr = "::1")%string /\
    parse_uint 16 port = Some number /\ 1 <= number <= 65535 /\ number ∈ pinned.
Proof.
  unfold ingressTarget. intros E. repeat (case_match; try discriminate E). simplify_eq.
  match goal with E : parse_uint 16 ?p = Some ?n |- _ =>
    pose proof (parse_uint_range _ _ _ E); eexists _, p, n end.
  bool_to_prop. split; [eassumption|].
  match goal with E : bool_decide _ = true |- _ => apply bool_decide_eq_true in E end.
  split; [|split; [done|split; [lia|done]]];
    match goal with E : negb (String.eqb ?a "127.0.0.1") = false \/ _ |- _ => destruct E end;
    bool_to_prop; auto.
Qed.

(** Claim C35: ingress reaches only the pinned loopback ports. Whatever bytes
    a gateway sends, the handler dials at most once, and what it dials is a
    loopback address with a pinned port between 1 and 65535; a tunnel is
    opened, after the 200 response, exactly when that dial succeeds; in every
    other case there is one refusal and no tunnel; and the connection is
    closed at the end. *)
Theorem ingress_reaches_only_pinned (dial : string -> bool) (pinned : gset Z) (bytes : string) :
  (exists status reason,
     serveIngress dial pinned bytes = [IRefuse status (ProxyStatus "ingress" reason); IClose]) \/
  exists target addr port number,
    split_host_port target = Some (addr, port) /\ (addr = "127.0.0.1" \/ addr = "::1")%string /\
    parse_uint 16 port = Some number /\ 1 <= number <= 65535 /\ number ∈ pinned /\
    ((dial target = true /\ exists data,
        serveIngress dial pinned bytes = [IDial target true; IOpen; ITunnel target data; IClose]) \/
     (dial target = false /\
        serveIngress dial pinned bytes =
          [IDial target false; IRefuse 502 (ProxyStatus "ingress" "dial-failed"); IClose])).
Proof.
  unfold serveIngress. destruct (ingressTarget _ pinned) as [[target tail]|[status reason]] eqn:E;
    [right|left; eauto].
  apply ingressTarget_pinned in E as (addr & port & number & Hs & Ha & Hp & Hr & Hin).
  exists target, addr, port, number. do 5 (split; [done|]).
  destruct (dial target) eqn:Ed; [left|right]; (split; [done|]); [by eexists|done].
Qed.

Lemma ReadString_line line rest :
  contains_byte newline line = false ->
  ReadString (line +:+ crlf +:+ rest) =
    Some (line +:+ crlf, rest)%string.
Proof.
  intros Hl. unfold ReadString, crlf, GoStrings.cr, lf.
  change (line +:+ String "013" (String "010" EmptyString) +:+ rest)%string with
    (line +:+ String "013" (String newline rest))%string.
  replace (line +:+ String "013" (String newline rest))%string
    with ((line +:+ cr) +:+ String newline rest)%string by (by rewrite app_string_assoc).
  rewrite cut_app by (by rewrite contains_byte_app, Hl). by rewrite app_string_assoc.
Qed.

Lemma trim_line_crlf line : trim_line (line +:+ crlf) = line.
Proof.
  unfold trim_line, crlf, GoStrings.cr, lf.
  replace (line +:+ String "013" (String "010" EmptyString))%string
    with ((line +:+ cr) +:+ String newline EmptyString)%string by (by rewrite app_string_assoc).
  by rewrite !trim_suffix_app.
Qed.

Lemma visible_without c s :
  visible c = false -> str_all visible s = true -> contains_byte c s = false.
Proof. intros Hc Hs. eapply str_all_not_contains; eassumption. Qed.

(** The one Host field of a head, and the empty line. *)
Lemma ingress_fields_host fuel target more :
  str_all visible target = true ->
  ingress_fields (S (S fuel)) ("Host: " +:+ target +:+ crlf +:+ crlf +:+ more) 0 EmptyString
  = Ok (1, target, more).
Proof.
  intros Hv. cbn [ingress_fields].
  change ("Host: " +:+ target +:+ crlf +:+ crlf +:+ more)%string with
    (("Host: " +:+ target) +:+ crlf +:+ (crlf +:+ more))%string.
  rewrite ReadString_line by (rewrite contains_byte_app, (visible_without newline target) by done; done).
  rewrite trim_line_crlf. change (String.eqb ("Host: " +:+ target) EmptyString) with false.
  change ("Host: " +:+ target)%string with ("Host" +:+ String ":" (String " " target))%string.
  rewrite cut_app by done. change (equal_fold "Host" "Host") with true.
  change (String.eqb "Host" EmptyString || contains_any (String " " (String "009" EmptyString)) "Host")
    with false. cbv iota.
  change (crlf +:+ more)%string with (EmptyString +:+ crlf +:+ more)%string.
  rewrite ReadString_line by done. change (trim_line (EmptyString +:+ crlf)) with EmptyString.
  cbv iota. change (String.eqb EmptyString EmptyString) with true. cbv iota.
  by rewrite trim_space_leading.
Qed.

(** The head of a CONNECT with a matching Host field, up to its target. *)
Lemma ingressTarget_head target pinned more :
  str_all visible target = true -> target <> EmptyString ->
  ingressTarget (("CONNECT " +:+ target +:+ " HTTP/1.1" +:+ crlf +:+ "Host: " +:+ target +:+ crlf +:+ crlf)
                 +:+ more) pinned =
  match split_host_port target with
  | None => inr (StatusBadRequest, "malformed-target"%string)
  | Some (addr, port) =>
      if negb (String.eqb addr "127.0.0.1") && negb (String.eqb addr "::1")
      then inr (StatusBadRequest, "malformed-target"%string)
      else match parse_uint 16 port with
           | None => inr (StatusBadRequest, "malformed-port"%string)
           | Some number =>
               if number =? 0 then inr (StatusBadRequest, "malformed-port"%string)
               else if (1 =? 1) && negb (String.eqb target target)
               then inr (StatusBadRequest, "authority-mismatch"%string)
               else if negb (bool_decide (number ∈ pinned))
               then inr (StatusForbidden, "port-not-permitted"%string)
               else inl (target, more)
           end
  end.
Proof.
  intros Hv Hne. set (rest := ("Host: " +:+ target +:+ crlf +:+ crlf +:+ more)%string).
  replace (("CONNECT " +:+ target +:+ " HTTP/1.1" +:+ crlf +:+ "Host: " +:+ target +:+ crlf +:+ crlf)
           +:+ more)%string
    with (("CONNECT " +:+ target +:+ " HTTP/1.1") +:+ crlf +:+ rest)%string
    by (unfold rest; rewrite !app_string_assoc; done).
  unfold ingressTarget.
  rewrite ReadString_line by
    (rewrite !contains_byte_app, (visible_without newline target) by done; done).
  rewrite trim_line_crlf.
  assert (split " " ("CONNECT " +:+ target +:+ " HTTP/1.1") = ["CONNECT"; target; "HTTP/1.1"]%string) as ->.
  { change ("CONNECT " +:+ target +:+ " HTTP/1.1")%string with
      ("CONNECT" +:+ String " " (target +:+ String " " "HTTP/1.1"))%string.
    rewrite !split_app_sep, (split_no_sep " " target) by (by apply visible_without). done. }
  apply String.eqb_neq in Hne. rewrite Hne.
  assert (exists fuel, String.length rest = S fuel) as [fuel ->] by (by eexists).
  unfold rest. by rewrite ingress_fields_host.
Qed.

(** A well-formed ingress request for a pinned port is accepted.
    The head a gateway sends, a CONNECT line and one Host field with the same
    target, is accepted for each loopback address and pinned port, and every
    byte after the head reaches the local service, none of the head does. *)
Theorem ingress_accepts_pinned (dial : string -> bool) (pinned : gset Z) (addr : string)
    (number : Z) (data : string) :
  In addr ["127.0.0.1"; "::1"]%string -> 1 <= number <= 65535 -> number ∈ pinned ->
  let target := join_host_port addr (format_uint number) in
  let head := ("CONNECT " +:+ target +:+ " HTTP/1.1" +:+ crlf +:+ "Host: " +:+ target +:+ crlf +:+ crlf)%string in
  dial target = true ->
  serveIngress dial pinned (head +:+ data) = [IDial target true; IOpen; ITunnel target data; IClose].
Proof.
  intros Haddr Hnum Hin target head Hdial. unfold serveIngress.
  assert (str_all visible target = true /\ split_host_port target = Some (addr, format_uint number))
    as [Hvis Hsplit].
  { pose proof (format_uint_digits number) as Hd. split.
    - assert (str_all visible (format_uint number) = true) as Hv.
      { eapply str_all_impl; [|exact Hd]. unfold is_digit, visible. intros c Hc. lia. }
      unfold target. destruct Haddr as [<-|[<-|[]]]; unfold join_host_port; cbn [contains_byte str_any];
        simpl; by rewrite Hv.
    - apply split_join_host_port; [by destruct Haddr as [<-|[<-|[]]]| |].
      + unfold no_brackets. by rewrite !(str_all_not_contains is_digit).
      + by apply (str_all_not_contains is_digit). }
  assert (String.length target <= 15)%nat as Hlen.
  { pose proof (format_uint_length 5 number ltac:(lia) ltac:(lia)) as Hl.
    unfold target. destruct Haddr as [<-|[<-|[]]]; unfold join_host_port; cbn [contains_byte str_any];
      simpl; lia. }
  assert (str_take (Z.to_nat maxIngressHead) (head +:+ data) =
          (head +:+ str_take (Z.to_nat maxIngressHead - String.length head) data)%string /\
          str_drop (Z.to_nat maxIngressHead) (head +:+ data) =
          str_drop (Z.to_nat maxIngressHead - String.length head) data) as [-> ->].
  { assert (String.length head <= Z.to_nat maxIngressHead)%nat as Hle.
    { unfold head, crlf. rewrite !length_app_string. cbn [String.length].
      apply Nat.le_trans with 100%nat; [lia|]. unfold maxIngressHead. rewrite Z.shiftl_mul_pow2; lia. }
    generalize dependent (Z.to_nat maxIngressHead). clearbody head. intros n Hle.
    split; [by apply str_take_app_ge|by apply str_drop_app_ge]. }
  set (more := str_take _ data).
  assert (ingressTarget (head +:+ more) pinned = inl (target, more)) as ->;
    [|unfold more; rewrite Hdial, str_take_drop; done].
  clearbody more. unfold head. clearbody target.
  assert (target <> EmptyString) as Hne by (by intros ->).
  rewrite ingressTarget_head by done. rewrite Hsplit, parse_uint_format by lia.
  assert (negb (String.eqb addr "127.0.0.1") && negb (String.eqb addr "::1") = false) as ->
    by by destruct Haddr as [<-|[<-|[]]].
  rewrite (proj2 (Z.eqb_neq number 0)) by lia.
  by rewrite String.eqb_refl, bool_decide_eq_true_2.
Qed.
End IngressFacts.

#[local] Existing Instance ascii_unicode.

Lemma ingress_accepts_pinned_witness :
  serveIngress (fun _ => true) {[8080]} (sample_head "[::1]:8080") =
    [IDial "[::1]:8080" true; IOpen; ITunnel "[::1]:8080" "data"; IClose] /\
  serveIngress (fun _ => true) {[80; 8080]}
    (("CONNECT [::1]:80 HTTP/1.1" +:+ crlf +:+ "Host: [::1]:80" +:+ crlf +:+ crlf) +:+ "x")%string =
    [IDial "[::1]:80" true; IOpen; ITunnel "[::1]:80" "x"; IClose].
Proof.
  split; [vm_compute; reflexivity|].
  apply (ingress_accepts_pinned (fun _ => true) {[80; 8080]} "::1" 80 "x");
    [right; left; reflexivity|lia|set_solver|reflexivity].
Defined.
