(* ===== verification/QemuFrames.v ===== *)
(** * Ethernet frames of the QEMU stream

    [sdk/pkg/qemuproxy/proxy.go]: the configuration check of [Run], the frame
    filter of its reader, [readFrame] and [writeFrame], and the loops of its two
    goroutines; a write that fails may leave a part of its frame. Parameters: the
    Ethernet header accessors of gVisor. *)

From S2P Require Import Prelude GoStrings Netip Capsule.

Local Open Scope go_scope.

Definition MTU : Z := 1500.

Class Ethernet := {
  EthernetMinimumSize : Z;
  eth_Type : list Z -> Z;
  eth_DestinationAddress : list Z -> list Z;
  EthernetBroadcastAddress : list Z;
  IsMulticastEthernetAddress : list Z -> bool;
  ARPProtocolNumber : Z;
  IPv4ProtocolNumber : Z;
  IPv6ProtocolNumber : Z;
}.

Section Qemu.
Context `{Ethernet}.

Definition maxFrameSize : Z := MTU + EthernetMinimumSize.

(** The check at the head of [Run]: [None] means the session starts. *)
Definition Run_check (MAC : list Z) (addresses : list Prefix) : option string :=
  if negb (len MAC =? 6) || negb (Z.land (hd 0 MAC) 1 =? 0) || (Z.of_nat (List.length addresses) =? 0)
  then Some "qemuproxy: unicast Ethernet MAC and gateway addresses required"%string
  else None.

(** Whether the reader injects a frame into the stack. *)
Definition accept_frame (MAC frame : list Z) : bool :=
  let type := eth_Type frame in
  let destination := eth_DestinationAddress frame in
  if negb ((type =? ARPProtocolNumber) || (type =? IPv4ProtocolNumber) || (type =? IPv6ProtocolNumber))
  then false
  else bool_decide (destination = MAC) || bool_decide (destination = EthernetBroadcastAddress)
       || IsMulticastEthernetAddress destination.

Definition readFrame (conn : reader) : Result (list Z * reader) :=
  let? (p0, conn) := ReadFull conn 1 in
  let? (p1, conn) := ReadFull conn 3 in
  let length := be_value (p0 ++ p1) in
  if (length <? EthernetMinimumSize) || (maxFrameSize <? length)
  then Err "qemuproxy: invalid Ethernet frame length %d"
  else ReadFull conn length.

Definition writeFrame (frame : list Z) : Result (list Z) :=
  if (len frame <? EthernetMinimumSize) || (maxFrameSize <? len frame)
  then Err "qemuproxy: invalid outbound frame length %d"
  else Ok (big_endian 4 (u32 (len frame)) ++ frame).

(** The reader goroutine: the frames it injects, and the error it ends with;
    every frame takes bytes off the stream. *)
Fixpoint read_frames (fuel : nat) (MAC : list Z) (conn : reader) : option (list (list Z) * string) :=
  match fuel with
  | O => None
  | S fuel =>
      match readFrame conn with
      | Err e => Some ([], e)
      | Ok (frame, conn) =>
          match read_frames fuel MAC conn with
          | None => None
          | Some (frames, e) =>
              Some (if accept_frame MAC frame then frame :: frames else frames, e)
          end
      end
  end.

(** The writer goroutine: the packets of the stack in order, until one has another
    size, a write fails, or the context ends; [fails] tells which writes do, and how
    many bytes of the prefix and the frame have gone out by then, fewer than all. *)
Fixpoint write_frames (fails : nat -> option (nat * string)) (ctx : string) (n : nat) (packets : list (list Z))
  : list (list Z) * string :=
  match packets with
  | [] => ([], ctx)
  | frame :: packets =>
      match writeFrame frame with
      | Err e => ([], e)
      | Ok bytes =>
          match fails n with
          | Some (written, e) => ([take (Nat.min written (List.length bytes - 1)) bytes], e)
          | None => let (chunks, e) := write_frames fails ctx (S n) packets in (bytes :: chunks, e)
          end
      end
  end.

(** ** Properties *)

(** The sizes a stack may use: a header, and frames below 2^16. *)
Definition sizes_ok : Prop := 1 <= EthernetMinimumSize <= 64.


Lemma readFrame_write frame rest e :
  sizes_ok -> EthernetMinimumSize <= len frame <= maxFrameSize ->
  exists bytes, writeFrame frame = Ok bytes /\
    readFrame (mkReader (bytes ++ rest) e) = Ok (frame, mkReader rest e).
Proof.
  unfold sizes_ok, maxFrameSize, MTU. intros Hs Hl. unfold writeFrame, maxFrameSize, MTU.
  assert ((len frame <? EthernetMinimumSize) || (1500 + EthernetMinimumSize <? len frame) = false)
    as -> by lia.
  eexists. split; [reflexivity|]. unfold u32. rewrite Z.mod_small by lia.
  destruct (big_endian 4 (len frame)) as [|b0 [|b1 [|b2 [|b3 [|]]]]] eqn:E;
    try (apply (f_equal (@List.length Z)) in E; rewrite big_endian_length in E; discriminate E).
  unfold readFrame. rewrite <- app_assoc.
  change ([b0; b1; b2; b3] ++ frame ++ rest) with ([b0] ++ [b1; b2; b3] ++ frame ++ rest).
  rewrite (ReadFull_exact [b0]).
  change 3 with (len [b1; b2; b3]). rewrite ReadFull_exact.
  change ([b0] ++ [b1; b2; b3]) with [b0; b1; b2; b3]. rewrite <- E, be_value_big_endian by lia.
  unfold maxFrameSize, MTU.
  assert ((len frame <? EthernetMinimumSize) || (1500 + EthernetMinimumSize <? len frame) = false)
    as -> by lia.
  apply ReadFull_exact.
Qed.

(** What the reader makes of a stream that ends inside a frame: [io.ReadFull] gives
    the error of the stream when it finds nothing, at the three places where a read
    begins, and otherwise turns an end of the stream into an unexpected one. *)
Definition torn_error (torn : list Z) (e : string) : string :=
  if existsb (Nat.eqb (List.length torn)) [0; 1; 4]%nat then e
  else if String.eqb e io_EOF then io_ErrUnexpectedEOF else e.

Lemma writeFrame_size f c : writeFrame f = Ok c ->
  EthernetMinimumSize <= len f <= maxFrameSize /\ c = big_endian 4 (u32 (len f)) ++ f.
Proof. unfold writeFrame. destruct ((_ <? _) || _) eqn:E; [done|]. intros [= <-]. split; [lia|done]. Qed.

Lemma ReadFull_short l n e :
  len l < n -> ReadFull (mkReader l e) n =
    Err (match l with [] => e | _ => if String.eqb e io_EOF then io_ErrUnexpectedEOF else e end).
Proof. intros Hl. unfold ReadFull. cbn [r_bytes r_final]. rewrite (proj2 (Z.leb_gt _ _)) by done. by destruct l. Qed.

Lemma readFrame_torn f bytes k e :
  sizes_ok -> writeFrame f = Ok bytes -> (k < List.length bytes)%nat ->
  readFrame (mkReader (take k bytes) e) = Err (torn_error (take k bytes) e).
Proof.
  intros Hs Hw Hk. destruct (writeFrame_size f bytes Hw) as [Hl ->].
  unfold sizes_ok in Hs. unfold u32 in *. rewrite Z.mod_small in * by (unfold maxFrameSize, MTU in *; lia).
  destruct (big_endian 4 (len f)) as [|b0 [|b1 [|b2 [|b3 [|]]]]] eqn:E;
    try (apply (f_equal (@List.length Z)) in E; rewrite big_endian_length in E; discriminate E).
  cbn [app] in *. destruct k as [|[|[|[|k]]]]; [done..|]. cbn [take].
  change (b0 :: b1 :: b2 :: b3 :: take k f) with ([b0] ++ [b1; b2; b3] ++ take k f). unfold readFrame.
  rewrite (ReadFull_exact [b0]). change 3 with (len [b1; b2; b3]). rewrite ReadFull_exact.
  change ([b0] ++ [b1; b2; b3]) with [b0; b1; b2; b3]. rewrite <- E, be_value_big_endian by (unfold maxFrameSize, MTU in *; lia).
  assert ((len f <? EthernetMinimumSize) || (maxFrameSize <? len f) = false) as -> by lia.
  cbn [List.length] in Hk. rewrite ReadFull_short by (unfold len; rewrite length_take; lia).
  unfold torn_error. cbn [app List.length]. destruct (take k f) eqn:Et; [done|]. done.
Qed.

(** What the writer leaves, in terms of the packets it wrote. *)
Lemma write_frames_spec fails ctx packets : forall n,
  let (chunks, e) := write_frames fails ctx n packets in
  exists frames rest whole torn, packets = frames ++ rest /\ chunks = whole ++ torn /\
    Forall2 (fun f c => writeFrame f = Ok c) frames whole /\
    match rest with
    | [] => e = ctx /\ torn = []
    | f :: _ =>
        writeFrame f = Err e /\ torn = [] \/
        exists written bytes, fails (n + List.length frames)%nat = Some (written, e) /\ writeFrame f = Ok bytes /\
          torn = [take (Nat.min written (List.length bytes - 1)) bytes]
    end.
Proof.
  induction packets as [|f packets IH]; intros n; cbn [write_frames]; [by exists [], [], [], []|].
  destruct (writeFrame f) as [bytes|e] eqn:Ew.
  - destruct (fails n) as [[written e]|] eqn:Ef.
    + exists [], (f :: packets), [], [take (Nat.min written (List.length bytes - 1)) bytes].
      split_and!; [done|done|constructor|]. right. exists written, bytes. cbn. by rewrite Nat.add_0_r.
    + specialize (IH (S n)). destruct (write_frames fails ctx (S n) packets) as [chunks e].
      destruct IH as (frames & rest & whole & torn & -> & -> & H2 & Hr). exists (f :: frames), rest, (bytes :: whole), torn.
      split_and!; [done|done|by constructor|]. cbn [List.length]. by rewrite Nat.add_succ_r.
  - exists [], (f :: packets), [], []. split_and!; [done|done|constructor|]. by left.
Qed.

(** Reading what was written, to where it ends. *)
Lemma read_frames_written MAC frames chunks torn e err : sizes_ok ->
  Forall2 (fun f c => writeFrame f = Ok c) frames chunks -> readFrame (mkReader torn e) = Err err ->
  read_frames (S (List.length frames)) MAC (mkReader (List.concat chunks ++ torn) e) =
    Some (List.filter (accept_frame MAC) frames, err).
Proof.
  intros Hs HF Ht. induction HF as [|f c frames chunks Hw _ IH].
  { cbn [List.concat List.length app read_frames List.filter]. by rewrite Ht. }
  destruct (readFrame_write f (List.concat chunks ++ torn) e Hs (proj1 (writeFrame_size f c Hw))) as (bytes & Hw' & Hread).
  rewrite Hw in Hw'. injection Hw' as <-.
  cbn [List.concat List.length]. rewrite <- app_assoc. remember (S (List.length frames)) as n. cbn [read_frames].
  rewrite Hread, IH. cbn [List.filter]. by destruct (accept_frame MAC f).
Qed.

Lemma readFrame_bad bad more e :
  len bad < EthernetMinimumSize \/ maxFrameSize < len bad -> len bad < 2 ^ 32 ->
  is_ok (readFrame (mkReader (big_endian 4 (len bad) ++ more) e)) = false.
Proof.
  intros Hb Hlt.
  assert ((len bad <? EthernetMinimumSize) || (maxFrameSize <? len bad) = true) as Hbad by lia.
  assert (0 <= len bad) by (unfold len; lia).
  destruct (big_endian 4 (len bad)) as [|b0 [|b1 [|b2 [|b3 [|]]]]] eqn:E;
    try (apply (f_equal (@List.length Z)) in E; rewrite big_endian_length in E; discriminate E).
  unfold readFrame. change ([b0; b1; b2; b3] ++ more) with ([b0] ++ [b1; b2; b3] ++ more).
  rewrite (ReadFull_exact [b0]).
  change 3 with (len [b1; b2; b3]). rewrite ReadFull_exact.
  change ([b0] ++ [b1; b2; b3]) with [b0; b1; b2; b3].
  by rewrite <- E, be_value_big_endian, Hbad by lia.
Qed.

(** Claim C38: the frame stream round trips, and nothing else passes. Whatever
    packets the stack gives and whichever write fails, after however many bytes, the
    writer sends some of the first of them whole, up to one of another size or to
    the write that fails, of which it sends less than all, and ends with that error,
    or with the context's. From what it sent, the reader at the other end injects
    exactly those of the whole packets that are for ARP, IPv4 or IPv6 and addressed
    to the gateway's MAC, to broadcast or to a multicast address, in order, and
    nothing of the torn one; it ends with the stream's error, which it turns into an
    unexpected end where the stream ended inside a part of a frame. A packet is sent
    only with a permitted size, and a length prefix of any other size is refused by
    the reader. *)
Theorem frame_stream_roundtrip (MAC : list Z) (packets : list (list Z)) (fails : nat -> option (nat * string))
    (ctx e : string) :
  sizes_ok ->
  let (chunks, end_) := write_frames fails ctx 0 packets in
  exists frames rest torn, packets = frames ++ rest /\
    Forall (fun f => EthernetMinimumSize <= len f <= maxFrameSize) frames /\
    match rest with
    | [] => end_ = ctx /\ torn = []
    | f :: _ =>
        writeFrame f = Err end_ /\ (len f < EthernetMinimumSize \/ maxFrameSize < len f) /\ torn = [] \/
        exists written bytes, fails (List.length frames) = Some (written, end_) /\ writeFrame f = Ok bytes /\
          torn = take (Nat.min written (List.length bytes - 1)) bytes
    end /\
    List.concat chunks = List.concat (map (fun f => big_endian 4 (len f) ++ f) frames) ++ torn /\
    read_frames (S (List.length frames)) MAC (mkReader (List.concat chunks) e) =
      Some (List.filter (accept_frame MAC) frames, torn_error torn e) /\
    forall bad, len bad < EthernetMinimumSize \/ maxFrameSize < len bad -> len bad < 2 ^ 32 -> forall more,
      is_ok (readFrame (mkReader (big_endian 4 (len bad) ++ more) e)) = false.
Proof.
  intros Hs. pose proof (write_frames_spec fails ctx packets 0) as Hw.
  destruct (write_frames fails ctx 0 packets) as [chunks end_].
  destruct Hw as (frames & rest & whole & torn & -> & -> & H2 & Hend).
  assert (Forall (fun f => EthernetMinimumSize <= len f <= maxFrameSize) frames /\
    List.concat whole = List.concat (map (fun f => big_endian 4 (len f) ++ f) frames)) as [Hsizes Hwhole].
  { clear Hend. induction H2 as [|f c frames whole Hf _ [IH1 IH2]]; [by split|].
    destruct (writeFrame_size f c Hf) as [Hl ->]. split; [by constructor|]. cbn [List.concat map]. rewrite IH2. unfold u32.
    rewrite Z.mod_small; [done|]. unfold sizes_ok, maxFrameSize, MTU in *. lia. }
  exists frames, rest, (List.concat torn). rewrite List.concat_app, Hwhole. split_and!; [done..| | | |].
  - destruct rest as [|f rest]; [by destruct Hend as [-> ->]|].
    destruct Hend as [[Hf ->]|(written & bytes & Hf & Hb & ->)]; [left|right].
    + split; [done|]. split; [|done]. unfold writeFrame in Hf.
      destruct ((len f <? EthernetMinimumSize) || (maxFrameSize <? len f)) eqn:E; [|done].
      apply orb_true_iff in E. rewrite !Z.ltb_lt in E. exact E.
    + exists written, bytes. split_and!; [done..|]. cbn. by rewrite app_nil_r.
  - done.
  - rewrite <- Hwhole. apply read_frames_written; [done..|].
    assert (torn = [] \/ exists f written bytes, writeFrame f = Ok bytes /\
      torn = [take (Nat.min written (List.length bytes - 1)) bytes]) as [-> | (f & written & bytes & Hb & ->)];
      [destruct rest; naive_solver|done|].
    cbn [List.concat]. rewrite app_nil_r. apply (readFrame_torn f); [done..|].
    destruct (writeFrame_size f bytes Hb) as [_ ->]. rewrite length_app, big_endian_length. lia.
  - intros bad Hb H32 more. by apply readFrame_bad.
Qed.

End Qemu.

(** The header of IEEE 802.3, as gVisor reads it. *)
#[local] Instance ethernet : Ethernet := {|
  EthernetMinimumSize := 14;
  eth_Type f := 256 * nth 12 f 0 + nth 13 f 0;
  eth_DestinationAddress f := firstn 6 f;
  EthernetBroadcastAddress := repeat 255 6;
  IsMulticastEthernetAddress a := Z.testbit (hd 0 a) 0;
  ARPProtocolNumber := 0x0806;
  IPv4ProtocolNumber := 0x0800;
  IPv6ProtocolNumber := 0x86dd;
|}.

Definition sample_frame (type : Z) : list Z :=
  [2; 0; 0; 0; 0; 1] ++ repeat 9 6 ++ [type / 256; type mod 256; 1; 2; 3].

(** The second write fails in the middle of its frame. *)
Definition sample_fails (n : nat) : option (nat * string) :=
  if (n =? 1)%nat then Some (9%nat, "EPIPE"%string) else None.

Lemma frame_stream_roundtrip_witness :
  read_frames 2 [2; 0; 0; 0; 0; 1]
    (mkReader (List.concat (write_frames sample_fails "done" 0 [sample_frame 0x0800; sample_frame 0x88cc]).1) io_EOF) =
    Some ([sample_frame 0x0800], io_ErrUnexpectedEOF).
Proof.
  assert (sizes_ok (H := ethernet)) as Hs by (unfold sizes_ok; simpl; lia).
  pose proof (frame_stream_roundtrip [2; 0; 0; 0; 0; 1] [sample_frame 0x0800; sample_frame 0x88cc]
    sample_fails "done" io_EOF Hs) as H.
  destruct (write_frames _ _ _ _) as [chunks end_] eqn:E. cbn [fst].
  destruct H as (frames & rest & torn & Ef & _ & Hend & _ & Hr & _).
  destruct frames as [|f0 [|f1 frames]]; cbn [app] in Ef.
  - subst rest. destruct Hend as [[H _]|(written & bytes & H & _)]; [vm_compute in H; discriminate H|discriminate H].
  - injection Ef as <- <-. destruct Hend as [[H _]|(written & bytes & Hf & Hb & ->)]; [vm_compute in H; discriminate H|].
    injection Hf as <- _. vm_compute in Hb. injection Hb as <-. exact Hr.
  - exfalso. vm_compute in E. injection E as <- _. injection Ef as <- <- Ef.
    destruct frames as [|? ?]; [|discriminate Ef]. cbn [app] in Ef. subst rest. destruct Hend as [_ ->].
    vm_compute in Hr. discriminate Hr.
Defined.
