(* ===== verification/Netns.v ===== *)
(** * The namespace proxy: destinations and set-up

    [sdk/pkg/netnsproxy]: the original destination of a redirected connection
    or datagram ([socket_linux.go]), the checks and the cleanup of [New]
    ([proxy_linux.go]) and the policy routes with their rollback
    ([routes_linux.go]). What the kernel, netlink and nftables answer are
    inputs. *)

From S2P Require Import Prelude GoStrings Netip VirtualDNS Forwarder Capsule.

Local Open Scope go_scope.

(** ** Original destinations *)

Definition SOL_IP : Z := 0.
Definition SOL_IPV6 : Z := 41.
Definition IP_ORIGDSTADDR : Z := 20.
Definition IPV6_ORIGDSTADDR : Z := 74.
Definition SizeofSockaddrInet4 : Z := 16.
Definition SizeofSockaddrInet6 : Z := 28.

(** A parsed socket control message. *)
Record SocketControlMessage := mkMessage { Level : Z; Type_ : Z; Data : list Z }.

(** [s[i:j]] *)
Definition slice (s : list Z) (i j : nat) : list Z := firstn (j - i) (skipn i s).

Definition noAddrPort : AddrPort := mkAddrPort AddrZero 0.

Definition message_destination (m : SocketControlMessage) : option AddrPort :=
  if (Level m =? SOL_IP) && (Type_ m =? IP_ORIGDSTADDR) && (SizeofSockaddrInet4 <=? len (Data m))
  then Some (mkAddrPort (AddrFrom4 (slice (Data m) 4 8)) (be_value (slice (Data m) 2 4)))
  else if (Level m =? SOL_IPV6) && (Type_ m =? IPV6_ORIGDSTADDR) && (SizeofSockaddrInet6 <=? len (Data m))
  then Some (mkAddrPort (AddrFrom16 (slice (Data m) 8 24)) (be_value (slice (Data m) 2 4)))
  else None.

Definition packetDestination (messages : Result (list SocketControlMessage)) : Result AddrPort :=
  match messages with
  | Err e => Err e
  | Ok messages =>
      let destination :=
        fold_left (fun d m => default d (message_destination m)) messages noAddrPort in
      if negb (IsValid (ap_Addr destination)) || (ap_Port destination =? 0)
      then Err "netnsproxy: missing original destination"
      else Ok destination
  end.

(** [binary.NativeEndian.AppendUint16(nil, v)] on a machine of either order. *)
Definition native_uint16 (little : bool) (v : Z) : list Z :=
  if little then [v mod 256; v / 256] else [v / 256; v mod 256].

(** [syscall]: an error of [SyscallConn] or [Control]; [opt4] and [opt6]: what the
    two [getsockopt] calls return, the multicast address field and the port and
    address of the IPv6 structure. *)
Definition originalDestination (little : bool) (syscall : option string) (local_is4 : bool)
    (opt4 : Result (list Z)) (opt6 : Result (Z * list Z)) : Result AddrPort :=
  match syscall with
  | Some e => Err e
  | None =>
      if local_is4
      then let? multiaddr := opt4 in
           Ok (mkAddrPort (AddrFrom4 (slice multiaddr 4 8)) (be_value (slice multiaddr 2 4)))
      else let? (port, addr) := opt6 in
           Ok (mkAddrPort (AddrFrom16 addr) (be_value (native_uint16 little port)))
  end.

(** The structures of the kernel: an IPv4 and an IPv6 socket address. *)
Definition sockaddr_in (family port addr : Z) : list Z :=
  [family mod 256; family / 256] ++ big_endian 2 port ++ big_endian 4 addr ++ repeat 0 8.

Definition sockaddr_in6 (family port flow addr : Z) : list Z :=
  [family mod 256; family / 256] ++ big_endian 2 port ++ big_endian 4 flow ++ big_endian 16 addr ++
  repeat 0 4.

(** The native integer that the two bytes of a port make in a structure. *)
Definition native_value (little : bool) (bytes : list Z) : Z :=
  match bytes with
  | [b0; b1] => if little then b0 + 256 * b1 else 256 * b0 + b1
  | _ => 0
  end.

Lemma native_roundtrip little b0 b1 :
  is_byte b0 -> is_byte b1 -> native_uint16 little (native_value little [b0; b1]) = [b0; b1].
Proof.
  unfold is_byte, native_uint16, native_value. intros H0 H1. destruct little.
  - f_equal; [|f_equal]; Z.div_mod_to_equations; lia.
  - f_equal; [|f_equal]; Z.div_mod_to_equations; lia.
Qed.

Lemma slice_middle (a b c : list Z) i j :
  List.length a = i -> (List.length b = j - i)%nat -> slice (a ++ b ++ c) i j = b.
Proof.
  intros Ha Hb. unfold slice. rewrite skipn_app. rewrite skipn_all2 by lia.
  replace (i - List.length a)%nat with 0%nat by lia. cbn [app]. rewrite drop_0.
  rewrite firstn_app, <- Hb. replace (List.length b - List.length b)%nat with 0%nat by lia.
  by rewrite firstn_all, firstn_O, app_nil_r.
Qed.

Lemma sockaddr_in_fields family port addr :
  0 <= port < 2 ^ 16 -> 0 <= addr < 2 ^ 32 ->
  be_value (slice (sockaddr_in family port addr) 2 4) = port /\
  AddrFrom4 (slice (sockaddr_in family port addr) 4 8) = Addr4 addr.
Proof.
  intros Hp Ha. unfold sockaddr_in, AddrFrom4. split.
  - rewrite slice_middle; rewrite ?big_endian_length; [|done..]. by apply be_value_big_endian.
  - rewrite (app_assoc [_; _]). rewrite slice_middle; rewrite ?length_app, ?big_endian_length; [|done..].
    by rewrite be_value_big_endian.
Qed.

Lemma sockaddr_in6_fields family port flow addr :
  0 <= port < 2 ^ 16 -> 0 <= addr < 2 ^ 128 ->
  be_value (slice (sockaddr_in6 family port flow addr) 2 4) = port /\
  AddrFrom16 (slice (sockaddr_in6 family port flow addr) 8 24) = Addr6 addr EmptyString.
Proof.
  intros Hp Ha. unfold sockaddr_in6, AddrFrom16. split.
  - rewrite slice_middle; rewrite ?big_endian_length; [|done..]. by apply be_value_big_endian.
  - rewrite (app_assoc (big_endian 2 port)), (app_assoc [_; _]).
    rewrite slice_middle; rewrite ?length_app, ?big_endian_length; [|done..].
    by rewrite be_value_big_endian.
Qed.

Lemma fold_destination_none ms : forall d,
  Forall (fun m => message_destination m = None) ms ->
  fold_left (fun d m => default d (message_destination m)) ms d = d.
Proof.
  induction ms as [|m ms IH]; intros d; [done|]. intros HF. apply Forall_cons in HF as [Hm HF].
  cbn [fold_left]. rewrite Hm. by apply IH.
Qed.

Lemma packetDestination_last pre m post d :
  message_destination m = Some d -> Forall (fun m => message_destination m = None) post ->
  packetDestination (Ok (pre ++ m :: post)) =
    if negb (IsValid (ap_Addr d)) || (ap_Port d =? 0)
    then Err "netnsproxy: missing original destination" else Ok d.
Proof.
  intros Hm Hpost. unfold packetDestination. rewrite fold_left_app. cbn [fold_left].
  rewrite Hm. cbn [default]. by rewrite fold_destination_none.
Qed.

(** The destination a guest dialed is recovered exactly. From the
    socket address structures of the kernel, in either byte order, the port and
    the address come out as they went in, over TCP and over UDP, IPv4 and IPv6;
    for a datagram it is the last message of the right level, type and size that
    counts, and a datagram without one, or with port zero, is refused. *)
Theorem original_destination_roundtrip (little : bool) (family flow port a4 a6 : Z)
    (pre post : list SocketControlMessage) (opt4 : Result (list Z)) (opt6 : Result (Z * list Z)) :
  0 < port < 2 ^ 16 -> 0 <= a4 < 2 ^ 32 -> 0 <= a6 < 2 ^ 128 ->
  Forall (fun m => message_destination m = None) post ->
  originalDestination little None true (Ok (sockaddr_in family port a4)) opt6 =
    Ok (mkAddrPort (Addr4 a4) port) /\
  originalDestination little None false opt4
    (Ok (native_value little (big_endian 2 port), big_endian 16 a6)) =
    Ok (mkAddrPort (Addr6 a6 EmptyString) port) /\
  packetDestination (Ok (pre ++ mkMessage SOL_IP IP_ORIGDSTADDR (sockaddr_in family port a4) :: post)) =
    Ok (mkAddrPort (Addr4 a4) port) /\
  packetDestination
    (Ok (pre ++ mkMessage SOL_IPV6 IPV6_ORIGDSTADDR (sockaddr_in6 family port flow a6) :: post)) =
    Ok (mkAddrPort (Addr6 a6 EmptyString) port) /\
  is_ok (packetDestination (Ok post)) = false /\
  is_ok (packetDestination
    (Ok (pre ++ mkMessage SOL_IP IP_ORIGDSTADDR (sockaddr_in family 0 a4) :: post))) = false.
Proof.
  intros Hp H4 H6 Hpost.
  destruct (sockaddr_in_fields family port a4 ltac:(lia) H4) as [Hp4 Ha4].
  destruct (sockaddr_in6_fields family port flow a6 ltac:(lia) H6) as [Hp6 Ha6].
  destruct (sockaddr_in_fields family 0 a4 ltac:(lia) H4) as [Hp0 Ha0].
  assert ((port =? 0) = false) as Hne by lia.
  split; [unfold originalDestination; by rewrite Hp4, Ha4|]. split.
  { unfold originalDestination, AddrFrom16.
    pose proof (big_endian_bytes 2 port) as HB. pose proof (big_endian_length 2 port) as HL.
    destruct (big_endian 2 port) as [|b0 [|b1 [|]]] eqn:E; try discriminate HL.
    apply Forall_cons in HB as [HB0 HB]. apply Forall_cons in HB as [HB1 _].
    rewrite native_roundtrip by done. rewrite <- E. by rewrite !be_value_big_endian by lia. }
  split; [|split; [|split]].
  - rewrite (packetDestination_last _ _ _ (mkAddrPort (Addr4 a4) port)); [cbn; by rewrite Hne| |done].
    unfold message_destination. cbn [Level Type_ Data]. rewrite Hp4, Ha4. by cbn.
  - rewrite (packetDestination_last _ _ _ (mkAddrPort (Addr6 a6 EmptyString) port));
      [cbn; by rewrite Hne| |done].
    unfold message_destination. cbn [Level Type_ Data]. rewrite Hp6, Ha6. by cbn.
  - unfold packetDestination. by rewrite fold_destination_none.
  - rewrite (packetDestination_last _ _ _ (mkAddrPort (Addr4 a4) 0)); [done| |done].
    unfold message_destination. cbn [Level Type_ Data]. rewrite Hp0, Ha0. by cbn.
Qed.

Lemma original_destination_roundtrip_witness :
  originalDestination true None false (Err "unused")
    (Ok (native_value true (big_endian 2 443), big_endian 16 1)) =
    Ok (mkAddrPort (Addr6 1 EmptyString) 443).
Proof.
  destruct (original_destination_roundtrip true 2 0 443 1681915905 1 []
    [mkMessage SOL_IP 8 [1; 0; 0; 0]] (Err "unused") (Err "unused")) as (_ & Hv6 & _);
    [lia..| |exact Hv6].
  repeat constructor.
Defined.

(** ** Policy routes *)

(** Calls on the netlink handle for one address family. *)
Inductive netlink_call : Type :=
| LinkByName
| RuleList (family : Z)
| RouteAdd (family : Z)
| RuleAdd (family : Z)
| RuleDel (family : Z)
| RouteDel (family : Z)
| HandleClose.

Definition AF_INET : Z := 2.
Definition AF_INET6 : Z := 10.
Definition routingMark : Z := 0x616e.
Definition routingTable : Z := 16666.

Record ip_rule := mkIPRule { rule_Table : Z; rule_Priority : Z; rule_Mark : Z }.

Definition rule_conflicts (r : ip_rule) : bool :=
  (rule_Table r =? routingTable) || (rule_Priority r =? routingTable) || (rule_Mark r =? routingMark).

Section Routes.
Variable fails : netlink_call -> option string.
Variable existing : Z -> list ip_rule.

(** The loop of [installRoutes]: the calls made, the families whose route and
    whose rule were added, and the error. *)
Fixpoint install_families (families : list Z)
  : list netlink_call * list Z * list Z * option string :=
  match families with
  | [] => ([], [], [], None)
  | family :: families =>
      match fails (RuleList family) with
      | Some e => ([RuleList family], [], [], Some e)
      | None =>
          if existsb rule_conflicts (existing family)
          then ([RuleList family], [], [],
                Some "netnsproxy: policy routing table, mark, or priority already in use"%string)
          else match fails (RouteAdd family) with
               | Some e => ([RuleList family; RouteAdd family], [], [], Some e)
               | None =>
                   match fails (RuleAdd family) with
                   | Some e => ([RuleList family; RouteAdd family; RuleAdd family], [family], [], Some e)
                   | None =>
                       let '(calls, routes, rules, r) := install_families families in
                       ([RuleList family; RouteAdd family; RuleAdd family] ++ calls,
                        family :: routes, family :: rules, r)
                   end
               end
      end
  end.

Definition installRoutes (newHandle : option string) (ipv6 : bool) : list netlink_call * option string :=
  match newHandle with
  | Some e => ([], Some e)
  | None =>
      match fails LinkByName with
      | Some e => ([LinkByName; HandleClose], Some e)
      | None =>
          let families := if ipv6 then [AF_INET; AF_INET6] else [AF_INET] in
          match install_families families with
          | (calls, routes, rules, Some e) =>
              (LinkByName :: calls ++ map RuleDel rules ++ map RouteDel routes ++ [HandleClose], Some e)
          | (calls, _, _, None) => (LinkByName :: calls ++ [HandleClose], None)
          end
      end
  end.

(** The routes and the rules in place after a sequence of calls. *)
Definition netlink_effect (s : list Z * list Z) (c : netlink_call) : list Z * list Z :=
  let '(routes, rules) := s in
  match c with
  | RouteAdd f => match fails c with None => (f :: routes, rules) | Some _ => s end
  | RuleAdd f => match fails c with None => (routes, f :: rules) | Some _ => s end
  | RouteDel f => match fails c with None => (List.filter (fun g => negb (g =? f)) routes, rules) | Some _ => s end
  | RuleDel f => match fails c with None => (routes, List.filter (fun g => negb (g =? f)) rules) | Some _ => s end
  | _ => s
  end.

Definition in_place (calls : list netlink_call) : list Z * list Z :=
  fold_left netlink_effect calls ([], []).

Local Ltac run_calls :=
  cbn; repeat (match goal with H : context [fails _ = None] |- _ => rewrite H
                             | H : fails _ = Some _ |- _ => rewrite H end; cbn); done.

(** Claim C34: policy routes are installed completely or not at all. If
    [installRoutes] succeeds, each of its families has its route and its
    rule, and no rule in place before used the reserved table, priority or
    mark. If it fails, then whatever call it fails at, nothing it added is
    left behind, provided deletions succeed. A handle it opened is closed. *)
Theorem routes_installed_or_rolled_back (newHandle : option string) (ipv6 : bool) :
  (forall f, fails (RuleDel f) = None /\ fails (RouteDel f) = None) ->
  match installRoutes newHandle ipv6 with
  | (calls, None) =>
      in_place calls = (if ipv6 then ([AF_INET6; AF_INET], [AF_INET6; AF_INET]) else ([AF_INET], [AF_INET])) /\
      (forall f, In (RuleAdd f) calls -> existsb rule_conflicts (existing f) = false)
  | (calls, Some _) => in_place calls = ([], [])
  end /\
  (newHandle = None -> last (fst (installRoutes newHandle ipv6)) = Some HandleClose).
Proof.
  intros Hdel. pose proof (fun f => proj1 (Hdel f)) as Hrule. pose proof (fun f => proj2 (Hdel f)) as Hroute.
  unfold installRoutes. destruct newHandle; [by split|].
  destruct (fails LinkByName) eqn:E0; [by split|].
  assert (forall f, existsb rule_conflicts (existing f) = true \/ existsb rule_conflicts (existing f) = false)
    as Hex by (intros f; destruct (existsb _ _); auto).
  unfold in_place. destruct ipv6; cbn [install_families].
  all: destruct (fails (RuleList AF_INET)) eqn:E1; [by split|].
  all: destruct (Hex AF_INET) as [X1|X1]; rewrite X1; [by split|].
  all: destruct (fails (RouteAdd AF_INET)) eqn:E2;
    [split; [run_calls|done]|].
  all: destruct (fails (RuleAdd AF_INET)) eqn:E3;
    [split; [run_calls|done]|].
  1: destruct (fails (RuleList AF_INET6)) eqn:E4;
    [split; [run_calls|done]|].
  1: destruct (Hex AF_INET6) as [X2|X2]; rewrite X2;
    [split; [run_calls|done]|].
  1: destruct (fails (RouteAdd AF_INET6)) eqn:E5;
    [split; [run_calls|done]|].
  1: destruct (fails (RuleAdd AF_INET6)) eqn:E6;
    [split; [run_calls|done]|].
  all: split; [|done]; split; [run_calls|].
  all: intros f [H|[H|[H|[H|H]]]]; try discriminate; try (injection H as <-; done);
    repeat (destruct H as [H|H]; try discriminate; try (injection H as <-; done)); done.
Qed.
End Routes.

(** The second rule cannot be added: the first rule and both routes go. *)
Lemma routes_installed_or_rolled_back_witness :
  let fails c := match c with RuleAdd 10 => Some "EPERM"%string | _ => None end in
  fst (installRoutes fails (fun _ => []) None true) =
    [LinkByName; RuleList 2; RouteAdd 2; RuleAdd 2; RuleList 10; RouteAdd 10; RuleAdd 10;
     RuleDel 2; RouteDel 2; RouteDel 10; HandleClose] /\
  in_place fails (fst (installRoutes fails (fun _ => []) None true)) = ([], []).
Proof.
  split; [vm_compute; reflexivity|].
  destruct (routes_installed_or_rolled_back
    (fun c => match c with RuleAdd 10 => Some "EPERM"%string | _ => None end) (fun _ => []) None true
    ltac:(intros f; split; reflexivity)) as [Hr _].
  exact Hr.
Defined.

(** ** Socket options *)

Definition SOL_SOCKET : Z := 1.
Definition SO_REUSEADDR : Z := 2.
Definition IP_RECVORIGDSTADDR : Z := 20.
Definition IP_TRANSPARENT : Z := 19.
Definition IPV6_RECVORIGDSTADDR : Z := 74.
Definition IPV6_TRANSPARENT : Z := 75.

(** [SetsockoptInt(fd, level, option, 1)] of each option, until one fails: the
    options set, and the error. *)
Fixpoint set_options (setsockopt : Z * Z -> option string) (options : list (Z * Z)) : list (Z * Z) * option string :=
  match options with
  | [] => ([], None)
  | o :: options =>
      match setsockopt o with
      | Some e => ([], Some e)
      | None => let (set, e) := set_options setsockopt options in (o :: set, e)
      end
  end.

(** The control functions; [raw] is an error of [raw.Control] itself. *)
Definition udpOptions (ipv6 : bool) (raw : option string) (setsockopt : Z * Z -> option string)
  : list (Z * Z) * option string :=
  let '(level, original) := if ipv6 then (SOL_IPV6, IPV6_RECVORIGDSTADDR) else (SOL_IP, IP_RECVORIGDSTADDR) in
  let option := if ipv6 then IPV6_TRANSPARENT else IP_TRANSPARENT in
  match raw with
  | Some e => ([], Some e)
  | None => set_options setsockopt [(level, original); (level, option)]
  end.

(** The socket that answers a workload as the destination it addressed. *)
Record reply_socket := mkReply {
  r_network : string; r_local : AddrPort; r_remote : AddrPort; r_options : list (Z * Z);
}.

Definition replySocket (raw : option string) (setsockopt : Z * Z -> option string) (dial : option string)
    (peer destination : AddrPort) : Result reply_socket :=
  let is6 := Is6 (ap_Addr destination) in
  let network := if is6 then "udp6"%string else "udp4"%string in
  let '(level, option) := if is6 then (SOL_IPV6, IPV6_TRANSPARENT) else (SOL_IP, IP_TRANSPARENT) in
  match raw with
  | Some e => Err e
  | None =>
      match set_options setsockopt [(level, option); (SOL_SOCKET, SO_REUSEADDR)] with
      | (_, Some e) => Err e
      | (options, None) =>
          match dial with
          | Some e => Err e
          | None => Ok (mkReply network destination peer options)
          end
      end
  end.

Lemma set_options_all setsockopt options set :
  set_options setsockopt options = (set, None) -> set = options /\ Forall (fun o => setsockopt o = None) options.
Proof.
  revert set. induction options as [|o options IH]; intros set; cbn [set_options]; [by intros [= <-]|].
  destruct (setsockopt o) eqn:Eo; [done|]. destruct (set_options setsockopt options) as [set' [e|]]; [done|].
  intros [= <-]. destruct (IH set' eq_refl) as [-> HF]. by split; [|constructor].
Qed.

(** The two sockets of a datagram agree with what is read from it. A
    listener whose options were set asks, at the level of its family, for the
    message that [packetDestination] reads there; and a reply socket that was
    opened is bound to that destination, at its family, with the right to bind
    an address that is not local. *)
Theorem udp_sockets_agree (ipv6 : bool) (setsockopt : Z * Z -> option string) (set : list (Z * Z))
    (data : list Z) (raw dial : option string) (peer destination : AddrPort) (s : reply_socket) :
  udpOptions ipv6 None setsockopt = (set, None) -> 28 <= len data ->
  (exists level original, In (level, original) set /\
     is_Some (message_destination (mkMessage level original data)) /\
     forall d, message_destination (mkMessage level original data) = Some d -> Is6 (ap_Addr d) = ipv6) /\
  (replySocket raw setsockopt dial peer destination = Ok s ->
     r_local s = destination /\ r_remote s = peer /\
     In (if Is6 (ap_Addr destination) then (SOL_IPV6, IPV6_TRANSPARENT) else (SOL_IP, IP_TRANSPARENT)) (r_options s) /\
     r_network s = (if Is6 (ap_Addr destination) then "udp6" else "udp4")%string).
Proof.
  intros Hset Hlen. split.
  - unfold udpOptions in Hset. destruct ipv6; apply set_options_all in Hset as [-> _]; do 2 eexists;
      (split; [by left|]); unfold message_destination; cbn [Level Type_ Data]; cbn [Z.eqb andb];
      unfold SizeofSockaddrInet4, SizeofSockaddrInet6; rewrite ?(proj2 (Z.leb_le _ _)) by lia;
      (split; [by eexists|]); by intros d [= <-].
  - unfold replySocket. destruct (Is6 (ap_Addr destination)); destruct raw; try done;
      destruct (set_options _ _) as [options [e|]] eqn:Eo; try done; destruct dial; try done; intros [= <-];
      apply set_options_all in Eo as [-> _]; cbn; auto.
Qed.

(** ** Setting the proxy up *)

Record Interface := mkInterface { i_Index : Z; i_Name : string; i_Loopback : bool; i_Up : bool }.

Record Config := mkConfig {
  c_Interface : string;
  c_Table : string;
  c_Forwarder : bool;  (** whether the forwarder, its dialer and its resolver are set *)
  c_EnableUDP : bool;
  c_EnableIPv6 : bool;
  c_MaxConnections : Z;
}.

(** What [New] checks before it opens anything, and the configuration it keeps. *)
Definition New_config (cfg : Config) (link : Result Interface) (interfaces : Result (list Interface))
  : Result Config :=
  if negb (c_Forwarder cfg) then Err "netnsproxy: Forwarder, Dialer and DNS are required"
  else if String.eqb (c_Interface cfg) EmptyString then Err "netnsproxy: ingress interface is required"
  else
    let? link := link in
    if i_Loopback link || negb (i_Up link)
    then Err "netnsproxy: ingress interface must be up and not loopback"
    else
      let? interfaces := interfaces in
      if existsb (fun c => negb (i_Index c =? i_Index link) && negb (i_Loopback c)) interfaces
      then Err "netnsproxy: unexpected interface %q; use a dedicated namespace"
      else Ok (mkConfig (c_Interface cfg)
                 (if String.eqb (c_Table cfg) EmptyString then "agents_net"%string else c_Table cfg)
                 true (c_EnableUDP cfg) (c_EnableIPv6 cfg)
                 (if c_MaxConnections cfg <=? 0 then 1024 else c_MaxConnections cfg)).

(** The resources [New] opens and gives back. [FlushTable] commits the table
    and its rules, [FlushDelTable] deletes the table. *)
Inductive setup_event : Type :=
| ListenTCP (family : Z)
| ListenUDP (family : Z)
| OpenNftables
| FlushTable
| InstallRoutes
| FlushDelTable
| CloseNftables
| CloseProxy (tcp udp : list Z).

Section Setup.
Variable fails : setup_event -> option string.

(** The listeners opened so far go into the proxy, so that [Close] finds them. *)
Fixpoint open_listeners (families tcp udp : list Z)
  : list setup_event * (list Z * list Z) * option string :=
  match families with
  | [] => ([], (tcp, udp), None)
  | f :: families =>
      match fails (ListenTCP f) with
      | Some e => ([ListenTCP f; CloseProxy tcp udp], (tcp, udp), Some e)
      | None =>
          let tcp := tcp ++ [f] in
          match fails (ListenUDP f) with
          | Some e => ([ListenTCP f; ListenUDP f; CloseProxy tcp udp], (tcp, udp), Some e)
          | None =>
              let '(events, state, r) := open_listeners families tcp (udp ++ [f]) in
              ([ListenTCP f; ListenUDP f] ++ events, state, r)
          end
      end
  end.

Definition New (cfg : Config) (link : Result Interface) (interfaces : Result (list Interface))
  : list setup_event * Result Config :=
  match New_config cfg link interfaces with
  | Err e => ([], Err e)
  | Ok cfg =>
      let families := if c_EnableIPv6 cfg then [4; 6] else [4] in
      match open_listeners families [] [] with
      | (events, _, Some e) => (events, Err e)
      | (events, (tcp, udp), None) =>
          match fails OpenNftables with
          | Some e => (events ++ [OpenNftables; CloseProxy tcp udp], Err e)
          | None =>
              match fails FlushTable with
              | Some e => (events ++ [OpenNftables; FlushTable; CloseProxy tcp udp; CloseNftables],
                           Err "netnsproxy: install nftables table %s: %w")
              | None =>
                  match fails InstallRoutes with
                  | Some e => (events ++ [OpenNftables; FlushTable; InstallRoutes; FlushDelTable;
                                          CloseProxy tcp udp; CloseNftables],
                               Err "netnsproxy: install UDP policy routes: %w")
                  | None => (events ++ [OpenNftables; FlushTable; InstallRoutes; CloseNftables], Ok cfg)
                  end
              end
          end
      end
  end.

(** What is open after the events: the listeners of each kind, the connection
    to nftables, the table, and the routes. *)
Record open_set := mkOpen {
  o_tcp : list Z; o_udp : list Z; o_nft : bool; o_table : bool; o_routes : bool }.

Definition setup_effect (s : open_set) (ev : setup_event) : open_set :=
  match ev, fails ev with
  | ListenTCP f, None => mkOpen (o_tcp s ++ [f]) (o_udp s) (o_nft s) (o_table s) (o_routes s)
  | ListenUDP f, None => mkOpen (o_tcp s) (o_udp s ++ [f]) (o_nft s) (o_table s) (o_routes s)
  | OpenNftables, None => mkOpen (o_tcp s) (o_udp s) true (o_table s) (o_routes s)
  | FlushTable, None => mkOpen (o_tcp s) (o_udp s) (o_nft s) true (o_routes s)
  | InstallRoutes, None => mkOpen (o_tcp s) (o_udp s) (o_nft s) (o_table s) true
  | FlushDelTable, None => mkOpen (o_tcp s) (o_udp s) (o_nft s) false (o_routes s)
  | CloseNftables, _ => mkOpen (o_tcp s) (o_udp s) false (o_table s) (o_routes s)
  | CloseProxy tcp udp, _ =>
      mkOpen (List.filter (fun f => negb (existsb (Z.eqb f) tcp)) (o_tcp s))
        (List.filter (fun f => negb (existsb (Z.eqb f) udp)) (o_udp s)) (o_nft s) (o_table s) (o_routes s)
  | _, _ => s
  end.

Definition left_open (events : list setup_event) : open_set :=
  fold_left setup_effect events (mkOpen [] [] false false false).

Local Ltac run_setup :=
  repeat (progress cbn || match goal with H : fails _ = _ |- _ => rewrite H end); try done.

(** The proxy is set up completely or leaves nothing behind. [New]
    succeeds only in a namespace whose interfaces other than loopback are the
    one it was given, which is up; then it holds one TCP and one UDP listener
    per enabled family, its table and its routes. When any step fails, every
    listener it opened, its nftables connection and its table are gone again,
    provided the table can be deleted. *)
Theorem netns_setup_or_cleanup (cfg : Config) (link : Result Interface)
    (interfaces : Result (list Interface)) :
  fails FlushDelTable = None ->
  match New cfg link interfaces with
  | (events, Ok cfg') =>
      let families := if c_EnableIPv6 cfg then [4; 6] else [4] in
      left_open events = mkOpen families families false true true /\
      1 <= c_MaxConnections cfg' /\ c_EnableUDP cfg' = c_EnableUDP cfg /\
      exists l ls, link = Ok l /\ interfaces = Ok ls /\ i_Up l = true /\ i_Loopback l = false /\
        forall c, In c ls -> i_Loopback c = true \/ i_Index c = i_Index l
  | (events, Err _) => left_open events = mkOpen [] [] false false false
  end.
Proof.
  intros Hdel. unfold New. destruct (New_config cfg link interfaces) as [cfg'|] eqn:EC; [|done].
  assert (c_EnableIPv6 cfg' = c_EnableIPv6 cfg /\ 1 <= c_MaxConnections cfg' /\
    c_EnableUDP cfg' = c_EnableUDP cfg /\
    exists l ls, link = Ok l /\ interfaces = Ok ls /\ i_Up l = true /\ i_Loopback l = false /\
      forall c, In c ls -> i_Loopback c = true \/ i_Index c = i_Index l) as (E6 & Hrest).
  { unfold New_config in EC. destruct (negb (c_Forwarder cfg)); [done|].
    destruct (String.eqb _ _); [done|]. destruct link as [l|]; [|done].
    destruct (i_Loopback l || negb (i_Up l)) eqn:El; [done|]. destruct interfaces as [ls|]; [|done].
    destruct (existsb _ ls) eqn:Ee; [done|]. injection EC as <-. cbn. split; [done|].
    split; [destruct (c_MaxConnections cfg <=? 0) eqn:Em; lia|]. split; [done|].
    exists l, ls. bool_to_prop. repeat (split; [done|]). intros c Hc.
    pose proof (proj1 (existsb_false_iff _ _) Ee c Hc) as Hf. cbn beta in Hf. bool_to_prop.
    destruct Hf as [Hf|Hf]; bool_to_prop; auto. }
  rewrite <- E6. unfold left_open. destruct (c_EnableIPv6 cfg'); cbn [open_listeners].
  all: destruct (fails (ListenTCP 4)) eqn:E1; [by run_setup|].
  all: destruct (fails (ListenUDP 4)) eqn:E2; [by run_setup|].
  1: destruct (fails (ListenTCP 6)) eqn:E3; [by run_setup|].
  1: destruct (fails (ListenUDP 6)) eqn:E4; [by run_setup|].
  all: destruct (fails OpenNftables) eqn:E5; [by run_setup|].
  all: destruct (fails FlushTable) eqn:E7; [by run_setup|].
  all: destruct (fails InstallRoutes) eqn:E8; [by run_setup|].
  all: split; [by run_setup|done].
Qed.
End Setup.

Lemma netns_setup_or_cleanup_witness :
  let fails ev := match ev with InstallRoutes => Some "in use"%string | _ => None end in
  let veth := mkInterface 2 "veth0" false true in
  let lo := mkInterface 1 "lo" true true in
  let r := New fails (mkConfig "veth0" EmptyString true true true 0) (Ok veth) (Ok [lo; veth]) in
  is_ok (snd r) = false /\ left_open fails (fst r) = mkOpen [] [] false false false.
Proof.
  split; [vm_compute; reflexivity|].
  exact (netns_setup_or_cleanup (fun ev => match ev with InstallRoutes => Some "in use"%string | _ => None end)
    (mkConfig "veth0" EmptyString true true true 0) (Ok (mkInterface 2 "veth0" false true))
    (Ok [mkInterface 1 "lo" true true; mkInterface 2 "veth0" false true]) eq_refl).
Defined.
