(* ===== verification/NetnsFlows.v ===== *)
(** * The namespace proxy: flows

    [sdk/pkg/netnsproxy]: [packetFlow] ([packet_linux.go]), and the loops of
    [serveUDP] and [serveTCP] with their goroutines and [Close]
    ([proxy_linux.go]), over the slots they share. A step is one visible effect
    of one goroutine; what runs under the mutex of a listener's table is one
    step. What sockets, dials and relays answer, and which branch an open
    [select] takes, are inputs of the step. A worker in a dial, a relay or the DNS
    service is blocked: it goes on when what it waits for answers, which it may
    never do, or because the context of the proxy was cancelled: that ends a dial,
    and closes the connections of a relay. *)

From S2P Require Import Prelude GoStrings Netip VirtualDNS Forwarder Capsule Netns.

Local Open Scope go_scope.

#[export] Instance AddrPort_eq_dec : EqDecision AddrPort.
Proof. solve_decision. Defined.

#[export] Instance AddrPort_countable : Countable AddrPort.
Proof.
  refine (inj_countable' (fun a => (ap_Addr a, ap_Port a)) (fun p => mkAddrPort p.1 p.2) _).
  by intros [].
Defined.

(** ** One packet flow *)

(** The fields of a [packetFlow] that its methods use: the channel of packets,
    [done], and the read deadline; [None] is the zero time. *)
Record packetFlow := mkPacketFlow {
  pf_packets : list (list Z);
  pf_done : bool;
  pf_deadline : option Z;
  pf_socket_open : bool;
}.

Definition packets_cap : Z := 16.

(** [make(chan []byte, 16)] *)
Definition new_packetFlow : packetFlow := mkPacketFlow [] false None true.

(** A non-blocking send: [None] is the [default] branch. *)
Definition try_send (f : packetFlow) (packet : list Z) : option packetFlow :=
  if Z.of_nat (List.length (pf_packets f)) <? packets_cap
  then Some (mkPacketFlow (pf_packets f ++ [packet]) (pf_done f) (pf_deadline f) (pf_socket_open f))
  else None.

(** The [select] that hands a datagram to a flow: it sends if there is room, but
    may take the [done] branch instead when that is ready too. *)
Definition deliver (prefer_done : bool) (f : packetFlow) (packet : list Z) : packetFlow :=
  if pf_done f && prefer_done then f else default f (try_send f packet).

Definition pf_Close (f : packetFlow) : packetFlow :=
  mkPacketFlow (pf_packets f) true (pf_deadline f) false.

Definition SetReadDeadline (deadline : option Z) (f : packetFlow) : packetFlow :=
  mkPacketFlow (pf_packets f) (pf_done f) deadline (pf_socket_open f).

Definition net_ErrClosed : string := "use of closed network connection".
Definition os_ErrDeadlineExceeded : string := "i/o timeout".

(** The ready branch a [select] takes. *)
Inductive branch : Type := OnDone | OnPacket | OnTimeout.

(** One turn of the loop of [Read], begun at [start], whose [select] takes the
    branch [b] at [now]; [None]: that branch is not ready. The branch of a changed
    deadline begins another turn. *)
Definition pf_Read (start now buf : Z) (b : branch) (f : packetFlow)
  : option (Result (list Z) * packetFlow) :=
  let passed t := match pf_deadline f with Some d => d <=? t | None => false end in
  if passed start then Some (Err os_ErrDeadlineExceeded, f)
  else match b with
       | OnDone => if pf_done f then Some (Err net_ErrClosed, f) else None
       | OnPacket =>
           match pf_packets f with
           | [] => None
           | p :: ps => Some (Ok (firstn (Z.to_nat buf) p),
                              mkPacketFlow ps (pf_done f) (pf_deadline f) (pf_socket_open f))
           end
       | OnTimeout => if passed now then Some (Err os_ErrDeadlineExceeded, f) else None
       end.

(** What [Write] puts on the reply socket; [sends] is the socket's answer. *)
Definition pf_Write (sends : Result Z) (f : packetFlow) (packet : list Z) : Result Z :=
  if pf_done f then Err net_ErrClosed else sends.

(** ** State *)

Record flowKey := mkFlowKey { peer : AddrPort; destination : AddrPort }.

#[export] Instance flowKey_eq_dec : EqDecision flowKey.
Proof. solve_decision. Defined.

#[export] Instance flowKey_countable : Countable flowKey.
Proof.
  refine (inj_countable' (fun k => (peer k, destination k)) (fun p => mkFlowKey p.1 p.2) _).
  by intros [].
Defined.

(** Where the worker of a flow is; its deferred calls are the last four. *)
Inductive worker_phase : Type :=
| WStart | WRelay | WServeDNS
| WClose      (** before [flow.Close()] *)
| WDelete     (** before the entry of the table is deleted *)
| WSlot       (** before [<-p.slots] *)
| WDone       (** before [workers.Done()] *)
| WEnded.

#[export] Instance worker_phase_eq_dec : EqDecision worker_phase.
Proof. solve_decision. Defined.

(** The goroutine that reads the reply socket. *)
Inductive reader_phase : Type := RRun | RClose | RDone | REnded.

#[export] Instance reader_phase_eq_dec : EqDecision reader_phase.
Proof. solve_decision. Defined.

Record uflow := mkUFlow {
  u_listener : nat;
  u_key : flowKey;
  u_conn : packetFlow;
  u_worker : worker_phase;
  u_reader : reader_phase;
  u_calls : list (option AddrPort);  (** [None]: [ServeDNS]; [Some d]: [DialUDP] of [d] *)
  u_stopped : bool;                  (** the context has closed the flow and its session *)
}.

(** The worker of an accepted connection, from its slot on. *)
Inductive tcp_phase : Type := TStart | TRelay | TClose | TSlot | TDone | TEnded.

#[export] Instance tcp_phase_eq_dec : EqDecision tcp_phase.
Proof. solve_decision. Defined.

Record tflow := mkTFlow {
  t_phase : tcp_phase;
  t_original : Result AddrPort;      (** what [originalDestination] returns *)
  t_calls : list AddrPort;           (** the destinations dialed *)
  t_relayed : bool;                  (** a dial succeeded *)
  t_linger0 : bool;                  (** [SetLinger(0)] took effect *)
  t_cancelled : bool;                (** the context has closed the connection *)
  t_stopped : bool;                  (** and its upstream, under [RelayTCP] *)
  t_open : bool;
}.

(** Where the goroutine of a UDP listener is: reading; between taking a slot and
    the reply socket, with the mutex of its table; or at the [select] that hands
    its datagram to a flow. *)
Inductive listener_phase : Type :=
| LReading
| LOpening (key : flowKey) (packet : list Z)
| LSelecting (i : nat) (packet : list Z).

Record Proxy := mkProxy {
  p_cancelled : bool;                      (** the context: the first that [Close] does *)
  p_closed : bool;                         (** the listeners *)
  p_slots : Z;
  p_udp : list uflow;
  p_tcp : list tflow;
  p_listeners : list listener_phase;       (** the UDP listeners *)
  p_table : gmap (nat * flowKey) nat;      (** each listener's [flows], as an index in [p_udp] *)
}.

Definition proxy_init (listeners : nat) : Proxy := mkProxy false false 0 [] [] (replicate listeners LReading) ∅.

(** ** Operations *)

Inductive answer : Type := Succeeded | Failed.

Section Operations.
Variable cfg : Config.

Definition set_slots (n : Z) (p : Proxy) : Proxy :=
  mkProxy (p_cancelled p) (p_closed p) n (p_udp p) (p_tcp p) (p_listeners p) (p_table p).
Definition set_udp (l : list uflow) (p : Proxy) : Proxy :=
  mkProxy (p_cancelled p) (p_closed p) (p_slots p) l (p_tcp p) (p_listeners p) (p_table p).
Definition set_tcp (l : list tflow) (p : Proxy) : Proxy :=
  mkProxy (p_cancelled p) (p_closed p) (p_slots p) (p_udp p) l (p_listeners p) (p_table p).
Definition set_listener (l : nat) (s : listener_phase) (p : Proxy) : Proxy :=
  mkProxy (p_cancelled p) (p_closed p) (p_slots p) (p_udp p) (p_tcp p) (<[l := s]> (p_listeners p)) (p_table p).
Definition set_table (t : gmap (nat * flowKey) nat) (p : Proxy) : Proxy :=
  mkProxy (p_cancelled p) (p_closed p) (p_slots p) (p_udp p) (p_tcp p) (p_listeners p) t.

(** A datagram read by listener [l]: the checks, the table, and a slot for a
    new flow. Once the proxy is closed the listener's read fails. *)
Definition udp_datagram (p : Proxy) (l : nat) (truncated : bool)
    (control : Result (list SocketControlMessage)) (from : AddrPort) (packet : list Z)
  : option Proxy :=
  match p_closed p, p_listeners p !! l with
  | false, Some LReading =>
      if truncated then Some p
      else match packetDestination control with
           | Err _ => Some p
           | Ok destination =>
               if negb (ap_Port destination =? 53) && negb (c_EnableUDP cfg) then Some p
               else
                 let key := mkFlowKey from destination in
                 match p_table p !! (l, key) with
                 | Some i => Some (set_listener l (LSelecting i packet) p)
                 | None =>
                     if p_slots p <? c_MaxConnections cfg
                     then Some (set_slots (p_slots p + 1) (set_listener l (LOpening key packet) p))
                     else Some p
                 end
           end
  | _, _ => None
  end.

(** The reply socket: a new flow with its two goroutines, or the slot given back. *)
Definition udp_socket (p : Proxy) (l : nat) (replySocket : answer) : option Proxy :=
  match p_listeners p !! l with
  | Some (LOpening key packet) =>
      match replySocket with
      | Failed => Some (set_slots (p_slots p - 1) (set_listener l LReading p))
      | Succeeded =>
          let i := List.length (p_udp p) in
          Some (set_table (<[(l, key) := i]> (p_table p))
                 (set_udp (p_udp p ++ [mkUFlow l key new_packetFlow WStart RRun [] false])
                   (set_listener l (LSelecting i packet) p)))
      end
  | _ => None
  end.

Definition set_conn (c : packetFlow) (f : uflow) : uflow :=
  mkUFlow (u_listener f) (u_key f) c (u_worker f) (u_reader f) (u_calls f) (u_stopped f).
Definition set_worker (w : worker_phase) (f : uflow) : uflow :=
  mkUFlow (u_listener f) (u_key f) (u_conn f) w (u_reader f) (u_calls f) (u_stopped f).
Definition set_reader (r : reader_phase) (f : uflow) : uflow :=
  mkUFlow (u_listener f) (u_key f) (u_conn f) (u_worker f) r (u_calls f) (u_stopped f).
Definition add_call (c : option AddrPort) (f : uflow) : uflow :=
  mkUFlow (u_listener f) (u_key f) (u_conn f) (u_worker f) (u_reader f) (u_calls f ++ [c]) (u_stopped f).
Definition set_stopped (f : uflow) : uflow :=
  mkUFlow (u_listener f) (u_key f) (u_conn f) (u_worker f) (u_reader f) (u_calls f) true.

Definition update_udp (p : Proxy) (i : nat) (g : uflow -> option uflow) : option Proxy :=
  match p_udp p !! i with
  | None => None
  | Some f => match g f with Some f => Some (set_udp (<[i := f]> (p_udp p)) p) | None => None end
  end.

(** The [select] after the unlock. *)
Definition udp_deliver (p : Proxy) (l : nat) (prefer_done : bool) : option Proxy :=
  match p_listeners p !! l with
  | Some (LSelecting i packet) =>
      update_udp (set_listener l LReading p) i
        (fun f => Some (set_conn (deliver prefer_done (u_conn f) packet) f))
  | _ => None
  end.

(** The goroutine that reads the reply socket; [None]: its read failed. *)
Definition reader_step (received : option (list Z)) (prefer_done : bool) (f : uflow) : option uflow :=
  match u_reader f, received with
  | RRun, None => Some (set_reader RClose f)
  | RRun, Some packet =>
      match pf_done (u_conn f), prefer_done, try_send (u_conn f) packet with
      | true, true, _ | true, _, None => Some (set_reader RClose f)
      | _, _, sent => Some (set_conn (default (u_conn f) sent) f)
      end
  | RClose, _ => Some (set_reader RDone (set_conn (pf_Close (u_conn f)) f))
  | RDone, _ => Some (set_reader REnded f)
  | REnded, _ => None
  end.

(** The worker up to its deferred calls, when the call it is in returns; the DNS
    service and the relay end with the flow closed. *)
Definition flow_worker (a : answer) (f : uflow) : option uflow :=
  match u_worker f with
  | WStart =>
      if ap_Port (destination (u_key f)) =? 53 then Some (set_worker WServeDNS (add_call None f))
      else let f := add_call (Some (destination (u_key f))) f in
           Some (set_worker (match a with Succeeded => WRelay | Failed => WClose end) f)
  | WServeDNS | WRelay => Some (set_worker WClose (set_conn (pf_Close (u_conn f)) f))
  | WClose => Some (set_worker WDelete (set_conn (pf_Close (u_conn f)) f))
  | WDone => Some (set_worker WEnded f)
  | _ => None
  end.

Definition opening (s : listener_phase) : bool := match s with LOpening _ _ => true | _ => false end.

(** What the worker does by itself. *)
Definition udp_work (p : Proxy) (i : nat) (a : answer) : option Proxy :=
  match p_udp p !! i with
  | None => None
  | Some f =>
      match u_worker f with
      | WDelete =>  (* takes the mutex of the listener's table *)
          if opening (default LReading (p_listeners p !! u_listener f)) then None
          else Some (set_table (delete (u_listener f, u_key f) (p_table p))
                      (set_udp (<[i := set_worker WSlot f]> (p_udp p)) p))
      | WSlot =>
          if p_slots p =? 0 then None
          else Some (set_slots (p_slots p - 1) (set_udp (<[i := set_worker WDone f]> (p_udp p)) p))
      | WStart =>
          if ap_Port (destination (u_key f)) =? 53 then update_udp p i (flow_worker a)
          else if p_cancelled p then update_udp p i (flow_worker Failed) else None
      | WRelay | WServeDNS => if u_stopped f then update_udp p i (flow_worker a) else None
      | _ => update_udp p i (flow_worker a)
      end
  end.

(** A dial that is answered, or a relay or the DNS service that ends: the peer is
    gone, or nothing came before the deadline. *)
Definition udp_answered (p : Proxy) (i : nat) (a : answer) : option Proxy :=
  f ← p_udp p !! i;
  match u_worker f with
  | WStart => if ap_Port (destination (u_key f)) =? 53 then None else update_udp p i (flow_worker a)
  | WRelay | WServeDNS => update_udp p i (flow_worker a)
  | _ => None
  end.

(** The relay or the DNS service reading the flow, with a deadline set first. *)
Definition flow_read (deadline : option Z) (start now buf : Z) (b : branch) (f : uflow) : option uflow :=
  match u_worker f with
  | WServeDNS | WRelay =>
      match pf_Read start now buf b (SetReadDeadline deadline (u_conn f)) with
      | Some (_, c) => Some (set_conn c f)
      | None => None
      end
  | _ => None
  end.

(** The context of the proxy closing what a relay or the DNS service uses. *)
Definition flow_cancel (f : uflow) : option uflow :=
  match u_worker f, u_stopped f with
  | WServeDNS, false | WRelay, false => Some (set_stopped (set_conn (pf_Close (u_conn f)) f))
  | _, _ => None
  end.

(** An accepted connection: a slot and a worker, or a reset. *)
Definition tcp_accept (p : Proxy) (original : Result AddrPort) : option Proxy :=
  if p_closed p then None
  else if p_slots p <? c_MaxConnections cfg
  then Some (set_slots (p_slots p + 1) (set_tcp (p_tcp p ++ [mkTFlow TStart original [] false false false false true]) p))
  else Some (set_tcp (p_tcp p ++ [mkTFlow TEnded original [] false true false false false]) p).

(** The worker when the call it is in returns. [SetLinger] fails on a connection that
    the context has closed. *)
Definition tcp_worker (a : answer) (f : tflow) : option tflow :=
  let upd phase calls relayed linger0 opened :=
    Some (mkTFlow phase (t_original f) calls relayed linger0 (t_cancelled f) (t_stopped f) opened) in
  match t_phase f with
  | TStart =>
      match t_original f, a with
      | Err _, _ => upd TClose (t_calls f) false (t_open f) (t_open f)
      | Ok d, Failed => upd TClose (t_calls f ++ [d]) false (t_open f) (t_open f)
      | Ok d, Succeeded => upd TRelay (t_calls f ++ [d]) true (t_linger0 f) (t_open f)
      end
  | TRelay => upd TClose (t_calls f) (t_relayed f) (t_linger0 f) false
  | TClose => upd TSlot (t_calls f) (t_relayed f) (t_linger0 f) false
  | TDone => upd TEnded (t_calls f) (t_relayed f) (t_linger0 f) (t_open f)
  | TSlot | TEnded => None
  end.

Definition set_tcp_phase (phase : tcp_phase) (f : tflow) : tflow :=
  mkTFlow phase (t_original f) (t_calls f) (t_relayed f) (t_linger0 f) (t_cancelled f) (t_stopped f) (t_open f).

Definition update_tcp (p : Proxy) (i : nat) (g : tflow -> option tflow) : option Proxy :=
  f ← p_tcp p !! i; f ← g f; Some (set_tcp (<[i := f]> (p_tcp p)) p).

(** What the worker does by itself: the destination of the connection is known at
    once, a dial fails when the context is cancelled, and a relay ends when its two
    connections are closed. *)
Definition tcp_work (p : Proxy) (i : nat) (a : answer) : option Proxy :=
  match p_tcp p !! i with
  | None => None
  | Some f =>
      match t_phase f with
      | TSlot =>
          if p_slots p =? 0 then None
          else Some (set_slots (p_slots p - 1) (set_tcp (<[i := set_tcp_phase TDone f]> (p_tcp p)) p))
      | TStart => if is_ok (t_original f) && negb (p_cancelled p) then None else update_tcp p i (tcp_worker Failed)
      | TRelay => if t_stopped f then update_tcp p i (tcp_worker a) else None
      | _ => update_tcp p i (tcp_worker a)
      end
  end.

(** A dial that is answered, or a relay whose peers are done. *)
Definition tcp_answered (p : Proxy) (i : nat) (a : answer) : option Proxy :=
  f ← p_tcp p !! i;
  match t_phase f with
  | TStart => if is_ok (t_original f) then update_tcp p i (tcp_worker a) else None
  | TRelay => update_tcp p i (tcp_worker a)
  | _ => None
  end.

(** The watch of [serveTCP] on the context closes the connection; that of [RelayTCP]
    its upstream too. *)
Definition tcp_cancel (f : tflow) : option tflow :=
  match t_phase f, t_cancelled f with
  | TStart, false | TRelay, false | TClose, false =>
      Some (mkTFlow (t_phase f) (t_original f) (t_calls f) (t_relayed f) (t_linger0 f) true (t_stopped f) false)
  | _, _ => None
  end.

Definition tcp_stop (f : tflow) : option tflow :=
  match t_phase f, t_stopped f with
  | TRelay, false =>
      Some (mkTFlow (t_phase f) (t_original f) (t_calls f) (t_relayed f) (t_linger0 f) true true false)
  | _, _ => None
  end.

Inductive action : Type :=
| Datagram (l : nat) (truncated : bool) (control : Result (list SocketControlMessage))
           (from : AddrPort) (packet : list Z)
| ReplySocket (l : nat) (a : answer)
| Deliver (l : nat) (prefer_done : bool)
| ReaderStep (i : nat) (received : option (list Z)) (prefer_done : bool)
| UDPWork (i : nat) (a : answer)
| UDPAnswered (i : nat) (a : answer)
| FlowRead (i : nat) (deadline : option Z) (start now buf : Z) (b : branch)
| FlowCancel (i : nat)
| Accept (original : Result AddrPort)
| TCPWork (i : nat) (a : answer)
| TCPAnswered (i : nat) (a : answer)
| TCPCancel (i : nat)
| TCPStop (i : nat)
| CloseCancel      (** [Close]: [p.cancel()] *)
| CloseListeners.  (** and then every listener *)

Definition proxy_step (p : Proxy) (act : action) : option Proxy :=
  match act with
  | Datagram l truncated control from packet => udp_datagram p l truncated control from packet
  | ReplySocket l a => udp_socket p l a
  | Deliver l d => udp_deliver p l d
  | ReaderStep i r d => update_udp p i (reader_step r d)
  | UDPWork i a => udp_work p i a
  | UDPAnswered i a => udp_answered p i a
  | FlowRead i deadline start now buf b => update_udp p i (flow_read deadline start now buf b)
  | FlowCancel i => if p_cancelled p then update_udp p i flow_cancel else None
  | Accept original => tcp_accept p original
  | TCPWork i a => tcp_work p i a
  | TCPAnswered i a => tcp_answered p i a
  | TCPCancel i => if p_cancelled p then update_tcp p i tcp_cancel else None
  | TCPStop i => if p_cancelled p then update_tcp p i tcp_stop else None
  | CloseCancel => Some (mkProxy true (p_closed p) (p_slots p) (p_udp p) (p_tcp p) (p_listeners p) (p_table p))
  | CloseListeners =>
      if p_cancelled p
      then Some (mkProxy true true (p_slots p) (p_udp p) (p_tcp p) (p_listeners p) (p_table p)) else None
  end.

Inductive reachable : Proxy -> Prop :=
| reach_init n : reachable (proxy_init n)
| reach_step p act p' : reachable p -> proxy_step p act = Some p' -> reachable p'.

Fixpoint proxy_run (p : Proxy) (acts : list action) : option Proxy :=
  match acts with
  | [] => Some p
  | act :: acts => match proxy_step p act with Some p => proxy_run p acts | None => None end
  end.

(** ** Invariants *)

(** Flows and connections hold a slot until their worker gives it back. *)
Definition u_holds (f : uflow) : bool :=
  match u_worker f with WDone | WEnded => false | _ => true end.
Definition t_holds (f : tflow) : bool := match t_phase f with TDone | TEnded => false | _ => true end.
(** A flow is in its listener's table until its worker deletes it. *)
Definition in_table (f : uflow) : bool :=
  match u_worker f with WSlot | WDone | WEnded => false | _ => true end.

Definition uflow_ok (f : uflow) : Prop :=
  let dst := destination (u_key f) in
  Z.of_nat (List.length (pf_packets (u_conn f))) <= packets_cap /\
  pf_socket_open (u_conn f) = negb (pf_done (u_conn f)) /\
  IsValid (ap_Addr dst) = true /\ ap_Port dst <> 0 /\
  (ap_Port dst <> 53 -> c_EnableUDP cfg = true) /\
  (u_calls f = [] /\ u_worker f = WStart \/
   u_calls f = [if ap_Port dst =? 53 then None else Some dst] /\ u_worker f <> WStart) /\
  (match u_worker f with WDelete | WSlot | WDone | WEnded => pf_done (u_conn f) = true | _ => True end) /\
  (match u_reader f with RDone | REnded => pf_done (u_conn f) = true | _ => True end).

(** An accepted connection: what was dialed, how it came to be relayed or reset, and
    when it is closed. *)
Record tflow_ok (f : tflow) : Prop := mkTFlowOk {
  tok_start : t_phase f = TStart -> t_calls f = [];
  tok_calls : t_calls f = [] \/ exists d, t_original f = Ok d /\ t_calls f = [d];
  tok_relayed : t_relayed f = true -> exists d, t_original f = Ok d /\ t_calls f = [d];
  tok_relay : t_phase f = TRelay -> t_relayed f = true;
  tok_reset : t_phase f = TStart \/ t_relayed f = true \/ t_linger0 f = true \/ t_cancelled f = true;
  tok_open : t_phase f = TStart -> t_open f = negb (t_cancelled f);
  tok_closed : match t_phase f with TSlot | TDone | TEnded => t_open f = false | _ => True end;
}.

Record proxy_inv (p : Proxy) : Prop := mkInv {
  inv_slots : p_slots p = count u_holds (p_udp p) + count t_holds (p_tcp p) + count opening (p_listeners p);
  inv_budget : p_slots p <= c_MaxConnections cfg;
  inv_found : forall k i, p_table p !! k = Some i ->
    exists f, p_udp p !! i = Some f /\ (u_listener f, u_key f) = k /\ in_table f = true;
  inv_listed : forall i f, p_udp p !! i = Some f -> in_table f = true ->
    p_table p !! (u_listener f, u_key f) = Some i;
  inv_opening : forall l key packet, p_listeners p !! l = Some (LOpening key packet) ->
    p_table p !! (l, key) = None /\
    uflow_ok (mkUFlow l key new_packetFlow WStart RRun [] false);
  inv_selecting : forall l i packet, p_listeners p !! l = Some (LSelecting i packet) ->
    (i < List.length (p_udp p))%nat;
  inv_udp : Forall uflow_ok (p_udp p);
  inv_tcp : Forall tflow_ok (p_tcp p);
  inv_cancelled : p_cancelled p = false -> p_closed p = false /\ Forall (fun f => t_cancelled f = false) (p_tcp p);
}.

(** *** Flows *)

Ltac flow_simpl :=
  cbn [u_listener u_key u_conn u_worker u_reader u_calls u_stopped set_conn set_worker set_reader set_stopped add_call
       pf_packets pf_done pf_deadline pf_socket_open pf_Close SetReadDeadline] in *.

Lemma try_send_ok f packet f' :
  Z.of_nat (List.length (pf_packets f)) <= packets_cap -> try_send f packet = Some f' ->
  Z.of_nat (List.length (pf_packets f')) <= packets_cap /\ pf_done f' = pf_done f /\
  pf_socket_open f' = pf_socket_open f.
Proof.
  unfold try_send. intros Hl. destruct (Z.of_nat _ <? packets_cap) eqn:E; [|done].
  intros [= <-]. cbn [pf_packets pf_done pf_socket_open]. rewrite List.length_app.
  cbn [List.length]. bool_to_prop. repeat split; try done. lia.
Qed.

(** A channel operation leaves the rest of the flow as it is. *)
Lemma set_conn_ok f c :
  uflow_ok f -> Z.of_nat (List.length (pf_packets c)) <= packets_cap ->
  pf_done c = pf_done (u_conn f) -> pf_socket_open c = pf_socket_open (u_conn f) -> uflow_ok (set_conn c f).
Proof. unfold uflow_ok. flow_simpl. intros (? & ? & ? & ? & ? & ? & ? & ?) Hl -> ->. repeat split; auto. Qed.

Lemma sent_ok f packet :
  uflow_ok f -> uflow_ok (set_conn (default (u_conn f) (try_send (u_conn f) packet)) f).
Proof.
  intros Hf. destruct (try_send (u_conn f) packet) as [c|] eqn:E; cbn [default].
  - destruct (try_send_ok _ _ _ (proj1 Hf) E) as (? & ? & ?). by apply set_conn_ok.
  - apply set_conn_ok; try done. apply Hf.
Qed.

Lemma closed_ok f : uflow_ok f -> uflow_ok (set_conn (pf_Close (u_conn f)) f).
Proof.
  unfold uflow_ok. flow_simpl. intros (? & ? & ? & ? & ? & ? & ? & ?). repeat split; auto.
  - by destruct (u_worker f).
  - by destruct (u_reader f).
Qed.

(** What the steps inside one flow keep. *)
Definition same_slot (f f' : uflow) : Prop :=
  u_listener f' = u_listener f /\ u_key f' = u_key f /\ u_holds f' = u_holds f /\
  in_table f' = in_table f.

Definition flow_local (g : uflow -> option uflow) : Prop :=
  forall f f', uflow_ok f -> g f = Some f' -> uflow_ok f' /\ same_slot f f'.

Lemma deliver_local d packet : flow_local (fun f => Some (set_conn (deliver d (u_conn f) packet) f)).
Proof.
  intros f f' Hf [= <-]. split; [|done]. unfold deliver.
  destruct (pf_done (u_conn f) && d); [|by apply sent_ok].
  apply set_conn_ok; try done. apply Hf.
Qed.

Lemma reader_local received d : flow_local (reader_step received d).
Proof.
  intros f f' Hf Hg. unfold reader_step in Hg.
  assert (forall r, (r = RDone \/ r = REnded -> pf_done (u_conn f) = true) -> uflow_ok (set_reader r f)) as Hr.
  { intros r Hr. unfold uflow_ok in *. flow_simpl. destruct Hf as (? & ? & ? & ? & ? & ? & ? & ?).
    repeat split; auto. destruct r; auto. }
  destruct (u_reader f) eqn:Er.
  - destruct received as [packet|].
    2: { injection Hg as <-. split; [|done]. apply Hr. by intros []. }
    pose proof (sent_ok f packet Hf) as Hs.
    destruct (pf_done (u_conn f)), d, (try_send (u_conn f) packet); injection Hg as <-; split; try done;
      apply Hr; by intros [].
  - injection Hg as <-. split; [|done]. pose proof (closed_ok f Hf) as Hc.
    unfold uflow_ok in *. flow_simpl. destruct Hc as (? & ? & ? & ? & ? & ? & ? & ?). by repeat split.
  - injection Hg as <-. split; [|done]. apply Hr. intros _. destruct Hf as (_ & _ & _ & _ & _ & _ & _ & Hd).
    by rewrite Er in Hd.
  - done.
Qed.

Lemma flow_worker_local a : flow_local (flow_worker a).
Proof.
  intros f f' Hf Hg. pose proof (closed_ok f Hf) as Hc. unfold flow_worker in Hg.
  unfold same_slot, u_holds, in_table, uflow_ok in *.
  destruct (u_worker f) eqn:Ew; try done.
  - destruct Hf as (H1 & H2 & H3 & H4 & H5 & [[Hcalls _]|[_ Hn]] & H7 & H8); [|done].
    destruct (ap_Port (destination (u_key f)) =? 53) eqn:E53; [|destruct a];
      injection Hg as <-; flow_simpl; rewrite ?E53, ?Hcalls in *; cbn [app];
      repeat split; auto; right; by split.
  - injection Hg as <-. flow_simpl. rewrite ?Ew in *. intuition congruence.
  - injection Hg as <-. flow_simpl. rewrite ?Ew in *. intuition congruence.
  - injection Hg as <-. flow_simpl. rewrite ?Ew in *. intuition congruence.
  - injection Hg as <-. flow_simpl. rewrite ?Ew in *. intuition congruence.
Qed.

Lemma flow_read_local deadline start now buf b : flow_local (flow_read deadline start now buf b).
Proof.
  intros f f' Hf Hg. unfold flow_read in Hg.
  assert (exists r c, pf_Read start now buf b (SetReadDeadline deadline (u_conn f)) = Some (r, c) /\
    f' = set_conn c f) as (r & c & Hr & ->).
  { destruct (u_worker f); try done; destruct (pf_Read _ _ _ _ _) as [[r c]|]; try done;
      injection Hg as <-; eauto. }
  split; [|done]. apply set_conn_ok; [done|..]; unfold pf_Read in Hr; flow_simpl.
  all: pose proof (proj1 Hf) as Hl; repeat case_match; simplify_eq; flow_simpl; try done.
  all: cbn [List.length] in Hl; lia.
Qed.

Lemma flow_cancel_local : flow_local flow_cancel.
Proof.
  intros f f' Hf Hg. unfold flow_cancel in Hg. pose proof (closed_ok f Hf) as Hc.
  destruct (u_worker f), (u_stopped f); try done; injection Hg as <-; by split.
Qed.

(** *** The proxy *)

Ltac proxy_simpl :=
  cbn [p_cancelled p_closed p_slots p_udp p_tcp p_listeners p_table set_slots set_udp set_tcp set_listener set_table] in *.

Lemma insert_same {A} (l : list A) i x y : l !! i = Some x -> (<[i := y]> l) !! i = Some y.
Proof. intros Hi. rewrite list_lookup_insert_eq; [done|]. by apply (lookup_lt_Some _ _ x). Qed.

Lemma lookup_insert_cases {A} (l : list A) i j x y :
  (<[i := x]> l) !! j = Some y -> (j = i /\ y = x /\ is_Some (l !! i)) \/ (j <> i /\ l !! j = Some y).
Proof.
  intros H. apply list_lookup_insert_Some in H as [(-> & -> & Hlt)|[Hne Hl]]; [left|by right].
  split; [done|]. split; [done|]. by apply lookup_lt_is_Some.
Qed.

Lemma replace_udp p i f f' :
  proxy_inv p -> p_udp p !! i = Some f -> uflow_ok f' -> same_slot f f' ->
  proxy_inv (set_udp (<[i := f']> (p_udp p)) p).
Proof.
  intros [] Hi Hf' (Hl & Hk & Hh & Ht). constructor; proxy_simpl; try done.
  - rewrite (count_insert _ _ _ _ f' Hi), Hh. lia.
  - intros k j Hj. destruct (inv_found0 k j Hj) as (g & Hg & Ek & Eg). destruct (decide (i = j)) as [->|Hn].
    + assert (g = f) as -> by congruence. exists f'. rewrite (insert_same _ _ _ f' Hi).
      by rewrite Hl, Hk, Ht.
    + exists g. by rewrite list_lookup_insert_ne.
  - intros j g Hj Hg. apply lookup_insert_cases in Hj as [(-> & -> & _)|[_ Hj]]; [|by apply inv_listed0].
    rewrite Hl, Hk. apply inv_listed0; [done|]. by rewrite <- Ht.
  - intros l j packet Hj. rewrite length_insert. by apply (inv_selecting0 l j packet).
  - by apply Forall_insert.
Qed.

Lemma update_udp_inv p i g p' :
  proxy_inv p -> flow_local g -> update_udp p i g = Some p' -> proxy_inv p'.
Proof.
  intros Hinv Hg. unfold update_udp. destruct (p_udp p !! i) as [f|] eqn:Hi; [|done].
  destruct (g f) as [f'|] eqn:E; [|done]. intros [= <-].
  assert (uflow_ok f) as Hf by (eapply Forall_lookup_1; [apply Hinv|done]).
  destruct (Hg f f' Hf E). by apply (replace_udp p i f).
Qed.

(** A listener that neither takes nor holds a slot. *)
Lemma replace_listener p l s s' :
  proxy_inv p -> p_listeners p !! l = Some s -> opening s = false -> opening s' = false ->
  (forall i packet, s' = LSelecting i packet -> (i < List.length (p_udp p))%nat) ->
  proxy_inv (set_listener l s' p).
Proof.
  intros [] Hl Hs Hs' Hi. constructor; proxy_simpl; try done.
  - rewrite (count_insert _ _ _ _ s' Hl), Hs, Hs'. lia.
  - intros l' key packet H. apply lookup_insert_cases in H as [(-> & <- & _)|[_ H]]; [done|].
    by apply (inv_opening0 l' key packet).
  - intros l' i packet H. apply lookup_insert_cases in H as [(-> & <- & _)|[_ H]]; [by apply (Hi i packet)|].
    by apply (inv_selecting0 l' i packet).
Qed.

Lemma packetDestination_ok control d :
  packetDestination control = Ok d -> IsValid (ap_Addr d) = true /\ ap_Port d <> 0.
Proof.
  unfold packetDestination. destruct control as [ms|]; [|done].
  destruct (negb _ || _) eqn:E; [done|]. intros [= <-]. by bool_to_prop.
Qed.

Lemma udp_datagram_inv p l truncated control from packet p' :
  proxy_inv p -> udp_datagram p l truncated control from packet = Some p' -> proxy_inv p'.
Proof.
  intros Hinv H. unfold udp_datagram in H. destruct (p_closed p); [done|].
  destruct (p_listeners p !! l) as [s|] eqn:Hl; [|done]. destruct s; try done.
  destruct truncated; [by injection H as <-|].
  destruct (packetDestination control) as [d|] eqn:Ed; [|by injection H as <-].
  destruct (packetDestination_ok _ _ Ed) as [Hv Hp0].
  destruct (negb (ap_Port d =? 53) && negb (c_EnableUDP cfg)) eqn:Eu; [by injection H as <-|].
  destruct (p_table p !! (l, mkFlowKey from d)) as [i|] eqn:Et.
  - injection H as <-. apply (replace_listener p l LReading); try done.
    intros i' packet' [= <- <-]. destruct (inv_found p Hinv _ _ Et) as (f & Hf & _).
    by apply (lookup_lt_Some _ _ f).
  - destruct (p_slots p <? c_MaxConnections cfg) eqn:Em; injection H as <-; [|done].
    destruct Hinv. constructor; proxy_simpl; try done.
    + rewrite (count_insert _ _ _ _ (LOpening (mkFlowKey from d) packet) Hl). cbn [opening]. lia.
    + bool_to_prop. lia.
    + intros l' key packet' H. apply lookup_insert_cases in H as [(-> & H & _)|[_ H]];
        [|by apply (inv_opening0 l' key packet')].
      injection H as -> ->. split; [done|]. unfold uflow_ok. flow_simpl. cbn [destination].
      repeat split; try done; [|auto]. intros Hn. bool_to_prop. destruct Eu; bool_to_prop; done.
    + intros l' i packet' H. apply lookup_insert_cases in H as [(-> & H & _)|[_ H]]; [done|].
      by apply (inv_selecting0 l' i packet').
Qed.

Lemma udp_socket_inv p l a p' : proxy_inv p -> udp_socket p l a = Some p' -> proxy_inv p'.
Proof.
  intros [] H. unfold udp_socket in H. destruct (p_listeners p !! l) as [s|] eqn:Hl; [|done].
  destruct s as [|key packet|]; try done. destruct (inv_opening0 l key packet Hl) as [Hnone Hok].
  set (f := mkUFlow l key new_packetFlow WStart RRun [] false) in *. destruct a; injection H as <-.
  - constructor; proxy_simpl; try done.
    + rewrite count_app, (count_insert _ _ _ _ (LSelecting (List.length (p_udp p)) packet) Hl).
      cbn [opening]. unfold u_holds at 2. cbn. lia.
    + intros k i H. apply lookup_insert_Some in H as [[<- <-]|[Hk H]].
      * exists f. split; [|done]. by apply list_lookup_middle.
      * destruct (inv_found0 k i H) as (g & Hg & Ek). exists g. split; [|done]. by apply lookup_app_l_Some.
    + intros i g H Hg. apply lookup_app_Some in H as [H|[Hi H]].
      * rewrite lookup_insert_ne; [by apply inv_listed0|]. intros E.
        pose proof (inv_listed0 i g H Hg) as Hsome. by rewrite <- E, Hnone in Hsome.
      * destruct (i - List.length (p_udp p))%nat eqn:Ei; [|done]. injection H as <-.
        cbn [u_listener u_key f]. replace i with (List.length (p_udp p)) by lia. apply lookup_insert_eq.
    + intros l' key' packet' H. apply lookup_insert_cases in H as [(_ & H & _)|[Hne H]]; [done|].
      destruct (inv_opening0 l' key' packet' H) as [Hn Hk]. split; [|done].
      rewrite lookup_insert_ne; [done|]. congruence.
    + intros l' i packet' H. rewrite List.length_app. apply lookup_insert_cases in H as [(_ & H & _)|[_ H]].
      * injection H as -> ->. cbn. lia.
      * pose proof (inv_selecting0 l' i packet' H). lia.
    + by apply Forall_snoc.
  - constructor; proxy_simpl; try done.
    + rewrite (count_insert _ _ _ _ LReading Hl). cbn [opening]. lia.
    + lia.
    + intros l' key' packet' H. apply lookup_insert_cases in H as [(_ & H & _)|[_ H]]; [done|].
      by apply (inv_opening0 l' key' packet').
    + intros l' i packet' H. apply lookup_insert_cases in H as [(_ & H & _)|[_ H]]; [done|].
      by apply (inv_selecting0 l' i packet').
Qed.

Lemma deleted_ok f : uflow_ok f -> u_worker f = WDelete -> uflow_ok (set_worker WSlot f).
Proof.
  unfold uflow_ok. flow_simpl. intros (? & ? & ? & ? & ? & Hc & Hd & ?) Hw. rewrite Hw in *.
  repeat split; try done. right. destruct Hc as [[_ Hc]|[Hc _]]; [done|by split].
Qed.

Lemma slot_ok f : uflow_ok f -> u_worker f = WSlot -> uflow_ok (set_worker WDone f).
Proof.
  unfold uflow_ok. flow_simpl. intros (? & ? & ? & ? & ? & Hc & Hd & ?) Hw. rewrite Hw in *.
  repeat split; try done. right. destruct Hc as [[_ Hc]|[Hc _]]; [done|by split].
Qed.

(** Deleting the entry of a flow: no other flow has its key. *)
Lemma delete_flow_inv p i f :
  proxy_inv p -> p_udp p !! i = Some f -> u_worker f = WDelete ->
  proxy_inv (set_table (delete (u_listener f, u_key f) (p_table p))
              (set_udp (<[i := set_worker WSlot f]> (p_udp p)) p)).
Proof.
  intros [] Hi Hw. assert (in_table f = true) as Ht by (unfold in_table; by rewrite Hw).
  pose proof (inv_listed0 i f Hi Ht) as Hown.
  assert (uflow_ok f) as Hf by (by eapply Forall_lookup_1).
  constructor; proxy_simpl; try done.
  - rewrite (count_insert _ _ _ _ (set_worker WSlot f) Hi). unfold u_holds at 2 3. flow_simpl.
    rewrite Hw. lia.
  - intros k j H. apply lookup_delete_Some in H as [Hne H].
    destruct (inv_found0 k j H) as (g & Hg & Ek & Eg). exists g. split; [|done].
    rewrite list_lookup_insert_ne; [done|]. intros <-. congruence.
  - intros j g H Hg. apply lookup_insert_cases in H as [(-> & -> & _)|[Hne H]]; [done|].
    pose proof (inv_listed0 j g H Hg) as Hj. rewrite lookup_delete_ne; [done|].
    intros E. congruence.
  - intros l key packet H. destruct (inv_opening0 l key packet H). split; [|done].
    by apply lookup_delete_None; right.
  - intros l j packet H. rewrite length_insert. by apply (inv_selecting0 l j packet).
  - apply Forall_insert; [done|]. by apply deleted_ok.
Qed.

Lemma udp_work_inv p i a p' : proxy_inv p -> udp_work p i a = Some p' -> proxy_inv p'.
Proof.
  intros Hinv H. unfold udp_work in H. destruct (p_udp p !! i) as [f|] eqn:Hi; [|done].
  assert (forall a, update_udp p i (flow_worker a) = Some p' -> proxy_inv p') as Hlocal
    by (intros b E; by apply (update_udp_inv _ _ _ _ Hinv (flow_worker_local b) E)).
  destruct (u_worker f) eqn:Hw; try (repeat case_match; by eauto).
  - destruct (opening _); [done|]. injection H as <-. by apply delete_flow_inv.
  - destruct (p_slots p =? 0) eqn:E0; [done|]. injection H as <-.
    pose proof Hinv as Hinv'. destruct Hinv. assert (uflow_ok f) as Hf by (by eapply Forall_lookup_1).
    assert (in_table f = false /\ in_table (set_worker WDone f) = false) as [Ht Ht']
      by (unfold in_table; flow_simpl; by rewrite Hw).
    constructor; proxy_simpl; try done.
    + rewrite (count_insert _ _ _ _ (set_worker WDone f) Hi). unfold u_holds at 2 3. flow_simpl.
      rewrite Hw. lia.
    + lia.
    + intros k j H. destruct (inv_found0 k j H) as (g & Hg & Ek & Eg). exists g. split; [|done].
      rewrite list_lookup_insert_ne; [done|]. intros <-. congruence.
    + intros j g H Hg. apply lookup_insert_cases in H as [(-> & -> & _)|[Hne H]]; [|by apply inv_listed0].
      by rewrite Ht' in Hg.
    + intros l j packet H. rewrite length_insert. by apply (inv_selecting0 l j packet).
    + apply Forall_insert; [done|]. by apply slot_ok.
Qed.

Lemma udp_answered_inv p i a p' : proxy_inv p -> udp_answered p i a = Some p' -> proxy_inv p'.
Proof.
  intros Hinv H. apply (update_udp_inv p i (flow_worker a)); [done|apply flow_worker_local|].
  unfold udp_answered in H. destruct (p_udp p !! i) as [f|]; [|done]. cbn in H. by repeat case_match.
Qed.

(** *** Accepted connections *)

Ltac tcp_simpl :=
  cbn [t_phase t_original t_calls t_relayed t_linger0 t_cancelled t_stopped t_open set_tcp_phase] in *.

(** What a step inside one connection keeps, when the context is ([cancelled]) or is
    not cancelled. *)
Definition tcp_local (cancelled : bool) (g : tflow -> option tflow) : Prop :=
  forall f f', tflow_ok f -> g f = Some f' ->
    tflow_ok f' /\ t_holds f' = t_holds f /\ (cancelled = false -> t_cancelled f' = t_cancelled f).

Lemma tcp_worker_local c a : tcp_local c (tcp_worker a).
Proof.
  intros f f' Hf Hw. unfold tcp_worker, t_holds in *. destruct f as [ph orig calls rl lg cn st op]. tcp_simpl.
  destruct Hf as [Hs Hc Hr Hrl Hreset Ho Hcl]. tcp_simpl.
  destruct ph, orig as [d|e], a; simplify_eq/=; (split; [|by split]); constructor; tcp_simpl;
    try (intuition congruence).
  all: rewrite ?(Hs eq_refl), ?(Ho eq_refl) in *; cbn [app]; try by destruct cn; naive_solver.
Qed.

Lemma tcp_cancel_local : tcp_local true tcp_cancel.
Proof.
  intros f f' Hf Hw. unfold tcp_cancel, t_holds in *. destruct f as [ph orig calls rl lg cn st op]. tcp_simpl.
  destruct Hf as [Hs Hc Hr Hrl Hreset Ho Hcl]. tcp_simpl.
  destruct ph, cn; simplify_eq/=; (split; [|by split]); constructor; tcp_simpl; try done; auto.
Qed.

Lemma tcp_stop_local : tcp_local true tcp_stop.
Proof.
  intros f f' Hf Hw. unfold tcp_stop, t_holds in *. destruct f as [ph orig calls rl lg cn st op]. tcp_simpl.
  destruct Hf as [Hs Hc Hr Hrl Hreset Ho Hcl]. tcp_simpl.
  destruct ph, st; simplify_eq/=; (split; [|by split]); constructor; tcp_simpl; try done; auto.
Qed.

Lemma replace_tcp p i f f' n :
  proxy_inv p -> p_tcp p !! i = Some f -> tflow_ok f' ->
  n = p_slots p - (if t_holds f then 1 else 0) + (if t_holds f' then 1 else 0) -> n <= p_slots p ->
  (p_cancelled p = false -> t_cancelled f' = t_cancelled f) ->
  proxy_inv (set_slots n (set_tcp (<[i := f']> (p_tcp p)) p)).
Proof.
  intros [] Hi Hf -> Hn Hc. constructor; proxy_simpl; try done.
  - rewrite (count_insert _ _ _ _ f' Hi). lia.
  - lia.
  - by apply Forall_insert.
  - intros E. destruct (inv_cancelled0 E) as [H1 H2]. split; [done|]. apply Forall_insert; [done|].
    rewrite (Hc E). by apply (Forall_lookup_1 _ _ _ _ H2 Hi).
Qed.

Lemma set_slots_same p : set_slots (p_slots p) p = p.
Proof. by destruct p. Qed.

Lemma update_tcp_inv p i g p' :
  proxy_inv p -> tcp_local (p_cancelled p) g -> update_tcp p i g = Some p' -> proxy_inv p'.
Proof.
  intros Hinv Hg H. unfold update_tcp in H. destruct (p_tcp p !! i) as [f|] eqn:Hi; [|done]. cbn in H.
  destruct (g f) as [f'|] eqn:E; [|done]. injection H as <-.
  assert (tflow_ok f) as Hf by (eapply Forall_lookup_1; [apply Hinv|done]).
  destruct (Hg f f' Hf E) as (Hok & Hh & Hc).
  apply (replace_tcp p i f f' (p_slots p)); try done; rewrite ?Hh; lia.
Qed.

Lemma tcp_work_inv p i a p' : proxy_inv p -> tcp_work p i a = Some p' -> proxy_inv p'.
Proof.
  intros Hinv H. unfold tcp_work in H. destruct (p_tcp p !! i) as [f|] eqn:Hi; [|done].
  assert (forall b, update_tcp p i (tcp_worker b) = Some p' -> proxy_inv p') as Hlocal
    by (intros b E; by apply (update_tcp_inv _ _ _ _ Hinv (tcp_worker_local _ b) E)).
  destruct (t_phase f) eqn:Hp; try (repeat case_match; by eauto).
  destruct (p_slots p =? 0) eqn:E0; [done|]. injection H as <-.
  assert (tflow_ok f) as Hf by (eapply Forall_lookup_1; [apply Hinv|done]).
  apply (replace_tcp p i f); try done; unfold t_holds; rewrite ?Hp; tcp_simpl; [|lia|lia].
  destruct Hf. rewrite Hp in *. constructor; tcp_simpl; try done. naive_solver.
Qed.

Lemma tcp_answered_inv p i a p' : proxy_inv p -> tcp_answered p i a = Some p' -> proxy_inv p'.
Proof.
  intros Hinv H. apply (update_tcp_inv p i (tcp_worker a)); [done|apply tcp_worker_local|].
  unfold tcp_answered in H. destruct (p_tcp p !! i) as [f|]; [|done]. cbn in H. by repeat case_match.
Qed.

Lemma tcp_accept_inv p original p' : proxy_inv p -> tcp_accept p original = Some p' -> proxy_inv p'.
Proof.
  intros [] H. unfold tcp_accept in H. destruct (p_closed p) eqn:Ep; [done|].
  destruct (p_slots p <? c_MaxConnections cfg) eqn:Em; injection H as <-;
    constructor; proxy_simpl; rewrite ?count_app; cbn [t_holds t_phase]; try done; bool_to_prop; try lia.
  1, 3: apply Forall_snoc; [done|]; constructor; tcp_simpl; try done; auto.
  all: intros E; destruct (inv_cancelled0 E); split; [done|]; by apply Forall_snoc.
Qed.

Context (Hmax : 0 <= c_MaxConnections cfg).

Lemma netns_reachable_inv p : reachable p -> proxy_inv p.
Proof.
  induction 1 as [n|p act p' Hr IH Hs].
  - assert (count opening (replicate n LReading) = 0 /\
      forall l s, replicate n LReading !! l = Some s -> s = LReading) as [Hc Hl].
    { split; [by induction n|]. intros l s H. apply lookup_replicate_1 in H. naive_solver. }
    constructor; cbn; rewrite ?Hc; try done.
    + intros l key packet H. by apply Hl in H.
    + intros l i packet H. by apply Hl in H.
  - destruct act; cbn [proxy_step] in Hs.
    + by apply (udp_datagram_inv _ _ _ _ _ _ _ IH Hs).
    + by apply (udp_socket_inv _ _ _ _ IH Hs).
    + unfold udp_deliver in Hs. destruct (p_listeners p !! l) as [s|] eqn:Hl; [|done].
      destruct s as [| |i packet]; try done.
      assert (proxy_inv (set_listener l LReading p)) as Hinv by (by apply (replace_listener p l (LSelecting i packet))).
      by apply (update_udp_inv _ _ _ _ Hinv (deliver_local prefer_done packet) Hs).
    + by apply (update_udp_inv _ _ _ _ IH (reader_local _ _) Hs).
    + by apply (udp_work_inv _ _ _ _ IH Hs).
    + by apply (udp_answered_inv _ _ _ _ IH Hs).
    + by apply (update_udp_inv _ _ _ _ IH (flow_read_local _ _ _ _ _) Hs).
    + destruct (p_cancelled p); [|done]. by apply (update_udp_inv _ _ _ _ IH flow_cancel_local Hs).
    + by apply (tcp_accept_inv _ _ _ IH Hs).
    + by apply (tcp_work_inv _ _ _ _ IH Hs).
    + by apply (tcp_answered_inv _ _ _ _ IH Hs).
    + destruct (p_cancelled p) eqn:Ec; [|done]. apply (update_tcp_inv p i tcp_cancel p'); [done|rewrite Ec; apply tcp_cancel_local|done].
    + destruct (p_cancelled p) eqn:Ec; [|done]. apply (update_tcp_inv p i tcp_stop p'); [done|rewrite Ec; apply tcp_stop_local|done].
    + injection Hs as <-. by destruct IH; constructor.
    + destruct (p_cancelled p) eqn:Ec; [|done]. injection Hs as <-. by destruct IH; constructor.
Qed.
End Operations.

(** ** Properties *)

Lemma New_max fails cfg0 link interfaces events cfg :
  New fails cfg0 link interfaces = (events, Ok cfg) ->
  1 <= c_MaxConnections cfg /\ c_EnableUDP cfg = c_EnableUDP cfg0.
Proof.
  unfold New. destruct (New_config cfg0 link interfaces) as [c|] eqn:Ec; [|done]. intros H.
  assert (c = cfg) as ->. { repeat case_match; simplify_eq; done. }
  clear H. unfold New_config in Ec. repeat case_match; simplify_eq; cbn; bool_to_prop; split; try done; lia.
Qed.

(** Claim C19: the slots and the tables of the namespace proxy. In every
    interleaving of its listeners, readers and workers, the slots taken are the
    datagram flows and connections whose workers have not given theirs back and
    the flows being opened, never more than [MaxConnections]; a listener's
    table has exactly one flow per pair of peer and destination that is not
    deleted yet, and its entry leads to that flow; no flow queues more than
    sixteen packets; and a flow whose worker gave its slot back is closed, with
    its reply socket, and no longer in a table. *)
Theorem netns_slots_and_tables (fails : setup_event -> option string) (cfg0 cfg : Config)
    (link : Result Interface) (interfaces : Result (list Interface)) (events : list setup_event)
    (p : Proxy) :
  New fails cfg0 link interfaces = (events, Ok cfg) -> reachable cfg p ->
  p_slots p = count u_holds (p_udp p) + count t_holds (p_tcp p) + count opening (p_listeners p) /\
  p_slots p <= c_MaxConnections cfg /\
  (forall i j f g, p_udp p !! i = Some f -> p_udp p !! j = Some g ->
     in_table f = true -> in_table g = true ->
     u_listener f = u_listener g -> u_key f = u_key g -> i = j) /\
  (forall l key i, p_table p !! (l, key) = Some i <->
     exists f, p_udp p !! i = Some f /\ u_listener f = l /\ u_key f = key /\ in_table f = true) /\
  (forall i f, p_udp p !! i = Some f ->
     Z.of_nat (List.length (pf_packets (u_conn f))) <= packets_cap /\
     (in_table f = false -> pf_done (u_conn f) = true /\ pf_socket_open (u_conn f) = false)).
Proof.
  intros HN Hr. destruct (New_max _ _ _ _ _ _ HN) as [Hmax _].
  destruct (netns_reachable_inv cfg ltac:(lia) p Hr). split; [done|]. split; [done|]. split; [|split].
  - intros i j f g Hi Hj Hf Hg El Ek. pose proof (inv_listed0 i f Hi Hf) as E1.
    pose proof (inv_listed0 j g Hj Hg) as E2. rewrite El, Ek in E1. congruence.
  - intros l key i. split.
    + intros H. destruct (inv_found0 _ _ H) as (f & Hf & E & Ht). injection E as <- <-. by exists f.
    + intros (f & Hf & <- & <- & Ht). by apply inv_listed0.
  - intros i f Hi. pose proof (Forall_lookup_1 _ _ _ _ inv_udp0 Hi) as (Hl & Hs & _ & _ & _ & _ & Hd & _).
    split; [done|]. unfold in_table. rewrite Hs. intros Ht. destruct (u_worker f); try done; by rewrite Hd.
Qed.


(** ** Witnesses *)

Definition sample_interface : Interface := mkInterface 2 "veth0" false true.
Definition sample_config : Config := mkConfig "veth0" "agents" true true false 2.

(** A DNS flow, a datagram that joins it, a connection, and a datagram turned
    away by the budget. *)
Definition dns_control : Result (list SocketControlMessage) :=
  Ok [mkMessage SOL_IP IP_ORIGDSTADDR (sockaddr_in 2 53 1681981439)].

Definition sample_peer : AddrPort := mkAddrPort (Addr4 167772162) 40000.

Definition sample_actions : list action :=
  [Datagram 0 false dns_control sample_peer [1; 2]; ReplySocket 0 Succeeded; Deliver 0 false;
   Accept (Ok (mkAddrPort (Addr4 1681915905) 443)); UDPWork 0 Succeeded; TCPAnswered 0 Succeeded;
   Datagram 0 false dns_control sample_peer [3; 4]; Deliver 0 false;
   Datagram 0 false dns_control (mkAddrPort (Addr4 167772162) 40001) [5]].

Definition sample_proxy : Proxy := default (proxy_init 0) (proxy_run sample_config (proxy_init 1) sample_actions).

Lemma netns_run_reachable cfg acts : forall p p',
  reachable cfg p -> proxy_run cfg p acts = Some p' -> reachable cfg p'.
Proof.
  induction acts as [|act acts IH]; intros p p' Hr; cbn [proxy_run]; [by intros [= <-]|].
  destruct (proxy_step cfg p act) eqn:Hs; [|done]. apply IH. by apply (reach_step cfg p act).
Qed.

Lemma sample_proxy_reachable : reachable sample_config sample_proxy.
Proof. by apply (netns_run_reachable _ sample_actions (proxy_init 1)); [constructor|vm_compute]. Qed.

Lemma netns_slots_and_tables_witness :
  p_slots sample_proxy = 2 /\ p_slots sample_proxy <= 2 /\
  exists i, p_table sample_proxy !! (0%nat, mkFlowKey sample_peer (mkAddrPort (Addr4 1681981439) 53)) = Some i.
Proof.
  destruct (netns_slots_and_tables (fun _ => None) sample_config sample_config (Ok sample_interface)
    (Ok [sample_interface])
    (fst (New (fun _ => None) sample_config (Ok sample_interface) (Ok [sample_interface])))
    sample_proxy eq_refl sample_proxy_reachable) as (_ & Hb & _ & Ht & _).
  split; [vm_compute; reflexivity|]. split; [exact Hb|].
  exists 0%nat. apply Ht. eexists. split; [vm_compute; reflexivity|]. repeat split.
Defined.

