(* ===== verification/NetnsClose.v ===== *)
(** * The namespace proxy: closing

    What remains of [serveUDP] and [serveTCP] of [sdk/pkg/netnsproxy] once [Close]
    has run: a measure that every step of a listener, reader or worker decreases,
    and a step that is always there until every goroutine has ended, and that waits
    for no peer: the context ends the dials and closes what the relays use. *)

From S2P Require Import Prelude GoStrings Netip VirtualDNS Forwarder Capsule Netns NetnsFlows.

(** Compute the fields of an updated proxy or flow. *)
Ltac close_simpl :=
  cbn [p_cancelled p_closed p_slots p_udp p_tcp p_listeners p_table set_slots set_udp set_tcp set_listener set_table
       u_listener u_key u_conn u_worker u_reader u_calls u_stopped set_conn set_worker set_reader set_stopped add_call
       pf_packets pf_done pf_deadline pf_socket_open pf_Close SetReadDeadline] in *.

(** ** The steps left *)

Definition worker_rank (w : worker_phase) : Z :=
  match w with
  | WStart => 6 | WRelay | WServeDNS => 5 | WClose => 4 | WDelete => 3 | WSlot => 2 | WDone => 1 | WEnded => 0
  end.

Definition reader_rank (r : reader_phase) : Z :=
  match r with RRun => 3 | RClose => 2 | RDone => 1 | REnded => 0 end.

(** The context closes a flow, a connection and the two of a relay at most once. *)
Definition pending (happened : bool) : Z := if happened then 0 else 1.

Definition uflow_rank (f : uflow) : Z :=
  worker_rank (u_worker f) + reader_rank (u_reader f) + pending (u_stopped f).

Definition tcp_phase_rank (p : tcp_phase) : Z :=
  match p with TStart => 5 | TRelay => 4 | TClose => 3 | TSlot => 2 | TDone => 1 | TEnded => 0 end.

Definition tflow_rank (f : tflow) : Z :=
  tcp_phase_rank (t_phase f) + pending (t_cancelled f) + pending (t_stopped f).

(** A flow being opened may still start both of its goroutines. *)
Definition listener_rank (s : listener_phase) : Z :=
  match s with LOpening _ _ => 12 | LSelecting _ _ => 1 | LReading => 0 end.

Definition proxy_rank (p : Proxy) : Z :=
  sum_of uflow_rank (p_udp p) + sum_of tflow_rank (p_tcp p) + sum_of listener_rank (p_listeners p).

(** The steps of the proxy's goroutines, but for those that pass a packet on or read
    a flow. *)
Definition own (act : action) : bool :=
  match act with
  | ReplySocket _ _ | Deliver _ _ | UDPWork _ _ | UDPAnswered _ _ | FlowCancel _ | TCPWork _ _ | TCPAnswered _ _
  | TCPCancel _ | TCPStop _ | ReaderStep _ None _ => true
  | _ => false
  end.

(** The steps that wait for no peer: a worker or a reader that goes on by itself, what
    the context does, and the read of a socket that is closed. *)
Definition forced (p : Proxy) (act : action) : bool :=
  match act with
  | ReplySocket _ _ | Deliver _ _ | UDPWork _ _ | FlowCancel _ | TCPWork _ _ | TCPCancel _ | TCPStop _ => true
  | ReaderStep i None _ =>
      match p_udp p !! i with
      | Some f => match u_reader f with RRun => negb (pf_socket_open (u_conn f)) | _ => true end
      | None => false
      end
  | _ => false
  end.

Lemma proxy_rank_nonneg p : 0 <= proxy_rank p.
Proof.
  unfold proxy_rank.
  assert (forall f, 0 <= uflow_rank f) as Hu by (intros f; unfold uflow_rank; by destruct (u_worker f), (u_reader f), (u_stopped f)).
  assert (forall f, 0 <= tflow_rank f) as Ht by (intros f; unfold tflow_rank; by destruct (t_phase f), (t_cancelled f), (t_stopped f)).
  assert (forall s, 0 <= listener_rank s) as Hl by (by intros []).
  pose proof (sum_of_nonneg uflow_rank (p_udp p) Hu). pose proof (sum_of_nonneg tflow_rank (p_tcp p) Ht).
  pose proof (sum_of_nonneg listener_rank (p_listeners p) Hl). lia.
Qed.

Lemma update_udp_rank p i g p' k :
  update_udp p i g = Some p' ->
  (forall f f', g f = Some f' -> uflow_rank f' <= uflow_rank f - k) ->
  proxy_rank p' <= proxy_rank p - k /\ p_closed p' = p_closed p.
Proof.
  unfold update_udp. destruct (p_udp p !! i) as [f|] eqn:Hi; [|done]. destruct (g f) as [f'|] eqn:E; [|done].
  intros [= <-] Hg. specialize (Hg f f' E). unfold proxy_rank. close_simpl.
  rewrite (sum_of_insert _ _ _ _ f' Hi). split; [lia|done].
Qed.

Lemma flow_worker_rank a f f' : flow_worker a f = Some f' -> uflow_rank f' <= uflow_rank f - 1.
Proof.
  unfold flow_worker, uflow_rank. destruct (u_worker f); try done.
  1: destruct (_ =? 53); [|destruct a].
  all: intros [= <-]; close_simpl; cbn [worker_rank]; lia.
Qed.

Lemma reader_step_rank r d f f' :
  reader_step r d f = Some f' -> uflow_rank f' <= uflow_rank f - (if r is Some _ then 0 else 1).
Proof.
  unfold reader_step, uflow_rank. destruct (u_reader f) eqn:Er, r as [packet|]; try done.
  1: destruct (pf_done (u_conn f)), d, (try_send (u_conn f) packet).
  all: intros [= <-]; close_simpl; rewrite ?Er; cbn [reader_rank]; lia.
Qed.

Lemma udp_work_rank p i a p' :
  udp_work p i a = Some p' -> proxy_rank p' <= proxy_rank p - 1 /\ p_closed p' = p_closed p.
Proof.
  unfold udp_work. destruct (p_udp p !! i) as [f|] eqn:Hi; [|done].
  assert (forall b, update_udp p i (flow_worker b) = Some p' -> proxy_rank p' <= proxy_rank p - 1 /\ p_closed p' = p_closed p) as Hw.
  { intros b Hu. apply (update_udp_rank p i (flow_worker b)); [done|]. apply flow_worker_rank. }
  destruct (u_worker f) eqn:Ew; try (repeat case_match; by eauto).
  - destruct (opening _); [done|]. intros [= <-]. unfold proxy_rank. close_simpl.
    rewrite (sum_of_insert _ _ _ _ (set_worker WSlot f) Hi). unfold uflow_rank. rewrite Ew. close_simpl.
    cbn [worker_rank]. split; [lia|done].
  - destruct (p_slots p =? 0); [done|]. intros [= <-]. unfold proxy_rank. close_simpl.
    rewrite (sum_of_insert _ _ _ _ (set_worker WDone f) Hi). unfold uflow_rank. rewrite Ew. close_simpl.
    cbn [worker_rank]. split; [lia|done].
Qed.

Lemma udp_answered_rank p i a p' :
  udp_answered p i a = Some p' -> proxy_rank p' <= proxy_rank p - 1 /\ p_closed p' = p_closed p.
Proof.
  intros H. apply (update_udp_rank p i (flow_worker a)); [|apply flow_worker_rank].
  unfold udp_answered in H. destruct (p_udp p !! i) as [f|]; [|done]. cbn in H. by repeat case_match.
Qed.

Lemma update_tcp_rank p i g p' :
  update_tcp p i g = Some p' ->
  (forall f f', g f = Some f' -> tflow_rank f' <= tflow_rank f - 1) ->
  proxy_rank p' <= proxy_rank p - 1 /\ p_closed p' = p_closed p.
Proof.
  unfold update_tcp. destruct (p_tcp p !! i) as [f|] eqn:Hi; [|done]. cbn. destruct (g f) as [f'|] eqn:E; [|done].
  intros [= <-] Hg. specialize (Hg f f' E). unfold proxy_rank. close_simpl.
  rewrite (sum_of_insert _ _ _ _ f' Hi). split; [lia|done].
Qed.

Lemma tcp_worker_rank a f f' : tcp_worker a f = Some f' -> tflow_rank f' <= tflow_rank f - 1.
Proof.
  unfold tcp_worker, tflow_rank. destruct (t_phase f); try done.
  1: destruct (t_original f), a.
  all: intros [= <-]; cbn [t_phase t_cancelled t_stopped tcp_phase_rank]; lia.
Qed.

Lemma tcp_cancel_rank f f' : tcp_cancel f = Some f' -> tflow_rank f' <= tflow_rank f - 1.
Proof.
  unfold tcp_cancel, tflow_rank. destruct (t_phase f) eqn:Ep, (t_cancelled f) eqn:Ec; try done; intros [= <-];
    cbn [t_phase t_cancelled t_stopped tcp_phase_rank pending]; lia.
Qed.

Lemma tcp_stop_rank f f' : tcp_stop f = Some f' -> tflow_rank f' <= tflow_rank f - 1.
Proof.
  unfold tcp_stop, tflow_rank. destruct (t_phase f) eqn:Ep, (t_stopped f) eqn:Ec; try done; intros [= <-];
    cbn [t_phase t_cancelled t_stopped tcp_phase_rank]; destruct (t_cancelled f); cbn [pending]; lia.
Qed.

Lemma tcp_work_rank p i a p' :
  tcp_work p i a = Some p' -> proxy_rank p' <= proxy_rank p - 1 /\ p_closed p' = p_closed p.
Proof.
  unfold tcp_work. destruct (p_tcp p !! i) as [f|] eqn:Hi; [|done].
  assert (forall b, update_tcp p i (tcp_worker b) = Some p' -> proxy_rank p' <= proxy_rank p - 1 /\ p_closed p' = p_closed p) as Hw.
  { intros b Hu. apply (update_tcp_rank p i (tcp_worker b)); [done|]. apply tcp_worker_rank. }
  destruct (t_phase f) eqn:Et; try (repeat case_match; by eauto).
  destruct (p_slots p =? 0); [done|]. intros [= <-]. split; [|done]. unfold proxy_rank. close_simpl.
  rewrite (sum_of_insert _ _ _ _ (set_tcp_phase TDone f) Hi). unfold tflow_rank. rewrite Et.
  cbn [set_tcp_phase t_phase t_cancelled t_stopped tcp_phase_rank]. lia.
Qed.

Lemma tcp_answered_rank p i a p' :
  tcp_answered p i a = Some p' -> proxy_rank p' <= proxy_rank p - 1 /\ p_closed p' = p_closed p.
Proof.
  intros H. apply (update_tcp_rank p i (tcp_worker a)); [|apply tcp_worker_rank].
  unfold tcp_answered in H. destruct (p_tcp p !! i) as [f|]; [|done]. cbn in H. by repeat case_match.
Qed.

Section Close.
Variable cfg : Config.

(** Once the proxy is closed, an own step lowers the rank and no step raises it. *)
Lemma proxy_step_rank p act p' :
  p_closed p = true -> proxy_step cfg p act = Some p' ->
  proxy_rank p' <= proxy_rank p - (if own act then 1 else 0) /\ p_closed p' = true.
Proof.
  intros Hc Hs.
  cut (proxy_rank p' <= proxy_rank p - (if own act then 1 else 0) /\ p_closed p' = p_closed p); [intros [? ->]; by split|].
  destruct act; cbn [proxy_step own] in *.
  - unfold udp_datagram in Hs. by rewrite Hc in Hs.
  - unfold udp_socket in Hs. destruct (p_listeners p !! l) as [[|key packet|]|] eqn:Hl; try done.
    destruct a; injection Hs as <-; unfold proxy_rank; close_simpl; split; try done;
      rewrite ?sum_of_app, (sum_of_insert _ _ _ _ _ Hl); unfold uflow_rank; cbn; lia.
  - unfold udp_deliver in Hs. destruct (p_listeners p !! l) as [[| |i packet]|] eqn:Hl; try done.
    destruct (update_udp_rank _ _ _ _ 0 Hs) as [Hr Hd]; [by intros f f' [= <-]; unfold uflow_rank; close_simpl; lia|].
    split; [|done]. unfold proxy_rank in *. close_simpl. rewrite (sum_of_insert _ _ _ _ LReading Hl) in Hr. cbn in Hr. lia.
  - destruct (update_udp_rank _ _ _ _ (if received is Some _ then 0 else 1) Hs) as [Hr Hd]; [apply reader_step_rank|].
    split; [|done]. by destruct received.
  - by apply (udp_work_rank p i a).
  - by apply (udp_answered_rank p i a).
  - destruct (update_udp_rank _ _ _ _ 0 Hs) as [Hr Hd]; [|by split].
    intros f f'. unfold flow_read. destruct (u_worker f) eqn:Ew; try done.
    all: destruct (pf_Read _ _ _ _ _) as [[]|]; [|done]; intros [= <-]; unfold uflow_rank; close_simpl; lia.
  - destruct (p_cancelled p); [|done]. apply (update_udp_rank _ _ _ _ 1 Hs).
    intros f f'. unfold flow_cancel. destruct (u_worker f) eqn:Ew, (u_stopped f) eqn:Es; try done; intros [= <-];
      unfold uflow_rank; close_simpl; rewrite ?Ew, ?Es; cbn [pending]; lia.
  - unfold tcp_accept in Hs. by rewrite Hc in Hs.
  - by apply (tcp_work_rank p i a).
  - by apply (tcp_answered_rank p i a).
  - destruct (p_cancelled p); [|done]. by apply (update_tcp_rank _ _ _ _ Hs), tcp_cancel_rank.
  - destruct (p_cancelled p); [|done]. by apply (update_tcp_rank _ _ _ _ Hs), tcp_stop_rank.
  - injection Hs as <-. unfold proxy_rank. close_simpl. split; [lia|done].
  - destruct (p_cancelled p); [|done]. injection Hs as <-. unfold proxy_rank. close_simpl. split; [lia|done].
Qed.

Lemma proxy_run_rank acts : forall p p',
  p_closed p = true -> proxy_run cfg p acts = Some p' ->
  Z.of_nat (List.length (List.filter own acts)) + proxy_rank p' <= proxy_rank p.
Proof.
  induction acts as [|act acts IH]; intros p p' Hc; cbn [proxy_run List.filter]; [intros [= <-]; simpl; lia|].
  destruct (proxy_step cfg p act) as [p1|] eqn:Hs; [|done]. intros Hrun.
  destruct (proxy_step_rank p act p1 Hc Hs) as [Hr Hc1]. specialize (IH p1 p' Hc1 Hrun).
  destruct (own act); cbn [List.length]; lia.
Qed.

(** ** Progress *)

Definition ended (p : Proxy) : Prop :=
  Forall (fun f => u_worker f = WEnded /\ u_reader f = REnded) (p_udp p) /\
  Forall (fun f => t_phase f = TEnded) (p_tcp p) /\ Forall (fun s => s = LReading) (p_listeners p).

Definition sound_step (p : Proxy) (act : action) : Prop :=
  forced p act = true /\ own act = true /\ is_Some (proxy_step cfg p act).

Lemma Forall_or_lookup {A} (P : A -> Prop) `{forall x, Decision (P x)} (l : list A) :
  Forall P l \/ exists i x, l !! i = Some x /\ ~ P x.
Proof.
  destruct (decide (Forall P l)) as [HF|HF]; [by left|right].
  apply not_Forall_Exists, Exists_exists in HF as (x & Hin & Hx); [|done].
  apply list_elem_of_lookup in Hin as [i Hi]. eauto.
Qed.

Context (Hmax : 0 <= c_MaxConnections cfg).

(** A holder of a slot shows that one is taken. *)
Lemma slots_taken p :
  proxy_inv cfg p -> (exists f, In f (p_udp p) /\ u_holds f = true) \/ (exists f, In f (p_tcp p) /\ t_holds f = true) ->
  p_slots p <> 0.
Proof.
  intros [Hs _ _ _ _ _ _ _ _] Hex E0. rewrite Hs in E0.
  pose proof (count_nonneg u_holds (p_udp p)). pose proof (count_nonneg t_holds (p_tcp p)).
  pose proof (count_nonneg opening (p_listeners p)).
  assert (count u_holds (p_udp p) = 0 /\ count t_holds (p_tcp p) = 0) as [Eu Et] by lia.
  apply count_zero in Eu, Et. rewrite List.Forall_forall in Eu, Et.
  destruct Hex as [(f & Hin & Hf)|(f & Hin & Hf)]; [rewrite (Eu f Hin) in Hf|rewrite (Et f Hin) in Hf]; done.
Qed.

Lemma listeners_step p :
  proxy_inv cfg p -> Forall (fun s => s = LReading) (p_listeners p) \/ exists act, sound_step p act.
Proof.
  intros Hinv. assert (forall s : listener_phase, Decision (s = LReading)) as Hdec.
  { intros []; (by left) || (by right). }
  destruct (Forall_or_lookup (fun s => s = LReading) (p_listeners p)) as [HF|(l & s & Hl & Hs)]; [by left|right].
  destruct s as [|key packet|i packet]; [done|..].
  - exists (ReplySocket l Failed). split_and!; [done..|]. cbn. unfold udp_socket. rewrite Hl. by eexists.
  - exists (Deliver l false). split_and!; [done..|]. cbn. unfold udp_deliver. rewrite Hl. unfold update_udp. close_simpl.
    destruct (lookup_lt_is_Some_2 _ _ (inv_selecting _ _ Hinv l i packet Hl)) as [f ->]. by eexists.
Qed.

Lemma workers_step p :
  proxy_inv cfg p -> p_cancelled p = true -> Forall (fun s => s = LReading) (p_listeners p) ->
  Forall (fun f => u_worker f = WEnded) (p_udp p) \/ exists act, sound_step p act.
Proof.
  intros Hinv Hcan HL. destruct (Forall_or_lookup (fun f => u_worker f = WEnded) (p_udp p)) as [HF|(i & f & Hi & Hf)]; [by left|right].
  assert (forall b, u_worker f <> WDelete -> u_worker f <> WSlot -> is_Some (update_udp p i (flow_worker b))) as Hgo.
  { intros b H1 H2. unfold update_udp, flow_worker. rewrite Hi. destruct (u_worker f); try done; try (by eexists);
      destruct (_ =? 53); by eexists. }
  destruct (decide ((u_worker f = WRelay \/ u_worker f = WServeDNS) /\ u_stopped f = false)) as [[Hr Hst]|Hn].
  { exists (FlowCancel i). split_and!; [done..|]. cbn [proxy_step]. rewrite Hcan. unfold update_udp, flow_cancel.
    rewrite Hi, Hst. destruct Hr as [-> | ->]; by eexists. }
  exists (UDPWork i Succeeded). split_and!; [done..|]. cbn [proxy_step]. unfold udp_work. rewrite Hi.
  destruct (u_worker f) eqn:Ew; try done; try (by apply Hgo).
  1: rewrite Hcan; destruct (_ =? 53); by apply Hgo.
  1-2: destruct (u_stopped f); [by apply Hgo|exfalso; by apply Hn; auto].
  - replace (default LReading (p_listeners p !! u_listener f)) with LReading; [by eexists|].
    destruct (p_listeners p !! u_listener f) as [s|] eqn:El; [|done]. symmetry. by apply (Forall_lookup_1 _ _ _ _ HL El).
  - destruct (Z.eqb_spec (p_slots p) 0) as [E0|_]; [|by eexists]. exfalso. apply (slots_taken p Hinv); [|done].
    left. exists f. split; [by apply list_elem_of_In, (list_elem_of_lookup_2 _ i)|]. unfold u_holds. by rewrite Ew.
Qed.

Lemma readers_step p :
  proxy_inv cfg p -> Forall (fun f => u_worker f = WEnded) (p_udp p) ->
  Forall (fun f => u_reader f = REnded) (p_udp p) \/ exists act, sound_step p act.
Proof.
  intros Hinv HW. destruct (Forall_or_lookup (fun f => u_reader f = REnded) (p_udp p)) as [HF|(i & f & Hi & Hf)]; [by left|right].
  exists (ReaderStep i None false). split_and!; [|done|].
  - cbn. rewrite Hi. pose proof (Forall_lookup_1 _ _ _ _ (inv_udp _ _ Hinv) Hi) as (_ & -> & _ & _ & _ & _ & Hd & _).
    rewrite (Forall_lookup_1 _ _ _ _ HW Hi) in Hd. rewrite Hd. by destruct (u_reader f).
  - cbn. unfold update_udp. rewrite Hi. unfold reader_step. destruct (u_reader f); [by eexists..|done].
Qed.

Lemma connections_step p :
  proxy_inv cfg p -> p_cancelled p = true ->
  Forall (fun f => t_phase f = TEnded) (p_tcp p) \/ exists act, sound_step p act.
Proof.
  intros Hinv Hcan. destruct (Forall_or_lookup (fun f => t_phase f = TEnded) (p_tcp p)) as [HF|(i & f & Hi & Hf)]; [by left|right].
  assert (forall b, t_phase f <> TSlot -> is_Some (update_tcp p i (tcp_worker b))) as Hgo.
  { intros b H1. unfold update_tcp, tcp_worker. rewrite Hi. cbn. destruct (t_phase f); try done; try (by eexists);
      destruct (t_original f), b; by eexists. }
  destruct (decide (t_phase f = TRelay /\ t_stopped f = false)) as [[Hr Hst]|Hn].
  { exists (TCPStop i). split_and!; [done..|]. cbn [proxy_step]. rewrite Hcan. unfold update_tcp, tcp_stop.
    rewrite Hi. cbn. rewrite Hr, Hst. by eexists. }
  exists (TCPWork i Succeeded). split_and!; [done..|]. cbn [proxy_step]. unfold tcp_work. rewrite Hi.
  destruct (t_phase f) eqn:Et; try done; try (by apply Hgo).
  1: rewrite Hcan, andb_false_r; by apply Hgo.
  1: destruct (t_stopped f); [by apply Hgo|exfalso; by apply Hn].
  destruct (Z.eqb_spec (p_slots p) 0) as [E0|_]; [|by eexists]. exfalso. apply (slots_taken p Hinv); [|done].
  right. exists f. split; [by apply list_elem_of_In, (list_elem_of_lookup_2 _ i)|]. unfold t_holds. by rewrite Et.
Qed.

Lemma close_can_step p : reachable cfg p -> p_closed p = true -> ended p \/ exists act, sound_step p act.
Proof.
  intros Hr Hcl. pose proof (netns_reachable_inv cfg Hmax p Hr) as Hinv.
  assert (p_cancelled p = true) as Hcan.
  { destruct (p_cancelled p) eqn:E; [done|]. destruct (inv_cancelled _ _ Hinv E) as [E' _]. congruence. }
  destruct (listeners_step p Hinv) as [HL|]; [|by right].
  destruct (workers_step p Hinv Hcan HL) as [HW|]; [|by right].
  destruct (readers_step p Hinv HW) as [HR|]; [|by right].
  destruct (connections_step p Hinv Hcan) as [HT|]; [|by right].
  left. split_and!; [|done|done]. apply Forall_and. by split.
Qed.

(** When every goroutine has ended nothing is left behind. *)
Lemma ended_clean p :
  reachable cfg p -> ended p ->
  p_slots p = 0 /\ p_table p = ∅ /\
  Forall (fun f => pf_done (u_conn f) = true /\ pf_socket_open (u_conn f) = false) (p_udp p) /\
  Forall (fun f => t_open f = false) (p_tcp p).
Proof.
  intros Hr (HU & HT & HL). destruct (netns_reachable_inv cfg Hmax p Hr) as [Hs _ Hfound _ _ _ Hudp Htcp _].
  assert (forall {A} (g : A -> bool) l, Forall (fun x => g x = false) l -> count g l = 0) as Hcount.
  { intros A g l HF. unfold count. induction HF as [|x l Hx _ IH]; [done|]. cbn [List.filter]. by rewrite Hx. }
  split_and!.
  - rewrite Hs, (Hcount _ u_holds), (Hcount _ t_holds), (Hcount _ opening); [done|..].
    + eapply Forall_impl; [exact HL|]. by intros s ->.
    + eapply Forall_impl; [exact HT|]. intros f Hf. cbn beta in Hf. unfold t_holds. by rewrite Hf.
    + eapply Forall_impl; [exact HU|]. intros f [Hf _]. unfold u_holds. by rewrite Hf.
  - apply map_empty. intros k. destruct (p_table p !! k) as [i|] eqn:Ek; [|done].
    destruct (Hfound k i Ek) as (f & Hi & _ & Hin). destruct (Forall_lookup_1 _ _ _ _ HU Hi) as [Hw _].
    unfold in_table in Hin. by rewrite Hw in Hin.
  - apply Forall_forall. intros f Hin. apply list_elem_of_lookup in Hin as [i Hi].
    pose proof (Forall_lookup_1 _ _ _ _ Hudp Hi) as (_ & -> & _ & _ & _ & _ & Hd & _).
    destruct (Forall_lookup_1 _ _ _ _ HU Hi) as [Hw _]. rewrite Hw in Hd. by rewrite Hd.
  - apply Forall_forall. intros f Hin. apply list_elem_of_lookup in Hin as [i Hi].
    pose proof (tok_closed _ (Forall_lookup_1 _ _ _ _ Htcp Hi)) as Ho.
    pose proof (Forall_lookup_1 _ _ _ _ HT Hi) as Ht. cbn beta in Ht. by rewrite Ht in Ho.
Qed.
End Close.

(** ** Properties *)

(** Claim C20: [Close] drains the namespace proxy. It can be called in every state,
    and once it has cancelled the context and closed the listeners no datagram and
    no connection is taken any more; the listeners, readers, workers and what the
    context does take at most [proxy_rank] further steps, however reads and packets
    are interleaved with them; and until all have ended one of them can go on
    without any peer: a dial or a relay because the context was cancelled, a read
    because its socket is closed. When all have ended no slot is taken, the tables
    are empty, and every reply socket and every accepted connection is closed. So
    [serveUDP] and [serveTCP] return, even if every relay is idle. *)
Theorem netns_close_drains (fails : setup_event -> option string) (cfg0 cfg : Config)
    (link : Result Interface) (interfaces : Result (list Interface)) (events : list setup_event)
    (p p' : Proxy) (acts : list action) :
  New fails cfg0 link interfaces = (events, Ok cfg) -> reachable cfg p -> p_closed p = true ->
  proxy_run cfg p acts = Some p' ->
  (forall q, reachable cfg q ->
     exists q', proxy_run cfg q [CloseCancel; CloseListeners] = Some q' /\ p_closed q' = true) /\
  (forall l truncated control from packet, proxy_step cfg p' (Datagram l truncated control from packet) = None) /\
  (forall original, proxy_step cfg p' (Accept original) = None) /\
  Z.of_nat (List.length (List.filter own acts)) <= proxy_rank p /\
  (ended p' \/ exists act, sound_step cfg p' act) /\
  (ended p' ->
   p_slots p' = 0 /\ p_table p' = ∅ /\
   Forall (fun f => pf_done (u_conn f) = true /\ pf_socket_open (u_conn f) = false) (p_udp p') /\
   Forall (fun f => t_open f = false) (p_tcp p')).
Proof.
  intros HN Hr Hc Hrun. destruct (New_max _ _ _ _ _ _ HN) as [Hmax _].
  assert (reachable cfg p') as Hr' by (by apply (netns_run_reachable cfg acts p)).
  assert (p_closed p' = true) as Hc'.
  { clear Hr Hr'. revert p Hc Hrun. induction acts as [|act acts IH]; intros p Hc; cbn [proxy_run]; [by intros [= <-]|].
    destruct (proxy_step cfg p act) as [p1|] eqn:Hs; [|done]. apply IH. by apply (proxy_step_rank cfg p act). }
  split_and!.
  - intros q _. by eexists.
  - intros. cbn. unfold udp_datagram. by rewrite Hc'.
  - intros. cbn. unfold tcp_accept. by rewrite Hc'.
  - pose proof (proxy_run_rank cfg acts p p' Hc Hrun). pose proof (proxy_rank_nonneg p'). lia.
  - apply close_can_step; [lia|done|done].
  - apply (ended_clean cfg); [lia|done].
Qed.

(** ** Witness *)

Definition closed_proxy : Proxy :=
  default (proxy_init 0) (proxy_run sample_config sample_proxy [CloseCancel; CloseListeners]).

(** The flow and the connection of the sample, from the close to their end. *)
Definition sample_drain : list action :=
  [FlowCancel 0; UDPWork 0 Succeeded; UDPWork 0 Succeeded; UDPWork 0 Succeeded; UDPWork 0 Succeeded;
   ReaderStep 0 None false; TCPCancel 0; TCPStop 0; TCPWork 0 Succeeded; TCPWork 0 Succeeded; ReaderStep 0 None false;
   TCPWork 0 Succeeded; ReaderStep 0 None false; UDPWork 0 Succeeded; TCPWork 0 Succeeded].

Definition drained_proxy : Proxy := default (proxy_init 0) (proxy_run sample_config closed_proxy sample_drain).

Lemma netns_close_drains_witness :
  proxy_rank closed_proxy = 15 /\ p_slots drained_proxy = 0 /\ p_table drained_proxy = ∅.
Proof.
  assert (reachable sample_config closed_proxy) as Hr.
  { apply (netns_run_reachable _ [CloseCancel; CloseListeners] sample_proxy); [apply sample_proxy_reachable|].
    vm_compute. reflexivity. }
  destruct (netns_close_drains (fun _ => None) sample_config sample_config (Ok sample_interface)
    (Ok [sample_interface])
    (fst (New (fun _ => None) sample_config (Ok sample_interface) (Ok [sample_interface])))
    closed_proxy drained_proxy sample_drain eq_refl Hr ltac:(vm_compute; reflexivity) ltac:(vm_compute; reflexivity))
    as (_ & _ & _ & _ & _ & Hclean).
  destruct Hclean as (H1 & H2 & _).
  - split_and!; [vm_compute; repeat constructor..].
  - split; [vm_compute; reflexivity|]. split; [exact H1|exact H2].
Defined.
