(* ===== verification/Relay.v ===== *)
(** * Relays: two copies with half-close

    What runs once a tunnel is open: [relay] of [sdk/pkg/tun2connect/relay.go]
    (under [RelayTCP] of [forwarder.go]), [RelayUDP], [relay] and [pumpUDP] of
    [sdk/cmd/connect-proxy/main.go], and the copies of [scenarios/cmd]. All are two
    copying goroutines between two connections; they differ in what a goroutine
    does when its copy ends, and in which goroutines the relay waits for. One
    machine, over the items that a read returns (bytes, or whole datagrams),
    takes that difference as a [relay_policy]. A write blocks while the peer has no
    room for it. *)

From S2P Require Import Prelude.

(** ** Connections *)

(** What [CloseWrite] does, where a connection has it: [bufConn] closes the whole
    connection when the one it wraps has none. *)
Inductive close_write : Type := HalfClose | FullClose | NoCloseWrite.

Section Relay.
Context {item : Type}.

(** One connection, as its local end sees it. *)
Record conn := mkConn {
  c_kind : close_write;
  c_total : list item;    (** all the peer has sent, oldest first *)
  c_recv : list item;     (** the part of it not read yet *)
  c_eof : bool;           (** the peer will send nothing more *)
  c_sent : list item;     (** written to the peer, oldest first *)
  c_wclosed : bool;       (** no more writes *)
  c_closed : bool;
  c_room : nat;           (** how many more items the peer takes, so far *)
}.

Definition new_conn (k : close_write) : conn := mkConn k [] [] false [] false false 0.

Definition Close (c : conn) : conn :=
  mkConn (c_kind c) (c_total c) (c_recv c) (c_eof c) (c_sent c) true true (c_room c).

Definition CloseWrite (c : conn) : conn :=
  match c_kind c with
  | FullClose => Close c
  | _ => mkConn (c_kind c) (c_total c) (c_recv c) (c_eof c) (c_sent c) true (c_closed c) (c_room c)
  end.

Definition has_CloseWrite (c : conn) : bool :=
  match c_kind c with NoCloseWrite => false | _ => true end.

Definition peer_sends (items : list item) (c : conn) : conn :=
  mkConn (c_kind c) (c_total c ++ items) (c_recv c ++ items) (c_eof c) (c_sent c) (c_wclosed c) (c_closed c)
    (c_room c).

Definition peer_ends (c : conn) : conn :=
  mkConn (c_kind c) (c_total c) (c_recv c) true (c_sent c) (c_wclosed c) (c_closed c) (c_room c).

Definition take_recv (n : nat) (c : conn) : conn :=
  mkConn (c_kind c) (c_total c) (drop n (c_recv c)) (c_eof c) (c_sent c) (c_wclosed c) (c_closed c) (c_room c).

Definition write (items : list item) (c : conn) : conn :=
  mkConn (c_kind c) (c_total c) (c_recv c) (c_eof c) (c_sent c ++ items) (c_wclosed c) (c_closed c)
    (c_room c - List.length items).

Definition peer_takes (n : nat) (c : conn) : conn :=
  mkConn (c_kind c) (c_total c) (c_recv c) (c_eof c) (c_sent c) (c_wclosed c) (c_closed c) (c_room c + n).

(** ** The machine *)

Inductive side : Type := A | B.

#[export] Instance side_eq_dec : EqDecision side.
Proof. solve_decision. Defined.

Definition other (s : side) : side := match s with A => B | B => A end.

(** Where a copying goroutine is; [clean] is false after an error. *)
Inductive copy_phase : Type :=
| Copying
| Holding (items : list item)
| Closing (clean : bool)
| Done (clean : bool).

(** [r_a], [r_b]: the connections; [r_from_a], [r_from_b]: the goroutine that
    copies from each; [r_joined]: the relay has returned, and its caller closed
    both. *)
Record state := mkState {
  r_a : conn; r_b : conn;
  r_from_a : copy_phase; r_from_b : copy_phase;
  r_joined : bool;
}.

Definition conn_of (s : side) (st : state) : conn := match s with A => r_a st | B => r_b st end.
Definition phase_of (s : side) (st : state) : copy_phase :=
  match s with A => r_from_a st | B => r_from_b st end.

Definition set_conn (s : side) (c : conn) (st : state) : state :=
  match s with
  | A => mkState c (r_b st) (r_from_a st) (r_from_b st) (r_joined st)
  | B => mkState (r_a st) c (r_from_a st) (r_from_b st) (r_joined st)
  end.

Definition set_phase (s : side) (p : copy_phase) (st : state) : state :=
  match s with
  | A => mkState (r_a st) (r_b st) p (r_from_b st) (r_joined st)
  | B => mkState (r_a st) (r_b st) (r_from_a st) p (r_joined st)
  end.

Definition is_done (p : copy_phase) : bool := match p with Done _ => true | _ => false end.

(** What a kind of relay adds to the two copies: the effect of the goroutine
    that copied from a side once its copy ends, the goroutines to wait for,
    whether an item is a datagram, so that a read returns one, and whether
    something watches over it that closes both connections. *)
Record relay_policy := mkPolicy {
  rp_finish : side -> conn * conn -> conn * conn;  (** source and destination *)
  rp_joined : (side -> bool) -> bool;
  rp_datagrams : bool;
  rp_interrupt : bool;
}.

Definition interruptible (rp : relay_policy) : relay_policy :=
  mkPolicy (rp_finish rp) (rp_joined rp) (rp_datagrams rp) true.

Inductive label : Type :=
| PeerSends (s : side) (items : list item)
| PeerEnds (s : side)
| PeerTakes (s : side) (n : nat)       (** room for more: the peer reads *)
| Read (s : side) (n : nat)
| ReadEnds (s : side)                  (** end of input, or closed here *)
| ReadFails (s : side)
| Written (s : side)                   (** all that is held *)
| WritesPart (s : side) (n : nat)      (** the peer has room for [n] items only *)
| WriteFails (s : side) (n : nat)      (** after [n] items *)
| Finish (s : side)
| Join
| Interrupt.                           (** the context, or the idle watch, closes both *)

Section Machine.
Variable rp : relay_policy.

Definition step (st : state) (l : label) : option state :=
  match l with
  | PeerSends s items =>
      if c_eof (conn_of s st) then None else Some (set_conn s (peer_sends items (conn_of s st)) st)
  | PeerEnds s => Some (set_conn s (peer_ends (conn_of s st)) st)
  | PeerTakes s n => Some (set_conn s (peer_takes n (conn_of s st)) st)
  | Read s n =>
      let c := conn_of s st in
      match phase_of s st with
      | Copying =>
          if c_closed c || (n =? 0)%nat || (rp_datagrams rp && (1 <? n)%nat) || (List.length (c_recv c) <? n)%nat then None
          else Some (set_phase s (Holding (take n (c_recv c))) (set_conn s (take_recv n c) st))
      | _ => None
      end
  | ReadEnds s =>
      let c := conn_of s st in
      match phase_of s st with
      | Copying =>
          if c_closed c then Some (set_phase s (Closing false) st)
          else match c_recv c, c_eof c with
               | [], true => Some (set_phase s (Closing true) st)
               | _, _ => None
               end
      | _ => None
      end
  | ReadFails s =>
      match phase_of s st with Copying => Some (set_phase s (Closing false) st) | _ => None end
  | Written s =>
      match phase_of s st with
      | Holding items =>
          let dst := conn_of (other s) st in
          if c_wclosed dst || (c_room dst <? List.length items)%nat then None
          else Some (set_phase s Copying (set_conn (other s) (write items dst) st))
      | _ => None
      end
  | WritesPart s n =>
      match phase_of s st with
      | Holding items =>
          let dst := conn_of (other s) st in
          if c_wclosed dst || (n =? 0)%nat || (c_room dst <? n)%nat || (List.length items <=? n)%nat then None
          else Some (set_phase s (Holding (drop n items)) (set_conn (other s) (write (take n items) dst) st))
      | _ => None
      end
  | WriteFails s n =>
      match phase_of s st with
      | Holding items =>
          let done := if c_wclosed (conn_of (other s) st) then [] else take n items in
          if (c_room (conn_of (other s) st) <? n)%nat then None else
          Some (set_phase s (Closing false) (set_conn (other s) (write done (conn_of (other s) st)) st))
      | _ => None
      end
  | Finish s =>
      match phase_of s st with
      | Closing clean =>
          let '(src, dst) := rp_finish rp s (conn_of s st, conn_of (other s) st) in
          Some (set_phase s (Done clean) (set_conn (other s) dst (set_conn s src st)))
      | _ => None
      end
  | Join =>
      if r_joined st then None
      else if rp_joined rp (fun s => is_done (phase_of s st))
      then Some (mkState (Close (r_a st)) (Close (r_b st)) (r_from_a st) (r_from_b st) true)
      else None
  | Interrupt =>
      if negb (rp_interrupt rp) then None else
      Some (mkState (Close (r_a st)) (Close (r_b st)) (r_from_a st) (r_from_b st) (r_joined st))
  end.

Fixpoint run (st : state) (ls : list label) : option state :=
  match ls with
  | [] => Some st
  | l :: ls => match step st l with Some st => run st ls | None => None end
  end.

Definition start (ka kb : close_write) : state :=
  mkState (new_conn ka) (new_conn kb) Copying Copying false.

Inductive reachable : state -> Prop :=
| reach_start ka kb : reachable (start ka kb)
| reach_step st l st' : reachable st -> step st l = Some st' -> reachable st'.
End Machine.

(** ** The relays of the source *)

(** [relay] of [relay.go]: [cp] half-closes its destination, or closes both;
    both goroutines are waited for. *)
Definition close_after (c : conn * conn) : conn * conn :=
  let '(src, dst) := c in
  if has_CloseWrite dst then (src, CloseWrite dst) else (Close src, Close dst).

Definition both_done (d : side -> bool) : bool := d A && d B.

Definition relay_copies : relay_policy := mkPolicy (fun _ => close_after) both_done false false.

(** [RelayTCP]: the end of the context closes both connections. *)
Definition relay_tcp : relay_policy := interruptible relay_copies.

(** [RelayUDP]: each goroutine closes both on its way out; one datagram a read;
    and the context, as for TCP. *)
Definition close_both (c : conn * conn) : conn * conn := (Close c.1, Close c.2).

Definition relay_udp : relay_policy := mkPolicy (fun _ => close_both) both_done true true.

(** [relay] of the boundary, client [A] and upstream [B]: the client's goroutine
    half-closes or closes upstream; the other is the handler itself. The idle
    watch closes both. *)
Definition boundary_relay : relay_policy :=
  mkPolicy (fun s c => match s with
                       | A => let '(src, dst) := c in
                              (src, if has_CloseWrite dst then CloseWrite dst else Close dst)
                       | B => c
                       end)
    (fun d => d B) false true.

(** [pumpUDP]: the client's goroutine closes upstream. *)
Definition boundary_pump : relay_policy :=
  mkPolicy (fun s c => match s with A => (c.1, Close c.2) | B => c end) (fun d => d B) true true.

(** [bridge] of the vsock forwarder half-closes TCP destinations only. *)
Definition bridge : relay_policy :=
  mkPolicy (fun _ c => (c.1, if has_CloseWrite c.2 then CloseWrite c.2 else c.2)) both_done false false.

(** The tunnel of the boundary of the scenarios: the first copy to end ends it. *)
Definition scenario_tunnel : relay_policy := mkPolicy (fun _ c => c) (fun d => d A || d B) false false.

(** Those that something watches over. *)
Definition watched_relays : list relay_policy := [relay_tcp; relay_udp; boundary_relay; boundary_pump].

Definition relays : list relay_policy :=
  [relay_tcp; relay_udp; boundary_relay; boundary_pump; bridge; scenario_tunnel].

(** ** Lemmas *)

(** What a relay may not touch: the items of a connection. *)
Definition items_of (c : conn) : list item * list item * bool * list item :=
  (c_total c, c_recv c, c_eof c, c_sent c).

Definition policy_ok (rp : relay_policy) : Prop :=
  (forall s c, items_of (rp_finish rp s c).1 = items_of c.1 /\ items_of (rp_finish rp s c).2 = items_of c.2) /\
  (forall d, d A = true -> d B = true -> rp_joined rp d = true).

Lemma relays_ok rp : In rp relays -> policy_ok rp.
Proof.
  assert (forall c, items_of (CloseWrite c) = items_of c) as Hcw by (intros c; unfold CloseWrite; by destruct (c_kind c)).
  intros Hin. repeat destruct Hin as [<-|Hin]; try done; (split; [|intros d HA HB; simpl; unfold both_done; by rewrite ?HA, ?HB]).
  all: intros s [src dst]; cbn [relay_tcp interruptible relay_copies relay_udp boundary_relay boundary_pump bridge scenario_tunnel
    rp_finish close_after close_both fst snd]; try destruct s; try destruct (has_CloseWrite dst);
    cbn [fst snd]; rewrite ?Hcw; done.
Qed.

(** The items of one direction: what was written, is held, and waits to be read
    make up what the peer sent, until an error. *)
Definition direction_ok (p : copy_phase) (src dst : conn) : Prop :=
  match p with
  | Copying => c_sent dst ++ c_recv src = c_total src
  | Holding items => c_sent dst ++ items ++ c_recv src = c_total src
  | Closing true | Done true => c_sent dst = c_total src /\ c_recv src = [] /\ c_eof src = true
  | Closing false | Done false => c_sent dst `prefix_of` c_total src
  end.

Definition order_inv (st : state) : Prop :=
  forall s, direction_ok (phase_of s st) (conn_of s st) (conn_of (other s) st).

Lemma direction_items p src dst src' dst' :
  items_of src' = items_of src -> items_of dst' = items_of dst ->
  direction_ok p src dst -> direction_ok p src' dst'.
Proof. unfold items_of, direction_ok. intros [= -> -> -> _] [= _ _ _ ->]. done. Qed.

Lemma direction_prefix p src dst : direction_ok p src dst -> c_sent dst `prefix_of` c_total src.
Proof.
  destruct p as [|items|[]|[]]; cbn [direction_ok]; try done; try (intros [-> _]; done).
  all: intros <-; by eexists.
Qed.

Lemma conn_phase_set s s' p c st :
  conn_of s (set_phase s' p st) = conn_of s st /\ phase_of s (set_conn s' c st) = phase_of s st /\
  conn_of s' (set_conn s' c st) = c /\ conn_of (other s') (set_conn s' c st) = conn_of (other s') st /\
  phase_of s' (set_phase s' p st) = p /\ phase_of (other s') (set_phase s' p st) = phase_of (other s') st.
Proof. by destruct s, s'. Qed.

(** A new source, destination and phase for the direction from [s]; of the
    other direction, the source's sent items and the destination's received ones. *)
Lemma order_inv_change s st st' :
  order_inv st -> phase_of (other s) st' = phase_of (other s) st ->
  direction_ok (phase_of s st') (conn_of s st') (conn_of (other s) st') ->
  c_sent (conn_of s st') = c_sent (conn_of s st) ->
  c_total (conn_of (other s) st') = c_total (conn_of (other s) st) ->
  c_recv (conn_of (other s) st') = c_recv (conn_of (other s) st) ->
  c_eof (conn_of (other s) st') = c_eof (conn_of (other s) st) -> order_inv st'.
Proof.
  intros Hinv Hp Hs Hsent Ht Hr He s'. assert (s' = s \/ s' = other s) as [-> | ->] by (destruct s, s'; auto); [done|].
  specialize (Hinv (other s)). rewrite Hp. assert (other (other s) = s) as Eo by (by destruct s). rewrite Eo in *.
  unfold direction_ok in *. by rewrite Hsent, Ht, Hr, He.
Qed.

Ltac relay_simpl :=
  cbn [set_conn set_phase conn_of phase_of other r_a r_b r_from_a r_from_b r_joined
       c_kind c_total c_recv c_eof c_sent c_wclosed c_closed peer_sends peer_ends peer_takes take_recv write Close c_room] in *.

(** What the peers do keeps the order. *)
Lemma peer_step_order rp s items n st l st' :
  order_inv st -> In l [PeerSends s items; PeerEnds s; PeerTakes s n] -> step rp st l = Some st' -> order_inv st'.
Proof.
  intros Hinv Hl Hs. pose proof (Hinv s) as Hd. repeat destruct Hl as [<-|Hl]; try done; cbn [step] in Hs.
  - destruct (c_eof (conn_of s st)) eqn:Ee; [done|]. injection Hs as <-.
    apply (order_inv_change s st); try done; try (by destruct s).
    assert (direction_ok (phase_of s st) (peer_sends items (conn_of s st)) (conn_of (other s) st)) as H.
    { unfold direction_ok, peer_sends in *. cbn [c_total c_recv c_eof c_sent].
      destruct (phase_of s st) as [|held|[]|[]]; try (destruct Hd as (? & ? & ?); congruence);
        try (rewrite <- Hd, <- !app_assoc; done); by apply prefix_app_r. }
    by destruct s.
  - injection Hs as <-. apply (order_inv_change s st); try done; try (by destruct s).
    assert (direction_ok (phase_of s st) (peer_ends (conn_of s st)) (conn_of (other s) st)) as H.
    { unfold direction_ok, peer_ends in *. cbn [c_total c_recv c_eof c_sent].
      destruct (phase_of s st) as [|held|[]|[]]; naive_solver. }
    by destruct s.
  - injection Hs as <-. intros s'. specialize (Hinv s'). by destruct s, s'.
Qed.

(** So does a read, whatever it returns. *)
Lemma read_step_order rp s n st l st' :
  order_inv st -> In l [Read s n; ReadEnds s; ReadFails s] -> step rp st l = Some st' -> order_inv st'.
Proof.
  intros Hinv Hl Hs. pose proof (Hinv s) as Hd. repeat destruct Hl as [<-|Hl]; try done; cbn [step] in Hs.
  - destruct (phase_of s st) eqn:Ep; try done.
    destruct (_ || _ || _ || _); [done|]. injection Hs as <-.
    apply (order_inv_change s st); try done; try (by destruct s).
    assert (direction_ok (Holding (take n (c_recv (conn_of s st)))) (take_recv n (conn_of s st))
      (conn_of (other s) st)) as H.
    { unfold direction_ok, take_recv in *. cbn [c_total c_recv]. by rewrite take_drop. }
    by destruct s.
  - destruct (phase_of s st) eqn:Ep; try done. cbn [direction_ok] in Hd.
    assert (exists clean, st' = set_phase s (Closing clean) st /\
      direction_ok (Closing clean) (conn_of s st) (conn_of (other s) st)) as (clean & -> & H).
    { destruct (c_closed (conn_of s st)).
      - injection Hs as <-. exists false. split; [done|]. cbn [direction_ok]. rewrite <- Hd. by eexists.
      - destruct (c_recv (conn_of s st)) eqn:Er, (c_eof (conn_of s st)) eqn:Ee; try done.
        injection Hs as <-. exists true. split; [done|]. cbn [direction_ok].
        by rewrite <- Hd, app_nil_r. }
    apply (order_inv_change s st); try done; by destruct s.
  - destruct (phase_of s st) eqn:Ep; try done. injection Hs as <-. cbn [direction_ok] in Hd.
    apply (order_inv_change s st); try done; try (by destruct s).
    assert (direction_ok (Closing false) (conn_of s st) (conn_of (other s) st)) as H
      by (cbn [direction_ok]; rewrite <- Hd; by eexists).
    by destruct s.
Qed.

(** And a write, even one that fails in the middle. *)
Lemma write_step_order rp s n st l st' :
  order_inv st -> In l [Written s; WritesPart s n; WriteFails s n] -> step rp st l = Some st' -> order_inv st'.
Proof.
  intros Hinv Hl Hs. pose proof (Hinv s) as Hd. repeat destruct Hl as [<-|Hl]; try done; cbn [step] in Hs.
  - destruct (phase_of s st) as [|items| |] eqn:Ep; try done.
    destruct (c_wclosed _ || _); [done|]. injection Hs as <-. cbn [direction_ok] in Hd.
    apply (order_inv_change s st); try done; try (by destruct s).
    assert (direction_ok Copying (conn_of s st) (write items (conn_of (other s) st))) as H
      by (cbn [direction_ok write c_sent]; by rewrite <- app_assoc).
    by destruct s.
  - destruct (phase_of s st) as [|items| |] eqn:Ep; try done.
    destruct (c_wclosed _ || _ || _ || _); [done|]. injection Hs as <-. cbn [direction_ok] in Hd.
    apply (order_inv_change s st); try done; try (by destruct s).
    assert (direction_ok (Holding (drop n items)) (conn_of s st) (write (take n items) (conn_of (other s) st))) as H
      by (cbn [direction_ok write c_sent]; rewrite <- Hd; by rewrite <- app_assoc, (app_assoc (take n items)), take_drop).
    by destruct s.
  - destruct (phase_of s st) as [|items| |] eqn:Ep; try done.
    destruct (_ <? _)%nat; [done|]. injection Hs as <-. cbn [direction_ok] in Hd.
    apply (order_inv_change s st); try done; try (by destruct s).
    set (written := if c_wclosed (conn_of (other s) st) then [] else take n items).
    assert (direction_ok (Closing false) (conn_of s st) (write written (conn_of (other s) st))) as H.
    { cbn [direction_ok write c_sent]. rewrite <- Hd. apply prefix_app.
      subst written. destruct (c_wclosed _); [by eexists|].
      exists (drop n items ++ c_recv (conn_of s st)). by rewrite app_assoc, take_drop. }
    by destruct s.
Qed.

Lemma step_order rp st l st' :
  policy_ok rp -> order_inv st -> step rp st l = Some st' -> order_inv st'.
Proof.
  intros (Hfin & _) Hinv Hs. destruct l as [s items|s|s k|s n|s|s|s|s k|s n|s| |].
  1: by apply (peer_step_order rp s items 0 st (PeerSends s items)); [|left|].
  1: by apply (peer_step_order rp s [] 0 st (PeerEnds s)); [|right; left|].
  1: by apply (peer_step_order rp s [] k st (PeerTakes s k)); [|do 2 right; left|].
  1: by apply (read_step_order rp s n st (Read s n)); [|left|].
  1: by apply (read_step_order rp s 0 st (ReadEnds s)); [|right; left|].
  1: by apply (read_step_order rp s 0 st (ReadFails s)); [|right; right; left|].
  1: by apply (write_step_order rp s 0 st (Written s)); [|left|].
  1: by apply (write_step_order rp s k st (WritesPart s k)); [|right; left|].
  1: by apply (write_step_order rp s n st (WriteFails s n)); [|do 2 right; left|].
  all: cbn [step] in Hs.
  - destruct (phase_of s st) as [| |clean|] eqn:Ep; try done.
    pose proof (Hinv s) as Hd. rewrite Ep in Hd. pose proof (Hfin s (conn_of s st, conn_of (other s) st)) as [H1 H2].
    destruct (rp_finish rp s (conn_of s st, conn_of (other s) st)) as [src dst].
    injection Hs as <-. cbn [fst snd] in H1, H2.
    pose proof (direction_items _ _ _ src dst H1 H2 Hd) as H.
    unfold items_of in H1, H2. injection H1 as E1 E2 E3 E4. injection H2 as F1 F2 F3 F4.
    apply (order_inv_change s st); try done; by destruct s.
  - destruct (r_joined st); [done|]. destruct (rp_joined _ _); [|done]. injection Hs as <-.
    intros s. specialize (Hinv s). by destruct s.
  - destruct (negb _); [done|]. injection Hs as <-. intros s. specialize (Hinv s). by destruct s.
Qed.

Lemma reachable_order rp st : policy_ok rp -> reachable rp st -> order_inv st.
Proof.
  intros Hok. induction 1 as [ka kb|st l st' Hr IH Hs]; [by intros []|].
  by apply (step_order rp st l).
Qed.

(** *** Nothing is lost without an error *)

(** Steps other than errors of the connections and interruptions. *)
Definition quiet (l : label) : bool :=
  match l with ReadFails _ | WriteFails _ _ | Interrupt => false | _ => true end.

Definition is_clean (p : copy_phase) : bool := match p with Done true => true | _ => false end.
Definition failed (p : copy_phase) : bool := match p with Closing false | Done false => true | _ => false end.

(** A policy that does no more to two connections with half-close than that. *)
Definition gentle (rp : relay_policy) : Prop :=
  forall s src dst, c_kind src = HalfClose -> c_kind dst = HalfClose ->
    (rp_finish rp s (src, dst)).1 = src /\
    ((rp_finish rp s (src, dst)).2 = dst \/ (rp_finish rp s (src, dst)).2 = CloseWrite dst).

Record quiet_inv (rp : relay_policy) (st : state) : Prop := mkQuiet {
  q_kind : forall s, c_kind (conn_of s st) = HalfClose;
  q_open : r_joined st = false -> forall s,
    c_closed (conn_of s st) = false /\ failed (phase_of s st) = false /\
    (c_wclosed (conn_of (other s) st) = true -> is_done (phase_of s st) = true);
  q_joined : r_joined st = true -> rp_joined rp (fun s => is_clean (phase_of s st)) = true;
}.

Ltac quiet_solve :=
  repeat match goal with s : side |- _ => destruct s end; relay_simpl; cbn [failed is_done] in *;
  destruct_and?; split_and?; auto; try congruence;
  try (intros; repeat match goal with
         | H : ?P -> _ , H' : ?P |- _ => specialize (H H')
         end; congruence).

Lemma step_quiet rp st l st' :
  (forall d d', (forall s, d s = d' s) -> rp_joined rp d = rp_joined rp d') -> gentle rp ->
  quiet_inv rp st -> r_joined st = false -> quiet l = true -> step rp st l = Some st' -> quiet_inv rp st'.
Proof.
  intros Hext Hg [Hk Ho _] Hj Hq Hs. specialize (Ho Hj).
  pose proof (Hk A) as KA. pose proof (Hk B) as KB. pose proof (Ho A) as OA. pose proof (Ho B) as OB.
  destruct l as [s items|s|s k|s n|s|s|s|s k|s n|s| |]; try done; cbn [step] in Hs.
  1-7: destruct st as [a b pa pb j]; destruct s; relay_simpl; repeat case_match; simplify_eq; bool_to_prop;
    (constructor; [intros []; relay_simpl; auto|intros _ s; quiet_solve|relay_simpl; done]).
  - destruct (phase_of s st) as [| |clean|] eqn:Ep; try done.
    assert (clean = true) as -> by (specialize (Ho s); rewrite Ep in Ho; destruct clean; naive_solver).
    destruct (Hg s (conn_of s st) (conn_of (other s) st) (Hk s) (Hk (other s))) as [H1 H2].
    destruct (rp_finish rp s (conn_of s st, conn_of (other s) st)) as [src dst]. cbn [fst snd] in H1, H2.
    subst src. injection Hs as <-.
    assert (c_kind dst = HalfClose /\ c_closed dst = c_closed (conn_of (other s) st)) as [Kd Cd].
    { destruct H2 as [-> | ->]; [by rewrite Hk|]. unfold CloseWrite. by rewrite Hk. }
    destruct st as [a b pa pb j]; destruct s; relay_simpl;
      (constructor; [intros []; relay_simpl; auto|intros _ s; quiet_solve|relay_simpl; congruence]).
  - rewrite Hj in Hs. destruct (rp_joined rp _) eqn:Er; [|done]. injection Hs as <-.
    constructor; [intros []; relay_simpl; auto|done|]. intros _. rewrite <- Er. apply Hext. intros s.
    specialize (Ho s). destruct s; relay_simpl; destruct Ho as (_ & Hf & _).
    + by destruct (r_from_a st) as [| |[]|[]].
    + by destruct (r_from_b st) as [| |[]|[]].
Qed.

(** After the relay returned, a copy that had ended stays as it is. *)
Lemma step_done rp st l st' s b :
  step rp st l = Some st' -> phase_of s st = Done b -> phase_of s st' = Done b.
Proof.
  intros Hs Hp. destruct l as [s' items|s'|s' k|s' n|s'|s'|s'|s' k|s' n|s'| |]; cbn [step] in Hs.
  all: destruct s; try destruct s'; relay_simpl; rewrite ?Hp in Hs; repeat case_match; by simplify_eq/=.
Qed.

Lemma run_quiet rp ls : forall st st',
  (forall d d', (forall s, d s = true -> d' s = true) -> rp_joined rp d = true -> rp_joined rp d' = true) ->
  gentle rp -> quiet_inv rp st -> Forall (fun l => quiet l = true) ls -> run rp st ls = Some st' ->
  r_joined st' = true -> rp_joined rp (fun s => is_clean (phase_of s st')) = true.
Proof.
  induction ls as [|l ls IH]; intros st st' Hmono Hg Hinv Hq; cbn [run].
  { intros [= <-]. apply Hinv. }
  apply Forall_cons in Hq as [Hl Hq]. destruct (step rp st l) as [st1|] eqn:Hs; [|done]. intros Hrun Hj.
  destruct (r_joined st) eqn:Ej.
  - assert (forall ls st2 st3, run rp st2 ls = Some st3 ->
      (forall s, is_clean (phase_of s st2) = true -> is_clean (phase_of s st3) = true)) as Hkeep.
    { clear. induction ls as [|l ls IH]; intros st2 st3; cbn [run]; [by intros [= <-]|].
      destruct (step rp st2 l) as [st4|] eqn:Hs; [|done]. intros Hrun s Hc. apply (IH st4 st3 Hrun).
      destruct (phase_of s st2) as [| | |b] eqn:Ep; try done. by rewrite (step_done rp st2 l st4 s b Hs Ep). }
    apply (Hmono (fun s => is_clean (phase_of s st))); [|by apply Hinv].
    apply (Hkeep (l :: ls) st st'). cbn [run]. by rewrite Hs.
  - apply (IH st1 st'); try done. apply (step_quiet rp st l); try done.
    intros d d' Hd. apply eq_true_iff_eq. split; apply Hmono; intros s; by rewrite Hd.
Qed.

Lemma start_quiet rp : quiet_inv rp (start HalfClose HalfClose).
Proof. constructor; [by intros []|intros _ []; cbn; by split_and!|done]. Qed.

(** *** Every relay ends *)

Definition phase_rank (p : copy_phase) : Z :=
  match p with
  | Holding items => 4 + Z.of_nat (List.length items)
  | Copying => 3
  | Closing _ => 2
  | Done _ => 0
  end.

(** What a connection still gives to read. *)
Definition readable (c : conn) : Z := if c_closed c then 0 else Z.of_nat (List.length (c_recv c)).

Definition left_of (c : conn) (p : copy_phase) : Z := 3 * readable c + phase_rank p.

(** An upper bound on the steps of the two goroutines and the return. *)
Definition work_left (st : state) : Z :=
  left_of (r_a st) (r_from_a st) + left_of (r_b st) (r_from_b st) + (if r_joined st then 0 else 1).

(** Steps of the relay, and not of the peers or of what watches it. *)
Definition own (l : label) : bool :=
  match l with PeerSends _ _ | PeerEnds _ | PeerTakes _ _ | Interrupt => false | _ => true end.

(** Those that the relay can take by itself: a write fails by itself only on a
    connection that is closed here, a read only at the end of its input. *)
Definition forced (st : state) (l : label) : bool :=
  match l with
  | Read _ _ | ReadEnds _ | Written _ | WritesPart _ _ | Finish _ | Join => true
  | WriteFails s _ => c_wclosed (conn_of (other s) st)
  | _ => false
  end.

(** A goroutine that waits for a peer: for input, or for room. *)
Definition awaits (s : side) (st : state) : Prop :=
  match phase_of s st with
  | Copying => c_recv (conn_of s st) = [] /\ c_eof (conn_of s st) = false /\ c_closed (conn_of s st) = false
  | Holding items => items <> [] /\ c_room (conn_of (other s) st) = 0%nat /\ c_wclosed (conn_of (other s) st) = false
  | _ => False
  end.

Definition shut (st : state) : Prop := forall s, c_closed (conn_of s st) = true /\ c_wclosed (conn_of s st) = true.

Definition sent_items (l : label) : Z := match l with PeerSends _ items => Z.of_nat (List.length items) | _ => 0 end.
Definition sent_during (ls : list label) : Z := fold_right (fun l n => sent_items l + n) 0 ls.
Definition own_steps (ls : list label) : Z := Z.of_nat (List.length (List.filter own ls)).

(** What the end of a goroutine does to connections that are closed. *)
Definition keeps_closed (rp : relay_policy) : Prop := forall s c,
  (c_closed c.1 = true -> c_closed (rp_finish rp s c).1 = true) /\
  (c_closed c.2 = true -> c_closed (rp_finish rp s c).2 = true) /\
  (c_wclosed c.1 = true -> c_wclosed (rp_finish rp s c).1 = true) /\
  (c_wclosed c.2 = true -> c_wclosed (rp_finish rp s c).2 = true).

Lemma relays_keep_closed rp : In rp relays -> keeps_closed rp.
Proof.
  assert (forall c : conn, (c_closed c = true -> c_closed (CloseWrite c) = true) /\
    (c_wclosed c = true -> c_wclosed (CloseWrite c) = true)) as Hcw
    by (intros c; unfold CloseWrite; by destruct (c_kind c)).
  intros Hin s [src dst]. destruct (Hcw dst). repeat destruct Hin as [<-|Hin]; try done;
    cbn [relay_tcp interruptible relay_copies relay_udp boundary_relay boundary_pump bridge scenario_tunnel
         rp_finish close_after close_both fst snd];
    try destruct s; try destruct (has_CloseWrite dst); cbn [fst snd]; auto.
Qed.

Lemma left_nonneg c p : 0 <= left_of c p.
Proof. unfold left_of, readable. destruct p, (c_closed c); cbn [phase_rank]; lia. Qed.

Lemma work_nonneg st : 0 <= work_left st.
Proof.
  unfold work_left. pose proof (left_nonneg (r_a st) (r_from_a st)). pose proof (left_nonneg (r_b st) (r_from_b st)).
  destruct (r_joined st); lia.
Qed.

Lemma readable_close c c' :
  c_recv c' = c_recv c -> (c_closed c = true -> c_closed c' = true) -> readable c' <= readable c.
Proof. unfold readable. intros -> H. destruct (c_closed c), (c_closed c'); try lia; by specialize (H eq_refl). Qed.

Lemma step_work rp st l st' :
  policy_ok rp -> keeps_closed rp -> step rp st l = Some st' ->
  work_left st' + (if own l then 1 else 0) <= work_left st + 3 * sent_items l.
Proof.
  intros (Hfin & _) Hkeep Hs. unfold work_left, left_of.
  destruct l as [s items|s|s k|s n|s|s|s|s k|s n|s| |]; cbn [step own sent_items] in *.
  10: { destruct (phase_of s st) as [| |clean|] eqn:Ep; try done.
    pose proof (Hfin s (conn_of s st, conn_of (other s) st)) as [H1 H2].
    pose proof (Hkeep s (conn_of s st, conn_of (other s) st)) as (K1 & K2 & _).
    destruct (rp_finish rp s (conn_of s st, conn_of (other s) st)) as [src dst].
    injection Hs as <-. unfold items_of in H1, H2. cbn [fst snd] in *.
    injection H1 as E1 E2 E3 E4. injection H2 as F1 F2 F3 F4.
    pose proof (readable_close _ src E2 K1). pose proof (readable_close _ dst F2 K2).
    destruct st as [a b pa pb j], s; relay_simpl; rewrite Ep; cbn [phase_rank]; lia. }
  all: unfold readable; destruct st as [a b pa pb j]; try destruct s; relay_simpl; repeat case_match; simplify_eq; relay_simpl;
    cbn [phase_rank]; try congruence; bool_to_prop;
    rewrite ?Nat.eqb_neq, ?Nat.ltb_ge, ?Nat.leb_gt, ?length_drop, ?List.length_app, ?length_take in *;
    repeat match goal with H : c_recv _ = [] |- _ => rewrite H end; lia.
Qed.

Lemma run_work rp ls : forall st st',
  policy_ok rp -> keeps_closed rp -> run rp st ls = Some st' ->
  own_steps ls + work_left st' <= work_left st + 3 * sent_during ls.
Proof.
  induction ls as [|l ls IH]; intros st st' Hok Hk; cbn [run]; [intros [= <-]; unfold own_steps; simpl; lia|].
  destruct (step rp st l) as [st1|] eqn:Hs; [|done]. intros Hrun.
  pose proof (step_work rp st l st1 Hok Hk Hs) as Hw. specialize (IH st1 st' Hok Hk Hrun).
  unfold own_steps, sent_during in *. cbn [List.filter fold_right]. revert Hw. destruct (own l); cbn [List.length]; lia.
Qed.

(** Connections that are closed stay closed, and what is sent to them then is not
    read. *)
Lemma step_shut rp st l st' :
  keeps_closed rp -> shut st -> step rp st l = Some st' -> shut st'.
Proof.
  intros Hkeep Hsh Hs. pose proof (Hsh A) as [A1 A2]. pose proof (Hsh B) as [B1 B2].
  destruct l as [s items|s|s k|s n|s|s|s|s k|s n|s| |]; cbn [step] in *.
  10: { destruct (phase_of s st) as [| |clean|] eqn:Ep; try done.
    pose proof (Hkeep s (conn_of s st, conn_of (other s) st)) as (K1 & K2 & K3 & K4).
    destruct (rp_finish rp s (conn_of s st, conn_of (other s) st)) as [src dst]. injection Hs as <-. cbn [fst snd] in *.
    destruct st as [a b pa pb j], s; intros []; relay_simpl; auto. }
  all: destruct st as [a b pa pb j]; try destruct s; relay_simpl; repeat case_match; simplify_eq; intros []; relay_simpl; auto.
Qed.

Lemma step_work_shut rp st l st' :
  policy_ok rp -> keeps_closed rp -> shut st -> step rp st l = Some st' ->
  work_left st' + (if own l then 1 else 0) <= work_left st.
Proof.
  intros Hok Hkeep Hsh Hs. destruct l as [s items| | | | | | | | | | |];
    try (pose proof (step_work rp st _ st' Hok Hkeep Hs) as Hw; cbn [sent_items] in Hw; lia).
  cbn [step own] in *. destruct (c_eof (conn_of s st)); [done|]. injection Hs as <-.
  destruct (Hsh A) as [A1 _], (Hsh B) as [B1 _]. unfold work_left, left_of, readable.
  destruct st as [a b pa pb j], s; relay_simpl; rewrite A1, B1; lia.
Qed.

Lemma run_shut rp ls : forall st st',
  policy_ok rp -> keeps_closed rp -> shut st -> run rp st ls = Some st' ->
  shut st' /\ own_steps ls + work_left st' <= work_left st.
Proof.
  induction ls as [|l ls IH]; intros st st' Hok Hk Hsh; cbn [run]; [intros [= <-]; unfold own_steps; simpl; split; [done|lia]|].
  destruct (step rp st l) as [st1|] eqn:Hs; [|done]. intros Hrun.
  pose proof (step_work_shut rp st l st1 Hok Hk Hsh Hs) as Hw.
  destruct (IH st1 st' Hok Hk (step_shut rp st l st1 Hk Hsh Hs) Hrun) as [Hsh' IHw]. split; [done|].
  unfold own_steps in *. cbn [List.filter]. revert Hw. destruct (own l); cbn [List.length]; lia.
Qed.

(** A goroutine that has not ended can step by itself, or waits for a peer. *)
Lemma goroutine_progress rp st s :
  is_done (phase_of s st) = false -> (exists l, forced st l = true /\ is_Some (step rp st l)) \/ awaits s st.
Proof.
  intros Hd. unfold awaits. destruct (phase_of s st) as [|items|clean|] eqn:Ep; [..|done].
  - destruct (c_closed (conn_of s st)) eqn:Ec.
    { left. exists (ReadEnds s). split; [done|]. cbn [step]. rewrite Ep, Ec. by eexists. }
    destruct (c_recv (conn_of s st)) as [|x l] eqn:Er.
    + destruct (c_eof (conn_of s st)) eqn:He; [|by right]. left. exists (ReadEnds s). split; [done|].
      cbn [step]. rewrite Ep, Ec, Er, He. by eexists.
    + left. exists (Read s 1). split; [done|]. cbn [step]. rewrite Ep, Ec, Er, andb_false_r. by eexists.
  - destruct (c_wclosed (conn_of (other s) st)) eqn:Ew.
    { left. exists (WriteFails s 0). split; [done|]. cbn [step]. rewrite Ep. by eexists. }
    destruct (c_room (conn_of (other s) st) <? List.length items)%nat eqn:El.
    + destruct (c_room (conn_of (other s) st)) as [|n] eqn:Er; [right; split_and!; [by intros ->|done|done]|].
      left. exists (WritesPart s (S n)). split; [done|]. cbn [step]. rewrite Ep, Ew, Er, Nat.ltb_irrefl.
      apply Nat.ltb_lt in El. rewrite (proj2 (Nat.leb_gt _ _)) by done. by eexists.
    + left. exists (Written s). split; [done|]. cbn [step]. rewrite Ep, Ew, El. by eexists.
  - left. exists (Finish s). split; [done|]. cbn [step]. rewrite Ep.
    destruct (rp_finish rp s _) as [src dst]. by eexists.
Qed.

Lemma relay_progress rp st :
  policy_ok rp -> r_joined st = false ->
  (exists l, forced st l = true /\ is_Some (step rp st l)) \/ exists s, awaits s st.
Proof.
  intros Hok Hj.
  destruct (is_done (phase_of A st)) eqn:EA; [|destruct (goroutine_progress rp st A EA); eauto].
  destruct (is_done (phase_of B st)) eqn:EB; [|destruct (goroutine_progress rp st B EB); eauto].
  left. exists Join. split; [done|]. cbn [step]. rewrite Hj. destruct Hok as (_ & Hjoin).
  rewrite (Hjoin (fun s => is_done (phase_of s st))) by done. by eexists.
Qed.

Lemma shut_awaits_nothing st s : shut st -> ~ awaits s st.
Proof.
  intros Hsh. unfold awaits. destruct (Hsh s) as [H1 _], (Hsh (other s)) as [_ H2].
  destruct (phase_of s st); try done; rewrite ?H1, ?H2; naive_solver.
Qed.

Lemma watched_in rp : In rp watched_relays -> In rp relays /\ rp_interrupt rp = true.
Proof. intros Hin. repeat destruct Hin as [<-|Hin]; try done; simpl; auto 10. Qed.
End Relay.

(** ** Properties *)

(** Relays keep order and invent nothing. For every relay of the source
    and in every interleaving of its two copies with the peers, what was written
    to one side is a prefix of what the other side's peer sent, byte for byte or
    datagram for datagram; and a copy that ended without an error has written
    all of it. *)
Theorem relays_keep_order {item : Type} (rp : relay_policy (item := item)) (st : state) (s : side) :
  In rp relays -> reachable rp st ->
  c_sent (conn_of (other s) st) `prefix_of` c_total (conn_of s st) /\
  (phase_of s st = Done true -> c_sent (conn_of (other s) st) = c_total (conn_of s st)).
Proof.
  intros Hrp Hr. pose proof (reachable_order rp st (relays_ok rp Hrp) Hr s) as Hd.
  split; [by apply (direction_prefix (phase_of s st))|]. intros Hp. rewrite Hp in Hd. apply Hd.
Qed.

Lemma gentle_relays {item : Type} :
  gentle (item := item) relay_tcp /\ gentle (item := item) bridge /\ gentle (item := item) boundary_relay.
Proof.
  split_and!; intros s src dst Hs Hd;
    cbn [relay_tcp interruptible relay_copies bridge boundary_relay rp_finish close_after fst snd]; try destruct s;
    unfold has_CloseWrite; rewrite ?Hd; cbn [fst snd]; auto.
Qed.

Lemma clean_delivers {item : Type} (rp : relay_policy (item := item)) ls st s :
  In rp relays -> run rp (start HalfClose HalfClose) ls = Some st -> is_clean (phase_of s st) = true ->
  c_sent (conn_of (other s) st) = c_total (conn_of s st).
Proof.
  intros Hrp Hrun Hc.
  assert (forall ls st0, reachable rp st0 -> run rp st0 ls = Some st -> reachable rp st) as Hreach.
  { clear. induction ls as [|l ls IH]; intros st0 Hr; cbn [run]; [by intros [= <-]|].
    destruct (step rp st0 l) eqn:Hs; [|done]. apply IH. by apply (reach_step rp st0 l). }
  pose proof (reachable_order rp st (relays_ok rp Hrp) (Hreach ls _ (reach_start rp _ _) Hrun) s) as Hd.
  destruct (phase_of s st) as [| | |[]]; try done. apply Hd.
Qed.

(** Claim C15: Half-close loses nothing. Between two connections that support
    half-close, and as long as no read or write fails and nothing interrupts it,
    the relay of the SDK and the bridge of the vsock forwarder return only when
    everything either peer sent has been written to the other, and the relay of
    the boundary only when everything upstream sent has been written to the
    client. *)
Theorem relays_lossless {item : Type} (ls : list (label (item := item))) (st : state) :
  Forall (fun l => quiet l = true) ls -> r_joined st = true ->
  (run relay_tcp (start HalfClose HalfClose) ls = Some st \/
   run bridge (start HalfClose HalfClose) ls = Some st ->
   c_sent (r_b st) = c_total (r_a st) /\ c_sent (r_a st) = c_total (r_b st)) /\
  (run boundary_relay (start HalfClose HalfClose) ls = Some st -> c_sent (r_a st) = c_total (r_b st)).
Proof.
  intros Hq Hj. destruct (gentle_relays (item := item)) as (G1 & G2 & G3).
  assert (forall rp : relay_policy (item := item), gentle rp -> rp_joined rp = both_done -> In rp relays ->
    run rp (start HalfClose HalfClose) ls = Some st ->
    c_sent (r_b st) = c_total (r_a st) /\ c_sent (r_a st) = c_total (r_b st)) as Hboth.
  { intros rp Hg Ejoin Hin Hrun.
    assert (rp_joined rp (fun s => is_clean (phase_of s st)) = true) as Hc.
    { apply (run_quiet rp ls (start HalfClose HalfClose)); try done; [|apply start_quiet].
      rewrite Ejoin. intros d d' Hd. unfold both_done. rewrite !andb_true_iff. intros [? ?]; auto. }
    rewrite Ejoin in Hc. apply andb_true_iff in Hc as [HA HB].
    split; [by apply (clean_delivers rp ls st A)|by apply (clean_delivers rp ls st B)]. }
  split.
  - intros [Hrun|Hrun]; [apply (Hboth relay_tcp)|apply (Hboth bridge)]; try done; simpl; auto 10.
  - intros Hrun. apply (clean_delivers boundary_relay ls st B); [simpl; auto 10|done|].
    by apply (run_quiet boundary_relay ls (start HalfClose HalfClose)); [cbn; auto|..|apply start_quiet| | |].
Qed.


(** The tunnel of the scenario boundary truncates. There is an
    execution without a read error, a write error or an interruption in which
    the client ends its request properly, upstream answers it, and the tunnel
    closes both connections with the answer unread: it waits for the first of
    its two copies only. *)
Theorem scenario_tunnel_truncates :
  exists (ls : list (label (item := Z))) (st : state),
    Forall (fun l => quiet l = true) ls /\
    run scenario_tunnel (start HalfClose HalfClose) ls = Some st /\ r_joined st = true /\
    c_sent (r_b st) = c_total (r_a st) /\ c_total (r_b st) <> [] /\ c_sent (r_a st) = [] /\
    c_closed (r_a st) = true /\ c_closed (r_b st) = true.
Proof.
  exists [PeerTakes B 2; PeerSends A [1; 2]; PeerEnds A; Read A 2; Written A; PeerSends B [3]; ReadEnds A; Finish A; Join].
  eexists. split; [by repeat constructor|]. split; [vm_compute; reflexivity|]. by vm_compute.
Qed.

(** ** Witnesses *)

(** A request and an answer, with the client's half-close between them. *)
Definition sample_labels : list (label (item := Z)) :=
  [PeerSends A [1; 2; 3]; Read A 2; PeerEnds A; PeerTakes B 1; WritesPart A 1; PeerTakes B 2; Written A; Read A 1;
   Written A; ReadEnds A; Finish A; PeerSends B [4; 5]; Read B 2; PeerEnds B; PeerTakes A 5; Written B; ReadEnds B;
   Finish B; Join].

Definition sample_state : state (item := Z) :=
  default (start HalfClose HalfClose) (run relay_tcp (start HalfClose HalfClose) sample_labels).

Lemma relays_keep_order_witness : c_sent (r_b sample_state) `prefix_of` [1; 2; 3].
Proof.
  assert (reachable relay_tcp sample_state) as Hr.
  { assert (forall ls st0 st1, reachable (item := Z) relay_tcp st0 -> run relay_tcp st0 ls = Some st1 ->
      reachable relay_tcp st1) as Hreach.
    { induction ls as [|l ls IH]; intros st0 st1 H; cbn [run]; [by intros [= <-]|].
      destruct (step relay_tcp st0 l) eqn:Hs; [|done]. apply IH. by apply (reach_step relay_tcp st0 l). }
    apply (Hreach sample_labels (start HalfClose HalfClose)); [constructor|vm_compute; reflexivity]. }
  exact (proj1 (relays_keep_order relay_tcp sample_state A ltac:(left; reflexivity) Hr)).
Defined.

Lemma relays_lossless_witness :
  c_sent (r_b sample_state) = [1; 2; 3] /\ c_sent (r_a sample_state) = [4; 5].
Proof.
  assert (Forall (fun l => quiet l = true) sample_labels) as Hq by (repeat constructor).
  assert (r_joined sample_state = true) as Hj by reflexivity.
  assert (run relay_tcp (start HalfClose HalfClose) sample_labels = Some sample_state) as Hrun by reflexivity.
  exact (proj1 (relays_lossless sample_labels sample_state Hq Hj) (or_introl Hrun)).
Defined.

(** A relay between a peer that sends and one that does not read, interrupted. *)
Definition sample_stalled : state (item := Z) :=
  mkState (mkConn HalfClose [1] [] false [] false false 0) (mkConn NoCloseWrite [] [] false [] false false 0)
    (Holding [1]) Copying false.

Definition sample_interrupted : state (item := Z) :=
  default sample_stalled (step relay_tcp sample_stalled Interrupt).

