(* ===== verification/Framing.v ===== *)
(** * Items on a byte stream

    What a copying goroutine puts on the stream of a tunnel for one item, and what
    the reader at the other end makes of the bytes that have arrived so far: the
    interface [Framing], with the two ways the source uses it. A TCP tunnel carries
    bytes as they are; a connect-udp session writes each datagram with
    [WriteDatagram] and reads with [ReadDatagram] of
    [sdk/pkg/tun2connect/capsule.go]. *)

From S2P Require Import Prelude Capsule.

Class Framing (item : Type) := {
  frame : item -> list Z;
  frame_ok : item -> Prop;
  deframe : list Z -> list item;
}.

(** The first bytes of a stream of frames give the items that are complete in
    them, and what is left is less than the next frame. *)
Class FramingLaws (item : Type) `{Framing item} := {
  deframe_prefix : forall xs b c, Forall frame_ok xs -> flat_map frame xs = b ++ c ->
    exists ys zs t, xs = ys ++ zs /\ deframe b = ys /\ b = flat_map frame ys ++ t /\
      match zs with [] => t = [] | z :: _ => (List.length t < List.length (frame z))%nat end;
}.

Section Framing.
Context {item : Type} `{FramingLaws item}.

(** A frame that is not complete gives nothing yet. *)
Lemma deframe_partial xs t x r :
  Forall frame_ok xs -> frame_ok x -> frame x = t ++ r -> r <> [] -> deframe (flat_map frame xs ++ t) = xs.
Proof.
  intros Hxs Hx Ef Hr.
  destruct (deframe_prefix (xs ++ [x]) (flat_map frame xs ++ t) r) as (ys & zs & u & E & -> & Eb & Hz).
  - apply Forall_app. by repeat constructor.
  - by rewrite flat_map_app, <- app_assoc, <- Ef; cbn; rewrite app_nil_r.
  - destruct zs as [|z zs].
    + subst u. rewrite !app_nil_r in *. subst ys. rewrite flat_map_app in Eb. apply app_inv_head in Eb. cbn in Eb.
      rewrite app_nil_r, Ef in Eb. exfalso. apply Hr. apply (app_inv_head t). by rewrite app_nil_r.
    + apply app_eq_inv in E as [(k & -> & E)|(k & -> & E)].
      * destruct k as [|w k]; [by rewrite app_nil_r|]. injection E as <- _. exfalso.
        rewrite flat_map_app in Eb. cbn in Eb. rewrite <- !app_assoc in Eb. apply app_inv_head in Eb.
        apply (f_equal (@List.length _)) in Eb. rewrite !List.length_app in Eb. lia.
      * destruct k as [|w k]; [by rewrite app_nil_r|]. by destruct k.
Qed.

Lemma deframe_all xs : Forall frame_ok xs -> deframe (flat_map frame xs) = xs.
Proof.
  intros Hxs. destruct (deframe_prefix xs (flat_map frame xs) []) as (ys & zs & t & E & -> & Eb & Hz); [done|by rewrite app_nil_r|].
  destruct zs as [|z zs]; [by rewrite app_nil_r in E|]. exfalso.
  rewrite E, flat_map_app in Eb. apply app_inv_head in Eb. cbn in Eb.
  apply (f_equal (@List.length _)) in Eb. rewrite List.length_app in Eb. lia.
Qed.
End Framing.

(** ** Bytes as they are *)

#[export] Instance byte_framing : Framing Z := {
  frame := fun b => [b]; frame_ok := fun _ => True; deframe := fun bs => bs;
}.

Lemma flat_map_bytes (xs : list Z) : flat_map frame xs = xs.
Proof. induction xs as [|x xs IH]; [done|]. change (x :: flat_map frame xs = x :: xs). by rewrite IH. Qed.

#[export] Instance byte_framing_laws : FramingLaws Z.
Proof.
  constructor. intros xs b c _. rewrite flat_map_bytes. intros ->. exists b, c, []. cbn [deframe byte_framing].
  rewrite flat_map_bytes, app_nil_r. split_and!; try done. destruct c; [done|]. cbn. lia.
Qed.

(** ** Datagrams as capsules *)

#[export] Instance datagram_framing : Framing (list Z) := {
  frame := fun p => default [] (WriteDatagram p);
  frame_ok := fun p => len p + 1 <= maxCapsulePayload;
  deframe := fun bs => fst (default ([], EmptyString) (ReadDatagrams (S (List.length bs)) (mkReader bs io_EOF)));
}.

(** *** More bytes do not change what was read *)

Lemma ReadByte_more bs e c b r : ReadByte (mkReader bs e) = Ok (b, r) ->
  ReadByte (mkReader (bs ++ c) e) = Ok (b, mkReader (r_bytes r ++ c) e) /\ r_final r = e.
Proof. unfold ReadByte. destruct bs; [done|]. by intros [= <- <-]. Qed.

Lemma readVarint_rest_more n : forall bs e c acc v r, readVarint_rest n acc (mkReader bs e) = Ok (v, r) ->
  readVarint_rest n acc (mkReader (bs ++ c) e) = Ok (v, mkReader (r_bytes r ++ c) e) /\ r_final r = e.
Proof.
  induction n as [|n IH]; intros bs e c acc v r; cbn [readVarint_rest]; [by intros [= <- <-]|].
  destruct (ReadByte (mkReader bs e)) as [[b r1]|] eqn:E; [|done].
  apply (ReadByte_more _ _ c) in E as [-> <-]. destruct r1 as [bs1 e1]. apply IH.
Qed.

Lemma readVarint_more bs e c v r : readVarint (mkReader bs e) = Ok (v, r) ->
  readVarint (mkReader (bs ++ c) e) = Ok (v, mkReader (r_bytes r ++ c) e) /\ r_final r = e.
Proof.
  unfold readVarint. destruct (ReadByte (mkReader bs e)) as [[b r1]|] eqn:E; [|done].
  apply (ReadByte_more _ _ c) in E as [-> <-]. destruct r1 as [bs1 e1]. apply readVarint_rest_more.
Qed.

Lemma ReadFull_more bs e c n p r : ReadFull (mkReader bs e) n = Ok (p, r) ->
  ReadFull (mkReader (bs ++ c) e) n = Ok (p, mkReader (r_bytes r ++ c) e) /\ r_final r = e.
Proof.
  unfold ReadFull, len. cbn [r_bytes r_final]. destruct (n <=? _) eqn:El; [|by destruct bs]. bool_to_prop.
  intros [= <- <-]. cbn [r_bytes r_final]. rewrite (proj2 (Z.leb_le _ _)) by (rewrite List.length_app; lia).
  split; [|done]. by rewrite take_app_le, drop_app_le by lia.
Qed.

Lemma readCapsule_more bs e c o r : readCapsule (mkReader bs e) = Ok (o, r) ->
  readCapsule (mkReader (bs ++ c) e) = Ok (o, mkReader (r_bytes r ++ c) e) /\ r_final r = e.
Proof.
  unfold readCapsule. destruct (readVarint (mkReader bs e)) as [[ctype r1]|] eqn:E1; [|done].
  apply (readVarint_more _ _ c) in E1 as [-> E1]. destruct r1 as [bs1 e1]. cbn [r_bytes r_final] in *. subst e1.
  destruct (readVarint (mkReader bs1 e)) as [[clen r2]|] eqn:E2; [|done].
  apply (readVarint_more _ _ c) in E2 as [-> E2]. destruct r2 as [bs2 e2]. cbn [r_bytes r_final] in *. subst e2.
  destruct (maxCapsulePayload <? clen); [done|].
  destruct (ReadFull (mkReader bs2 e) clen) as [[value r3]|] eqn:E3; [|done].
  apply (ReadFull_more _ _ c) in E3 as [-> E3].
  destruct (negb (ctype =? capsuleTypeDatagram)); [by intros [= <- <-]|].
  destruct (readVarint (mkReader value io_EOF)) as [[ctx rd]|]; [|done].
  destruct (negb (ctx =? 0)); by intros [= <- <-].
Qed.

Lemma ReadDatagram_frame p bs e : frame_ok p -> ReadDatagram (mkReader (frame p ++ bs) e) = Some (Ok (p, mkReader bs e)).
Proof.
  intros Hp. unfold ReadDatagram. cbn [ReadDatagram_loop r_bytes].
  change (frame p) with (encode (Datagram p)). by rewrite readCapsule_encode.
Qed.

(** A capsule that is not complete is an error of the reader. *)
Lemma ReadDatagram_partial p t r e : frame_ok p -> frame p = t ++ r -> r <> [] ->
  exists err, ReadDatagram (mkReader t e) = Some (Err err).
Proof.
  intros Hp Ef Hr. unfold ReadDatagram. cbn [ReadDatagram_loop r_bytes].
  destruct (readCapsule (mkReader t e)) as [[o r1]|err] eqn:Ec; [|by eexists]. exfalso.
  apply (readCapsule_more _ _ r) in Ec as [Ec _]. rewrite <- Ef, <- (app_nil_r (frame p)) in Ec.
  change (frame p) with (encode (Datagram p)) in Ec. rewrite readCapsule_encode in Ec by done.
  injection Ec as _ Hnil. symmetry in Hnil. by apply app_nil in Hnil as [_ ->].
Qed.

Lemma frame_nonempty p : frame_ok p -> (0 < List.length (frame p))%nat.
Proof. apply (encode_nonempty (Datagram p)). Qed.

Lemma ReadDatagrams_prefix fuel : forall (xs : list (list Z)) (b c : list Z) e,
  (List.length b < fuel)%nat -> Forall frame_ok xs -> flat_map (frame (item := list Z)) xs = b ++ c ->
  exists (ys zs : list (list Z)) (t : list Z) err, xs = ys ++ zs /\ ReadDatagrams fuel (mkReader b e) = Some (ys, err) /\ b = flat_map (frame (item := list Z)) ys ++ t /\
    match zs with [] => t = [] | z :: _ => (List.length t < List.length (frame (item := list Z) z))%nat end.
Proof.
  induction fuel as [|fuel IH]; intros xs b c e Hf Hxs E; [lia|]. destruct xs as [|x xs].
  { symmetry in E. apply app_nil in E as [-> ->]. by exists [], [], [], e. }
  apply Forall_cons in Hxs as [Hx Hxs]. cbn [flat_map] in E. pose proof (frame_nonempty x Hx) as Hpos. cbn [ReadDatagrams].
  assert ((exists r, frame x = b ++ r /\ r <> []) \/ exists b', b = frame x ++ b' /\ flat_map frame xs = b' ++ c)
    as [(r & Ef & Hr)|(b' & -> & E')].
  { apply app_eq_inv in E as [(k & Ef & E)|(k & -> & E)]; [|by right; exists k].
    destruct k as [|z k]; [|left; by exists (z :: k)]. right. exists []. rewrite app_nil_r in *. by split. }
  - destruct (ReadDatagram_partial x b r e Hx Ef Hr) as [err ->]. exists [], (x :: xs), b, err. split_and!; try done.
    rewrite Ef, List.length_app. destruct r; [done|]. cbn. lia.
  - rewrite ReadDatagram_frame by done. rewrite List.length_app in Hf.
    destruct (IH xs b' c e ltac:(lia) Hxs E') as (ys & zs & t & err & -> & -> & -> & Hz).
    exists (x :: ys), zs, t, err. split_and!; try done. cbn [flat_map]. by rewrite app_assoc.
Qed.

#[export] Instance datagram_framing_laws : FramingLaws (list Z).
Proof.
  constructor. intros xs b c Hxs E.
  destruct (ReadDatagrams_prefix (S (List.length b)) xs b c io_EOF ltac:(lia) Hxs E) as (ys & zs & t & err & -> & Er & -> & Hz).
  exists ys, zs, t. cbn [deframe datagram_framing]. by rewrite Er.
Qed.
