(* ===== verification/Tunnel.v ===== *)
(** * A tunnel, end to end

    Two relays with a stream between them: the relay beside the guest ([RelayTCP] or
    [RelayUDP] of [sdk/pkg/tun2connect/forwarder.go]) and the relay of the boundary
    ([relay] or [pumpUDP] of [sdk/cmd/connect-proxy/main.go]). Each relay is a state
    of [Relay]; what one writes to the stream arrives at the other in pieces of any
    size, as the bytes of [Framing]. The specification is a pair of queues. *)

From S2P Require Import Prelude Capsule Framing Relay.

(** ** The specification: two channels *)

Section Channels.
Context {item : Type}.

(** The items under way in the direction that starts at a side. *)
Definition channels : Type := side -> list item.

Definition set_channel (s : side) (q : list item) (c : channels) : channels :=
  fun s' => match s, s' with A, A | B, B => q | _, _ => c s' end.

Inductive channel_event : Type :=
| Sent (s : side) (items : list item)
| Received (s : side) (items : list item).

(** Receiving takes the oldest items; nothing is reordered, repeated or made up. *)
Inductive channel_step : channels -> channel_event -> channels -> Prop :=
| channel_sent c s items : channel_step c (Sent s items) (set_channel s (c s ++ items) c)
| channel_received c s items rest : c s = items ++ rest -> channel_step c (Received s items) (set_channel s rest c).

Inductive channel_run : channels -> list channel_event -> channels -> Prop :=
| channel_done c c' : (forall s, c s = c' s) -> channel_run c [] c'
| channel_next c e c1 es c' : channel_step c e c1 -> channel_run c1 es c' -> channel_run c (e :: es) c'.

Definition empty_channels : channels := fun _ => [].

(** All that was sent, and received, in a direction. *)
Definition sent_in (s : side) (es : list channel_event) : list item :=
  flat_map (fun e => match e, s with Sent A items, A | Sent B items, B => items | _, _ => [] end) es.
Definition received_in (s : side) (es : list channel_event) : list item :=
  flat_map (fun e => match e, s with Received A items, A | Received B items, B => items | _, _ => [] end) es.

(** Channels are functions: runs respect their equality at every side. *)
Lemma channel_step_ext c1 c2 e c1' : (forall s, c1 s = c2 s) -> channel_step c1 e c1' ->
  exists c2', channel_step c2 e c2' /\ forall s, c1' s = c2' s.
Proof.
  intros E Hs. destruct Hs as [c s items|c s items rest Hq].
  - eexists. split; [apply channel_sent|]. intros []; destruct s; cbn; by rewrite E.
  - eexists. split; [apply (channel_received _ _ _ rest); by rewrite <- E|]. intros []; destruct s; cbn; by rewrite ?E.
Qed.

#[local] Instance channel_run_proper es :
  Proper (pointwise_relation side eq ==> pointwise_relation side eq ==> impl) (fun c c' => channel_run c es c').
Proof.
  intros c1 c2 E1 c1' c2' E2 Hr. revert c2 E1 E2.
  induction Hr as [c c' Hc|c e c1 es c' Hs Hr IH]; intros c2 E1 E2.
  - apply channel_done. intros s. by rewrite <- E1, Hc.
  - destruct (channel_step_ext c c2 e c1 E1 Hs) as (c3 & Hs' & E3). by apply (channel_next _ _ c3); [|apply IH].
Qed.

Lemma channel_run_app c es c1 es' c2 : channel_run c es c1 -> channel_run c1 es' c2 -> channel_run c (es ++ es') c2.
Proof.
  induction 1 as [c c' Hc|c e c1' es c' Hs Hr IH]; intros He; [|by apply (channel_next _ _ c1'); [|apply IH]].
  by apply (channel_run_proper es' c' c (fun s => eq_sym (Hc s)) c2 c2).
Qed.

Lemma sent_in_cons s e es : sent_in s (e :: es) = sent_in s [e] ++ sent_in s es.
Proof. apply (flat_map_app _ [e] es). Qed.

Lemma received_in_cons s e es : received_in s (e :: es) = received_in s [e] ++ received_in s es.
Proof. apply (flat_map_app _ [e] es). Qed.

(** What a channel run means for the two ends. *)
Lemma channel_run_queue c es c' s : channel_run c es c' -> c s ++ sent_in s es = received_in s es ++ c' s.
Proof.
  induction 1 as [c c' Hc|c e c1 es c' Hs Hr IH]; [by cbn; rewrite Hc, app_nil_r|].
  rewrite sent_in_cons, received_in_cons, <- app_assoc, <- IH, !app_assoc. f_equal.
  destruct Hs as [c s' items|c s' items rest Hq]; destruct s, s'; cbn; rewrite ?app_nil_r, ?Hq; done.
Qed.
End Channels.

(** ** The composition *)

(** One direction of the stream: all the bytes written to it, and how many have
    arrived. *)
Record wire := mkWire { w_sent : list Z; w_arrived : nat }.

Section Tunnel.
Context {item : Type} `{FramingLaws item}.

(** The relay of side [A] has the guest on its side [A] and the stream on [B];
    the relay of side [B], the boundary's, has the stream on [A] and upstream on
    [B]. The wire of a side carries what its relay writes to the stream. *)
Record tunnel := mkTunnel {
  t_near : state (item := item); t_far : state (item := item); t_up : wire; t_down : wire;
}.

Definition relay_of (s : side) (t : tunnel) : state := match s with A => t_near t | B => t_far t end.
Definition wire_of (s : side) (t : tunnel) : wire := match s with A => t_up t | B => t_down t end.

Definition set_relay (s : side) (st : state) (t : tunnel) : tunnel :=
  match s with
  | A => mkTunnel st (t_far t) (t_up t) (t_down t)
  | B => mkTunnel (t_near t) st (t_up t) (t_down t)
  end.
Definition set_wire (s : side) (w : wire) (t : tunnel) : tunnel :=
  match s with
  | A => mkTunnel (t_near t) (t_far t) w (t_down t)
  | B => mkTunnel (t_near t) (t_far t) (t_up t) w
  end.

Variable rp : side -> relay_policy (item := item).

(** [Local s l partial]: a step of the relay of [s], or of its outer peer, or room
    that the stream makes; a write to the stream that fails may leave the first [partial] bytes of the next
    frame. [Arrive]: bytes of a wire reach the relay at the other end.
    [ArriveEnd]: so does its end. *)
Inductive tunnel_label : Type :=
| Local (s : side) (l : label (item := item)) (partial : nat)
| Arrive (s : side) (n : nat)
| ArriveEnd (s : side).

(** The next frame of a failed write, of which a part may have been written. *)
Definition next_frame (s : side) (n : nat) (st : state (item := item)) : list Z :=
  match phase_of s st with
  | Holding items => if c_wclosed (conn_of (other s) st) then [] else from_option frame [] (head (drop n items))
  | _ => []
  end.

(** The bytes that a step of the relay of [s] puts on the stream. *)
Definition on_wire (s : side) (l : label (item := item)) (partial : nat) (st : state) : list Z :=
  match l, s with
  | Written A, A | Written B, B =>
      match phase_of s st with Holding items => flat_map frame items | _ => [] end
  | WritesPart A n, A | WritesPart B n, B =>
      match phase_of s st with Holding items => flat_map frame (take n items) | _ => [] end
  | WriteFails A n, A | WriteFails B n, B =>
      match phase_of s st with
      | Holding items => (if c_wclosed (conn_of (other s) st) then [] else flat_map frame (take n items)) ++
                         take partial (next_frame s n st)
      | _ => []
      end
  | _, _ => []
  end.

(** The peers on the stream are the wires; the outer peer sends proper items. *)
Definition local_ok (s : side) (l : label (item := item)) (partial : nat) (st : state (item := item)) : Prop :=
  match l with
  | PeerSends s' items => s' = s /\ Forall frame_ok items
  | PeerEnds s' => s' = s
  | WriteFails s' n => s' = s -> partial = 0%nat \/ (partial < List.length (next_frame s n st))%nat
  | _ => True
  end.

Inductive tunnel_step : tunnel -> tunnel_label -> tunnel -> Prop :=
| step_local t s l partial st :
    local_ok s l partial (relay_of s t) -> step (rp s) (relay_of s t) l = Some st ->
    tunnel_step t (Local s l partial)
      (set_wire s (mkWire (w_sent (wire_of s t) ++ on_wire s l partial (relay_of s t)) (w_arrived (wire_of s t)))
         (set_relay s st t))
| step_arrive t s n st :
    let w := wire_of s t in
    let c := conn_of s (relay_of (other s) t) in
    (w_arrived w + n <= List.length (w_sent w))%nat ->
    step (rp (other s)) (relay_of (other s) t)
      (PeerSends s (drop (List.length (c_total c)) (deframe (take (w_arrived w + n) (w_sent w))))) = Some st ->
    tunnel_step t (Arrive s n) (set_wire s (mkWire (w_sent w) (w_arrived w + n)) (set_relay (other s) st t))
| step_end t s st :
    c_wclosed (conn_of (other s) (relay_of s t)) = true ->
    w_arrived (wire_of s t) = List.length (w_sent (wire_of s t)) ->
    step (rp (other s)) (relay_of (other s) t) (PeerEnds s) = Some st ->
    tunnel_step t (ArriveEnd s) (set_relay (other s) st t).

Definition tunnel_start (kn1 kn2 kf1 kf2 : close_write) : tunnel :=
  mkTunnel (start kn1 kn2) (start kf1 kf2) (mkWire [] 0) (mkWire [] 0).

(** What the two outer peers see: the items of direction [s] enter at the relay
    of [s] and are written out by the relay of [other s]. *)
Definition observed (l : label (item := item)) (s : side) (st : state (item := item)) : list (channel_event (item := item)) :=
  match l with
  | PeerSends s' items => [Sent s items]
  | Written s' | WritesPart s' _ | WriteFails s' _ =>
      match s, s' with
      | A, B | B, A =>
          [Received (other s)
             match phase_of s' st, l with
             | Holding items, Written _ => items
             | Holding items, WritesPart _ n => take n items
             | Holding items, WriteFails _ n => if c_wclosed (conn_of s st) then [] else take n items
             | _, _ => []
             end]
      | _, _ => []
      end
  | _ => []
  end.

Definition observe (t : tunnel) (l : tunnel_label) : list (channel_event (item := item)) :=
  match l with Local s l _ => observed l s (relay_of s t) | _ => [] end.

(** The executions, with what the outer peers have seen. *)
Inductive tunnel_runs : list (channel_event (item := item)) -> tunnel -> Prop :=
| runs_start kn1 kn2 kf1 kf2 : tunnel_runs [] (tunnel_start kn1 kn2 kf1 kf2)
| runs_step es t l t' : tunnel_runs es t -> tunnel_step t l t' -> tunnel_runs (es ++ observe t l) t'.

(** ** Lemmas *)

(** What one step of a relay adds to the items of each connection. *)
Definition taken_in (s : side) (l : label (item := item)) : list item :=
  match l, s with PeerSends A items, A | PeerSends B items, B => items | _, _ => [] end.

Definition put_out (s : side) (st : state (item := item)) (l : label (item := item)) : list item :=
  let written s' := match phase_of s' st, l with
                    | Holding items, Written _ => items
                    | Holding items, WritesPart _ n => take n items
                    | Holding items, WriteFails _ n => if c_wclosed (conn_of s st) then [] else take n items
                    | _, _ => []
                    end in
  match l, s with
  | Written A, B | WritesPart A _, B | WriteFails A _, B => written A
  | Written B, A | WritesPart B _, A | WriteFails B _, A => written B
  | _, _ => []
  end.

Lemma step_adds p st l st' s :
  policy_ok p -> step p st l = Some st' ->
  c_total (conn_of s st') = c_total (conn_of s st) ++ taken_in s l /\
  c_sent (conn_of s st') = c_sent (conn_of s st) ++ put_out s st l.
Proof.
  intros [Hfin _] Hs. destruct l as [s' items|s'|s' k|s' n|s'|s'|s'|s' k|s' n|s'| |]; cbn [step] in Hs.
  10: { destruct (phase_of s' st) as [| |clean|]; try done.
       destruct (Hfin s' (conn_of s' st, conn_of (other s') st)) as [H1 H2].
       destruct (rp_finish p s' (conn_of s' st, conn_of (other s') st)) as [src dst]. injection Hs as <-.
       unfold items_of in H1, H2. injection H1 as E1 _ _ E4. injection H2 as F1 _ _ F4.
       destruct s, s'; cbn in *; by rewrite ?app_nil_r. }
  all: destruct st as [a b pa pb j]; destruct s; try destruct s'; cbn in *; repeat case_match; simplify_eq/=;
    by rewrite ?app_nil_r.
Qed.

Lemma step_failed p st l st' s :
  step (item := item) p st l = Some st' -> failed (item := item) (phase_of s st) = true -> failed (item := item) (phase_of s st') = true.
Proof.
  intros Hs Hf. destruct l as [s' items|s'|s' k|s' n|s'|s'|s'|s' k|s' n|s'| |]; cbn [step] in Hs.
  10: { destruct (phase_of s' st) as [| |clean|] eqn:Ep; try done.
       destruct (rp_finish p s' (conn_of s' st, conn_of (other s') st)) as [src dst]. injection Hs as <-.
       destruct s, s'; cbn in *; rewrite ?Ep in Hf; by destruct clean. }
  all: destruct st as [a b pa pb j]; destruct s; try destruct s'; cbn in *; repeat case_match; simplify_eq/=; done.
Qed.

Lemma put_out_failed (st : state (item := item)) l s : failed (phase_of s st) = true -> put_out (other s) st l = [].
Proof.
  destruct st as [a b pa pb j]. intros Hf. destruct l as [s'| | | | | |s'|s' k|s' n| | |]; try (by destruct s);
    destruct s, s'; cbn in *; try done; by destruct pa, pb.
Qed.

(** What goes on the wire is what goes to the stream, and a part of a frame. *)
Definition torn (s : side) (l : label (item := item)) (partial : nat) (st : state (item := item)) : list Z :=
  match l, s with
  | WriteFails A n, A | WriteFails B n, B => take partial (next_frame s n st)
  | _, _ => []
  end.

Lemma on_wire_put_out s l partial st :
  on_wire s l partial st = flat_map frame (put_out (other s) st l) ++ torn s l partial st.
Proof.
  destruct l as [s'| | | | | |s'|s' k|s' n| | |]; try (by destruct s); destruct s, s'; try done; cbn; unfold next_frame; cbn.
  1-4: destruct (r_from_a st), (r_from_b st); by rewrite ?app_nil_r.
  - destruct (r_from_a st) as [|items| |]; rewrite ?take_nil; try done. by destruct (c_wclosed (r_b st)).
  - destruct (r_from_b st) as [|items| |]; rewrite ?take_nil; try done. by destruct (c_wclosed (r_a st)).
Qed.

(** The state of one direction: the items written to the stream are on its wire,
    followed by at most a part of one more frame, after a failed write; and what
    the other relay received is what the bytes that arrived give. *)
Record dir_inv (s : side) (t : tunnel) : Prop := mkDir {
  di_ok : Forall frame_ok (c_total (conn_of s (relay_of s t)));
  di_wire : exists tail, w_sent (wire_of s t) = flat_map frame (c_sent (conn_of (other s) (relay_of s t))) ++ tail /\
    (tail = [] \/ failed (phase_of s (relay_of s t)) = true /\
     exists x r, frame_ok x /\ frame x = tail ++ r /\ r <> []);
  di_arrived : (w_arrived (wire_of s t) <= List.length (w_sent (wire_of s t)))%nat;
  di_items : c_total (conn_of s (relay_of (other s) t)) = deframe (take (w_arrived (wire_of s t)) (w_sent (wire_of s t)));
}.

Lemma dir_frames s t : dir_inv s t -> order_inv (relay_of s t) ->
  exists xs r, Forall frame_ok xs /\ flat_map frame xs = w_sent (wire_of s t) ++ r /\
    (xs = c_sent (conn_of (other s) (relay_of s t)) /\ r = [] \/
     exists x, xs = c_sent (conn_of (other s) (relay_of s t)) ++ [x] /\ r <> []).
Proof.
  intros [Hok (tail & Hw & Ht) _ _] Hord.
  assert (Forall frame_ok (c_sent (conn_of (other s) (relay_of s t)))) as Hsent.
  { destruct (direction_prefix _ _ _ (Hord s)) as [k Hk]. rewrite Hk in Hok. by apply Forall_app in Hok as [? _]. }
  destruct Ht as [->|(_ & x & r & Hx & Ef & Hr)].
  - exists (c_sent (conn_of (other s) (relay_of s t))), []. rewrite Hw, !app_nil_r. auto.
  - exists (c_sent (conn_of (other s) (relay_of s t)) ++ [x]), r. split_and!.
    + apply Forall_app. by repeat constructor.
    + rewrite flat_map_app. cbn. by rewrite app_nil_r, Ef, Hw, <- !app_assoc.
    + right. by exists x.
Qed.

(** Bytes that have arrived give items that were written, and more bytes more. *)
Lemma deframe_arrived s t n : dir_inv s t -> order_inv (relay_of s t) ->
  deframe (take n (w_sent (wire_of s t))) `prefix_of` c_sent (conn_of (other s) (relay_of s t)).
Proof.
  intros Hd Ho. destruct (dir_frames s t Hd Ho) as (xs & r & Hxs & E & Hcase).
  destruct (deframe_prefix xs (take n (w_sent (wire_of s t))) (drop n (w_sent (wire_of s t)) ++ r))
    as (ys & zs & u & Exs & -> & Eb & Hz); [done|by rewrite app_assoc, take_drop|].
  destruct Hcase as [(<- & _)|(x & Ex & Hr)]; [rewrite Exs; by eexists|].
  destruct zs as [|z zs _] using rev_ind.
  - exfalso. rewrite app_nil_r in Exs. subst u ys. rewrite app_nil_r in Eb.
    apply (f_equal (@List.length _)) in E, Eb. rewrite List.length_app in E. rewrite length_take in Eb.
    destruct r; [done|]. cbn in E. lia.
  - rewrite Exs, app_assoc in Ex. apply app_inj_tail in Ex as [<- _]. by eexists.
Qed.

Lemma deframe_more s t m n : dir_inv s t -> order_inv (relay_of s t) ->
  deframe (take m (w_sent (wire_of s t))) `prefix_of` deframe (take (m + n) (w_sent (wire_of s t))).
Proof.
  intros Hd Ho. destruct (dir_frames s t Hd Ho) as (xs & r & Hxs & E & _).
  destruct (deframe_prefix xs (take m (w_sent (wire_of s t))) (drop m (w_sent (wire_of s t)) ++ r))
    as (ys & zs & u & E1 & -> & B1 & _); [done|by rewrite app_assoc, take_drop|].
  destruct (deframe_prefix xs (take (m + n) (w_sent (wire_of s t))) (drop (m + n) (w_sent (wire_of s t)) ++ r))
    as (ys' & zs' & u' & E2 & -> & B2 & Hz); [done|by rewrite app_assoc, take_drop|].
  rewrite E1 in E2. apply app_eq_inv in E2 as [(k & -> & E2)|(k & -> & _)]; [|by eexists].
  destruct k as [|z k]; [by rewrite app_nil_r|]. subst zs'. exfalso. cbn in Hz.
  rewrite flat_map_app in B1. cbn in B1. apply (f_equal (@List.length _)) in B1, B2.
  rewrite length_take in B1, B2. rewrite !List.length_app in B1. rewrite List.length_app in B2. lia.
Qed.

Record tunnel_inv (t : tunnel) : Prop := mkTunnelInv {
  ti_order : forall s, order_inv (relay_of s t);
  ti_dir : forall s, dir_inv s t;
}.

Lemma set_relay_wire s st w t s' :
  relay_of s (set_wire s' w (set_relay s st t)) = st /\
  relay_of (other s) (set_wire s' w (set_relay s st t)) = relay_of (other s) t /\
  wire_of s' (set_wire s' w (set_relay s st t)) = w /\
  wire_of (other s') (set_wire s' w (set_relay s st t)) = wire_of (other s') t.
Proof. by destruct s, s'. Qed.

Lemma other_other s : other (other s) = s.
Proof. by destruct s. Qed.

Context (Hrp : forall s, policy_ok (rp s)).

(** A step of the relay of [s] in the direction that starts there. *)
Lemma local_dir s l partial st t :
  tunnel_inv t -> local_ok s l partial (relay_of s t) -> step (rp s) (relay_of s t) l = Some st ->
  dir_inv s (set_wire s (mkWire (w_sent (wire_of s t) ++ on_wire s l partial (relay_of s t)) (w_arrived (wire_of s t)))
               (set_relay s st t)).
Proof.
  intros [Ho Hd] Hl Hs. destruct (set_relay_wire s st
    (mkWire (w_sent (wire_of s t) ++ on_wire s l partial (relay_of s t)) (w_arrived (wire_of s t))) t s) as (E1 & E2 & E3 & _).
  destruct (step_adds _ _ _ _ s (Hrp s) Hs) as [Ht _]. destruct (step_adds _ _ _ _ (other s) (Hrp s) Hs) as [_ Hput].
  destruct (Hd s) as [Hok (tail & Hw & Htail) Harr Hitems].
  constructor; rewrite ?E1, ?E2, ?E3; cbn [w_sent w_arrived].
  - rewrite Ht. apply Forall_app. split; [done|]. destruct l as [s' items| | | | | | | | | | |]; try (by destruct s).
    destruct Hl as [-> Hitem]. by destruct s.
  - rewrite on_wire_put_out, Hput, flat_map_app.
    destruct Htail as [->|(Hf & Hx)].
    + exists (torn s l partial (relay_of s t)). rewrite Hw, app_nil_r, app_assoc. split; [done|].
      destruct (torn s l partial (relay_of s t)) as [|b bs] eqn:Et; [by left|right].
      destruct l as [s' items|s'|s' k|s' n|s'|s'|s'|s' k|s' n|s'| |]; try (by destruct s).
      assert (s' = s) as -> by (by destruct s, s'). assert (torn s (WriteFails s n) partial (relay_of s t) =
        take partial (next_frame s n (relay_of s t))) as Etorn by (by destruct s). rewrite Etorn in Et. clear Etorn.
      destruct (Hl eq_refl) as [->|Hp]; [done|]. unfold next_frame in *. cbn [step] in Hs.
      pose proof (Ho s s) as Hord. destruct (phase_of s (relay_of s t)) as [|items| |] eqn:Ep; try done.
      destruct (_ <? _)%nat; [done|]. injection Hs as <-. split; [by destruct s|]. destruct (c_wclosed _); [by rewrite take_nil in Et|].
      destruct (drop n items) as [|x rest] eqn:Ex; [cbn in Hp; lia|]. cbn in Et, Hp.
      exists x, (drop partial (frame x)). split_and!.
      * cbn [direction_ok] in Hord. rewrite <- Hord, <- (take_drop n items), Ex in Hok.
        repeat rewrite Forall_app in Hok. by destruct Hok as (_ & (_ & Hx%Forall_inv) & _).
      * by rewrite <- Et, take_drop.
      * intros E0. apply (f_equal (@List.length _)) in E0. rewrite length_drop in E0. cbn in E0. lia.
    + rewrite (put_out_failed _ l s Hf). assert (torn s l partial (relay_of s t) = []) as ->.
      { destruct l as [| | | | | | | |s' n| | |]; try done. unfold torn, next_frame. destruct s, s'; try done;
          destruct (phase_of _ (relay_of _ t)); try done; by rewrite take_nil. }
      exists tail. cbn. rewrite !app_nil_r. split; [done|]. right. split; [by apply (step_failed (rp s) (relay_of s t) l)|done].
  - rewrite List.length_app. lia.
  - by rewrite Hitems, take_app_le.
Qed.

(** And in the direction that ends there. *)
Lemma local_other_dir s l partial st t w :
  tunnel_inv t -> local_ok s l partial (relay_of s t) -> step (rp s) (relay_of s t) l = Some st ->
  dir_inv (other s) (set_wire s w (set_relay s st t)).
Proof.
  intros [Ho Hd] Hl Hs. destruct (set_relay_wire s st w t s) as (E1 & E2 & _ & E4).
  destruct (Hd (other s)) as [Hok Hw Harr Hitems]. rewrite other_other in *.
  constructor; rewrite ?other_other, ?E1, ?E2, ?E4; try done. rewrite <- Hitems.
  destruct (step_adds _ _ _ _ (other s) (Hrp s) Hs) as [-> _].
  destruct l as [s' items| | | | | | | | | | |]; try (by rewrite app_nil_r). destruct Hl as [-> _].
  destruct s; by rewrite app_nil_r.
Qed.

(** What the stream gives the relay at its other end. *)
Definition stream_gives (s : side) (l : label (item := item)) : Prop :=
  l = PeerEnds s \/ exists items, l = PeerSends s items.

Lemma fed_other_dir s l st t w :
  stream_gives s l -> dir_inv (other s) t -> step (rp (other s)) (relay_of (other s) t) l = Some st ->
  dir_inv (other s) (set_wire s w (set_relay (other s) st t)).
Proof.
  intros Hl [Hok (tail & Hw & Htail) Harr Hitems] Hs.
  destruct (step_adds _ _ _ _ s (Hrp (other s)) Hs) as [_ Hp].
  destruct (step_adds _ _ _ _ (other s) (Hrp (other s)) Hs) as [Ht _].
  destruct (set_relay_wire (other s) st w t s) as (E1 & E2 & _ & E4).
  rewrite other_other in *. constructor; rewrite ?other_other, ?E1, ?E2, ?E4; try done.
  - rewrite Ht. destruct Hl as [->|[items ->]]; destruct s; by rewrite app_nil_r.
  - rewrite Hp. replace (put_out s _ _) with (@nil item) by (by destruct Hl as [->|[items ->]]; destruct s).
    rewrite app_nil_r. exists tail. split; [done|]. destruct Htail as [?|[Hf ?]]; [by left|right].
    split; [|done]. by apply (step_failed _ _ _ _ _ Hs).
Qed.

Lemma fed_dir s l st t n :
  dir_inv s t -> step (rp (other s)) (relay_of (other s) t) l = Some st ->
  (w_arrived (wire_of s t) + n <= List.length (w_sent (wire_of s t)))%nat ->
  c_total (conn_of s (relay_of (other s) t)) ++ taken_in s l =
    deframe (take (w_arrived (wire_of s t) + n) (w_sent (wire_of s t))) ->
  dir_inv s (set_wire s (mkWire (w_sent (wire_of s t)) (w_arrived (wire_of s t) + n)) (set_relay (other s) st t)).
Proof.
  intros [Hok Hw Harr Hitems] Hs Hn E. destruct (step_adds _ _ _ _ s (Hrp (other s)) Hs) as [Ht _].
  destruct (set_relay_wire (other s) st (mkWire (w_sent (wire_of s t)) (w_arrived (wire_of s t) + n)) t s) as (E1 & E2 & E3 & _).
  rewrite other_other in E2. constructor; rewrite ?E1, ?E2, ?E3; cbn [w_sent w_arrived]; try done. by rewrite Ht.
Qed.

Lemma fed_inv s l st t n :
  tunnel_inv t -> stream_gives s l -> step (rp (other s)) (relay_of (other s) t) l = Some st ->
  (w_arrived (wire_of s t) + n <= List.length (w_sent (wire_of s t)))%nat ->
  c_total (conn_of s (relay_of (other s) t)) ++ taken_in s l =
    deframe (take (w_arrived (wire_of s t) + n) (w_sent (wire_of s t))) ->
  tunnel_inv (set_wire s (mkWire (w_sent (wire_of s t)) (w_arrived (wire_of s t) + n)) (set_relay (other s) st t)).
Proof.
  intros Hinv Hl Hs Hn E. pose proof (step_order _ _ _ _ (Hrp (other s)) (ti_order t Hinv (other s)) Hs) as Hord.
  destruct (set_relay_wire (other s) st (mkWire (w_sent (wire_of s t)) (w_arrived (wire_of s t) + n)) t s) as (E1 & E2 & _).
  rewrite other_other in E2.
  constructor; intros s'; assert (s' = s \/ s' = other s) as [->| ->] by (destruct s, s'; auto).
  - rewrite E2. apply Hinv.
  - by rewrite E1.
  - apply (fed_dir s l); try done. apply Hinv.
  - apply (fed_other_dir s l); try done. apply Hinv.
Qed.

Lemma tunnel_step_inv t l t' : tunnel_inv t -> tunnel_step t l t' -> tunnel_inv t'.
Proof.
  intros Hinv Hs. destruct Hs as [t s l partial st Hl Hs|t s n st w c Hn Hs|t s st Hc Hn Hs].
  - pose proof (step_order _ _ _ _ (Hrp s) (ti_order t Hinv s) Hs) as Hord.
    destruct (set_relay_wire s st (mkWire (w_sent (wire_of s t) ++ on_wire s l partial (relay_of s t))
      (w_arrived (wire_of s t))) t s) as (E1 & E2 & _).
    constructor; intros s'; assert (s' = s \/ s' = other s) as [->| ->] by (destruct s, s'; auto).
    + by rewrite E1.
    + rewrite E2. apply Hinv.
    + by apply local_dir.
    + by apply (local_other_dir s l partial).
  - eapply fed_inv; [done|by right; eexists|done..|].
    pose proof (deframe_more s t (w_arrived w) n (ti_dir t Hinv s) (ti_order t Hinv s)) as [k Hk].
    pose proof (di_items s t (ti_dir t Hinv s)) as Hitems. fold w in Hk, Hitems |- *. fold c in Hitems |- *.
    rewrite Hk, <- Hitems, drop_app_length. by destruct s.
  - replace (set_relay (other s) st t) with
      (set_wire s (mkWire (w_sent (wire_of s t)) (w_arrived (wire_of s t) + 0)) (set_relay (other s) st t)).
    2: { rewrite Nat.add_0_r. destruct t as [? ? [] []], s; done. }
    eapply fed_inv; [done|by left|done|lia|].
    rewrite Nat.add_0_r, (di_items s t (ti_dir t Hinv s)). destruct s; by rewrite app_nil_r.
Qed.

(** ** Refinement *)

(** The items of a direction that the outer peer has sent and not been given. *)
Definition under_way (t : tunnel) : channels := fun s =>
  drop (List.length (c_sent (conn_of (other s) (relay_of (other s) t)))) (c_total (conn_of s (relay_of s t))).

Lemma out_prefix t s : tunnel_inv t ->
  c_sent (conn_of (other s) (relay_of (other s) t)) `prefix_of` c_total (conn_of s (relay_of s t)).
Proof.
  intros Hinv. transitivity (c_total (conn_of s (relay_of (other s) t))).
  - apply (direction_prefix (phase_of s (relay_of (other s) t))). apply (ti_order t Hinv (other s) s).
  - rewrite (di_items s t (ti_dir t Hinv s)). transitivity (c_sent (conn_of (other s) (relay_of s t))).
    + apply deframe_arrived; apply Hinv.
    + apply (direction_prefix (phase_of s (relay_of s t))). apply (ti_order t Hinv s s).
Qed.

Lemma under_way_split t s : tunnel_inv t ->
  c_total (conn_of s (relay_of s t)) = c_sent (conn_of (other s) (relay_of (other s) t)) ++ under_way t s.
Proof. intros Hinv. destruct (out_prefix t s Hinv) as [k Hk]. unfold under_way. by rewrite Hk, drop_app_length. Qed.

(** A step that the outer peers do not see. *)
Lemma under_way_same t t' : (forall s, c_sent (conn_of s (relay_of s t')) = c_sent (conn_of s (relay_of s t)) /\
    c_total (conn_of s (relay_of s t')) = c_total (conn_of s (relay_of s t))) ->
  forall s, under_way t s = under_way t' s.
Proof. intros E s. unfold under_way. destruct (E s) as [_ ->], (E (other s)) as [-> _]. done. Qed.

Lemma fed_unseen s l st t w :
  stream_gives s l -> step (rp (other s)) (relay_of (other s) t) l = Some st ->
  forall s', under_way t s' = under_way (set_wire s w (set_relay (other s) st t)) s'.
Proof.
  intros Hl Hs. apply under_way_same. intros s'. destruct (set_relay_wire (other s) st w t s) as (E1 & E2 & _).
  rewrite other_other in E2. assert (s' = s \/ s' = other s) as [->| ->] by (destruct s, s'; auto); [by rewrite E2|].
  rewrite E1. destruct (step_adds _ _ _ _ (other s) (Hrp (other s)) Hs) as [-> ->].
  destruct Hl as [->|[items ->]]; destruct s; by rewrite !app_nil_r.
Qed.

(** What the outer peers see of a local step is what it adds. *)
Inductive seen (s : side) (l : label (item := item)) (st : state (item := item)) : list channel_event -> Prop :=
| seen_sent items : put_out s st l = [] -> taken_in s l = items -> seen s l st [Sent s items]
| seen_received items : put_out s st l = items -> taken_in s l = [] -> seen s l st [Received (other s) items]
| seen_nothing : put_out s st l = [] -> taken_in s l = [] -> seen s l st [].

Lemma observed_adds l s partial st : local_ok s l partial st -> seen s l st (observed l s st).
Proof.
  intros Hl. destruct l as [s' items|s'|s' k|s' n|s'|s'|s'|s' k|s' n|s'| |]; try (by destruct s; constructor).
  - destruct Hl as [-> _]. destruct s; by constructor.
  - destruct s, s'; by constructor.
  - destruct s, s'; by constructor.
  - destruct s, s'; by constructor.
Qed.

Lemma local_simulated s l partial st t w :
  let t' := set_wire s w (set_relay s st t) in
  tunnel_inv t -> tunnel_inv t' -> local_ok s l partial (relay_of s t) -> step (rp s) (relay_of s t) l = Some st ->
  exists c, channel_run (under_way t) (observed l s (relay_of s t)) c /\ forall s', c s' = under_way t' s'.
Proof.
  intros t' Hinv Hinv' Hl Hs. destruct (set_relay_wire s st w t s) as (E1 & E2 & _). fold t' in E1, E2.
  destruct (step_adds _ _ _ _ s (Hrp s) Hs) as [Ht Hp].
  pose proof (under_way_split t s Hinv) as U1. pose proof (under_way_split t (other s) Hinv) as U2.
  pose proof (under_way_split t' s Hinv') as V1. pose proof (under_way_split t' (other s) Hinv') as V2.
  rewrite other_other, ?E1, ?E2 in *. rewrite Ht, U1, <- app_assoc in V1. apply app_inv_head in V1.
  rewrite Hp, U2, <- app_assoc in V2. apply app_inv_head in V2.
  destruct (observed_adds l s partial (relay_of s t) Hl) as [items Hput Htake|items Hput Htake|Hput Htake];
    rewrite Hput, Htake, ?app_nil_r in *.
  - eexists. split; [eapply channel_next; [apply channel_sent|by apply channel_done]|].
    intros s'. destruct s, s'; cbn [set_channel other app] in *; congruence.
  - eexists. split; [eapply channel_next; [apply (channel_received _ _ _ (under_way t' (other s))); congruence|by apply channel_done]|].
    intros s'. destruct s, s'; cbn [set_channel other app] in *; congruence.
  - exists (under_way t). split; [by apply channel_done|]. intros s'. destruct s, s'; cbn [other app] in *; congruence.
Qed.

Lemma tunnel_simulated t l t' : tunnel_inv t -> tunnel_step t l t' ->
  exists c, channel_run (under_way t) (observe t l) c /\ forall s, c s = under_way t' s.
Proof.
  intros Hinv Hstep. pose proof (tunnel_step_inv t l t' Hinv Hstep) as Hinv'.
  destruct Hstep as [t s l partial st Hl Hs|t s n st w c Hn Hs|t s st Hc Hn Hs]; cbn [observe].
  - by apply (local_simulated s l partial st).
  - exists (under_way t). split; [by apply channel_done|].
    eapply fed_unseen; [by right; eexists|done].
  - exists (under_way t). split; [by apply channel_done|]. intros s'.
    rewrite (fed_unseen s (PeerEnds s) st t (wire_of s t)) by (done || by left).
    by destruct t as [? ? [] []], s.
Qed.

Lemma tunnel_runs_inv es t : tunnel_runs es t ->
  tunnel_inv t /\ channel_run empty_channels es (under_way t).
Proof.
  induction 1 as [kn1 kn2 kf1 kf2|es t l t' Hr [Hinv Hrun] Hs].
  - split; [|by apply channel_done; intros []]. constructor; intros [].
    1, 2: intros []; done.
    all: constructor; cbn; try done; [by exists []; auto|].
    all: by rewrite (deframe_all (item := item) []).
  - split; [by apply (tunnel_step_inv t l)|].
    destruct (tunnel_simulated t l t' Hinv Hs) as (c & Hc & E).
    apply (channel_run_app _ _ _ _ _ Hrun). by apply (channel_run_proper _ (under_way t) (under_way t) (fun _ => eq_refl) c).
Qed.

Lemma sent_in_seen s s' l st es : seen s l st es -> sent_in s' es = if decide (s' = s) then taken_in s l else [].
Proof. intros []; destruct s, s'; cbn; by rewrite ?app_nil_r. Qed.

Lemma tunnel_runs_sent es t s : tunnel_runs es t -> sent_in s es = c_total (conn_of s (relay_of s t)).
Proof.
  induction 1 as [kn1 kn2 kf1 kf2|es t l t' Hr IH Hs]; [by destruct s|].
  unfold sent_in in *. rewrite flat_map_app, IH. fold (sent_in s (observe t l)).
  destruct Hs as [t s0 l partial st Hl Hs|t s0 n st w c Hn Hs|t s0 st Hc Hn Hs]; cbn [observe].
  - rewrite (sent_in_seen s0 s l (relay_of s0 t)) by (by apply (observed_adds l s0 partial)).
    destruct (step_adds _ _ _ _ s0 (Hrp s0) Hs) as [Ht _]. destruct (decide (s = s0)) as [->|Hne].
    + destruct s0; cbn in *; by rewrite Ht.
    + destruct s, s0; try done; cbn; by rewrite app_nil_r.
  - destruct (step_adds _ _ _ _ (other s0) (Hrp (other s0)) Hs) as [Ht _].
    destruct s, s0; cbn in *; by rewrite ?Ht, ?app_nil_r.
  - destruct (step_adds _ _ _ _ (other s0) (Hrp (other s0)) Hs) as [Ht _].
    destruct s, s0; cbn in *; by rewrite ?Ht, ?app_nil_r.
Qed.

(** *** The end of a direction *)

(** The flags of a connection after a step: what is closed stays closed, and only
    its peer ends its input. *)
Definition keeps_flags (p : relay_policy (item := item)) : Prop := forall s c,
  (c_wclosed c.1 = true -> c_wclosed (rp_finish p s c).1 = true) /\
  (c_wclosed c.2 = true -> c_wclosed (rp_finish p s c).2 = true).

Lemma relays_keep_flags p : In p relays -> keeps_flags p.
Proof. intros Hin s c. by destruct (relays_keep_closed p Hin s c) as (_ & _ & ? & ?). Qed.

Lemma step_flags p st l partial st' s :
  policy_ok p -> keeps_flags p -> step p st l = Some st' ->
  (c_wclosed (conn_of s st) = true -> c_wclosed (conn_of s st') = true) /\
  (c_eof (conn_of s st') = true -> c_eof (conn_of s st) = true \/ l = PeerEnds s) /\
  (c_eof (conn_of s st) = true -> taken_in s l = [] /\ forall items, l <> PeerSends s items) /\
  (c_wclosed (conn_of (other s) st) = true -> on_wire s l partial st = []).
Proof.
  intros [Hfin _] Hk Hs. destruct l as [s' items|s'|s' k|s' n|s'|s'|s'|s' k|s' n|s'| |]; cbn [step] in Hs.
  10: { destruct (phase_of s' st) as [| |clean|]; try done.
       destruct (Hk s' (conn_of s' st, conn_of (other s') st)) as [K1 K2].
       destruct (Hfin s' (conn_of s' st, conn_of (other s') st)) as [H1 H2].
       destruct (rp_finish p s' (conn_of s' st, conn_of (other s') st)) as [src dst]. injection Hs as <-.
       unfold items_of in H1, H2. injection H1 as _ _ E3 _. injection H2 as _ _ F3 _.
       destruct s, s'; cbn in *; rewrite ?E3, ?F3; split_and!; auto. }
  all: destruct st as [a b pa pb j]; destruct s; try destruct s'; cbn in *; repeat case_match; simplify_eq/=;
    split_and!; auto; try (by intros ->); try congruence; try (intros; split; done);
    try (intros _; unfold next_frame; cbn; repeat case_match; simplify_eq/=; by rewrite take_nil);
    intros; bool_to_prop; congruence.
Qed.

Context (Hflags : forall s, keeps_flags (rp s)).

(** The end of a direction arrives after everything written to it. *)
Definition end_inv (s : side) (t : tunnel) : Prop :=
  c_eof (conn_of s (relay_of (other s) t)) = true ->
  c_wclosed (conn_of (other s) (relay_of s t)) = true /\ w_arrived (wire_of s t) = List.length (w_sent (wire_of s t)).

Lemma tunnel_step_end t l t' s : end_inv s t -> tunnel_step t l t' -> end_inv s t'.
Proof.
  intros Hend Hs. destruct Hs as [t s0 l partial st Hl Hs|t s0 n st w c Hn Hs|t s0 st Hc Hn Hs];
    assert (s0 = s \/ s0 = other s) as [->| ->] by (destruct s, s0; auto).
  - destruct (set_relay_wire s st (mkWire (w_sent (wire_of s t) ++ on_wire s l partial (relay_of s t))
      (w_arrived (wire_of s t))) t s) as (E1 & E2 & E3 & _).
    unfold end_inv. rewrite E1, E2, E3. intros He. destruct (Hend He) as [Hw Ha]. cbn [w_sent w_arrived].
    destruct (step_flags _ _ _ partial _ s (Hrp s) (Hflags s) Hs) as (_ & _ & _ & ->); [|done].
    rewrite app_nil_r. split; [|done]. by apply (step_flags _ _ _ partial _ (other s) (Hrp s) (Hflags s) Hs).
  - destruct (set_relay_wire (other s) st (mkWire (w_sent (wire_of (other s) t) ++ on_wire (other s) l partial (relay_of (other s) t))
      (w_arrived (wire_of (other s) t))) t (other s)) as (E1 & E2 & _ & E4).
    rewrite other_other in *. unfold end_inv. rewrite E1, E2, E4. intros He. apply Hend.
    destruct (step_flags _ _ _ partial _ s (Hrp (other s)) (Hflags (other s)) Hs) as (_ & Heof & _).
    destruct (Heof He) as [| ->]; [done|]. cbn in Hl. by destruct s.
  - destruct (set_relay_wire (other s) st (mkWire (w_sent w) (w_arrived w + n)) t s) as (E1 & E2 & E3 & _).
    rewrite other_other in *. unfold end_inv. rewrite E1, E2, E3. intros He. exfalso.
    destruct (step_flags _ _ _ 0 _ s (Hrp (other s)) (Hflags (other s)) Hs) as (_ & Heof & Hno & _).
    destruct (Heof He) as [He'|]; [|done]. destruct (Hno He') as [_ Hne]. by eapply Hne.
  - destruct (set_relay_wire (other (other s)) st (mkWire (w_sent w) (w_arrived w + n)) t (other s)) as (E1 & E2 & _ & E4).
    rewrite !other_other in *. unfold end_inv. rewrite E1, E2, E4. intros He. destruct (Hend He) as [Hw Ha]. split; [|done].
    by apply (step_flags _ _ _ 0 _ (other s) (Hrp s) (Hflags s) Hs).
  - intros _. by destruct s.
  - rewrite other_other in *. intros He.
    assert (c_eof (conn_of s (relay_of (other s) t)) = true) as He' by (by destruct s).
    destruct (Hend He') as [Hw Ha]. destruct (step_flags _ _ _ 0 _ (other s) (Hrp s) (Hflags s) Hs) as (Hk & _).
    specialize (Hk Hw). by destruct s.
Qed.

Lemma tunnel_runs_end es t s : tunnel_runs es t -> end_inv s t.
Proof. induction 1 as [|es t l t' Hr IH Hs]; [by destruct s|by apply (tunnel_step_end t l)]. Qed.

(** Where both copies of a direction ended without an error nothing is under way. *)
Lemma clean_end es t s : tunnel_runs es t ->
  phase_of s (relay_of s t) = Done true -> phase_of s (relay_of (other s) t) = Done true -> under_way t s = [].
Proof.
  intros Hr H1 H2. destruct (tunnel_runs_inv es t Hr) as [Hinv _].
  pose proof (ti_order t Hinv s s) as O1. pose proof (ti_order t Hinv (other s) s) as O2.
  rewrite H1 in O1. rewrite H2 in O2. cbn [direction_ok] in O1, O2. destruct O1 as (O1 & _). destruct O2 as (O2 & _ & He).
  destruct (tunnel_runs_end es t s Hr He) as [_ Ha].
  destruct (ti_dir t Hinv s) as [Hok (tail & Hw & Htail) _ Hitems].
  rewrite H1 in Htail. destruct Htail as [->|[Hf _]]; [|done]. rewrite app_nil_r in Hw.
  rewrite Ha, firstn_all, Hw, deframe_all in Hitems.
  - unfold under_way. rewrite O2, Hitems, O1. by apply drop_all.
  - by rewrite O1.
Qed.
End Tunnel.

(** ** Properties *)

(** Claim C14: A tunnel is a pair of channels. Take any two relays of the source,
    one beside the guest and one at the boundary, joined by a stream that carries
    bytes, or capsules with one datagram each, and that hands them over in pieces of
    any size; let both run in any interleaving, with reads and writes that fail, a
    frame torn by a failed write, and interruptions. Then what the guest and the
    upstream server see is a run of two first-in first-out queues: in each direction
    the items received are the oldest of those sent, whole, in order and once. And
    where both copies of a direction ended without an error, all of them. *)
Theorem tunnel_refines_channels {item : Type} `{FramingLaws item} (rp : side -> relay_policy (item := item))
    (es : list channel_event) (t : tunnel) :
  (forall s, In (rp s) relays) -> tunnel_runs rp es t ->
  exists c, channel_run empty_channels es c /\
    forall s,
      sent_in s es = c_total (conn_of s (relay_of s t)) /\
      received_in s es = c_sent (conn_of (other s) (relay_of (other s) t)) /\
      sent_in s es = received_in s es ++ c s /\
      (phase_of s (relay_of s t) = Done true -> phase_of s (relay_of (other s) t) = Done true ->
       received_in s es = sent_in s es).
Proof.
  intros Hin Hr. assert (forall s, policy_ok (rp s)) as Hrp by (intros s; by apply relays_ok).
  assert (forall s, keeps_flags (rp s)) as Hflags by (intros s; by apply relays_keep_flags).
  destruct (tunnel_runs_inv rp Hrp es t Hr) as [Hinv Hrun]. exists (under_way t). split; [done|]. intros s.
  pose proof (tunnel_runs_sent rp Hrp es t s Hr) as Hsent.
  pose proof (channel_run_queue _ _ _ s Hrun) as Hq. cbn in Hq.
  pose proof (under_way_split t s Hinv) as Hsplit. rewrite <- Hsent, Hq in Hsplit. apply app_inv_tail in Hsplit.
  split_and!; [done|done|done|]. intros H1 H2. rewrite Hq, (clean_end rp Hrp Hflags es t s Hr H1 H2). by rewrite app_nil_r.
Qed.

(** ** Witness *)

(** One datagram through [RelayUDP], a capsule in two pieces, and [pumpUDP]. *)
Definition udp_tunnel (s : side) : relay_policy (item := list Z) :=
  match s with A => relay_udp | B => boundary_pump end.

(** One step, and the state it leads to evaluated. *)
Ltac tunnel_next R l step :=
  eapply (runs_step _ _ _ l) in R; [|step];
  lazymatch type of R with
  | tunnel_runs ?p ?es ?t =>
      let es' := eval vm_compute in es in
      let t' := eval vm_compute in t in
      assert (tunnel_runs p es' t') by (vm_cast_no_check R); clear R;
      rename select (tunnel_runs p es' t') into R
  end.

Lemma sample_tunnel_runs :
  exists t, tunnel_runs udp_tunnel [Sent A [[7; 8]]; Received A [[7; 8]]] t /\
    c_sent (r_a (t_far t)) = [] /\ w_sent (t_up t) = [0; 3; 0; 7; 8].
Proof.
  assert (Forall (frame_ok (item := list Z)) [[7; 8]]) as Hok by (repeat constructor; vm_compute; discriminate).
  pose proof (runs_start udp_tunnel HalfClose HalfClose HalfClose HalfClose) as R.
  tunnel_next R (Local A (PeerSends A [[7; 8]]) 0) ltac:(eapply step_local; [by split|reflexivity]).
  tunnel_next R (Local (item := list Z) A (Read A 1) 0) ltac:(eapply step_local; [done|reflexivity]).
  tunnel_next R (Local (item := list Z) A (PeerTakes B 1) 0) ltac:(eapply step_local; [done|reflexivity]).
  tunnel_next R (Local (item := list Z) A (Written A) 0) ltac:(eapply step_local; [done|reflexivity]).
  tunnel_next R (Arrive (item := list Z) A 2) ltac:(eapply step_arrive; [vm_compute; lia|reflexivity]).
  tunnel_next R (Arrive (item := list Z) A 3) ltac:(eapply step_arrive; [vm_compute; lia|reflexivity]).
  tunnel_next R (Local (item := list Z) B (Read A 1) 0) ltac:(eapply step_local; [done|reflexivity]).
  tunnel_next R (Local (item := list Z) B (PeerTakes B 1) 0) ltac:(eapply step_local; [done|reflexivity]).
  tunnel_next R (Local (item := list Z) B (Written A) 0) ltac:(eapply step_local; [done|reflexivity]).
  eexists. split; [exact R|]. by vm_compute.
Qed.

Lemma tunnel_refines_channels_witness :
  exists t c, tunnel_runs udp_tunnel [Sent A [[7; 8]]; Received A [[7; 8]]] t /\
    channel_run empty_channels [Sent A [[7; 8]]; Received A [[7; 8]]] c /\ c A = [].
Proof.
  destruct sample_tunnel_runs as (t & Hr & _ & _).
  destruct (tunnel_refines_channels udp_tunnel _ t
    ltac:(intros []; [right; left; reflexivity|right; right; right; left; reflexivity]) Hr) as (c & Hrun & Hs).
  exists t, c. split; [exact Hr|]. split; [exact Hrun|].
  destruct (Hs A) as (_ & _ & E & _). cbn in E. injection E as E. symmetry. exact E.
Defined.
