(* ===== verification/Rules.v ===== *)
(** * The redirect rules of the namespace proxy

    [redirectRules] of [sdk/pkg/netnsproxy/rules_linux.go]: the calls that queue
    four nftables chains and their rules. What the kernel makes of a rule is not
    in the repository: [Netfilter] is its interface, and [NetfilterLaws] states the
    documented effect of each expression the rules use and of the traversal of
    chains; TPROXY prefers a socket that is connected to the flow of a packet, as the
    reply sockets of the proxy are, to the listener it names. The theorems say what happens to a packet of the workload's interface,
    for every kernel with these laws. *)

From S2P Require Import Prelude GoStrings Netip Capsule Netns.

(** ** Rules as data *)

Inductive MetaKey : Type := MetaKeyIIF | MetaKeyL4PROTO | MetaKeyNFPROTO | MetaKeyMARK.
Inductive CmpOp : Type := CmpOpEq | CmpOpNeq.
Inductive VerdictKind : Type := VerdictAccept | VerdictDrop.

(** The expressions of [nftables/expr] the source builds; [Meta]'s flag is its
    [SourceRegister]. *)
Inductive Any : Type :=
| Meta (Key : MetaKey) (SourceRegister : bool) (Register : Z)
| Cmp (Op : CmpOp) (Register : Z) (Data : list Z)
| Payload (DestRegister : Z) (Offset Len : nat)    (** of the transport header *)
| Immediate (Register : Z) (Data : list Z)
| TProxy (Family RegPort : Z)
| Redir (RegisterProtoMin : Z)
| CtStatus (Register : Z)
| Bitwise (SourceRegister DestRegister : Z) (Mask Xor : list Z)
| Verdict (Kind : VerdictKind)
| Reject (Type_ Code : Z).

Inductive ChainType : Type := ChainTypeFilter | ChainTypeNAT.
Inductive Hook : Type := ChainHookPrerouting | ChainHookInput | ChainHookForward.

#[export] Instance Hook_eq_dec : EqDecision Hook.
Proof. solve_decision. Defined.

Record Chain := mkChain {
  ch_Name : string; ch_Table : string; ch_Type : ChainType; ch_Hooknum : Hook; ch_Priority : Z;
}.

(** The calls on [nftables.Conn], which queues them until its [Flush]. *)
Inductive call : Type :=
| AddChain (c : Chain)
| AddRule (c : Chain) (Exprs : list Any).

Record ports := mkPorts { l_family : Z; l_tcp : Z; l_udp : Z }.

Definition statusDestinationNAT : Z := Z.shiftl 1 5.
Definition IPPROTO_TCP : Z := 6.
Definition IPPROTO_UDP : Z := 17.
Definition IPPROTO_ICMP : Z := 1.
Definition IPPROTO_ICMPV6 : Z := 58.
Definition NFT_REJECT_ICMPX_UNREACH : Z := 2.
Definition NFT_REJECT_ICMPX_PORT_UNREACH : Z := 1.
Definition ChainPriorityMangle : Z := -150.
Definition ChainPriorityNATDest : Z := -100.
Definition ChainPriorityFilter : Z := 0.

(** [binary.NativeEndian.AppendUint32(nil, uint32(v))] *)
Definition native_uint32 (little : bool) (v : Z) : list Z :=
  if little then rev (big_endian 4 v) else big_endian 4 v.

Section Source.
Variable little : bool.

Definition interfaceMatch (index : Z) : list Any :=
  [Meta MetaKeyIIF false 1; Cmp CmpOpEq 1 (native_uint32 little index)].

Definition protocolMatch (protocol : Z) : list Any :=
  [Meta MetaKeyL4PROTO false 1; Cmp CmpOpEq 1 [protocol]].

Definition familyMatch (family : Z) : list Any :=
  [Meta MetaKeyNFPROTO false 1; Cmp CmpOpEq 1 [family]].

Definition prerouting (table : string) : Chain :=
  mkChain "prerouting" table ChainTypeNAT ChainHookPrerouting ChainPriorityNATDest.
Definition udpPrerouting (table : string) : Chain :=
  mkChain "udp_prerouting" table ChainTypeFilter ChainHookPrerouting ChainPriorityMangle.
Definition input (table : string) : Chain :=
  mkChain "input" table ChainTypeFilter ChainHookInput ChainPriorityFilter.
Definition forward (table : string) : Chain :=
  mkChain "forward" table ChainTypeFilter ChainHookForward ChainPriorityFilter.

Definition resetMark (index : Z) : list Any :=
  interfaceMatch index ++ [Immediate 1 [0; 0; 0; 0]; Meta MetaKeyMARK true 1].

(** One pass of the inner loop of the first loop over the listeners. *)
Definition redirectRule (table : string) (index : Z) (listener : ports) (udp : bool) (transport : Z * Z) : call :=
  let '(protocol, port) := transport in
  let expressions := interfaceMatch index ++ familyMatch (l_family listener) ++ protocolMatch protocol ++
    (if (protocol =? IPPROTO_UDP) && negb udp
     then [Payload 1 2 2; Cmp CmpOpEq 1 (big_endian 2 53)] else []) ++
    [Immediate 1 (big_endian 2 port)] in
  if protocol =? IPPROTO_UDP
  then AddRule (udpPrerouting table) (expressions ++
         [TProxy (l_family listener) 1; Immediate 1 (native_uint32 little routingMark);
          Meta MetaKeyMARK true 1; Verdict VerdictAccept])
  else AddRule (prerouting table) (expressions ++ [Redir 1]).

Definition markedUDP (index : Z) : list Any :=
  interfaceMatch index ++ protocolMatch IPPROTO_UDP ++
  [Meta MetaKeyMARK false 1; Cmp CmpOpEq 1 (native_uint32 little routingMark); Verdict VerdictAccept].

Definition acceptProtocol (index protocol : Z) : list Any :=
  interfaceMatch index ++ protocolMatch protocol ++ [Verdict VerdictAccept].

Definition acceptRedirected (index : Z) (listener : ports) : list Any :=
  interfaceMatch index ++ protocolMatch IPPROTO_TCP ++ familyMatch (l_family listener) ++
  [Payload 1 2 2; Cmp CmpOpEq 1 (big_endian 2 (l_tcp listener));
   CtStatus 1; Bitwise 1 1 (native_uint32 little statusDestinationNAT) [0; 0; 0; 0];
   Cmp CmpOpNeq 1 [0; 0; 0; 0]; Verdict VerdictAccept].

Definition redirectRules (table : string) (index : Z) (listeners : list ports) (udp : bool) : list call :=
  [AddChain (prerouting table); AddChain (udpPrerouting table);
   AddRule (udpPrerouting table) (resetMark index)] ++
  flat_map (fun listener => map (redirectRule table index listener udp)
    [(IPPROTO_TCP, l_tcp listener); (IPPROTO_UDP, l_udp listener)]) listeners ++
  [AddChain (input table); AddRule (input table) (markedUDP index)] ++
  map (fun protocol => AddRule (input table) (acceptProtocol index protocol)) [IPPROTO_ICMP; IPPROTO_ICMPV6] ++
  map (fun listener => AddRule (input table) (acceptRedirected index listener)) listeners ++
  [AddRule (input table)
     (interfaceMatch index ++ [Reject NFT_REJECT_ICMPX_UNREACH NFT_REJECT_ICMPX_PORT_UNREACH]);
   AddChain (forward table);
   AddRule (forward table) (interfaceMatch index ++ [Verdict VerdictDrop])].
End Source.

(** ** The kernel *)

(** What a rule can see and change of a packet; [p_header] is the transport
    header, [p_new] says that it opens a connection, [p_status] is its conntrack
    status, [p_socket] the port of the listener that [TProxy] was to assign and
    [p_connected] that it found a socket connected to the flow instead. *)
Record packet := mkPacket {
  p_iif : Z; p_nfproto : Z; p_l4proto : Z; p_header : list Z;
  p_mark : Z; p_new : bool; p_status : Z; p_socket : option (list Z); p_connected : bool;
}.

Definition set_mark (v : Z) (p : packet) : packet :=
  mkPacket (p_iif p) (p_nfproto p) (p_l4proto p) (p_header p) v (p_new p) (p_status p) (p_socket p)
    (p_connected p).
Definition set_socket (port : list Z) (connected : bool) (p : packet) : packet :=
  mkPacket (p_iif p) (p_nfproto p) (p_l4proto p) (p_header p) (p_mark p) (p_new p) (p_status p) (Some port) connected.

(** Network address translation rewrites the destination port and marks the
    connection. *)
Definition translated (port : list Z) (p : packet) : packet :=
  mkPacket (p_iif p) (p_nfproto p) (p_l4proto p) (take 2 (p_header p) ++ port ++ drop 4 (p_header p))
    (p_mark p) (p_new p) (Z.lor (p_status p) statusDestinationNAT) (p_socket p) (p_connected p).

Definition dport (p : packet) : option (list Z) :=
  if (4 <=? List.length (p_header p))%nat then Some (take 2 (drop 2 (p_header p))) else None.

(** The registers of a rule and its packet. *)
Record vm := mkVM { regs : gmap Z (list Z); pkt : packet }.

Definition set_reg (r : Z) (v : list Z) (m : vm) : vm := mkVM (<[r := v]> (regs m)) (pkt m).
Definition set_pkt (p : packet) (m : vm) : vm := mkVM (regs m) p.
Definition fresh (p : packet) : vm := mkVM ∅ p.

(** An expression lets its rule go on, ends the rule, or ends the chain. *)
Inductive effect : Type := Next (m : vm) | Break (m : vm) | Final (v : VerdictKind) (p : packet).

Class Netfilter := {
  nf_little : bool;
  nf_expr : Any -> vm -> effect;
  nf_chain : list (list Any) -> vm -> VerdictKind * packet;
  nf_hook : list call -> Hook -> packet -> VerdictKind * packet;
  nf_mapping : packet -> packet;                      (** of a connection translated before *)
  nf_socket : Z -> list Z -> packet -> bool;          (** a listener for [TProxy] *)
  nf_connected : packet -> option bool;               (** a socket connected to the flow, and if it is transparent *)
  nf_local : packet -> bool;                          (** the interface has an address *)
}.

(** The base chains of a hook, by priority, with their rules in order. *)
Definition rules_of (calls : list call) (c : Chain) : list (list Any) :=
  flat_map (fun k => match k with
                     | AddRule c' es => if String.eqb (ch_Name c') (ch_Name c) then [es] else []
                     | AddChain _ => []
                     end) calls.

Fixpoint by_priority (c : Chain) (cs : list Chain) : list Chain :=
  match cs with
  | [] => [c]
  | c' :: cs' => if ch_Priority c <? ch_Priority c' then c :: cs else c' :: by_priority c cs'
  end.

Definition base_chains (calls : list call) (h : Hook) : list Chain :=
  fold_left (fun cs k => match k with
                         | AddChain c => if decide (ch_Hooknum c = h) then by_priority c cs else cs
                         | AddRule _ _ => cs
                         end) calls [].

(** A dropped packet is gone; an accepted one goes on to the next base chain. A
    translation chain sees the first packet of a connection only. *)
Fixpoint traverse (chain : list (list Any) -> vm -> VerdictKind * packet) (mapping : packet -> packet)
    (calls : list call) (cs : list Chain) (p : packet) : VerdictKind * packet :=
  match cs with
  | [] => (VerdictAccept, p)
  | c :: cs =>
      let '(v, p) := match ch_Type c, p_new p with
                     | ChainTypeNAT, false => (VerdictAccept, mapping p)
                     | _, _ => chain (rules_of calls c) (fresh p)
                     end in
      match v with VerdictAccept => traverse chain mapping calls cs p | VerdictDrop => (VerdictDrop, p) end
  end.

Definition meta_value `{Netfilter} (k : MetaKey) (p : packet) : list Z :=
  match k with
  | MetaKeyIIF => native_uint32 nf_little (p_iif p)
  | MetaKeyL4PROTO => [p_l4proto p]
  | MetaKeyNFPROTO => [p_nfproto p]
  | MetaKeyMARK => native_uint32 nf_little (p_mark p)
  end.

(** A comparison as the kernel makes it, on a register as long as the data. *)
Definition compares (op : CmpOp) (v data : list Z) : bool :=
  match op with CmpOpEq => bool_decide (v = data) | CmpOpNeq => bool_decide (v <> data) end.

Definition masked (v mask xor : list Z) : list Z := zip_with Z.lxor (zip_with Z.land v mask) xor.

(** A packet of a flow that a socket is connected to goes there, and only if that
    socket is transparent; the others go to the listener. *)
Definition tproxied `{Netfilter} (family : Z) (port : list Z) (p : packet) : bool :=
  match nf_connected p with Some transparent => transparent | None => nf_socket family port p end.

Definition to_socket `{Netfilter} (port : list Z) (p : packet) : packet :=
  set_socket port (match nf_connected p with Some _ => true | None => false end) p.

Class NetfilterLaws `{Netfilter} : Prop := {
  meta_load k r m : nf_expr (Meta k false r) m = Next (set_reg r (meta_value k (pkt m)) m);
  meta_mark r v m : regs m !! r = Some (native_uint32 nf_little v) -> 0 <= v < 2 ^ 32 ->
    nf_expr (Meta MetaKeyMARK true r) m = Next (set_pkt (set_mark v (pkt m)) m);
  cmp_law op r data v m : regs m !! r = Some v -> List.length v = List.length data ->
    nf_expr (Cmp op r data) m = if compares op v data then Next m else Break m;
  payload_law r off n m : nf_expr (Payload r off n) m =
    if (off + n <=? List.length (p_header (pkt m)))%nat
    then Next (set_reg r (take n (drop off (p_header (pkt m)))) m) else Break m;
  immediate_law r data m : nf_expr (Immediate r data) m = Next (set_reg r data m);
  tproxy_law family r port m : regs m !! r = Some port -> p_nfproto (pkt m) = family ->
    nf_expr (TProxy family r) m =
      if tproxied family port (pkt m) then Next (set_pkt (to_socket port (pkt m)) m) else Break m;
  redir_law r port m : regs m !! r = Some port ->
    nf_expr (Redir r) m =
      if nf_local (pkt m) then Final VerdictAccept (translated port (pkt m)) else Final VerdictDrop (pkt m);
  ct_law r m : nf_expr (CtStatus r) m = Next (set_reg r (native_uint32 nf_little (p_status (pkt m))) m);
  bitwise_law src dst mask xor v m : regs m !! src = Some v ->
    List.length v = List.length mask -> List.length v = List.length xor ->
    nf_expr (Bitwise src dst mask xor) m = Next (set_reg dst (masked v mask xor) m);
  verdict_law k m : nf_expr (Verdict k) m = Final k (pkt m);
  reject_law t c m : nf_expr (Reject t c) m = Final VerdictDrop (pkt m);
  chain_end m : nf_chain [] m = (VerdictAccept, pkt m);
  rule_end rs m : nf_chain ([] :: rs) m = nf_chain rs m;
  rule_expr e es rs m : nf_chain ((e :: es) :: rs) m =
    match nf_expr e m with
    | Next m => nf_chain (es :: rs) m
    | Break m => nf_chain rs m
    | Final v p => (v, p)
    end;
  hook_law calls h p : nf_hook calls h p = traverse nf_chain nf_mapping calls (base_chains calls h) p;
  mapping_law p : exists header status, nf_mapping p =
    mkPacket (p_iif p) (p_nfproto p) (p_l4proto p) header (p_mark p) (p_new p) status (p_socket p) (p_connected p);
}.

(** ** What the chains decide *)

(** The decisions of the rules, as functions of the packet. *)
Definition mentions (proto : Z) (l : ports) (p : packet) : bool :=
  (p_nfproto p =? l_family l) && (p_l4proto p =? proto).

Definition takes_udp `{Netfilter} (udp : bool) (p : packet) (l : ports) : bool :=
  mentions IPPROTO_UDP l p && (udp || bool_decide (dport p = Some (big_endian 2 53))) &&
  tproxied (l_family l) (big_endian 2 (l_udp l)) p.

Definition udp_decision `{Netfilter} (listeners : list ports) (udp : bool) (p : packet) : packet :=
  let p := set_mark 0 p in
  match List.find (takes_udp udp p) listeners with
  | Some l => set_mark routingMark (to_socket (big_endian 2 (l_udp l)) p)
  | None => p
  end.

Definition tcp_decision `{Netfilter} (listeners : list ports) (p : packet) : VerdictKind * packet :=
  match List.find (fun l => mentions IPPROTO_TCP l p) listeners with
  | Some l => if nf_local p then (VerdictAccept, translated (big_endian 2 (l_tcp l)) p) else (VerdictDrop, p)
  | None => (VerdictAccept, p)
  end.

Definition takes_translated (p : packet) (l : ports) : bool :=
  mentions IPPROTO_TCP l p && bool_decide (dport p = Some (big_endian 2 (l_tcp l))) && Z.testbit (p_status p) 5.

Definition input_accepts (listeners : list ports) (p : packet) : bool :=
  ((p_l4proto p =? IPPROTO_UDP) && (p_mark p =? routingMark)) ||
  (p_l4proto p =? IPPROTO_ICMP) || (p_l4proto p =? IPPROTO_ICMPV6) ||
  existsb (takes_translated p) listeners.

(** *** Native integers *)

Lemma native_uint32_length little v : List.length (native_uint32 little v) = 4%nat.
Proof. unfold native_uint32. destruct little; rewrite ?length_rev; apply big_endian_length. Qed.

Lemma native_uint32_inj little a b :
  0 <= a < 2 ^ 32 -> 0 <= b < 2 ^ 32 -> native_uint32 little a = native_uint32 little b -> a = b.
Proof.
  intros Ha Hb E. assert (big_endian 4 a = big_endian 4 b) as Eb.
  { unfold native_uint32 in E. destruct little; [|done]. by rewrite <- (rev_involutive (big_endian 4 a)), E, rev_involutive. }
  rewrite <- (be_value_big_endian 4 a), <- (be_value_big_endian 4 b) by done. by rewrite Eb.
Qed.

Lemma native_decide little a b :
  0 <= a < 2 ^ 32 -> 0 <= b < 2 ^ 32 ->
  bool_decide (native_uint32 little a = native_uint32 little b) = (a =? b).
Proof.
  intros Ha Hb. apply eq_true_iff_eq. rewrite bool_decide_eq_true, Z.eqb_eq.
  split; [by apply native_uint32_inj|by intros ->].
Qed.

(** The status bit, tested byte by byte. *)
Lemma status_masked little v :
  compares CmpOpNeq (masked (native_uint32 little v) (native_uint32 little statusDestinationNAT) [0; 0; 0; 0])
    [0; 0; 0; 0] = Z.testbit v 5.
Proof.
  assert (Z.land (v mod 256) 32 = if Z.testbit v 5 then 32 else 0) as E.
  { apply Z.bits_inj'. intros n Hn. rewrite Z.land_spec. change 32 with (2 ^ 5). change 256 with (2 ^ 8).
    destruct (Z.eq_dec n 5) as [->|Hne].
    - rewrite Z.mod_pow2_bits_low by lia. rewrite Z.pow2_bits_true by lia. by destruct (Z.testbit v 5).
    - rewrite Z.pow2_bits_false by lia. rewrite andb_false_r.
      destruct (Z.testbit v 5); [by rewrite Z.pow2_bits_false by lia|by rewrite Z.bits_0]. }
  assert (native_uint32 little statusDestinationNAT = if little then [32; 0; 0; 0] else [0; 0; 0; 32]) as ->
    by (by destruct little).
  unfold native_uint32, masked, compares. cbn [big_endian]. change (8 * Z.of_nat 0) with 0. rewrite Z.shiftr_0_r.
  change (u8 v) with (v mod 256).
  destruct little; cbn [rev app zip_with]; rewrite ?Z.land_0_r, E; by destruct (Z.testbit v 5).
Qed.

(** *** Matching *)

Section Kernel.
Context `{NetfilterLaws}.

Lemma reg_set r v m : regs (set_reg r v m) !! r = Some v.
Proof. apply lookup_insert_eq. Qed.

Ltac reg := rewrite ?reg_set; reflexivity.

(** A load and a comparison, in a rule. *)
Lemma match_meta k data es rs m :
  List.length (meta_value k (pkt m)) = List.length data ->
  nf_chain ((Meta k false 1 :: Cmp CmpOpEq 1 data :: es) :: rs) m =
  nf_chain (if bool_decide (meta_value k (pkt m) = data) then es :: rs else rs)
    (set_reg 1 (meta_value k (pkt m)) m).
Proof.
  intros Hl. rewrite rule_expr, meta_load, rule_expr.
  rewrite (cmp_law _ _ _ _ _ (reg_set _ _ _) Hl). unfold compares. by case_bool_decide.
Qed.

Lemma match_payload data es rs m :
  List.length data = 2%nat ->
  nf_chain ((Payload 1 2 2 :: Cmp CmpOpEq 1 data :: es) :: rs) m =
  nf_chain (if bool_decide (dport (pkt m) = Some data) then es :: rs else rs)
    (match dport (pkt m) with Some v => set_reg 1 v m | None => m end).
Proof.
  intros Hl. rewrite rule_expr, payload_law. change (2 + 2)%nat with 4%nat. unfold dport.
  destruct (4 <=? List.length (p_header (pkt m)))%nat eqn:E; [|by rewrite bool_decide_false by done].
  apply Nat.leb_le in E. rewrite rule_expr.
  rewrite (cmp_law _ _ _ _ _ (reg_set _ _ _)) by (rewrite length_take, length_drop; lia).
  unfold compares. repeat case_bool_decide; naive_solver.
Qed.

Variable index : Z.
Hypothesis Hindex : 0 <= index < 2 ^ 32.

Definition packet_ok (p : packet) : Prop := 0 <= p_iif p < 2 ^ 32 /\ 0 <= p_mark p < 2 ^ 32.

Lemma match_interface es rs m :
  packet_ok (pkt m) ->
  nf_chain ((interfaceMatch nf_little index ++ es) :: rs) m =
  nf_chain (if p_iif (pkt m) =? index then es :: rs else rs)
    (set_reg 1 (native_uint32 nf_little (p_iif (pkt m))) m).
Proof.
  intros [Hi _]. unfold interfaceMatch. cbn [app]. rewrite match_meta by (cbn; by rewrite !native_uint32_length).
  cbn [meta_value]. by rewrite native_decide.
Qed.

Lemma match_mark es rs m v :
  packet_ok (pkt m) -> 0 <= v < 2 ^ 32 ->
  nf_chain ((Meta MetaKeyMARK false 1 :: Cmp CmpOpEq 1 (native_uint32 nf_little v) :: es) :: rs) m =
  nf_chain (if p_mark (pkt m) =? v then es :: rs else rs)
    (set_reg 1 (native_uint32 nf_little (p_mark (pkt m))) m).
Proof.
  intros [_ Hm] Hv. rewrite match_meta by (cbn; by rewrite !native_uint32_length).
  cbn [meta_value]. by rewrite native_decide.
Qed.

Lemma match_protocol proto es rs m :
  nf_chain ((protocolMatch proto ++ es) :: rs) m =
  nf_chain (if p_l4proto (pkt m) =? proto then es :: rs else rs) (set_reg 1 [p_l4proto (pkt m)] m).
Proof.
  unfold protocolMatch. cbn [app]. rewrite match_meta by done. cbn [meta_value]. f_equal.
  repeat case_bool_decide; case_match; bool_to_prop; congruence.
Qed.

Lemma match_family family es rs m :
  nf_chain ((familyMatch family ++ es) :: rs) m =
  nf_chain (if p_nfproto (pkt m) =? family then es :: rs else rs) (set_reg 1 [p_nfproto (pkt m)] m).
Proof.
  unfold familyMatch. cbn [app]. rewrite match_meta by done. cbn [meta_value]. f_equal.
  repeat case_bool_decide; case_match; bool_to_prop; congruence.
Qed.

(** Rules of an interface leave the packets of the others alone. *)
Lemma other_interface rs : forall m,
  packet_ok (pkt m) -> p_iif (pkt m) <> index ->
  Forall (fun r => exists es, r = interfaceMatch nf_little index ++ es) rs ->
  nf_chain rs m = (VerdictAccept, pkt m).
Proof.
  induction rs as [|r rs IH]; intros m Hm Hi HF; [apply chain_end|].
  apply Forall_cons in HF as [[es ->] HF]. rewrite match_interface by done.
  rewrite (proj2 (Z.eqb_neq _ _) Hi). by rewrite IH.
Qed.

(** *** The chains *)

Section Interface.
Variables (listeners : list ports) (udp : bool).

(** A rule that breaks leaves the packet to the next rules. *)
Ltac keep := cbn [andb]; eexists; (split; [|reflexivity]); reflexivity.

Definition udp_rule (l : ports) : list Any :=
  interfaceMatch nf_little index ++ familyMatch (l_family l) ++ protocolMatch IPPROTO_UDP ++
  (if udp then [] else [Payload 1 2 2; Cmp CmpOpEq 1 (big_endian 2 53)]) ++
  [Immediate 1 (big_endian 2 (l_udp l)); TProxy (l_family l) 1; Immediate 1 (native_uint32 nf_little routingMark);
   Meta MetaKeyMARK true 1; Verdict VerdictAccept].

Definition tcp_rule (l : ports) : list Any :=
  interfaceMatch nf_little index ++ familyMatch (l_family l) ++ protocolMatch IPPROTO_TCP ++
  [Immediate 1 (big_endian 2 (l_tcp l)); Redir 1].

Lemma tproxy_tail l rs m :
  p_nfproto (pkt m) = l_family l ->
  exists m', pkt m' = pkt m /\
  nf_chain ([Immediate 1 (big_endian 2 (l_udp l)); TProxy (l_family l) 1;
             Immediate 1 (native_uint32 nf_little routingMark); Meta MetaKeyMARK true 1; Verdict VerdictAccept] :: rs) m =
  if tproxied (l_family l) (big_endian 2 (l_udp l)) (pkt m)
  then (VerdictAccept, set_mark routingMark (to_socket (big_endian 2 (l_udp l)) (pkt m))) else nf_chain rs m'.
Proof.
  intros Hf. exists (set_reg 1 (big_endian 2 (l_udp l)) m). split; [done|].
  rewrite rule_expr, immediate_law, rule_expr.
  rewrite (tproxy_law _ _ (big_endian 2 (l_udp l))) by (apply reg_set || done). cbn [pkt set_reg].
  destruct (tproxied _ _ _); [|done].
  rewrite rule_expr, immediate_law, rule_expr.
  rewrite (meta_mark 1 routingMark) by (apply reg_set || done). by rewrite rule_expr, verdict_law.
Qed.

Lemma udp_rule_step l rs m :
  packet_ok (pkt m) -> p_iif (pkt m) = index ->
  exists m', pkt m' = pkt m /\
  nf_chain (udp_rule l :: rs) m =
  if takes_udp udp (pkt m) l
  then (VerdictAccept, set_mark routingMark (to_socket (big_endian 2 (l_udp l)) (pkt m))) else nf_chain rs m'.
Proof.
  intros Hm Hi. unfold udp_rule, takes_udp, mentions. rewrite match_interface, Hi, Z.eqb_refl by done.
  rewrite match_family. cbn [pkt set_reg]. destruct (Z.eqb_spec (p_nfproto (pkt m)) (l_family l)) as [Hf|Hf];
    [|keep]. rewrite match_protocol. cbn [pkt set_reg].
  destruct (p_l4proto (pkt m) =? IPPROTO_UDP); [|keep]. cbn [andb].
  destruct udp; cbn [app orb andb].
  - edestruct tproxy_tail as (m' & Hp & ->); [done|by exists m'].
  - rewrite match_payload by done. cbn [pkt set_reg]. case_bool_decide as Hd; [|destruct (dport (pkt m)); keep].
    rewrite Hd. edestruct tproxy_tail as (m' & Hp & ->); [done|by exists m'].
Qed.

Lemma udp_rules ls : forall m,
  packet_ok (pkt m) -> p_iif (pkt m) = index ->
  nf_chain (map udp_rule ls) m =
  (VerdictAccept, match List.find (takes_udp udp (pkt m)) ls with
                  | Some l => set_mark routingMark (to_socket (big_endian 2 (l_udp l)) (pkt m))
                  | None => pkt m
                  end).
Proof.
  induction ls as [|l ls IH]; intros m Hm Hi; [apply chain_end|]. cbn [map List.find].
  destruct (udp_rule_step l (map udp_rule ls) m Hm Hi) as (m' & Hp & ->).
  destruct (takes_udp udp (pkt m) l); [done|]. rewrite <- Hp. apply IH; by rewrite Hp.
Qed.

Lemma udp_chain p :
  packet_ok p -> p_iif p = index ->
  nf_chain (resetMark nf_little index :: map udp_rule listeners) (fresh p) =
  (VerdictAccept, udp_decision listeners udp p).
Proof.
  intros Hp Hi. unfold resetMark. rewrite match_interface by done. cbn [pkt fresh]. rewrite Hi, Z.eqb_refl.
  rewrite rule_expr, immediate_law, rule_expr.
  rewrite (meta_mark 1 0) by (done || (rewrite reg_set; by destruct nf_little)).
  rewrite rule_end. rewrite udp_rules; [done| |done]. destruct Hp as [Hp1 Hp2]. split; [done|]. cbn. lia.
Qed.

Lemma tcp_rules ls : forall m,
  packet_ok (pkt m) -> p_iif (pkt m) = index -> nf_chain (map tcp_rule ls) m = tcp_decision ls (pkt m).
Proof.
  induction ls as [|l ls IH]; intros m Hm Hi; [apply chain_end|].
  unfold tcp_decision. cbn [map List.find]. unfold tcp_rule at 1, mentions at 1.
  rewrite match_interface, Hi, Z.eqb_refl by done. rewrite match_family. cbn [pkt set_reg].
  destruct (p_nfproto (pkt m) =? l_family l); [|cbn [andb]; rewrite IH by done; done].
  rewrite match_protocol. cbn [pkt set_reg andb].
  destruct (p_l4proto (pkt m) =? IPPROTO_TCP); [|rewrite IH by done; done].
  rewrite rule_expr, immediate_law, rule_expr.
  rewrite (redir_law _ (big_endian 2 (l_tcp l))) by apply reg_set. cbn [pkt set_reg].
  by destruct (nf_local (pkt m)).
Qed.

Lemma translated_step l rs m :
  packet_ok (pkt m) -> p_iif (pkt m) = index ->
  exists m', pkt m' = pkt m /\
  nf_chain (acceptRedirected nf_little index l :: rs) m =
  if takes_translated (pkt m) l then (VerdictAccept, pkt m) else nf_chain rs m'.
Proof.
  intros Hm Hi. unfold acceptRedirected, takes_translated, mentions.
  rewrite match_interface, Hi, Z.eqb_refl by done. rewrite match_protocol. cbn [pkt set_reg].
  destruct (p_l4proto (pkt m) =? IPPROTO_TCP); [|rewrite andb_false_r; keep].
  rewrite match_family. cbn [pkt set_reg]. destruct (p_nfproto (pkt m) =? l_family l); [|keep].
  cbn [andb]. rewrite match_payload by apply big_endian_length. cbn [pkt set_reg].
  case_bool_decide as Hd; [|destruct (dport (pkt m)); keep]. rewrite Hd. cbn [andb].
  rewrite rule_expr, ct_law, rule_expr. erewrite bitwise_law;
    [|apply reg_set|by rewrite !native_uint32_length|by rewrite native_uint32_length].
  rewrite rule_expr. erewrite cmp_law; [|apply reg_set|].
  2: { unfold masked. rewrite !length_zip_with, !native_uint32_length. done. }
  cbn [pkt set_reg]. rewrite status_masked. destruct (Z.testbit (p_status (pkt m)) 5); [|keep].
  exists m. split; [done|]. by rewrite rule_expr, verdict_law.
Qed.

Lemma translated_rules ls reject : forall m,
  packet_ok (pkt m) -> p_iif (pkt m) = index ->
  (forall m, packet_ok (pkt m) -> p_iif (pkt m) = index -> nf_chain [reject] m = (VerdictDrop, pkt m)) ->
  nf_chain (map (acceptRedirected nf_little index) ls ++ [reject]) m =
  (if existsb (takes_translated (pkt m)) ls then VerdictAccept else VerdictDrop, pkt m).
Proof.
  induction ls as [|l ls IH]; intros m Hm Hi Hr; [by apply Hr|]. cbn [map app existsb].
  destruct (translated_step l (map (acceptRedirected nf_little index) ls ++ [reject]) m Hm Hi) as (m' & Hp & ->).
  destruct (takes_translated (pkt m) l); [done|]. rewrite IH, Hp by (rewrite ?Hp; done). done.
Qed.

Lemma accept_protocol_step proto rs m :
  packet_ok (pkt m) -> p_iif (pkt m) = index ->
  exists m', pkt m' = pkt m /\
  nf_chain (acceptProtocol nf_little index proto :: rs) m =
  if p_l4proto (pkt m) =? proto then (VerdictAccept, pkt m) else nf_chain rs m'.
Proof.
  intros Hm Hi. unfold acceptProtocol. rewrite match_interface, Hi, Z.eqb_refl by done.
  rewrite match_protocol. cbn [pkt set_reg]. destruct (p_l4proto (pkt m) =? proto); [|keep].
  exists m. split; [done|]. by rewrite rule_expr, verdict_law.
Qed.

Lemma marked_step rs m :
  packet_ok (pkt m) -> p_iif (pkt m) = index ->
  exists m', pkt m' = pkt m /\
  nf_chain (markedUDP nf_little index :: rs) m =
  if (p_l4proto (pkt m) =? IPPROTO_UDP) && (p_mark (pkt m) =? routingMark)
  then (VerdictAccept, pkt m) else nf_chain rs m'.
Proof.
  intros Hm Hi. unfold markedUDP. rewrite match_interface, Hi, Z.eqb_refl by done.
  rewrite match_protocol. cbn [pkt set_reg]. destruct (p_l4proto (pkt m) =? IPPROTO_UDP); [|keep].
  rewrite match_mark by done. cbn [pkt set_reg andb]. destruct (p_mark (pkt m) =? routingMark); [|keep].
  exists m. split; [done|]. by rewrite rule_expr, verdict_law.
Qed.

Definition reject_rule : list Any :=
  interfaceMatch nf_little index ++ [Reject NFT_REJECT_ICMPX_UNREACH NFT_REJECT_ICMPX_PORT_UNREACH].

Definition input_rules : list (list Any) :=
  markedUDP nf_little index :: acceptProtocol nf_little index IPPROTO_ICMP ::
  acceptProtocol nf_little index IPPROTO_ICMPV6 ::
  map (acceptRedirected nf_little index) listeners ++ [reject_rule].

Lemma input_chain p :
  packet_ok p -> p_iif p = index ->
  nf_chain input_rules (fresh p) =
  (if input_accepts listeners p then VerdictAccept else VerdictDrop, p).
Proof.
  intros Hp Hi. unfold input_rules, input_accepts.
  destruct (marked_step (acceptProtocol nf_little index IPPROTO_ICMP ::
    acceptProtocol nf_little index IPPROTO_ICMPV6 :: map (acceptRedirected nf_little index) listeners ++ [reject_rule])
    (fresh p) Hp Hi) as (m1 & E1 & ->).
  cbn [pkt fresh] in *. destruct ((p_l4proto p =? IPPROTO_UDP) && (p_mark p =? routingMark)); [done|].
  edestruct (accept_protocol_step IPPROTO_ICMP) as (m2 & E2 & ->); [by rewrite E1..|]. rewrite E1.
  destruct (p_l4proto p =? IPPROTO_ICMP); [done|].
  edestruct (accept_protocol_step IPPROTO_ICMPV6) as (m3 & E3 & ->); [by rewrite E2, E1..|]. rewrite E2, E1.
  destruct (p_l4proto p =? IPPROTO_ICMPV6); [done|].
  rewrite translated_rules; [by rewrite E3, E2, E1|by rewrite E3, E2, E1..|].
  intros m Hm Him. unfold reject_rule. rewrite match_interface, Him, Z.eqb_refl by done.
  by rewrite rule_expr, reject_law.
Qed.

Lemma forward_chain p :
  packet_ok p -> p_iif p = index ->
  nf_chain [interfaceMatch nf_little index ++ [Verdict VerdictDrop]] (fresh p) = (VerdictDrop, p).
Proof.
  intros Hp Hi. rewrite match_interface by done. cbn [pkt fresh]. rewrite Hi, Z.eqb_refl.
  by rewrite rule_expr, verdict_law.
Qed.

(** *** From the queued calls to the chains *)

Variable table : string.

Abbreviation installed := (redirectRules nf_little table index listeners udp).

Lemma rules_of_app calls calls' c : rules_of (calls ++ calls') c = rules_of calls c ++ rules_of calls' c.
Proof. apply flat_map_app. Qed.

Lemma rules_of_map {A} (f : A -> list Any) c c' l :
  rules_of (map (fun x => AddRule c' (f x)) l) c = if String.eqb (ch_Name c') (ch_Name c) then map f l else [].
Proof.
  induction l as [|x l IH]; cbn [map]; [by destruct (String.eqb _ _)|].
  unfold rules_of in *. cbn [flat_map]. rewrite IH. by destruct (String.eqb (ch_Name c') (ch_Name c)).
Qed.

Definition redirects : list call :=
  flat_map (fun listener => map (redirectRule nf_little table index listener udp)
    [(IPPROTO_TCP, l_tcp listener); (IPPROTO_UDP, l_udp listener)]) listeners.

Lemma rules_of_redirects c :
  rules_of redirects c =
  if String.eqb "prerouting" (ch_Name c) then map tcp_rule listeners
  else if String.eqb "udp_prerouting" (ch_Name c) then map udp_rule listeners else [].
Proof.
  unfold redirects. induction listeners as [|l ls IH]; cbn [flat_map].
  { by repeat destruct (String.eqb _ _). }
  rewrite rules_of_app, IH. unfold rules_of. cbn [map flat_map redirectRule]. cbn [Z.eqb IPPROTO_TCP IPPROTO_UDP Pos.eqb andb].
  destruct (String.eqb_spec "prerouting" (ch_Name c)) as [<-|Hn].
  - reflexivity.
  - cbn [prerouting udpPrerouting ch_Name]. rewrite (proj2 (String.eqb_neq _ _) Hn).
    destruct (String.eqb_spec "udp_prerouting" (ch_Name c)); [|done]. cbn [app map]. f_equal.
    unfold udp_rule. rewrite <- !app_assoc. by destruct udp.
Qed.

Lemma fold_rules {S} (f : S -> Chain -> S) calls : forall s : S,
  Forall (fun k => exists c es, k = AddRule c es) calls ->
  fold_left (fun s k => match k with AddChain c => f s c | AddRule _ _ => s end) calls s = s.
Proof.
  induction calls as [|k calls IH]; intros s HF; [done|].
  apply Forall_cons in HF as [(c & es & ->) HF]. by apply IH.
Qed.

Lemma installed_chains h :
  base_chains installed h =
  match h with
  | ChainHookPrerouting => [udpPrerouting table; prerouting table]
  | ChainHookInput => [input table]
  | ChainHookForward => [forward table]
  end.
Proof.
  assert (forall cs, fold_left (fun cs k => match k with
    | AddChain c => if decide (ch_Hooknum c = h) then by_priority c cs else cs
    | AddRule _ _ => cs end) redirects cs = cs) as Hr.
  { intros cs. apply (fold_rules (fun cs c => if decide (ch_Hooknum c = h) then by_priority c cs else cs)).
    unfold redirects. induction listeners as [|l ls IH]; cbn [flat_map]; [constructor|].
    apply Forall_app. split; [|done]. repeat constructor; unfold redirectRule; cbn; by do 2 eexists. }
  assert (forall cs, fold_left (fun cs k => match k with
    | AddChain c => if decide (ch_Hooknum c = h) then by_priority c cs else cs
    | AddRule _ _ => cs end) (map (fun l => AddRule (input table) (acceptRedirected nf_little index l)) listeners) cs = cs)
    as Ha.
  { intros cs. apply (fold_rules (fun cs c => if decide (ch_Hooknum c = h) then by_priority c cs else cs)).
    apply Forall_map, Forall_true. intros l. by do 2 eexists. }
  unfold base_chains, redirectRules. rewrite !fold_left_app. fold redirects. rewrite Hr, Ha. by destruct h.
Qed.

Lemma installed_rules :
  rules_of installed (udpPrerouting table) = resetMark nf_little index :: map udp_rule listeners /\
  rules_of installed (prerouting table) = map tcp_rule listeners /\
  rules_of installed (input table) = input_rules /\
  rules_of installed (forward table) = [interfaceMatch nf_little index ++ [Verdict VerdictDrop]].
Proof.
  unfold redirectRules. fold redirects. rewrite !rules_of_app, !rules_of_redirects, !rules_of_map.
  cbn [ch_Name input forward prerouting udpPrerouting String.eqb Ascii.eqb Bool.eqb].
  split_and!; cbn -[resetMark interfaceMatch udp_rule tcp_rule input_rules map]; rewrite ?app_nil_r; try done.
Qed.

Ltac chain_types :=
  cbn [traverse];
  change (ch_Type (udpPrerouting table)) with ChainTypeFilter;
  change (ch_Type (prerouting table)) with ChainTypeNAT;
  change (ch_Type (input table)) with ChainTypeFilter;
  change (ch_Type (forward table)) with ChainTypeFilter; cbv iota.

Lemma udp_decision_fields p :
  let p' := udp_decision listeners udp p in
  p_iif p' = p_iif p /\ p_nfproto p' = p_nfproto p /\ p_l4proto p' = p_l4proto p /\
  p_header p' = p_header p /\ p_new p' = p_new p /\ p_status p' = p_status p /\ 0 <= p_mark p' < 2 ^ 32.
Proof. unfold udp_decision. destruct (List.find _ _); cbn; split_and!; unfold routingMark; done || lia. Qed.

Lemma prerouting_hook p :
  packet_ok p -> p_iif p = index ->
  nf_hook installed ChainHookPrerouting p =
  let p' := udp_decision listeners udp p in
  if p_new p then tcp_decision listeners p' else (VerdictAccept, nf_mapping p').
Proof.
  intros Hp Hi. destruct installed_rules as (Ru & Rt & _). destruct (udp_decision_fields p) as (F1 & _ & _ & _ & F5 & _ & F7).
  rewrite hook_law, installed_chains. chain_types.
  rewrite Ru, udp_chain by done. cbn [traverse]. rewrite F5. destruct (p_new p); [|done].
  rewrite Rt, tcp_rules; [|split; [cbn [pkt fresh]; rewrite F1; apply Hp|done]|cbn [pkt fresh]; by rewrite F1].
  cbn [pkt fresh]. by destruct (tcp_decision listeners _) as [[] ?].
Qed.

Lemma input_hook p :
  packet_ok p -> p_iif p = index ->
  nf_hook installed ChainHookInput p = (if input_accepts listeners p then VerdictAccept else VerdictDrop, p).
Proof.
  intros Hp Hi. destruct installed_rules as (_ & _ & Ri & _). rewrite hook_law, installed_chains.
  chain_types. rewrite Ri, input_chain by done. by destruct (input_accepts listeners p).
Qed.

Lemma forward_hook p :
  packet_ok p -> p_iif p = index -> nf_hook installed ChainHookForward p = (VerdictDrop, p).
Proof.
  intros Hp Hi. destruct installed_rules as (_ & _ & _ & Rf). rewrite hook_law, installed_chains.
  chain_types. by rewrite Rf, forward_chain.
Qed.

Lemma installed_interface h c :
  In c (base_chains installed h) ->
  Forall (fun r => exists es, r = interfaceMatch nf_little index ++ es) (rules_of installed c).
Proof.
  destruct installed_rules as (Ru & Rt & Ri & Rf). rewrite installed_chains. intros Hc.
  assert (c = udpPrerouting table \/ c = prerouting table \/ c = input table \/ c = forward table) as Hcs.
  { destruct h; simpl in Hc; intuition. }
  destruct Hcs as [-> | [-> | [-> | ->]]]; rewrite ?Ru, ?Rt, ?Ri, ?Rf.
  - constructor; [by eexists|]. apply Forall_map, Forall_true. intros l. by eexists.
  - apply Forall_map, Forall_true. intros l. by eexists.
  - unfold input_rules. repeat (constructor; [by eexists|]). apply Forall_app. split; [|constructor; [by eexists|done]].
    apply Forall_map, Forall_true. intros l. by eexists.
  - constructor; [by eexists|done].
Qed.

Lemma other_hook h p :
  packet_ok p -> p_iif p <> index ->
  nf_hook installed h p =
  (VerdictAccept, if decide (h = ChainHookPrerouting) then if p_new p then p else nf_mapping p else p).
Proof.
  intros Hp Hi. assert (forall c, In c (base_chains installed h) ->
    nf_chain (rules_of installed c) (fresh p) = (VerdictAccept, p)) as Hc.
  { intros c Hin. rewrite other_interface; [done..|]. by apply (installed_interface h). }
  rewrite hook_law. rewrite installed_chains in *.
  destruct h; chain_types.
  - rewrite (Hc (udpPrerouting table)) by (by left). destruct (p_new p) eqn:En; [|done].
    by rewrite (Hc (prerouting table)) by (by right; left).
  - by rewrite (Hc (input table)) by (by left).
  - by rewrite (Hc (forward table)) by (by left).
Qed.

(** What prerouting keeps, whatever it decides. *)
Lemma prerouting_keeps p v p' :
  packet_ok p -> p_iif p = index -> nf_hook installed ChainHookPrerouting p = (v, p') ->
  packet_ok p' /\ p_iif p' = index /\ p_nfproto p' = p_nfproto p /\ p_l4proto p' = p_l4proto p /\
  p_mark p' = p_mark (udp_decision listeners udp p) /\ p_socket p' = p_socket (udp_decision listeners udp p) /\
  p_connected p' = p_connected (udp_decision listeners udp p).
Proof.
  intros Hp Hi. rewrite prerouting_hook by done. cbn zeta.
  destruct (udp_decision_fields p) as (F1 & F2 & F3 & _ & _ & _ & F7).
  destruct (p_new p).
  - unfold tcp_decision. destruct (List.find _ _); [destruct (nf_local _)|]; intros [= <- <-]; cbn;
      unfold packet_ok; cbn; rewrite ?F1, ?F2, ?F3, ?Hi; split_and!; done || lia.
  - destruct (mapping_law (udp_decision listeners udp p)) as (hd & st & ->). intros [= <- <-].
    unfold packet_ok; cbn; rewrite ?F1, ?F2, ?F3, ?Hi; split_and!; done || lia.
Qed.
End Interface.
End Kernel.

(** ** Properties *)

(** Claim C2: The workload is confined. Under the rules that [redirectRules]
    queues, nothing that arrives from the workload's interface is forwarded, and
    what is delivered locally after prerouting is ICMP; or UDP, to port 53 unless
    UDP is enabled, that was handed to the UDP listener of its family (or, by
    [p_connected], to a transparent socket that is connected to its flow), whatever
    mark the workload set; or TCP of a connection that was translated and whose
    destination is the TCP listener of its family. *)
Theorem workload_confined `{NetfilterLaws} (table : string) (index : Z) (listeners : list ports) (udp : bool)
    (p p' : packet) :
  0 <= index < 2 ^ 32 -> packet_ok p -> p_iif p = index ->
  let calls := redirectRules nf_little table index listeners udp in
  nf_hook calls ChainHookPrerouting p = (VerdictAccept, p') ->
  (nf_hook calls ChainHookForward p').1 = VerdictDrop /\
  ((nf_hook calls ChainHookInput p').1 = VerdictAccept ->
   p_l4proto p = IPPROTO_ICMP \/ p_l4proto p = IPPROTO_ICMPV6 \/
   exists l, In l listeners /\ l_family l = p_nfproto p /\
     ((p_l4proto p = IPPROTO_UDP /\ (udp = true \/ dport p = Some (big_endian 2 53)) /\
       p_socket p' = Some (big_endian 2 (l_udp l))) \/
      (p_l4proto p = IPPROTO_TCP /\ dport p' = Some (big_endian 2 (l_tcp l)) /\
       Z.testbit (p_status p') 5 = true))).
Proof.
  intros Hindex Hp Hi calls Hpre.
  destruct (prerouting_keeps index Hindex listeners udp table p _ p' Hp Hi Hpre) as (Hp' & Hi' & Hf & Hl & Hm & Hs & _).
  unfold calls. rewrite forward_hook, input_hook by done. split; [done|]. cbn [fst].
  destruct (input_accepts listeners p') eqn:Ha; [intros _|done]. unfold input_accepts in Ha.
  rewrite !orb_true_iff, Hl, !Z.eqb_eq in Ha. destruct Ha as [[[Ha|Ha]|Ha]|Ha]; [|by left|by right; left|].
  - right. right. apply andb_true_iff in Ha as [Hu Hk]. apply Z.eqb_eq in Hu, Hk. rewrite Hm in Hk. rewrite Hs.
    unfold udp_decision in *. destruct (List.find _ _) as [l|] eqn:Ef; [|done].
    apply find_some in Ef as [Hin Ht]. exists l. split; [done|]. unfold takes_udp, mentions in Ht. bool_to_prop.
    split; [done|]. left. split_and!; [done| |done]. destruct udp; [by left|right].
    match goal with H : false = true \/ _ |- _ => destruct H as [H|H]; [done|by apply bool_decide_eq_true in H] end.
  - right. right. apply existsb_exists in Ha as (l & Hin & Ht). exists l. split; [done|].
    unfold takes_translated, mentions in Ht. bool_to_prop. rewrite Hf, Hl in *.
    split; [done|]. right. split_and!; [done|by eapply bool_decide_eq_true|done].
Qed.

(** The listener of a family, where families are distinct. *)
Lemma find_listener (f : ports -> bool) listeners l :
  NoDup (map l_family listeners) -> In l listeners -> f l = true ->
  (forall l', f l' = true -> l_family l' = l_family l) -> List.find f listeners = Some l.
Proof.
  intros Hnd Hin Hl Hf. destruct (List.find f listeners) as [l'|] eqn:E.
  - apply find_some in E as [Hin' Hl']. f_equal. specialize (Hf l' Hl').
    apply list_elem_of_In in Hin, Hin'.
    apply list_elem_of_lookup in Hin as [i Hi]. apply list_elem_of_lookup in Hin' as [j Hj].
    assert (i = j) as ->.
    { apply (NoDup_lookup (map l_family listeners) i j (l_family l) Hnd); rewrite list_lookup_fmap;
        [by rewrite Hi|rewrite Hj; simpl; by rewrite Hf]. }
    congruence.
  - by rewrite (find_none _ _ E l Hin) in Hl.
Qed.

(** Claim C23: The workload is served. With one listener for each family: if the
    interface has an address, the first packet of every TCP connection of the
    workload is translated to the TCP listener of its family and accepted for local
    delivery. And if the UDP listeners exist, and no socket is connected to the
    workload's flows that is not transparent, every UDP packet, if UDP is enabled or
    it goes to port 53, is marked for the policy route and accepted, and assigned to
    the socket that is connected to its flow, where the proxy has opened one to
    reply from, and otherwise to the UDP listener of its family. *)
Theorem workload_served `{NetfilterLaws} (table : string) (index : Z) (listeners : list ports) (udp : bool)
    (l : ports) (p : packet) :
  0 <= index < 2 ^ 32 -> packet_ok p -> p_iif p = index ->
  NoDup (map l_family listeners) -> In l listeners -> p_nfproto p = l_family l ->
  (4 <= List.length (p_header p))%nat ->
  let calls := redirectRules nf_little table index listeners udp in
  (p_l4proto p = IPPROTO_TCP -> p_new p = true -> (forall q, nf_local q = true) ->
   exists p', nf_hook calls ChainHookPrerouting p = (VerdictAccept, p') /\
     dport p' = Some (big_endian 2 (l_tcp l)) /\ nf_hook calls ChainHookInput p' = (VerdictAccept, p')) /\
  (p_l4proto p = IPPROTO_UDP -> udp = true \/ dport p = Some (big_endian 2 53) ->
   (forall q, nf_socket (l_family l) (big_endian 2 (l_udp l)) q = true) ->
   (forall q, nf_connected q <> Some false) ->
   exists p', nf_hook calls ChainHookPrerouting p = (VerdictAccept, p') /\
     p_socket p' = Some (big_endian 2 (l_udp l)) /\
     (p_connected p' = true <-> is_Some (nf_connected (set_mark 0 p))) /\ p_mark p' = routingMark /\
     nf_hook calls ChainHookInput p' = (VerdictAccept, p')).
Proof.
  intros Hindex Hp Hi Hnd Hin Hf Hlen calls.
  destruct (nf_hook calls ChainHookPrerouting p) as [v p'] eqn:Hpre.
  destruct (prerouting_keeps index Hindex listeners udp table p v p' Hp Hi Hpre) as (Hp' & Hi' & Hf' & Hl' & Hm' & Hs' & Hc').
  unfold calls in *. rewrite prerouting_hook in Hpre by done. cbn zeta in Hpre.
  destruct (udp_decision_fields listeners udp p) as (F1 & F2 & F3 & F4 & F5 & F6 & F7).
  split.
  - intros Ht Hn Hloc. rewrite Hn in Hpre. unfold tcp_decision in Hpre.
    rewrite (find_listener _ listeners l) in Hpre; [|done..| |].
    + rewrite Hloc in Hpre. assert (v = VerdictAccept) as -> by congruence.
      assert (p' = translated (big_endian 2 (l_tcp l)) (udp_decision listeners udp p)) as -> by congruence.
      eexists. split; [done|].
      assert (dport (translated (big_endian 2 (l_tcp l)) (udp_decision listeners udp p)) =
        Some (big_endian 2 (l_tcp l))) as Hd.
      { unfold dport. cbn [p_header translated]. rewrite F4, !length_app, length_take, length_drop, big_endian_length.
        rewrite (proj2 (Nat.leb_le 4 _)) by lia. f_equal.
        rewrite drop_app_le by (rewrite length_take; lia). rewrite drop_ge by (rewrite length_take; lia).
        cbn [app]. rewrite take_app_le by (rewrite big_endian_length; lia).
        apply take_ge. rewrite big_endian_length. lia. }
      split; [done|]. rewrite input_hook by done. unfold input_accepts.
      rewrite (proj2 (existsb_exists (takes_translated _) listeners)), ?orb_true_r; [done|].
      exists l. split; [done|]. unfold takes_translated, mentions. rewrite Hd, Hf', Hl', Hf, Ht.
      rewrite bool_decide_true, !Z.eqb_refl by done. cbn [p_status translated andb].
      rewrite Z.lor_spec. unfold statusDestinationNAT. by rewrite orb_true_r.
    + unfold mentions. by rewrite F2, F3, Hf, Ht, !Z.eqb_refl.
    + unfold mentions. intros l' Hm. bool_to_prop. congruence.
  - intros Hu Hport Hsock Hcon. exists p'.
    assert (p_mark p' = routingMark /\ p_socket p' = Some (big_endian 2 (l_udp l)) /\
      (p_connected p' = true <-> is_Some (nf_connected (set_mark 0 p)))) as (Hk & Hsk & Hck).
    { rewrite Hm', Hs', Hc'. unfold udp_decision. rewrite (find_listener _ listeners l); [|done..| |].
      - split_and!; [done|done|]. cbn [p_connected to_socket set_mark set_socket].
        destruct (nf_connected (set_mark 0 p)) as [t|]; split; try done.
      - assert (tproxied (l_family l) (big_endian 2 (l_udp l)) (set_mark 0 p) = true) as Htp.
        { unfold tproxied. specialize (Hcon (set_mark 0 p)). destruct (nf_connected _) as [[]|]; [done|done|apply Hsock]. }
        unfold takes_udp, mentions. rewrite Htp. cbn [p_nfproto p_l4proto set_mark]. rewrite Hf, Hu, !Z.eqb_refl.
        destruct Hport as [->|Hd]; [done|]. unfold dport in *. cbn [p_header set_mark]. rewrite Hd.
        by rewrite bool_decide_true, orb_true_r by done.
      - unfold takes_udp, mentions. intros l' Hm. bool_to_prop. cbn [p_nfproto set_mark] in *. congruence. }
    assert (v = VerdictAccept) as ->.
    { destruct (p_new p); [|congruence]. unfold tcp_decision in Hpre.
      destruct (List.find _ _) as [l'|] eqn:Ef; [|congruence]. apply find_some in Ef as [_ Hm].
      unfold mentions in Hm. bool_to_prop. rewrite F3, Hu in *. done. }
    split_and!; [done..|]. rewrite input_hook by done. unfold input_accepts. by rewrite Hl', Hu, Hk.
Qed.

(** Other interfaces are untouched. A packet of any other interface
    passes every hook with the verdict and the fields it had; only the
    translation of a connection that was translated before still applies. *)
Theorem other_interfaces_untouched `{NetfilterLaws} (table : string) (index : Z) (listeners : list ports)
    (udp : bool) (h : Hook) (p : packet) :
  0 <= index < 2 ^ 32 -> packet_ok p -> p_iif p <> index ->
  nf_hook (redirectRules nf_little table index listeners udp) h p =
  (VerdictAccept, if decide (h = ChainHookPrerouting) then if p_new p then p else nf_mapping p else p).
Proof. intros Hindex Hp Hi. by apply other_hook. Qed.

(** ** Witnesses *)

(** The flow from source port 51202 has a socket connected to it. *)
Definition sample_connected (p : packet) : option bool :=
  if bool_decide (take 2 (p_header p) = [200; 2]) then Some true else None.

(** A kernel that evaluates the rules as the laws say. *)
Definition eval_expr (e : Any) (m : vm) : effect :=
  let reg r := default [] (regs m !! r) in
  match e with
  | Meta k false r =>
      Next (set_reg r (match k with
                       | MetaKeyIIF => native_uint32 true (p_iif (pkt m))
                       | MetaKeyL4PROTO => [p_l4proto (pkt m)]
                       | MetaKeyNFPROTO => [p_nfproto (pkt m)]
                       | MetaKeyMARK => native_uint32 true (p_mark (pkt m))
                       end) m)
  | Meta MetaKeyMARK true r => Next (set_pkt (set_mark (be_value (rev (reg r))) (pkt m)) m)
  | Meta _ true _ => Break m
  | Cmp op r data => if compares op (reg r) data then Next m else Break m
  | Payload r off n => if (off + n <=? List.length (p_header (pkt m)))%nat
                       then Next (set_reg r (take n (drop off (p_header (pkt m)))) m) else Break m
  | Immediate r data => Next (set_reg r data m)
  | TProxy family r => Next (set_pkt (set_socket (reg r) (bool_decide (is_Some (sample_connected (pkt m)))) (pkt m)) m)
  | Redir r => Final VerdictAccept (translated (reg r) (pkt m))
  | CtStatus r => Next (set_reg r (native_uint32 true (p_status (pkt m))) m)
  | Bitwise src dst mask xor => Next (set_reg dst (masked (reg src) mask xor) m)
  | Verdict k => Final k (pkt m)
  | Reject _ _ => Final VerdictDrop (pkt m)
  end.

Fixpoint eval_rule (es : list Any) (m : vm) : effect :=
  match es with
  | [] => Break m
  | e :: es => match eval_expr e m with Next m => eval_rule es m | r => r end
  end.

Fixpoint eval_chain (rs : list (list Any)) (m : vm) : VerdictKind * packet :=
  match rs with
  | [] => (VerdictAccept, pkt m)
  | es :: rs => match eval_rule es m with
                | Next m | Break m => eval_chain rs m
                | Final v p => (v, p)
                end
  end.

Definition same_mapping (p : packet) : packet := p.

#[local] Instance sample_kernel : Netfilter := {
  nf_little := true; nf_expr := eval_expr; nf_chain := eval_chain;
  nf_hook := fun calls h p => traverse eval_chain same_mapping calls (base_chains calls h) p;
  nf_mapping := same_mapping; nf_socket := fun _ _ _ => true; nf_connected := sample_connected; nf_local := fun _ => true;
}.

#[local] Instance sample_laws : NetfilterLaws (H := sample_kernel).
Proof.
  split; cbn [nf_expr nf_chain nf_hook nf_mapping nf_socket nf_connected nf_local nf_little sample_kernel]; try done.
  - by intros [] r m.
  - intros r v m Hr Hv. cbn [eval_expr]. rewrite Hr. do 3 f_equal. change (be_value (rev (rev (big_endian 4 v))) = v).
    rewrite rev_involutive. by apply be_value_big_endian.
  - intros op r data v m Hr _. cbn [eval_expr]. by rewrite Hr.
  - intros family r port m Hr _. cbn [eval_expr]. rewrite Hr. unfold tproxied, to_socket.
    cbn [nf_connected nf_socket sample_kernel]. unfold sample_connected. by destruct (bool_decide (take 2 _ = _)).
  - intros r port m Hr. cbn [eval_expr]. by rewrite Hr.
  - intros src dst mask xor v m Hr _ _. cbn [eval_expr]. by rewrite Hr.
  - intros e es rs m. cbn [eval_chain eval_rule]. by destruct (eval_expr e m).
  - intros p. exists (p_header p), (p_status p). by destruct p.
Qed.

Definition sample_listeners : list ports := [mkPorts 2 40001 40002; mkPorts 10 40003 40004].

(** A TCP segment of interface 7. *)
Definition sample_tcp : packet := mkPacket 7 2 6 [200; 1; 1; 187; 0; 0] 0 true 0 None false.

Lemma workload_confined_witness :
  exists p', nf_hook (redirectRules true "t" 7 sample_listeners false) ChainHookPrerouting sample_tcp = (VerdictAccept, p') /\
    (nf_hook (redirectRules true "t" 7 sample_listeners false) ChainHookForward p').1 = VerdictDrop.
Proof.
  eexists. split; [vm_compute; reflexivity|].
  refine (proj1 (workload_confined "t" 7 sample_listeners false sample_tcp _ _ _ _ _)); [lia| |reflexivity|vm_compute; reflexivity].
  split; cbn; lia.
Defined.

(** A DNS query of a flow that the proxy has opened. *)
Definition sample_open_flow : packet := mkPacket 7 10 17 [200; 2; 0; 53] 0 false 0 None false.

Lemma workload_served_witness :
  exists p', nf_hook (redirectRules true "t" 7 sample_listeners false) ChainHookPrerouting sample_open_flow = (VerdictAccept, p') /\
    p_socket p' = Some (big_endian 2 40004) /\ (p_connected p' = true <-> is_Some (Some true)) /\ p_mark p' = routingMark /\
    nf_hook (redirectRules true "t" 7 sample_listeners false) ChainHookInput p' = (VerdictAccept, p').
Proof.
  refine (proj2 (workload_served "t" 7 sample_listeners false (mkPorts 10 40003 40004) sample_open_flow _ _ _ _ _ _ _) _ _ _ _);
    try reflexivity; [lia|split; cbn; unfold routingMark; lia| |right; left; reflexivity|right; reflexivity|].
  - apply (bool_decide_eq_true_1 (NoDup (map l_family sample_listeners))). reflexivity.
  - intros q. cbn. unfold sample_connected. case_bool_decide; discriminate.
Defined.

Lemma other_interfaces_untouched_witness :
  nf_hook (redirectRules true "t" 8 sample_listeners true) ChainHookInput sample_tcp = (VerdictAccept, sample_tcp).
Proof.
  refine (other_interfaces_untouched "t" 8 sample_listeners true ChainHookInput sample_tcp _ _ _);
    [lia|split; cbn; lia|discriminate].
Defined.
