(* ===== verification/ConnectH2.v ===== *)
(** * The boundary client over HTTP/2

    [BoundaryClientH2] of [sdk/pkg/tun2connect/connect_h2.go]: the shared session
    with its TLS set-up, one stream for each dial, and the stream's end. The
    transport, TLS and the HTTP/2 session are an environment: for each call, what
    they answer; what the client does to them is a list of events. [h2_dial] is
    one dial by itself. The client's mutex covers [session] only: the section on
    concurrent dials interleaves any number of dials step by step, and shows what
    the mutex guarantees, and that each dial still does what [h2_dial] says. *)

From S2P Require Import Prelude GoStrings Netip Policy PolicyRules PolicyLoad Http Connect Head Boundary.

Local Open Scope go_scope.

(** ** The client *)

(** The fields of [tls.Config] that the client reads and sets. *)
Record tls_config := mkTLS {
  NextProtos : list string; ServerName : string; InsecureSkipVerify : bool;
}.

(** [cc] is the transport the shared session runs on; transports are named by
    the dial that opened them. *)
Record BoundaryClientH2 := mkClientH2 {
  TLS : option tls_config;
  h2_Authority : string;
  h2_Header : Header;
  h2_t : bool;
  h2_cc : option nat;
}.

Definition h2_authority (c : BoundaryClientH2) : string :=
  if negb (String.eqb (h2_Authority c) EmptyString) then h2_Authority c else "boundary".

(** What the environment answers to one call: the dial, the handshake with the
    negotiated protocol, the new session, the response or error of the stream,
    and whether the dial's context ended before [stop]. *)
Record answers := mkAnswers {
  a_dial : Result nat;
  a_handshake : Result string;
  a_new : Result unit;
  a_response : Result Response;
  a_cancelled : bool;
}.

Inductive h2_event : Type :=
| DialBoundary (id : nat)
| TLSClient (id : nat) (cfg : tls_config)
| Negotiated (id : nat) (protocol : string)
| CloseTransport (id : nat)
| NewClientConn (id : nat)
| Pipe
| AfterFunc                                  (* the context of the dial cancels the stream *)
| RoundTrip (id : nat) (r : Request)
| Stop                                       (* it no longer does *)
| Cancel
| ClosePipe
| CloseBody
| ContextDone.                               (* the environment: the dial's context ends *)

(** The clone of the configuration, with its defaults. *)
Definition client_config (c : BoundaryClientH2) (cfg : tls_config) : tls_config :=
  let protos := match NextProtos cfg with [] => ["h2"%string] | ps => ps end in
  let name := if String.eqb (ServerName cfg) EmptyString && negb (InsecureSkipVerify cfg)
              then h2_authority c else ServerName cfg in
  mkTLS protos name (InsecureSkipVerify cfg).

Definition set_session (c : BoundaryClientH2) (cc : option nat) : BoundaryClientH2 :=
  mkClientH2 (TLS c) (h2_Authority c) (h2_Header c) true cc.

(** A session that can take a stream is kept. *)
Definition usable (c : BoundaryClientH2) (can_take : nat -> bool) : bool :=
  match h2_cc c with Some cc => can_take cc | None => false end.

Definition h2_session (c : BoundaryClientH2) (can_take : nat -> bool) (a : answers)
  : list h2_event * BoundaryClientH2 * Result nat :=
  if usable c can_take then ([], c, or_err (h2_cc c) EmptyString) else
  let c := set_session c (h2_cc c) in
  match a_dial a with
  | Err e => ([], c, Err e)
  | Ok nc =>
      let new events :=
        match a_new a with
        | Err e => (events ++ [CloseTransport nc], c, Err e)
        | Ok _ => (events ++ [NewClientConn nc], set_session c (Some nc), Ok nc)
        end in
      match TLS c with
      | None => new [DialBoundary nc]
      | Some cfg =>
          let events := [DialBoundary nc; TLSClient nc (client_config c cfg)] in
          match a_handshake a with
          | Err _ => (events ++ [CloseTransport nc], c, Err "tun2connect: boundary TLS handshake: %w")
          | Ok proto =>
              if negb (String.eqb proto "h2")
              then (events ++ [CloseTransport nc], c, Err "tun2connect: boundary negotiated %q, want h2")
              else new (events ++ [Negotiated nc proto])
          end
      end
  end.

(** The request with the configured headers. *)
Definition h2_with_header (c : BoundaryClientH2) (req : Request) : Request :=
  mkRequest (req_Method req) (req_URL req) (req_Host req) (add_headers (req_Header req) (h2_Header c)).

(** After [session]: the stream is opened on the session that it gave. *)
Definition h2_open (c : BoundaryClientH2) (cc : nat) (req : Request) : list h2_event :=
  [Pipe; AfterFunc; RoundTrip cc (h2_with_header c req)].

(** The return of [RoundTrip], and what [roundTrip] does with it. *)
Definition h2_answered (a : answers) : list h2_event * (Response + dial_error) :=
  let events := (if a_cancelled a then [ContextDone] else []) ++ [Stop] in
  match a_response a with
  | Err e => (events ++ [Cancel; ClosePipe], inr (Failed e))
  | Ok resp =>
      if (StatusCode resp <? 200) || (299 <? StatusCode resp)
      then (events ++ [Cancel; ClosePipe; CloseBody], inr (refusal resp))
      else (events, inl resp)
  end.

Definition h2_roundTrip (c : BoundaryClientH2) (can_take : nat -> bool) (a : answers) (req : Request)
  : list h2_event * BoundaryClientH2 * (Response + dial_error) :=
  match h2_session c can_take a with
  | (events, c, Err e) => (events, c, inr (Failed e))
  | (events, c, Ok cc) =>
      let (rest, out) := h2_answered a in (events ++ h2_open c cc req ++ rest, c, out)
  end.

Definition h2_tcp_request (name : string) (port : Z) : Request :=
  let hostport := join_host_port name (format_uint port) in
  mkRequest "CONNECT" (mkURL "http" hostport EmptyString EmptyString) hostport ∅.

Definition h2_udp_request (c : BoundaryClientH2) (name : string) (port : Z) : Request :=
  mkRequest "CONNECT" (udpProxyURL (h2_authority c) name port) (h2_authority c)
    (Set_ (Set_ ∅ ":protocol" "connect-udp") "Capsule-Protocol" "?1").

Definition h2_DialTCP (c : BoundaryClientH2) (can_take : nat -> bool) (a : answers) (name : string) (port : Z)
  : list h2_event * BoundaryClientH2 * (Response + dial_error) :=
  h2_roundTrip c can_take a (h2_tcp_request name port).

Definition h2_DialUDP (c : BoundaryClientH2) (can_take : nat -> bool) (a : answers) (name : string) (port : Z)
  : list h2_event * BoundaryClientH2 * (Response + dial_error) :=
  h2_roundTrip c can_take a (h2_udp_request c name port).

(** ** The stream *)

(** The halves of one stream: the request body's pipe, the response body, its
    context, and whether the context of the dial still cancels it. *)
Record h2Stream := mkStream { w_closed : bool; r_closed : bool; cancelled : bool; watched : bool }.

Definition stream_event (s : h2Stream) (e : h2_event) : h2Stream :=
  match e with
  | Pipe => mkStream false false false false
  | AfterFunc => mkStream (w_closed s) (r_closed s) (cancelled s) true
  | Stop => mkStream (w_closed s) (r_closed s) (cancelled s) false
  | Cancel => mkStream (w_closed s) (r_closed s) true (watched s)
  | ClosePipe => mkStream true (r_closed s) (cancelled s) (watched s)
  | CloseBody => mkStream (w_closed s) true (cancelled s) (watched s)
  | ContextDone => mkStream (w_closed s) (r_closed s) (cancelled s || watched s) (watched s)
  | _ => s
  end.

Definition no_stream : h2Stream := mkStream true true true false.
Definition stream_of (events : list h2_event) : h2Stream := fold_left stream_event events no_stream.

Definition h2Stream_CloseWrite (s : h2Stream) : h2Stream := stream_event s ClosePipe.
Definition h2Stream_Close (s : h2Stream) : h2Stream := fold_left stream_event [ClosePipe; CloseBody; Cancel] s.

(** ** One dial *)

Record h2_call := mkCall {
  k_udp : bool; k_name : string; k_port : Z; k_can_take : nat -> bool; k_answers : answers;
}.

Definition h2_dial (c : BoundaryClientH2) (k : h2_call) : list h2_event * BoundaryClientH2 * (Response + dial_error) :=
  (if k_udp k then h2_DialUDP else h2_DialTCP) c (k_can_take k) (k_answers k) (k_name k) (k_port k).

Definition h2_call_request (c : BoundaryClientH2) (k : h2_call) : Request :=
  if k_udp k then h2_udp_request c (k_name k) (k_port k) else h2_tcp_request (k_name k) (k_port k).

(** ** Concurrent dials *)

(** Where a dial is. From [Entered] to [Leaving] it holds [c.mu]. *)
Inductive dial_phase : Type :=
| Waiting                                    (* at [c.mu.Lock()] *)
| Entered                                    (* about to look at [c.cc] *)
| SettingUp (nc : nat)                       (* the transport is open *)
| Handshaking (nc : nat)
| Starting (nc : nat)                        (* about to start a session on it *)
| Leaving (r : Result nat)                   (* at the deferred [c.mu.Unlock()] *)
| Opening (cc : nat)
| Streaming                                  (* in [cc.RoundTrip] *)
| Returned (out : Response + dial_error).

(** The client that the dials share, the dial that holds its mutex, where each
    dial is, and what was done so far, oldest first and by which dial. *)
Record h2_world := mkWorld {
  w_client : BoundaryClientH2;
  w_mu : option nat;
  w_dials : list dial_phase;
  w_log : list (nat * h2_event);
}.

(** One step of a dial inside [session]. *)
Definition session_step (c : BoundaryClientH2) (can_take : nat -> bool) (a : answers) (p : dial_phase)
  : option (list h2_event * BoundaryClientH2 * dial_phase) :=
  match p with
  | Entered =>
      if usable c can_take then Some ([], c, Leaving (or_err (h2_cc c) EmptyString)) else
      let c := set_session c (h2_cc c) in
      match a_dial a with
      | Err e => Some ([], c, Leaving (Err e))
      | Ok nc => Some ([DialBoundary nc], c, SettingUp nc)
      end
  | SettingUp nc =>
      match TLS c with
      | None => Some ([], c, Starting nc)
      | Some cfg => Some ([TLSClient nc (client_config c cfg)], c, Handshaking nc)
      end
  | Handshaking nc =>
      match a_handshake a with
      | Err _ => Some ([CloseTransport nc], c, Leaving (Err "tun2connect: boundary TLS handshake: %w"))
      | Ok proto =>
          if negb (String.eqb proto "h2")
          then Some ([CloseTransport nc], c, Leaving (Err "tun2connect: boundary negotiated %q, want h2"))
          else Some ([Negotiated nc proto], c, Starting nc)
      end
  | Starting nc =>
      match a_new a with
      | Err e => Some ([CloseTransport nc], c, Leaving (Err e))
      | Ok _ => Some ([NewClientConn nc], set_session c (Some nc), Leaving (Ok nc))
      end
  | _ => None
  end.

Section Dials.
Context (ks : list h2_call).

Definition w_set (w : h2_world) (i : nat) (mu : option nat) (c : BoundaryClientH2) (p : dial_phase)
    (events : list h2_event) : h2_world :=
  mkWorld c mu (<[i := p]> (w_dials w)) (w_log w ++ map (pair i) events).

(** One step of dial [i]. *)
Definition h2_step (w : h2_world) (i : nat) : option h2_world :=
  let c := w_client w in
  match ks !! i, w_dials w !! i with
  | Some k, Some p =>
      match p with
      | Waiting =>
          match w_mu w with None => Some (w_set w i (Some i) c Entered []) | Some _ => None end
      | Leaving (Err e) => Some (w_set w i None c (Returned (inr (Failed e))) [])
      | Leaving (Ok cc) => Some (w_set w i None c (Opening cc) [])
      | Opening cc => Some (w_set w i (w_mu w) c Streaming (h2_open c cc (h2_call_request c k)))
      | Streaming =>
          let (events, out) := h2_answered (k_answers k) in Some (w_set w i (w_mu w) c (Returned out) events)
      | Returned _ => None
      | _ =>
          match session_step c (k_can_take k) (k_answers k) p with
          | Some (events, c, p) => Some (w_set w i (w_mu w) c p events)
          | None => None
          end
      end
  | _, _ => None
  end.

(** A schedule says which dial takes each step. *)
Fixpoint h2_run (w : h2_world) (schedule : list nat) : option h2_world :=
  match schedule with
  | [] => Some w
  | i :: schedule => match h2_step w i with Some w => h2_run w schedule | None => None end
  end.

Definition h2_start (c : BoundaryClientH2) : h2_world := mkWorld c None (map (fun _ => Waiting) ks) [].
End Dials.

(** What dial [i] did. *)
Definition own_events (i : nat) (log : list (nat * h2_event)) : list h2_event :=
  map snd (List.filter (fun e => (fst e =? i)%nat) log).

Definition holds_mutex (p : dial_phase) : bool :=
  match p with
  | Entered | SettingUp _ | Handshaking _ | Starting _ | Leaving _ => true
  | _ => false
  end.

(** ** A monitor of the transports *)

(** [m_sessions]: the sessions installed so far, newest first; [m_pending]: a
    transport that is being set up, the dial that does so, and whether its TLS
    connection negotiated h2. *)
Record monitor := mkMonitor { m_sessions : list nat; m_pending : option (nat * nat * bool) }.

(** [secure]: the client is configured for TLS. [None] is a violation. *)
Definition monitor_event (secure : bool) (m : monitor) (ie : nat * h2_event) : option monitor :=
  let (i, e) := ie in
  let mine (id : nat) := match m_pending m with
                         | Some (i', id', _) => (i =? i')%nat && (id =? id')%nat
                         | None => false
                         end in
  let negotiated := match m_pending m with Some (_, _, n) => n | None => false end in
  match e with
  | DialBoundary id =>
      match m_pending m with None => Some (mkMonitor (m_sessions m) (Some (i, id, false))) | Some _ => None end
  | TLSClient id cfg =>
      if mine id && secure && negb (bool_decide (NextProtos cfg = []))
         && (InsecureSkipVerify cfg || negb (String.eqb (ServerName cfg) EmptyString))
      then Some (mkMonitor (m_sessions m) (Some (i, id, false))) else None
  | Negotiated id proto =>
      if mine id && secure && String.eqb proto "h2"
      then Some (mkMonitor (m_sessions m) (Some (i, id, true))) else None
  | CloseTransport id => if mine id then Some (mkMonitor (m_sessions m) None) else None
  | NewClientConn id =>
      if mine id && Bool.eqb negotiated secure then Some (mkMonitor (id :: m_sessions m) None) else None
  | RoundTrip id _ => if bool_decide (id ∈ m_sessions m) then Some m else None
  | _ => Some m
  end.

Fixpoint monitors (secure : bool) (m : monitor) (log : list (nat * h2_event)) : option monitor :=
  match log with
  | [] => Some m
  | e :: log => match monitor_event secure m e with Some m => monitors secure m log | None => None end
  end.

(** ** Lemmas *)

Definition is_secure (c : BoundaryClientH2) : bool := match TLS c with Some _ => true | None => false end.

Lemma monitors_app secure log log' : forall m,
  monitors secure m (log ++ log') =
  match monitors secure m log with Some m => monitors secure m log' | None => None end.
Proof.
  induction log as [|e log IH]; intros m; [done|]. cbn [app monitors].
  destruct (monitor_event secure m e); [apply IH|done].
Qed.

Lemma authority_named c : h2_authority c <> EmptyString.
Proof. unfold h2_authority. destruct (String.eqb_spec (h2_Authority c) EmptyString); [done|by cbn]. Qed.

Lemma client_config_safe c cfg :
  negb (bool_decide (NextProtos (client_config c cfg) = [])) &&
  (InsecureSkipVerify (client_config c cfg) || negb (String.eqb (ServerName (client_config c cfg)) EmptyString)) = true.
Proof.
  unfold client_config. cbn [NextProtos ServerName InsecureSkipVerify].
  destruct (NextProtos cfg); rewrite bool_decide_false by done; cbn [negb andb].
  all: destruct (InsecureSkipVerify cfg); cbn [negb orb]; rewrite ?andb_true_r; [done|].
  all: destruct (String.eqb (ServerName cfg) EmptyString) eqn:E; [|by rewrite E].
  all: by rewrite (proj2 (String.eqb_neq _ _) (authority_named c)).
Qed.

(** What a call of [session] changes and answers. *)
Lemma h2_session_given c can_take a events c' r :
  h2_session c can_take a = (events, c', r) ->
  match r with Ok cc => h2_cc c' = Some cc | Err _ => h2_cc c' = h2_cc c end.
Proof.
  unfold h2_session, usable. destruct (match h2_cc c with Some cc => can_take cc | None => false end) eqn:Eu.
  { destruct (h2_cc c) as [cc|] eqn:Ec; [|done]. by intros [= <- <- <-]. }
  destruct (a_dial a) as [nc|e]; [|by intros [= <- <- <-]].
  destruct (TLS (set_session c (h2_cc c))); [destruct (a_handshake a) as [p|]; [destruct (negb (String.eqb p "h2"));
    [|destruct (a_new a)]|]|destruct (a_new a)]; by intros [= <- <- <-].
Qed.

Definition h2_success {A} (r : A + dial_error) : bool := match r with inl _ => true | inr _ => false end.

Definition open_stream : h2Stream := mkStream false false false false.

Lemma stream_of_app events events' : stream_of (events ++ events') = fold_left stream_event events' (stream_of events).
Proof. apply fold_left_app. Qed.

(** Nothing that [session] does touches a stream. *)
Lemma h2_session_streams c can_take a events c' r :
  h2_session c can_take a = (events, c', r) -> stream_of events = no_stream.
Proof.
  unfold h2_session. destruct (usable c can_take); [by intros [= <- _ _]|].
  destruct (a_dial a); [|by intros [= <- _ _]].
  destruct (TLS (set_session c (h2_cc c))); [destruct (a_handshake a) as [p|]; [destruct (negb (String.eqb p "h2"));
    [|destruct (a_new a)]|]|destruct (a_new a)]; by intros [= <- _ _].
Qed.

Lemma h2_dial_roundTrip c k :
  h2_dial c k = h2_roundTrip c (k_can_take k) (k_answers k) (h2_call_request c k).
Proof. unfold h2_dial, h2_call_request. by destruct (k_udp k). Qed.

(** What the dials share and never change. *)
Definition same_config (c c' : BoundaryClientH2) : Prop :=
  TLS c' = TLS c /\ h2_Authority c' = h2_Authority c /\ h2_Header c' = h2_Header c.

Lemma h2_open_config c c' cc k :
  same_config c c' -> h2_open c' cc (h2_call_request c' k) = h2_open c cc (h2_call_request c k).
Proof.
  intros (_ & Ha & Hh). unfold h2_open, h2_with_header, h2_call_request, h2_udp_request, h2_authority. by rewrite Ha, Hh.
Qed.

Lemma set_session_config c cc : same_config c (set_session c cc).
Proof. done. Qed.

Lemma session_step_config c can_take a p events c' p' :
  session_step c can_take a p = Some (events, c', p') -> same_config c c'.
Proof. unfold session_step. intros Hs. repeat case_match; by simplify_eq/=. Qed.

(** The steps of a dial inside [session], to the end. *)
Inductive session_runs (can_take : nat -> bool) (a : answers) :
    BoundaryClientH2 -> dial_phase -> list h2_event -> BoundaryClientH2 -> Result nat -> Prop :=
| runs_leaving c r : session_runs can_take a c (Leaving r) [] c r
| runs_step c p events c1 p1 rest c' r :
    session_step c can_take a p = Some (events, c1, p1) -> session_runs can_take a c1 p1 rest c' r ->
    session_runs can_take a c p (events ++ rest) c' r.

Lemma session_runs_next can_take a c p all c' r events c1 p1 :
  session_runs can_take a c p all c' r -> session_step c can_take a p = Some (events, c1, p1) ->
  exists rest, all = events ++ rest /\ session_runs can_take a c1 p1 rest c' r.
Proof. intros Hr Hs. destruct Hr as [|? ? ? ? ? rest]; [done|]. exists rest. by simplify_eq. Qed.

Lemma runs_event can_take a c p e c1 p1 rest c' r :
  session_step c can_take a p = Some ([e], c1, p1) -> session_runs can_take a c1 p1 rest c' r ->
  session_runs can_take a c p (e :: rest) c' r.
Proof. apply (runs_step can_take a c p [e]). Qed.

Lemma runs_quiet can_take a c p c1 p1 rest c' r :
  session_step c can_take a p = Some ([], c1, p1) -> session_runs can_take a c1 p1 rest c' r ->
  session_runs can_take a c p rest c' r.
Proof. apply (runs_step can_take a c p []). Qed.

(** They are [h2_session], when nothing else touches the client. *)
Lemma h2_session_runs c can_take a events c' r :
  h2_session c can_take a = (events, c', r) -> session_runs can_take a c Entered events c' r.
Proof.
  unfold h2_session. intros Hs.
  destruct (usable c can_take) eqn:Eu; [simplify_eq; eapply runs_quiet; [cbn; by rewrite Eu|constructor]|].
  destruct (a_dial a) as [nc|e] eqn:Ed; [|simplify_eq; eapply runs_quiet; [cbn; by rewrite Eu, Ed|constructor]].
  set (c1 := set_session c (h2_cc c)) in *.
  assert (forall rest, session_runs can_take a c1 (SettingUp nc) rest c' r ->
    session_runs can_take a c Entered (DialBoundary nc :: rest) c' r) as Hdial.
  { intros rest. apply runs_event. cbn. by rewrite Eu, Ed. }
  assert (forall events before, (match a_new a with
      | Ok _ => (before ++ [NewClientConn nc], set_session c1 (Some nc), Ok nc)
      | Err e => (before ++ [CloseTransport nc], c1, Err e) end) = (events, c', r) ->
    exists rest, events = before ++ rest /\ session_runs can_take a c1 (Starting nc) rest c' r) as Hnew.
  { intros ev before. destruct (a_new a) eqn:En; intros; simplify_eq; eexists; (split; [reflexivity|]);
      (eapply runs_event; [cbn; by rewrite En|constructor]). }
  assert (forall e cfg, TLS c1 = Some cfg -> (events, c', r) = ([DialBoundary nc; TLSClient nc (client_config c1 cfg);
    CloseTransport nc], c1, Err e) -> session_step c1 can_take a (Handshaking nc) = Some ([CloseTransport nc], c1, Leaving (Err e)) ->
    session_runs can_take a c Entered events c' r) as Hfail.
  { intros e cfg Et [= -> -> ->] Hh. apply Hdial. eapply runs_event; [unfold session_step; by rewrite Et|].
    eapply runs_event; [exact Hh|constructor]. }
  destruct (TLS c1) as [cfg|] eqn:Et.
  - destruct (a_handshake a) as [proto|e] eqn:Eh; [destruct (negb (String.eqb proto "h2")) eqn:Ep|].
    + eapply Hfail; [done|by rewrite <- Hs|]. cbn. by rewrite Eh, Ep.
    + destruct (Hnew _ _ Hs) as (rest & -> & Hr). apply Hdial. eapply runs_event; [unfold session_step; by rewrite Et|].
      eapply runs_event; [cbn; by rewrite Eh, Ep|done].
    + eapply Hfail; [done|by rewrite <- Hs|]. cbn. by rewrite Eh.
  - destruct (Hnew _ _ Hs) as (rest & -> & Hr). apply Hdial. eapply runs_quiet; [unfold session_step; by rewrite Et|done].
Qed.

Lemma session_runs_config can_take a c p events c' r :
  session_runs can_take a c p events c' r -> same_config c c'.
Proof.
  induction 1 as [|c p events c1 p1 rest c' r Hs _ IH]; [done|]. apply session_step_config in Hs.
  destruct Hs as (? & ? & ?), IH as (? & ? & ?). split_and!; congruence.
Qed.

(** A dial that found the client as [found], between its steps: what it did and
    has left to do is what [h2_dial] does by itself. *)
Definition dial_ok (c : BoundaryClientH2) (k : h2_call) (p : dial_phase) (own : list h2_event)
    (found : BoundaryClientH2) : Prop :=
  let session c' events r := h2_session found (k_can_take k) (k_answers k) = (events, c', r) in
  match p with
  | Waiting => own = []
  | Opening cc => exists c', session c' own (Ok cc)
  | Streaming => exists c' cc events, session c' events (Ok cc) /\ own = events ++ h2_open found cc (h2_call_request found k)
  | Returned out => exists c', h2_dial found k = (own, c', out)
  | _ => exists rest c' r, session c' (own ++ rest) r /\ session_runs (k_can_take k) (k_answers k) c p rest c' r
  end.

Lemma own_events_app i log log' : own_events i (log ++ log') = own_events i log ++ own_events i log'.
Proof. unfold own_events. by rewrite List.filter_app, map_app. Qed.

Lemma own_events_tagged i j events : own_events i (map (pair j) events) = if (j =? i)%nat then events else [].
Proof.
  unfold own_events. destruct (j =? i)%nat eqn:E; induction events as [|e events IH]; cbn; rewrite ?E; try done.
  cbn. by rewrite IH.
Qed.

Lemma dial_ok_client c c' k p own found :
  holds_mutex p = false -> dial_ok c k p own found -> dial_ok c' k p own found.
Proof. by destruct p. Qed.

(** A step of a dial keeps it. *)
Lemma dial_ok_session c k p own found events c1 p1 :
  dial_ok c k p own found -> holds_mutex p = true ->
  session_step c (k_can_take k) (k_answers k) p = Some (events, c1, p1) ->
  dial_ok c1 k p1 (own ++ events) found /\ holds_mutex p1 = true.
Proof.
  intros Hok Hm Hs.
  assert (exists rest c' r, h2_session found (k_can_take k) (k_answers k) = (own ++ rest, c', r) /\
    session_runs (k_can_take k) (k_answers k) c p rest c' r) as (rest & c' & r & Hf & Hr) by (by destruct p).
  destruct (session_runs_next _ _ _ _ _ _ _ _ _ _ Hr Hs) as (rest' & -> & Hr').
  assert (holds_mutex p1 = true) as Hm1 by (unfold session_step in Hs; repeat case_match; by simplify_eq/=).
  split; [|done]. rewrite app_assoc in Hf. destruct p1; try done; cbn; eauto.
Qed.

Lemma dial_ok_leaving c k r own found :
  dial_ok c k (Leaving r) own found ->
  dial_ok c k (match r with Ok cc => Opening cc | Err e => Returned (inr (Failed e)) end) own found.
Proof.
  intros (rest & c' & r' & Hf & Hr). inversion Hr; subst; [|done]. rewrite app_nil_r in Hf.
  destruct r'; cbn; [by exists c'|]. exists c'. rewrite h2_dial_roundTrip. unfold h2_roundTrip. by rewrite Hf.
Qed.

Lemma dial_ok_opening c c1 k cc own found :
  dial_ok c k (Opening cc) own found -> same_config found c1 ->
  dial_ok c k Streaming (own ++ h2_open c1 cc (h2_call_request c1 k)) found.
Proof. intros (c' & Hf) Hc. exists c', cc, own. split; [done|]. by rewrite (h2_open_config found c1). Qed.

Lemma dial_ok_answered c k own found :
  dial_ok c k Streaming own found ->
  dial_ok c k (Returned (h2_answered (k_answers k)).2) (own ++ (h2_answered (k_answers k)).1) found.
Proof.
  intros (c' & cc & events & Hf & ->). exists c'. rewrite h2_dial_roundTrip. unfold h2_roundTrip. rewrite Hf.
  assert (same_config found c') as Hc by (eapply session_runs_config, h2_session_runs, Hf).
  destruct (h2_answered (k_answers k)) as [rest out]. cbn [fst snd]. rewrite <- app_assoc. do 3 f_equal.
  destruct Hc as (_ & _ & Hh). unfold h2_open, h2_with_header. by rewrite Hh.
Qed.

Section Interleaved.
Context (ks : list h2_call) (c0 : BoundaryClientH2).

(** The transport that the holder of the mutex is setting up. *)
Definition pending_at (i : nat) (p : dial_phase) : option (nat * nat * bool) :=
  match p with
  | SettingUp nc | Handshaking nc => Some (i, nc, false)
  | Starting nc => Some (i, nc, is_secure c0)
  | _ => None
  end.

Definition setting_up (w : h2_world) : option (nat * nat * bool) :=
  w_mu w ≫= fun i => w_dials w !! i ≫= pending_at i.

(** The call of dial [i] found the client at an earlier step of its own. *)
Definition found_at (schedule : list nat) (i : nat) (found : h2_world) : Prop :=
  exists before after, schedule = before ++ i :: after /\ h2_run ks (h2_start ks c0) before = Some found /\
    w_mu found = None /\ w_dials found !! i = Some Waiting /\ same_config c0 (w_client found).

Lemma found_later schedule i found j : found_at schedule i found -> found_at (schedule ++ [j]) i found.
Proof. intros (before & after & -> & H). exists before, (after ++ [j]). by rewrite <- app_assoc. Qed.

Record h2_inv (schedule : list nat) (w : h2_world) : Prop := {
  hi_config : same_config c0 (w_client w);
  hi_mutex i p : w_dials w !! i = Some p -> holds_mutex p = true <-> w_mu w = Some i;
  hi_holder i : w_mu w = Some i -> is_Some (w_dials w !! i);
  hi_calls i : is_Some (w_dials w !! i) <-> is_Some (ks !! i);
  hi_dials i k p : ks !! i = Some k -> w_dials w !! i = Some p ->
    p = Waiting /\ own_events i (w_log w) = [] \/
    exists found, found_at schedule i found /\ dial_ok (w_client w) k p (own_events i (w_log w)) (w_client found);
  hi_tls i nc : w_dials w !! i = Some (Handshaking nc) -> is_secure c0 = true;
  hi_monitor : exists m, monitors (is_secure c0) (mkMonitor [] None) (w_log w) = Some m /\
    hd_error (m_sessions m) = h2_cc (w_client w) /\ m_pending m = setting_up w /\
    forall i cc, w_dials w !! i = Some (Opening cc) \/ w_dials w !! i = Some (Leaving (Ok cc)) -> cc ∈ m_sessions m;
}.

Lemma h2_run_app w s1 s2 :
  h2_run ks w (s1 ++ s2) = match h2_run ks w s1 with Some w => h2_run ks w s2 | None => None end.
Proof. revert w. induction s1 as [|i s1 IH]; intros w; [done|]. cbn. destruct (h2_step ks w i); [apply IH|done]. Qed.

Lemma h2_inv_start : h2_cc c0 = None -> h2_inv [] (h2_start ks c0).
Proof.
  intros Hcc. assert (forall i p, w_dials (h2_start ks c0) !! i = Some p -> p = Waiting) as Hw.
  { intros i p. cbn. change (map (fun _ => Waiting) ks) with ((fun _ : h2_call => Waiting) <$> ks).
    rewrite list_lookup_fmap. by destruct (ks !! i) as [k|]; intros [= <-]. }
  constructor; cbn [w_client w_mu w_log]; try done.
  - intros i p Hp. by rewrite (Hw i p Hp).
  - intros i. cbn. change (map (fun _ => Waiting) ks) with ((fun _ : h2_call => Waiting) <$> ks).
    by rewrite list_lookup_fmap, fmap_is_Some.
  - intros i k p _ Hp. left. by rewrite (Hw i p Hp).
  - intros i nc H. apply Hw in H. done.
  - eexists. split; [reflexivity|]. split; [done|]. split; [done|]. intros i cc [H|H]; apply Hw in H; done.
Qed.

(** What the monitor says of a step. *)
Definition monitored (m : monitor) (i : nat) (events : list h2_event) (c' : BoundaryClientH2) (p' : dial_phase)
    (pending' : option (nat * nat * bool)) : Prop :=
  exists m', monitors (is_secure c0) m (map (pair i) events) = Some m' /\ m_sessions m ⊆ m_sessions m' /\
    hd_error (m_sessions m') = h2_cc c' /\ m_pending m' = pending' /\
    forall cc, p' = Opening cc \/ p' = Leaving (Ok cc) -> cc ∈ m_sessions m'.

(** A step changes the phase of its dial, and no other dial's events. *)
Lemma h2_inv_set schedule w i k p p' mu' c' events :
  h2_inv schedule w -> ks !! i = Some k -> w_dials w !! i = Some p -> same_config (w_client w) c' ->
  (holds_mutex p' = true <-> mu' = Some i) -> (forall j, j <> i -> mu' = Some j <-> w_mu w = Some j) ->
  (c' = w_client w \/ w_mu w = Some i) -> (forall nc, p' = Handshaking nc -> is_secure c0 = true) ->
  (exists found, found_at (schedule ++ [i]) i found /\
     dial_ok c' k p' (own_events i (w_log w) ++ events) (w_client found)) ->
  (forall m, hd_error (m_sessions m) = h2_cc (w_client w) -> m_pending m = setting_up w ->
     (forall cc, p = Opening cc \/ p = Leaving (Ok cc) -> cc ∈ m_sessions m) ->
     monitored m i events c' p' (setting_up (w_set w i mu' c' p' events))) ->
  h2_inv (schedule ++ [i]) (w_set w i mu' c' p' events).
Proof.
  intros Hinv Hk Hp Hc Hmu Hmus Hcl Htls Hdial Hmon. pose proof (lookup_lt_Some _ _ _ Hp) as Hlt.
  assert (forall j q, <[i := p']> (w_dials w) !! j = Some q -> j = i /\ q = p' \/ j <> i /\ w_dials w !! j = Some q) as Hl.
  { intros j q. destruct (decide (j = i)) as [->|Hj]; [rewrite list_lookup_insert_eq by done; intros [= <-]; by left|].
    rewrite list_lookup_insert_ne by done. by right. }
  destruct Hinv as [HI1 HI2 HI3 HI4 HI5 HI7 HI6]. constructor; cbn [w_set w_client w_mu w_dials w_log].
  - destruct HI1 as (? & ? & ?), Hc as (? & ? & ?). split_and!; congruence.
  - intros j q Hj. destruct (Hl j q Hj) as [[-> ->]|[Hne Hj']]; [done|]. rewrite (HI2 j q Hj'). by rewrite Hmus.
  - intros j Hj. apply lookup_lt_is_Some. rewrite length_insert. apply lookup_lt_is_Some.
    destruct (decide (j = i)) as [->|Hne]; [by eexists|]. apply HI3. by apply Hmus.
  - intros j. rewrite <- HI4, !lookup_lt_is_Some, length_insert. done.
  - intros j k' q Hkj Hj. rewrite own_events_app, own_events_tagged. destruct (Hl j q Hj) as [[-> ->]|[Hne Hj']].
    + rewrite Nat.eqb_refl. right. by simplify_eq.
    + rewrite (proj2 (Nat.eqb_neq i j)), app_nil_r by done. destruct (HI5 j k' q Hkj Hj') as [[-> Ho]|Hf]; [by left|right].
      destruct Hf as (found & Hf & Hok). exists found. split; [by apply found_later|].
      destruct Hcl as [->|Hmi]; [done|]. apply (dial_ok_client (w_client w)); [|done].
      destruct (holds_mutex q) eqn:Eq; [|done]. apply (HI2 j q Hj') in Eq. congruence.
  - intros j nc Hj. destruct (Hl j _ Hj) as [[-> Hq]|[Hne Hj']]; [by apply (Htls nc)|by apply (HI7 j nc)].
  - destruct HI6 as (m & Hm & Hh & Hpd & Hcc). destruct (Hmon m Hh Hpd) as (m' & Hm' & Hsub & Hh' & Hpd' & Hcc').
    { intros cc Hcc'. apply (Hcc i). rewrite Hp. by destruct Hcc' as [-> | ->]; auto. }
    exists m'. rewrite monitors_app, Hm. split_and!; try done. intros j cc Hj.
    destruct Hj as [Hj|Hj]; destruct (Hl j _ Hj) as [[-> Hq]|[Hne Hj']]; [apply Hcc'; auto|apply Hsub, (Hcc j); auto|apply Hcc'; auto|apply Hsub, (Hcc j); auto].
Qed.

(** The steps of a dial inside [session] satisfy the monitor. *)
Lemma session_step_monitored m i c can_take a p events c1 p1 :
  same_config c0 c -> session_step c can_take a p = Some (events, c1, p1) ->
  (forall nc, p = Handshaking nc -> is_secure c0 = true) ->
  hd_error (m_sessions m) = h2_cc c -> m_pending m = pending_at i p ->
  monitored m i events c1 p1 (pending_at i p1) /\ (forall nc, p1 = Handshaking nc -> is_secure c0 = true).
Proof.
  intros (Ht & _) Hs Htls Hh Hp. unfold monitored. destruct m as [sessions pending]. cbn [m_sessions m_pending] in *. subst pending.
  assert (is_secure c0 = match TLS c with Some _ => true | None => false end) as Esec by (unfold is_secure; by rewrite Ht).
  unfold pending_at. rewrite Esec in *. clear Ht Esec.
  destruct p as [| |nc|nc|nc|r|cc| |out]; try done; cbn [session_step] in Hs.
  - destruct (usable c can_take) eqn:Eu.
    + simplify_eq. split; [|done]. eexists. split_and!; try done. intros cc [|[= Hcc]]; [done|].
      unfold usable in Eu. destruct (h2_cc c1) as [cc'|]; [|done]. cbn in Hcc. injection Hcc as ->.
      destruct sessions; [done|]. injection Hh as ->. left.
    + destruct (a_dial a); simplify_eq; (split; [|done]); eexists; (split; [reflexivity|]); split_and!; try done;
        by intros cc [|].
  - destruct (TLS c) as [cfg|]; simplify_eq; (split; [|done]); eexists; (split; [cbn [map monitors monitor_event m_pending m_sessions];
      rewrite ?Nat.eqb_refl; cbn [andb]; rewrite ?client_config_safe; reflexivity|]);
      split_and!; try done; by intros cc [|].
  - rewrite (Htls nc eq_refl) in *.
    destruct (a_handshake a) as [proto|e]; [destruct (String.eqb proto "h2") eqn:Ep|]; cbn [negb] in Hs; simplify_eq;
      (split; [|done]); eexists; (split; [cbn [map monitors monitor_event m_pending m_sessions]; rewrite ?Nat.eqb_refl, ?Ep; reflexivity|]);
      split_and!; try done; by intros cc [|].
  - destruct (a_new a) as [|e]; simplify_eq; (split; [|done]); eexists;
      (split; [cbn [map monitors monitor_event m_pending m_sessions]; rewrite ?Nat.eqb_refl, ?eqb_reflx; reflexivity|]);
      (split_and!; [set_solver|done|done|]); intros cc [|[= <-]]; try done. left.
Qed.

(** Nor do the others touch a transport. *)
Lemma monitored_quiet m i events c' p' pending' :
  Forall (fun e => match e with
                   | Pipe | AfterFunc | Stop | Cancel | ClosePipe | CloseBody | ContextDone => True
                   | RoundTrip cc _ => cc ∈ m_sessions m
                   | _ => False
                   end) events ->
  hd_error (m_sessions m) = h2_cc c' -> m_pending m = pending' ->
  (forall cc, p' = Opening cc \/ p' = Leaving (Ok cc) -> cc ∈ m_sessions m) -> monitored m i events c' p' pending'.
Proof.
  intros HF Hh Hp Hcc. exists m. split_and!; try done. induction events as [|e events IH]; [done|].
  apply Forall_cons in HF as [He HF]. cbn [map monitors]. destruct e; try done; cbn [monitor_event]; try by apply IH.
  rewrite bool_decide_true by done. by apply IH.
Qed.

Lemma h2_answered_quiet a P :
  (forall e, match e with Stop | Cancel | ClosePipe | CloseBody | ContextDone => P e | _ => True end) ->
  Forall P (h2_answered a).1.
Proof.
  intros HP. pose proof (HP Stop). pose proof (HP Cancel). pose proof (HP ClosePipe). pose proof (HP CloseBody).
  pose proof (HP ContextDone). unfold h2_answered. destruct (a_cancelled a), (a_response a) as [resp|];
    try destruct (_ || _); by repeat constructor.
Qed.

Lemma setting_up_holder w i c p events :
  is_Some (w_dials w !! i) -> setting_up (w_set w i (Some i) c p events) = pending_at i p.
Proof.
  intros Hi. unfold setting_up. cbn.
  by rewrite list_lookup_insert_eq by (by apply lookup_lt_is_Some).
Qed.

(** A step outside of the set-up of a transport leaves the pending one alone. *)
Lemma setting_up_kept schedule w i p mu c p' events :
  h2_inv schedule w -> w_dials w !! i = Some p ->
  mu = w_mu w /\ holds_mutex p = false \/
  mu = None /\ w_mu w = Some i /\ pending_at i p = None \/
  mu = Some i /\ w_mu w = None /\ pending_at i p' = None ->
  setting_up (w_set w i mu c p' events) = setting_up w.
Proof.
  intros Hinv Hp Hmu. unfold setting_up. cbn [w_set w_mu w_dials].
  destruct Hmu as [[-> Hh]|[(-> & -> & Hpe)|(-> & -> & Hpe)]].
  - destruct (w_mu w) as [j|] eqn:Ej; [|done]. cbn.
    assert (j <> i) as Hj. { intros ->. apply (hi_mutex _ _ Hinv i p Hp) in Ej. congruence. }
    by rewrite list_lookup_insert_ne by done.
  - cbn. rewrite Hp. cbn. by rewrite Hpe.
  - cbn. by rewrite list_lookup_insert_eq by (by eapply lookup_lt_Some).
Qed.

Lemma setting_up_held schedule w i p :
  h2_inv schedule w -> w_dials w !! i = Some p -> holds_mutex p = true -> setting_up w = pending_at i p.
Proof. intros Hinv Hp Hh. unfold setting_up. apply (hi_mutex _ _ Hinv i p Hp) in Hh. rewrite Hh. cbn. by rewrite Hp. Qed.

Lemma h2_inv_found schedule w i k p :
  h2_inv schedule w -> ks !! i = Some k -> w_dials w !! i = Some p -> p <> Waiting ->
  exists found, found_at schedule i found /\ dial_ok (w_client w) k p (own_events i (w_log w)) (w_client found).
Proof.
  intros Hinv Hk Hp Hne. destruct (hi_dials _ _ Hinv i k p Hk Hp) as [[? _]|(found & H)]; [done|]. by exists found.
Qed.

Lemma h2_inv_session schedule w i k p events c1 p1 :
  h2_inv schedule w -> ks !! i = Some k -> w_dials w !! i = Some p ->
  session_step (w_client w) (k_can_take k) (k_answers k) p = Some (events, c1, p1) ->
  h2_inv (schedule ++ [i]) (w_set w i (w_mu w) c1 p1 events).
Proof.
  intros Hinv Hk Hp Hst. assert (p <> Waiting) as Hne by (by intros ->).
  assert (holds_mutex p = true) as Hh by (by destruct p).
  pose proof (proj1 (hi_mutex _ _ Hinv i p Hp) Hh) as Hmu.
  destruct (h2_inv_found _ _ _ _ _ Hinv Hk Hp Hne) as (found & Hf & Hok).
  destruct (dial_ok_session _ _ _ _ _ _ _ _ Hok Hh Hst) as [Hok1 Hh1].
  pose proof (setting_up_held _ _ _ _ Hinv Hp Hh) as Esu.
  assert (forall m, hd_error (m_sessions m) = h2_cc (w_client w) -> m_pending m = setting_up w ->
    monitored m i events c1 p1 (pending_at i p1) /\ (forall nc, p1 = Handshaking nc -> is_secure c0 = true)) as Hmon.
  { intros m Hhd Hpd. apply (session_step_monitored m i (w_client w) (k_can_take k) (k_answers k) p); try done;
      [apply Hinv|intros nc ->; by apply (hi_tls _ _ Hinv i nc)|congruence]. }
  apply (h2_inv_set schedule w i k p); try done.
  - by eapply session_step_config.
  - by right.
  - destruct (hi_monitor _ _ Hinv) as (m & _ & Hhd & Hpd & _). by apply (Hmon m).
  - exists found. by split; [apply found_later|].
  - intros m Hhd Hpd _. rewrite Hmu, (setting_up_holder w i c1 p1 events ltac:(by eexists)). by apply Hmon.
Qed.

Lemma h2_inv_step schedule w i w' :
  h2_run ks (h2_start ks c0) schedule = Some w -> h2_inv schedule w -> h2_step ks w i = Some w' ->
  h2_inv (schedule ++ [i]) w'.
Proof.
  intros Hrun Hinv Hs. unfold h2_step in Hs.
  destruct (ks !! i) as [k|] eqn:Hk; [|done]. destruct (w_dials w !! i) as [p|] eqn:Hp; [|done].
  pose proof (hi_mutex _ _ Hinv i p Hp) as Hmu. pose proof (fun H => h2_inv_found _ _ _ _ _ Hinv Hk Hp H) as Hfound.
  destruct p as [| |nc|nc|nc|r|cc| |out]; try done;
    try (destruct (session_step _ _ _ _) as [[[events c1] p1]|] eqn:Hst; [|done]; injection Hs as <-; by apply (h2_inv_session _ _ _ k _ _ _ _ Hinv Hk Hp)).
  - destruct (w_mu w) eqn:Emu; [done|]. injection Hs as <-.
    apply (h2_inv_set schedule w i k Waiting); try done; [intros j Hj; split; [intros [= ->]; done|by rewrite Emu]|by left| |].
    + exists w. split; [exists schedule, []; split_and!; try done; apply Hinv|].
      destruct (hi_dials _ _ Hinv i k Waiting Hk Hp) as [[_ Ho]|(? & _ & Ho)]; cbn in Ho; rewrite Ho;
        destruct (h2_session (w_client w) (k_can_take k) (k_answers k)) as [[ev c1] r] eqn:Es;
        exists ev, c1, r; (split; [done|by apply h2_session_runs]).
    + intros m Hhd Hpd _. apply monitored_quiet; try done; [|by intros cc [|]].
      rewrite Hpd. symmetry. apply (setting_up_kept schedule w i Waiting); auto.
  - assert (Hs' : exists p', w' = w_set w i None (w_client w) p' [] /\ p' = match r with Ok cc => Opening cc | Err e => Returned (inr (Failed e)) end).
    { destruct r; injection Hs as <-; eauto. }
    destruct Hs' as (p' & -> & Ep'). assert (w_mu w = Some i) as Emu by (by apply Hmu).
    apply (h2_inv_set schedule w i k (Leaving r)); try done.
    + rewrite Ep'. by destruct r.
    + intros j Hj. rewrite Emu. split; [done|]. intros [= ->]. done.
    + by left.
    + intros nc. rewrite Ep'. by destruct r.
    + destruct (Hfound ltac:(done)) as (found & Hf & Hok). exists found. split; [by apply found_later|].
      rewrite app_nil_r, Ep'. by apply dial_ok_leaving.
    + intros m Hhd Hpd Hcc. apply monitored_quiet; try done.
      * rewrite Hpd. symmetry. apply (setting_up_kept schedule w i (Leaving r)); auto.
      * intros cc Hp'. apply Hcc. right. rewrite Ep' in Hp'. destruct r; destruct Hp' as [[= ->]|]; done.
  - injection Hs as <-. apply (h2_inv_set schedule w i k (Opening cc)); try done; [by left| |].
    + destruct (Hfound ltac:(done)) as (found & Hf & Hok). exists found. split; [by apply found_later|].
      apply (dial_ok_opening (w_client w)); [done|]. destruct Hf as (? & ? & _ & _ & _ & _ & ? & ? & ?).
      destruct (hi_config _ _ Hinv) as (? & ? & ?). split_and!; congruence.
    + intros m Hhd Hpd Hcc. apply monitored_quiet; try done; [|rewrite (setting_up_kept schedule w i (Opening cc)); auto|by intros ? [|]].
      repeat constructor. apply Hcc. by left.
  - destruct (h2_answered (k_answers k)) as [events out] eqn:Ea. injection Hs as <-.
    apply (h2_inv_set schedule w i k Streaming); try done; [by left| |].
    + destruct (Hfound ltac:(done)) as (found & Hf & Hok). exists found. split; [by apply found_later|].
      pose proof (dial_ok_answered _ _ _ _ Hok) as Hok1. by rewrite Ea in Hok1.
    + intros m Hhd Hpd Hcc. apply monitored_quiet; try done; [|rewrite (setting_up_kept schedule w i Streaming); auto|by intros ? [|]].
      pose proof (h2_answered_quiet (k_answers k)) as Hq. rewrite Ea in Hq. apply Hq. by intros [].
Qed.

Lemma h2_run_inv schedule w :
  h2_cc c0 = None -> h2_run ks (h2_start ks c0) schedule = Some w -> h2_inv schedule w.
Proof.
  intros Hcc. revert w. induction schedule as [|i schedule IH] using rev_ind; intros w.
  { intros [= <-]. by apply h2_inv_start. }
  rewrite h2_run_app. destruct (h2_run ks (h2_start ks c0) schedule) as [w1|] eqn:Er; [|done].
  cbn [h2_run]. destruct (h2_step ks w1 i) eqn:Es; [|done]. intros [= <-].
  by apply (h2_inv_step schedule w1); [..|apply IH|].
Qed.
(** ** One transport for all *)

(** The boundary answers, and sessions keep accepting streams. *)
Definition usable_call (k : h2_call) : Prop :=
  is_ok (a_dial (k_answers k)) = true /\ is_ok (a_new (k_answers k)) = true /\
  a_handshake (k_answers k) = Ok "h2"%string /\ forall cc, k_can_take k cc = true.

Definition is_dial (e : nat * h2_event) : bool := match e with (_, DialBoundary _) => true | _ => false end.

Definition past_session (p : dial_phase) : bool :=
  match p with Leaving _ | Opening _ | Streaming | Returned _ => true | _ => false end.

(** The boundary was dialed once, or nobody has needed it yet. *)
Definition dialed_once (w : h2_world) : Prop :=
  count is_dial (w_log w) = (if bool_decide (h2_cc (w_client w) = None /\ setting_up w = None) then 0 else 1) /\
  (setting_up w <> None -> h2_cc (w_client w) = None) /\
  (forall i p, w_dials w !! i = Some p -> past_session p = true -> h2_cc (w_client w) <> None).

Lemma count_dials_app i events log :
  Forall (fun e => match e with DialBoundary _ => False | _ => True end) events ->
  count is_dial (log ++ map (pair i) events) = count is_dial log.
Proof.
  intros HF. unfold count. rewrite List.filter_app, List.length_app.
  assert (List.filter is_dial (map (pair i) events) = []) as ->; [|cbn; lia].
  induction HF as [|e events He _ IH]; [done|]. cbn. by destruct e.
Qed.

(** A step that neither dials nor ends a set-up. *)
Lemma dialed_once_kept w i p p' mu events :
  dialed_once w -> w_dials w !! i = Some p -> (past_session p' = true -> past_session p = true) ->
  setting_up (w_set w i mu (w_client w) p' events) = setting_up w ->
  Forall (fun e => match e with DialBoundary _ => False | _ => True end) events ->
  dialed_once (w_set w i mu (w_client w) p' events).
Proof.
  intros (Hc & Hsu & Hpast) Hp Hpp Eset HF. unfold dialed_once. rewrite Eset. cbn [w_set w_client w_log w_dials].
  rewrite count_dials_app by done. split_and!; try done. intros j q Hj Hq.
  destruct (decide (j = i)) as [->|Hne].
  - rewrite list_lookup_insert_eq in Hj by (by eapply lookup_lt_Some). injection Hj as ->. apply (Hpast i p Hp). auto.
  - rewrite list_lookup_insert_ne in Hj by done. by apply (Hpast j q Hj).
Qed.

(** A step of a set-up. *)
Lemma dialed_once_session schedule w i k p events c1 p1 :
  h2_inv schedule w -> dialed_once w -> usable_call k -> w_dials w !! i = Some p ->
  session_step (w_client w) (k_can_take k) (k_answers k) p = Some (events, c1, p1) ->
  dialed_once (w_set w i (w_mu w) c1 p1 events).
Proof.
  intros Hinv (Hc & Hsu & Hpast) (Hd & Hn & Hh & Ht) Hp Hst.
  assert (holds_mutex p = true) as Hm by (by destruct p).
  pose proof (proj1 (hi_mutex _ _ Hinv i p Hp) Hm) as Hmu. pose proof (setting_up_held _ _ _ _ Hinv Hp Hm) as Esu.
  assert (forall j q, j <> i -> w_dials w !! j = Some q -> past_session q = true -> h2_cc c1 <> None) as Hother.
  { intros j q Hj Hq Hpq. pose proof (Hpast j q Hq Hpq) as Hcc.
    assert (h2_cc c1 = h2_cc (w_client w) \/ h2_cc c1 <> None) as [-> | ?]; [|done..].
    unfold session_step in Hst. repeat case_match; simplify_eq/=; auto. }
  unfold dialed_once. rewrite Hmu, (setting_up_holder w i c1 p1 events ltac:(by eexists)). cbn [w_set w_client w_log w_dials].
  rewrite Esu in *.
  assert (count is_dial (w_log w ++ map (pair i) events) =
      (if bool_decide (h2_cc c1 = None /\ pending_at i p1 = None) then 0 else 1) /\
    (pending_at i p1 <> None -> h2_cc c1 = None) /\ (past_session p1 = true -> h2_cc c1 <> None)) as (H1 & H2 & H3).
  { assert (forall log, Forall (fun e => match e with DialBoundary _ => False | _ => True end) log ->
      count is_dial (w_log w ++ map (pair i) log) = count is_dial (w_log w)) as Hnone by (intros; by apply count_dials_app).
    destruct p as [| |nc|nc|nc|r|cc| |out]; try done; cbn [session_step] in Hst; cbn [pending_at] in *.
    - unfold usable in Hst. destruct (h2_cc (w_client w)) as [cc|] eqn:Ecc.
      + rewrite Ht in Hst. simplify_eq. rewrite Hnone by done. rewrite Ecc, Hc. split_and!; try done. 
      + destruct (a_dial (k_answers k)); [|done]. simplify_eq. unfold count in *. rewrite List.filter_app, List.length_app.
        cbn [set_session h2_cc pending_at]. split_and!; try done. rewrite Nat2Z.inj_add, Hc. done.
    - destruct (TLS (w_client w)); simplify_eq; (rewrite Hnone by (by repeat constructor));
        rewrite Hsu in * by done; rewrite Hc; by split_and!.
    - rewrite Hh in Hst. cbn in Hst. simplify_eq. rewrite Hnone by (by repeat constructor).
      rewrite Hsu in * by done. rewrite Hc. by split_and!.
    - destruct (a_new (k_answers k)); [|done]. simplify_eq. rewrite Hnone by (by repeat constructor).
      rewrite Hsu in * by done. rewrite Hc. by split_and!. }
  split_and!; try done. intros j q Hj Hq. destruct (decide (j = i)) as [->|Hne].
  - rewrite list_lookup_insert_eq in Hj by (by eapply lookup_lt_Some). injection Hj as ->. auto.
  - rewrite list_lookup_insert_ne in Hj by done. by apply (Hother j q).
Qed.

Lemma dialed_once_step schedule w i w' :
  h2_inv schedule w -> Forall usable_call ks -> dialed_once w -> h2_step ks w i = Some w' -> dialed_once w'.
Proof.
  intros Hinv Hks Hd Hs. unfold h2_step in Hs.
  destruct (ks !! i) as [k|] eqn:Hk; [|done]. destruct (w_dials w !! i) as [p|] eqn:Hp; [|done].
  assert (usable_call k) as Hu by (eapply Forall_lookup_1; [apply Hks|done]).
  pose proof (hi_mutex _ _ Hinv i p Hp) as Hmu.
  destruct p as [| |nc|nc|nc|r|cc| |out]; try done;
    try (destruct (session_step _ _ _ _) as [[[events c1] p1]|] eqn:Hst; [|done]; injection Hs as <-;
         by apply (dialed_once_session schedule w i k _ _ _ _ Hinv Hd Hu Hp)).
  - destruct (w_mu w) eqn:Emu; [done|]. injection Hs as <-. apply (dialed_once_kept w i Waiting); try done.
    apply (setting_up_kept schedule w i Waiting); auto.
  - assert (exists p', w' = w_set w i None (w_client w) p' []) as (p' & ->) by (destruct r; injection Hs as <-; eauto).
    apply (dialed_once_kept w i (Leaving r)); try done. apply (setting_up_kept schedule w i (Leaving r)); auto.
    right. left. split_and!; try done. by apply Hmu.
  - injection Hs as <-. apply (dialed_once_kept w i (Opening cc)); try done; [|by repeat constructor].
    apply (setting_up_kept schedule w i (Opening cc)); auto.
  - destruct (h2_answered (k_answers k)) as [events out] eqn:Ea. injection Hs as <-.
    apply (dialed_once_kept w i Streaming); try done; [apply (setting_up_kept schedule w i Streaming); auto|].
    pose proof (h2_answered_quiet (k_answers k)) as Hq. rewrite Ea in Hq. apply Hq. by intros [].
Qed.

Lemma h2_run_once schedule w :
  h2_cc c0 = None -> Forall usable_call ks -> h2_run ks (h2_start ks c0) schedule = Some w -> dialed_once w.
Proof.
  intros Hcc Hks. revert w. induction schedule as [|i schedule IH] using rev_ind; intros w.
  { intros [= <-]. split_and!; cbn; [by rewrite Hcc|done|]. intros i p Hp Hq.
    destruct (h2_inv_start Hcc). change (map (fun _ => Waiting) ks) with ((fun _ : h2_call => Waiting) <$> ks) in Hp.
    rewrite list_lookup_fmap in Hp. destruct (ks !! i); [|done]. cbn in Hp. simplify_eq. }
  rewrite h2_run_app. destruct (h2_run ks (h2_start ks c0) schedule) as [w1|] eqn:Er; [|done].
  cbn [h2_run]. destruct (h2_step ks w1 i) eqn:Es; [|done]. intros [= <-].
  apply (dialed_once_step schedule w1 i); [by apply h2_run_inv|done|by apply IH|done].
Qed.

(** While a dial has not returned, some dial can step. *)
Lemma h2_progress schedule w i p :
  h2_inv schedule w -> w_dials w !! i = Some p -> (forall out, p <> Returned out) ->
  exists j, is_Some (h2_step ks w j).
Proof.
  intros Hinv Hp Hne.
  assert (forall j q, w_dials w !! j = Some q -> q <> Waiting -> (forall out, q <> Returned out) ->
    is_Some (h2_step ks w j)) as Hgo.
  { intros j q Hq Hw Hr. unfold h2_step. destruct (proj1 (hi_calls _ _ Hinv j) ltac:(by eexists)) as (k & Hk).
    rewrite Hk, Hq. destruct q as [| |nc|nc|nc|[]|cc| |out]; try done; try (by eexists).
    - unfold session_step. repeat case_match; by simplify_eq/=.
    - unfold session_step. repeat case_match; by simplify_eq/=.
    - unfold session_step. repeat case_match; by simplify_eq/=.
    - unfold session_step. repeat case_match; by simplify_eq/=.
    - destruct (h2_answered (k_answers k)). by eexists.
    - by destruct (Hr out). }
  destruct (w_mu w) as [j|] eqn:Emu.
  - destruct (hi_holder _ _ Hinv j Emu) as (q & Hq). pose proof (proj2 (hi_mutex _ _ Hinv j q Hq) Emu) as Hh.
    exists j. apply (Hgo j q Hq); by destruct q.
  - destruct p; try (exists i; by apply (Hgo i _ Hp)). exists i. unfold h2_step.
    destruct (proj1 (hi_calls _ _ Hinv i) ltac:(by eexists)) as (k & Hk). rewrite Hk, Hp, Emu. by eexists.
Qed.
End Interleaved.

(** ** Properties *)

(** Claim C22: One session, set up safely. For any number of dials that run at the
    same time, in every interleaving of their steps, whatever dials, handshakes,
    sessions and streams answer. At most one transport is being set up, and none is
    left over: one that was dialed has become the shared session or has been closed
    before its dial lets go of the mutex. Every stream opens on an installed
    session. With TLS configured, a session starts only on a connection that
    negotiated h2, with a protocol list and, unless verification was disabled, a
    server name; there is no fallback to plain text. A dial that returned did, and
    answered, exactly what it does by itself with the client it found when it got
    the mutex, however the others ran between its steps. While sessions keep
    accepting streams and the boundary answers, it is dialed exactly once by the
    time the first dial returns; and while a dial has not returned, some dial can
    step: the mutex is never kept. *)
Theorem h2_shared_session (ks : list h2_call) (c : BoundaryClientH2) (schedule : list nat) (w : h2_world) :
  h2_cc c = None -> h2_run ks (h2_start ks c) schedule = Some w ->
  (exists m, monitors (is_secure c) (mkMonitor [] None) (w_log w) = Some m /\
     hd_error (m_sessions m) = h2_cc (w_client w) /\ (w_mu w = None -> m_pending m = None)) /\
  (forall i k out, ks !! i = Some k -> w_dials w !! i = Some (Returned out) ->
     exists before after found c', schedule = before ++ i :: after /\
       h2_run ks (h2_start ks c) before = Some found /\ w_mu found = None /\ w_dials found !! i = Some Waiting /\
       h2_dial (w_client found) k = (own_events i (w_log w), c', out)) /\
  (Forall usable_call ks -> count is_dial (w_log w) <= 1 /\
     forall i out, w_dials w !! i = Some (Returned out) -> count is_dial (w_log w) = 1) /\
  (forall i p, w_dials w !! i = Some p -> (forall out, p <> Returned out) -> exists j, is_Some (h2_step ks w j)).
Proof.
  intros Hcc Hrun. pose proof (h2_run_inv ks c schedule w Hcc Hrun) as Hinv. split_and!.
  - destruct (hi_monitor _ _ _ _ Hinv) as (m & Hm & Hh & Hp & _). exists m. split_and!; try done.
    intros Hmu. rewrite Hp. unfold setting_up. by rewrite Hmu.
  - intros i k out Hk Hi. destruct (h2_inv_found _ _ _ _ _ _ _ Hinv Hk Hi ltac:(done)) as (found & Hf & c' & Hd).
    destruct Hf as (before & after & ? & ? & ? & ? & _). by exists before, after, found, c'.
  - intros Hks. destruct (h2_run_once ks c schedule w Hcc Hks Hrun) as (Hn & _ & Hpast).
    split; [rewrite Hn; by case_bool_decide|]. intros i out Hi. rewrite Hn, bool_decide_false; [done|].
    intros [H _]. by apply (Hpast i (Returned out) Hi).
  - intros i p Hp Hne. by apply (h2_progress ks c schedule w i p).
Qed.

(** Every dial over HTTP/2 ends in a live stream or in none. It
    succeeds exactly when there is a session and the response is any 2xx; then
    the stream is open both ways, unless the dial's context ended before [stop],
    and a later end of that context no longer cancels it. Otherwise the stream,
    if one was opened, has been cancelled and its request body closed, and a
    response that is not a success is reported with its status and reason. *)
Theorem h2_dial_outcomes (c c' : BoundaryClientH2) (k : h2_call) (events : list h2_event) (r : Response + dial_error) :
  h2_dial c k = (events, c', r) ->
  (if h2_success r
   then let s := mkStream false false (a_cancelled (k_answers k)) false in
        stream_of events = s /\ stream_of (events ++ [ContextDone]) = s
   else w_closed (stream_of events) = true /\ cancelled (stream_of events) = true) /\
  match r with
  | inl resp => a_response (k_answers k) = Ok resp /\ 200 <= StatusCode resp <= 299 /\ is_Some (h2_cc c')
  | inr (Refused code status reason) =>
      exists resp, a_response (k_answers k) = Ok resp /\ ~ (200 <= StatusCode resp <= 299) /\
        code = StatusCode resp /\ status = Status resp /\ reason = ProxyStatusReason (RespHeader resp)
  | inr (Failed e) =>
      a_response (k_answers k) = Err e \/ (h2_session c (k_can_take k) (k_answers k)).2 = Err e
  end.
Proof.
  rewrite h2_dial_roundTrip. unfold h2_roundTrip.
  destruct (h2_session c (k_can_take k) (k_answers k)) as [[ev c1] r1] eqn:Es.
  pose proof (h2_session_streams _ _ _ _ _ _ Es) as Hno. pose proof (h2_session_given _ _ _ _ _ _ Es) as Hcc.
  destruct r1 as [cc|e]; [|intros [= <- <- <-]; cbn [h2_success]; rewrite Hno; auto]. unfold h2_answered, h2_open.
  destruct (a_response (k_answers k)) as [resp|e] eqn:Er;
    [destruct ((StatusCode resp <? 200) || (299 <? StatusCode resp)) eqn:Ec|];
    destruct (a_cancelled (k_answers k)); intros [= <- <- <-];
    cbn [h2_success refusal]; rewrite !stream_of_app, Hno; cbn [app fold_left stream_event w_closed r_closed cancelled watched];
    (split; [done|]); try (by left).
  1,2: exists resp; split_and!; try done; apply orb_true_iff in Ec; lia.
  all: apply orb_false_iff in Ec; split_and!; [done|lia|lia|by rewrite Hcc].
Qed.

(** An HTTP/2 request as the handler of the boundary reads it: the authority (an
    ASCII one is sent as it is), the path of the request URI, and the protocol. *)
Definition carries_h2 (req : Request) (r : h2_request) : Prop :=
  r_Method r = req_Method req /\ r_protocol r = Get (req_Header req) ":protocol" /\ r_Host r = req_Host req /\
  (r_protocol r <> EmptyString -> PathUnescape (u_RawPath (req_URL req)) = Some (r_Path r)).

(** The one request of a call. *)
Lemma h2_dial_request c k events c' r id req :
  h2_dial c k = (events, c', r) -> In (RoundTrip id req) events -> req = h2_with_header c (h2_call_request c k).
Proof.
  rewrite h2_dial_roundTrip. unfold h2_roundTrip.
  destruct (h2_session c (k_can_take k) (k_answers k)) as [[ev c1] r1] eqn:Es. intros Hr Hin.
  pose proof (session_runs_config _ _ _ _ _ _ _ (h2_session_runs _ _ _ _ _ _ Es)) as (_ & _ & Hh).
  assert (~ In (RoundTrip id req) ev) as Hno.
  { clear Hr. unfold h2_session in Es. destruct (usable c (k_can_take k)); [injection Es as <- <- _; by intros []|].
    destruct (a_dial (k_answers k)); [|injection Es as <- <- _; by intros []].
    destruct (TLS (set_session c (h2_cc c))); [destruct (a_handshake (k_answers k)) as [p|];
      [destruct (negb (String.eqb p "h2")); [|destruct (a_new (k_answers k))]|]|destruct (a_new (k_answers k))];
      injection Es as <- <- _; simpl; intuition discriminate. }
  destruct r1 as [cc|e]; [|by injection Hr as <- <- <-].
  assert (~ In (RoundTrip id req) (h2_answered (k_answers k)).1) as Hno2.
  { intros H. pose proof (h2_answered_quiet (k_answers k) (fun e => e <> RoundTrip id req) ltac:(by intros [])) as HF.
    rewrite List.Forall_forall in HF. by apply (HF _ H). }
  destruct (h2_answered (k_answers k)) as [rest out]. injection Hr as <- <- <-.
  unfold h2_open, h2_with_header in *. rewrite ?in_app_iff in Hin. cbn [In] in Hin. rewrite Hh in Hin.
  destruct Hin as [?|[?|[?|[Hin|?]]]]; try done. by injection Hin as _ <-.
Qed.

Section Boundary.
Context `{GoUnicode, NameProfile, Httpguts}.
Context (lookupNetIP : string -> option (list Addr)) (net_Dial : string -> string -> option string).
Context (current : option policy) (listenerName now : string).

(** What is dialed over HTTP/2 is what the boundary decides on. For
    every request a dial puts on the shared session, the handler of the boundary
    asks the policy for the same host, port and transport, and for nothing else:
    over TCP for any host without brackets, over UDP for any host without a slash
    or a percent sign; headers that the client adds do not change it. *)
Theorem h2_requests_read_back (c c' : BoundaryClientH2) (k : h2_call) (events : list h2_event)
    (out : Response + dial_error) (id : nat) (req : Request) (r : h2_request) (s : Boundary.session) :
  h2_Header c !! ":protocol"%string = None ->
  h2_dial c k = (events, c', out) -> In (RoundTrip id req) events -> carries_h2 req r ->
  k_name k <> EmptyString -> no_brackets (k_name k) = true -> 1 <= k_port k <= 65535 ->
  (k_udp k = true -> contains_byte "/" (k_name k) = false /\ contains_byte "%" (k_name k) = false) ->
  serveH2 lookupNetIP net_Dial current listenerName now s r =
  (let network := if k_udp k then "udp" else "tcp" in
   do upstream <- connectUpstream lookupNetIP net_Dial current listenerName now "h2" network
                    (k_name k) (format_uint (k_port k)) s;
   tunnel network "200" upstream)%string.
Proof.
  intros Hnp Hd Hin (Hm & Hpr & Hh & Hpath) Hne Hbr Hport Hudp.
  rewrite (h2_dial_request _ _ _ _ _ _ _ Hd Hin) in Hm, Hpr, Hh, Hpath. unfold h2_with_header, h2_call_request in *.
  assert (forall h : Header, Get (add_headers h (h2_Header c)) ":protocol" = Get h ":protocol") as Hget.
  { intros h. unfold Get, Values.
    assert (add_headers h (h2_Header c) !! ":protocol"%string = h !! ":protocol"%string) as ->; [|done].
    unfold add_headers, Header in *. rewrite lookup_union_with, Hnp. by destruct (h !! ":protocol"%string). }
  cbn [req_Method req_URL req_Host req_Header] in *. rewrite Hget in Hpr. unfold serveH2.
  destruct (k_udp k).
  - destruct (Hudp eq_refl) as [Hs Hp]. destruct (masque_path_reads_back (h2_authority c) (k_name k) (k_port k)) as [Eraw Emasque].
    cbn [req_Method req_Host req_Header req_URL h2_udp_request] in *. rewrite Hm, Hpr in *. cbn in Hpath.
    specialize (Hpath ltac:(done)). change (PathUnescape (u_RawPath (udpProxyURL (h2_authority c) (k_name k) (k_port k))) =
      Some (r_Path r)) in Hpath. rewrite Eraw in Hpath.
    assert (r_Path r = u_Path (udpProxyURL (h2_authority c) (k_name k) (k_port k))) as -> by congruence.
    rewrite (Emasque Hne Hs Hp). done.
  - cbn [req_Method req_Host req_Header h2_tcp_request] in *. rewrite Hm, Hpr, Hh. cbn [negb String.eqb].
    rewrite split_join_host_port; [|done| |].
    + rewrite (proj2 (String.eqb_neq _ _) Hne), parsePort_format by done. done.
    + unfold no_brackets. by rewrite !(str_all_not_contains is_digit) by (done || apply format_uint_digits).
    + apply (str_all_not_contains is_digit); [apply format_uint_digits|done].
Qed.
End Boundary.

(** ** Witnesses *)

#[local] Existing Instance ascii_unicode.
#[local] Existing Instance ascii_profile.
#[local] Existing Instance sample_httpguts.

Definition sample_tls : BoundaryClientH2 :=
  mkClientH2 (Some (mkTLS [] EmptyString false)) EmptyString ∅ false None.

Definition granting (id : nat) : answers :=
  mkAnswers (Ok id) (Ok "h2"%string) (Ok tt) (Ok (mkResponse 200 "200 OK" ∅)) false.

(** A TCP and a UDP dial over one session: the second waits for the mutex while
    the first sets the session up, and opens its stream first. *)
Definition sample_calls : list h2_call :=
  [mkCall false "example.org" 443 (fun _ => true) (granting 0);
   mkCall true "dns.example.org" 53 (fun _ => true) (granting 1)].

Definition sample_schedule : list nat := [0; 0; 0; 0; 0; 0; 1; 1; 1; 1; 0; 1; 0]%nat.

Definition sample_world : h2_world :=
  default (h2_start sample_calls sample_tls) (h2_run sample_calls (h2_start sample_calls sample_tls) sample_schedule).

Lemma h2_shared_session_witness :
  h2_run sample_calls (h2_start sample_calls sample_tls) sample_schedule = Some sample_world /\
  count is_dial (w_log sample_world) = 1.
Proof.
  split; [vm_compute; reflexivity|].
  refine (proj2 (proj1 (proj2 (proj2 (h2_shared_session sample_calls sample_tls sample_schedule sample_world eq_refl _))) _)
    0%nat (inl (mkResponse 200 "200 OK" ∅)) _).
  - vm_compute. reflexivity.
  - repeat constructor; intros; reflexivity.
  - vm_compute. reflexivity.
Defined.

Lemma h2_dial_outcomes_witness :
  stream_of (h2_dial sample_tls (mkCall false "example.org" 443 (fun _ => true) (granting 0))).1.1 = open_stream.
Proof.
  exact (proj1 (proj1 (h2_dial_outcomes sample_tls _ (mkCall false "example.org" 443 (fun _ => true) (granting 0)) _ _ eq_refl))).
Defined.

Lemma h2_requests_read_back_witness :
  serveH2 (fun _ => None) (fun _ _ => None) None "l" "t" (mkSession "peer" "1")
    (mkH2Request "CONNECT" EmptyString EmptyString "[2001:db8::1]:443") =
  tbind (connectUpstream (fun _ => None) (fun _ _ => None) None "l" "t" "h2" "tcp" "2001:db8::1" "443"
           (mkSession "peer" "1")) (tunnel "tcp" "200").
Proof.
  refine (h2_requests_read_back (fun _ => None) (fun _ _ => None) None "l" "t" sample_tls _
    (mkCall false "2001:db8::1" 443 (fun _ => true) (granting 0)) _ _ 0%nat
    (mkRequest "CONNECT" (mkURL "http" "[2001:db8::1]:443" EmptyString EmptyString) "[2001:db8::1]:443" ∅)
    (mkH2Request "CONNECT" EmptyString EmptyString "[2001:db8::1]:443") (mkSession "peer" "1") _ eq_refl _ _ _ _ _ _).
  - reflexivity.
  - vm_compute. do 6 right. left. reflexivity.
  - split; [reflexivity|]. split; [reflexivity|]. split; [reflexivity|]. intros H. exfalso. apply H. reflexivity.
  - discriminate.
  - reflexivity.
  - cbn. lia.
  - discriminate.
Defined.
