(* ===== verification/ExchangeH2.v ===== *)
(** * The two ends of the HTTP/2 wire meet

    A dial of [BoundaryClientH2] and the handler [serveH2] of the boundary. The
    HTTP/2 implementation between them is a parameter: the request the handler is
    given for the request that was sent, and the response the client is given for
    the status and the header the handler wrote. Its contract leaves it free to add
    fields of its own, such as a Date. *)

From S2P Require Import Prelude GoStrings Netip Policy PolicyRules PolicyLoad PolicyAuth Http Textproto Connect Head.
From S2P Require Import Boundary BoundaryFacts Exchange ExchangeFacts ConnectH2.

Local Open Scope go_scope.

(** What the handler writes first, as the status and the header; [Respond] is
    [WriteHeader(200)], after the header of a UDP session was set. *)
Fixpoint h2_written (udp : bool) (t : list event) : option (Z * Header) :=
  match t with
  | [] => None
  | Deny _ status reason :: _ => Some (h2_deny status reason)
  | Respond _ :: _ => Some (StatusOK, if udp then Set_ ∅ "Capsule-Protocol" "?1" else ∅)
  | _ :: t => h2_written udp t
  end.

(** Fields of a handler that the implementation treats on its own. *)
Definition handled_apart (key : string) : bool :=
  existsb (String.eqb key) ["Connection"; "Proxy-Connection"; "Transfer-Encoding"; "Upgrade"; "Keep-Alive";
                            "Trailer"; "Content-Length"; "Date"]%string.

(** The contract of the HTTP/2 implementation: pseudo-header fields for the method,
    the authority, where it needs no mapping, the protocol and, for extended
    CONNECT, the path; and a response with the status of the handler and the
    well-formed fields that it set. Other fields may come with them: a Date. *)
Record http2_carries (deliver : Request -> h2_request) (respond : Z * Header -> Response) : Prop := {
  carries_method r : r_Method (deliver r) = req_Method r;
  carries_host r : str_all host_byte (req_Host r) = true -> r_Host (deliver r) = req_Host r;
  carries_protocol r : r_protocol (deliver r) = Get (req_Header r) ":protocol";
  carries_path r :
    Get (req_Header r) ":protocol" <> EmptyString -> has_prefix "/" (u_Path (req_URL r)) = true ->
    r_Path (deliver r) = u_Path (req_URL r);
  carries_status w : 200 <= fst w <= 999 -> StatusCode (respond w) = fst w /\ Status (respond w) = status_text (fst w);
  carries_header w key v :
    snd w !! key = Some [v] -> field_ok (key, v) -> handled_apart key = false -> Get (RespHeader (respond w)) key = v;
}.

(** The request of a dial, with the configured headers. *)
Definition h2_dial_request (c : BoundaryClientH2) (udp : bool) (host : string) (port : Z) : Request :=
  h2_with_header c (if udp then h2_udp_request c host port else h2_tcp_request host port).

Lemma Get_add_own (h extra : Header) key v vs :
  h !! key = Some (v :: vs) -> Get (add_headers h extra) key = v.
Proof.
  intros E. unfold Get, Values, add_headers, Header in *. rewrite lookup_union_with, E.
  by match goal with |- context [union_with _ _ ?o] => destruct o end.
Qed.

Lemma Get_add_none (h extra : Header) key :
  h !! key = None -> extra !! key = None -> Get (add_headers h extra) key = EmptyString.
Proof. intros E1 E2. unfold Get, Values, add_headers, Header in *. by rewrite lookup_union_with, E1, E2. Qed.

Lemma h2_written_dials udp ds t : forallb BoundaryFacts.is_dial ds = true -> h2_written udp (ds ++ t) = h2_written udp t.
Proof.
  induction ds as [|e ds IH]; [done|]. cbn [forallb]. intros Hd. apply andb_true_iff in Hd as [He Hd].
  destruct e; cbn in *; try done; by apply IH.
Qed.

Lemma refusal_status_range status : In status refusal_statuses -> 200 <= status <= 999.
Proof. intros Hs. repeat (destruct Hs as [<-|Hs]; [lia|]). destruct Hs. Qed.

Section Meet.
Context `{GoUnicode, NameProfile, Httpguts}.
Context (lookupNetIP : string -> option (list Addr)).
Context (net_Dial : string -> string -> option string).
Context (current : option policy) (listenerName now : string).
Context (deliver : Request -> h2_request) (respond : Z * Header -> Response).

(** The handler on the request of a dial. *)
Lemma h2_dial_handled c udp host port s :
  http2_carries deliver respond -> plain_host host = true -> 1 <= port <= 65535 ->
  h2_Header c !! ":protocol"%string = None ->
  serveH2 lookupNetIP net_Dial current listenerName now s (deliver (h2_dial_request c udp host port)) =
  (do upstream <- connectUpstream lookupNetIP net_Dial current listenerName now "h2"
                    (if udp then "udp" else "tcp")%string host (format_uint port) s;
   tunnel (if udp then "udp" else "tcp")%string "200" upstream).
Proof.
  intros [Hm Hh Hp Hpath _ _] Hhost Hport Hno. destruct (plain_host_spec host Hhost) as (Hne & _ & _ & Hbr & Hpct & Hslash).
  unfold serveH2. rewrite Hm, Hp. destruct udp; unfold h2_dial_request, h2_with_header in *; cbn [req_Method req_Host req_Header h2_udp_request h2_tcp_request].
  - change (String.eqb "CONNECT" "CONNECT") with true. cbn [negb].
    rewrite (Get_add_own _ _ _ "connect-udp" []) by (vm_compute; reflexivity).
    change (String.eqb "connect-udp" EmptyString) with false. change (String.eqb "connect-udp" "connect-udp") with true.
    cbn [negb]. rewrite Hpath; cbn [req_Header req_URL h2_udp_request].
    + by rewrite (proj2 (masque_path_reads_back (h2_authority c) host port)).
    + by rewrite (Get_add_own _ _ _ "connect-udp" []) by (vm_compute; reflexivity).
    + reflexivity.
  - rewrite Hh by apply (hostport_bytes host port Hhost). cbn [req_Host h2_tcp_request]. change (String.eqb "CONNECT" "CONNECT") with true. cbn [negb].
    rewrite Get_add_none by done. change (String.eqb EmptyString EmptyString) with true. cbn [negb].
    assert (contains_byte ":" (format_uint port) = false /\ no_brackets (format_uint port) = true) as [Hc Hb].
    { split; [apply (str_all_not_contains is_digit); [apply format_uint_digits|done]|].
      unfold no_brackets. by rewrite !(str_all_not_contains is_digit) by (done || apply format_uint_digits). }
    rewrite split_join_host_port by done. rewrite (proj2 (String.eqb_neq _ _)), parsePort_format by done. reflexivity.
Qed.

(** Claim C5: over HTTP/2 too, a dial is a decision of the boundary. For a plain
    host, one of bytes that a Host header may hold, without slash, percent sign or
    brackets, any port, no [:protocol] among the configured headers, and an HTTP/2
    implementation that carries the pseudo-header fields and the fields that the
    handler sets: the handler decides for exactly the transport, host and port of
    the dial. When the session could be had and the client is given what the
    handler wrote, it returns a stream exactly when an upstream was connected, open
    unless the context of the dial ended meanwhile; otherwise the error carries the
    status and the reason of the one refusal, and the stream is given up. *)
Theorem h2_dial_meets_boundary (c : BoundaryClientH2) (udp : bool) (host : string) (port : Z)
    (can_take : nat -> bool) (a : answers) (s : session) :
  http2_carries deliver respond -> plain_host host = true -> 1 <= port <= 65535 ->
  h2_Header c !! ":protocol"%string = None -> is_ok (snd (h2_session c can_take a)) = true ->
  let network := if udp then "udp"%string else "tcp"%string in
  let (t, upstream) := connectUpstream lookupNetIP net_Dial current listenerName now "h2" network host (format_uint port) s in
  let trace := fst (serveH2 lookupNetIP net_Dial current listenerName now s (deliver (h2_dial_request c udp host port))) in
  exists w, h2_written udp trace = Some w /\
  (a_response a = Ok (respond w) ->
   let '(events, _, out) := h2_dial c (mkCall udp host port can_take a) in
   match upstream with
   | Some remote =>
       trace = t ++ [Respond "200"; Tunnel network remote; CloseUpstream] /\ out = inl (respond w) /\
       stream_of events = mkStream false false (a_cancelled a) false
   | None =>
       trace = t /\ stream_of events = mkStream true true true false /\
       exists status reason, denials t = [("h2"%string, status, reason)] /\
         out = inr (Refused status (status_text status) reason)
   end).
Proof.
  intros Hcar Hhost Hport Hno Hok network. pose proof Hcar as [_ _ _ _ Hst Hhd].
  rewrite (h2_dial_handled c udp host port s Hcar Hhost Hport Hno). fold network.
  pose proof (connectUpstream_shape lookupNetIP net_Dial current listenerName now "h2" network host (format_uint port) s) as Hshape.
  pose proof (connectUpstream_refusals lookupNetIP net_Dial (fun _ => None) current listenerName now "h2" network host (format_uint port) s) as Hreg.
  assert (forall resp, a_response a = Ok resp -> exists events c',
    h2_dial c (mkCall udp host port can_take a) =
      (let refused := (StatusCode resp <? 200) || (299 <? StatusCode resp) in
       (events, c', if refused then inr (refusal resp) else inl resp)) /\
    stream_of events = if (StatusCode resp <? 200) || (299 <? StatusCode resp)
                       then mkStream true true true false else mkStream false false (a_cancelled a) false) as Hdial.
  { intros resp Er. rewrite h2_dial_roundTrip. unfold h2_roundTrip, h2_answered. cbn [k_udp k_can_take k_answers k_name k_port].
    rewrite Er. destruct (h2_session c can_take a) as [[ev c1] [cc|e]] eqn:Es; [|done].
    pose proof (h2_session_streams _ _ _ _ _ _ Es) as Hs.
    destruct (_ || _), (a_cancelled a); do 2 eexists; (split; [reflexivity|]); by rewrite stream_of_app, Hs. }
  destruct (connectUpstream _ _ _ _ _ "h2" network host (format_uint port) s) as [t [remote|]]; cbn [tbind fst snd].
  - destruct Hshape as (ds & target & r & -> & Hds & _). exists (StatusOK, if udp then Set_ ∅ "Capsule-Protocol" "?1" else ∅).
    cbn [tunnel emit tbind app fst]. split; [rewrite <- app_assoc; by rewrite h2_written_dials|].
    intros Er. destruct (Hdial _ Er) as (events & c' & -> & Hstream). destruct (Hst (StatusOK, if udp then Set_ ∅ "Capsule-Protocol" "?1" else ∅) ltac:(cbn [fst]; unfold StatusOK; lia)) as [Hcode _].
    rewrite Hcode in *. cbn in *. by rewrite <- app_assoc.
  - destruct Hshape as (ds & r & status & -> & Hds & _). cbn [tunnel tret fst]. rewrite app_nil_r.
    exists (h2_deny status (a_Reason r)). split; [by rewrite h2_written_dials|].
    destruct (upstream_refusals_readable status (a_Reason r)) as [Hstat Hre].
    { apply (Hreg ("h2"%string, status, a_Reason r)). cbn [fst]. rewrite denials_app. apply in_or_app. right. by left. }
    intros Er. destruct (Hdial _ Er) as (events & c' & -> & Hstream). destruct (Hst (h2_deny status (a_Reason r)) (refusal_status_range status Hstat)) as [Hcode Htext].
    cbn [h2_deny fst snd] in *. destruct (refusal_status_line status Hstat) as (_ & _ & _ & Hno2 & _).
    rewrite Hcode, Hno2 in *. split; [done|]. split; [done|]. exists status, (a_Reason r). split.
    { rewrite denials_app, (proj1 (proj2 (dials_only_dials ds Hds))). done. }
    unfold refusal. rewrite Hcode, Htext. do 2 f_equal.
    apply (ProxyStatusReason_written "boundary"); [done|done|].
    apply (Hhd (h2_deny status (a_Reason r)) "Proxy-Status"%string); [apply lookup_insert_eq|by apply proxyStatus_field_ok|done].
Qed.
End Meet.

(** ** Witness *)

#[local] Existing Instance ascii_unicode.
#[local] Existing Instance ascii_profile.
#[local] Existing Instance documented_httpguts.

Definition sample_deliver (r : Request) : h2_request :=
  mkH2Request (req_Method r) (Get (req_Header r) ":protocol") (u_Path (req_URL r)) (req_Host r).
Definition sample_respond (w : Z * Header) : Response :=
  mkResponse (fst w) (status_text (fst w)) (<["Date"%string := ["Mon, 01 Jan 2024 00:00:00 GMT"%string]]> (snd w)).

Lemma sample_carries : http2_carries sample_deliver sample_respond.
Proof.
  constructor; try done. intros w key v Hv _ Hk. unfold Get, Values, sample_respond, Header in *. cbn [RespHeader].
  rewrite lookup_insert_ne, Hv; [done|]. intros <-. done.
Qed.

Definition sample_answers : answers :=
  mkAnswers (Ok 0%nat) (Ok "h2"%string) (Ok tt) (Ok (sample_respond (h2_deny 503 "policy-unavailable"))) false.

Lemma h2_dial_meets_boundary_witness :
  (h2_dial (mkClientH2 None "" ∅ false None) (mkCall true "example.com" 53 (fun _ => true) sample_answers)).2
  = inr (Refused 503 "503 Service Unavailable" "policy-unavailable").
Proof.
  destruct (h2_dial_meets_boundary (fun _ => None) (fun _ _ => None) None "l" "t" sample_deliver sample_respond
    (mkClientH2 None "" ∅ false None) true "example.com" 53 (fun _ => true) sample_answers (mkSession EmptyString "1")
    sample_carries ltac:(vm_compute; reflexivity) ltac:(lia) ltac:(reflexivity) ltac:(reflexivity)) as (w & Ew & Hd).
  injection Ew as <-. specialize (Hd eq_refl). destruct Hd as (_ & _ & status & reason & Ed & Eo).
  injection Ed as <- <-. exact Eo.
Defined.
