(* ===== verification/AuditLog.v ===== *)
(** * The audit log: one JSON line for each decision

    The text that [audit] of [sdk/cmd/connect-proxy/main.go] writes for an
    [auditRecord]: [json.Marshal] of the struct, with its [omitempty] fields, and
    a newline. The escaping is that of [encoding/json]: HTML-safe, control bytes
    escaped, bytes that are not UTF-8 replaced. A reader of JSON objects, after
    RFC 8259, says what a consumer of the log sees. *)

From S2P Require Import Prelude GoStrings Netip Policy Http Connect Head Boundary.

(** ** Runes *)

(** One step of [utf8.DecodeRuneInString]: an ASCII byte, a byte that starts no
    valid encoding, or a whole encoding. *)
Inductive chunk : Type := Byte (c : ascii) | BadByte | Rune (s : string).

Definition between (lo hi : Z) (c : ascii) : bool := (lo <=? byte_of c) && (byte_of c <=? hi).
Definition continuation (c : ascii) : bool := between 0x80 0xbf c.

Definition rune2 (c c1 : ascii) : bool := between 0xc2 0xdf c && continuation c1.
Definition rune3 (c c1 c2 : ascii) : bool :=
  continuation c2 &&
  (if byte_of c =? 0xe0 then between 0xa0 0xbf c1
   else if byte_of c =? 0xed then between 0x80 0x9f c1
   else between 0xe1 0xef c && continuation c1).
Definition rune4 (c c1 c2 c3 : ascii) : bool :=
  continuation c2 && continuation c3 &&
  (if byte_of c =? 0xf0 then between 0x90 0xbf c1
   else if byte_of c =? 0xf4 then between 0x80 0x8f c1
   else between 0xf1 0xf3 c && continuation c1).

Fixpoint runes (s : string) : list chunk :=
  match s with
  | EmptyString => []
  | String c s1 =>
      if is_ascii_byte c then Byte c :: runes s1 else
      match s1 with
      | EmptyString => BadByte :: runes s1
      | String c1 s2 =>
          if rune2 c c1 then Rune (String c (String c1 EmptyString)) :: runes s2 else
          match s2 with
          | EmptyString => BadByte :: runes s1
          | String c2 s3 =>
              if rune3 c c1 c2 then Rune (String c (String c1 (String c2 EmptyString))) :: runes s3 else
              match s3 with
              | EmptyString => BadByte :: runes s1
              | String c3 s4 =>
                  if rune4 c c1 c2 c3 then Rune (String c (String c1 (String c2 (String c3 EmptyString)))) :: runes s4
                  else BadByte :: runes s1
              end
          end
      end
  end.

Definition concat_map {A} (f : A -> string) (l : list A) : string :=
  fold_right (fun x t => (f x +:+ t)%string) EmptyString l.

(** ** Encoding *)

Definition quote : ascii := "034".
Definition backslash : ascii := "092".
Definition lower_hex (n : Z) : ascii := ascii_of (if n <? 10 then 48 + n else 87 + n).

(** [htmlSafeSet] *)
Definition html_safe (c : ascii) : bool :=
  (32 <=? byte_of c) && negb (contains_byte c (String quote (String backslash "<>&"))).

Definition escape_byte (c : ascii) : string :=
  if html_safe c then String c EmptyString
  else if Ascii.eqb c quote || Ascii.eqb c backslash then String backslash (String c EmptyString)
  else if Ascii.eqb c "008" then String backslash "b"
  else if Ascii.eqb c "012" then String backslash "f"
  else if Ascii.eqb c "010" then String backslash "n"
  else if Ascii.eqb c "013" then String backslash "r"
  else if Ascii.eqb c "009" then String backslash "t"
  else String backslash ("u00" +:+ String (lower_hex (byte_of c / 16)) (String (lower_hex (byte_of c mod 16)) EmptyString))%string.

Definition line_separator : string := utf8 [0xe2; 0x80; 0xa8].
Definition paragraph_separator : string := utf8 [0xe2; 0x80; 0xa9].

Definition escape (k : chunk) : string :=
  match k with
  | Byte c => escape_byte c
  | BadByte => String backslash "ufffd"
  | Rune s => if String.eqb s line_separator then String backslash "u2028"
              else if String.eqb s paragraph_separator then String backslash "u2029" else s
  end.

(** [appendString] *)
Definition json_string (s : string) : string :=
  String quote (concat_map escape (runes s) +:+ String quote EmptyString)%string.

(** The fields of [auditRecord] in order, with their names and [omitempty]. *)
Definition audit_fields (r : auditRecord) : list (string * string * bool) :=
  [("ts", a_Time r, false); ("listener", a_Listener r, true); ("sandbox", a_Sandbox r, true);
   ("generation", a_Generation r, true); ("policy", a_Policy r, true); ("wire", a_Wire r, true);
   ("transport", a_Transport r, true); ("destination", a_Destination r, true); ("address", a_Address r, true);
   ("peer", a_Peer r, true); ("connection", a_Connection r, true); ("rule", a_Rule r, true);
   ("decision", a_Decision r, false); ("reason", a_Reason r, true)]%string.

Definition kept_fields (r : auditRecord) : list (string * string) :=
  map fst (List.filter (fun '(_, v, omitempty) => negb (omitempty && String.eqb v EmptyString)) (audit_fields r)).

Fixpoint json_members (l : list (string * string)) : string :=
  match l with
  | [] => EmptyString
  | (k, v) :: l =>
      (json_string k +:+ String ":" (json_string v +:+ match l with [] => EmptyString | _ => String "," (json_members l) end))%string
  end.

(** [json.Marshal(r)] *)
Definition Marshal (r : auditRecord) : string :=
  String "{" (json_members (kept_fields r) +:+ "}")%string.

Definition newline : ascii := "010".

(** What [audit] appends to the log. *)
Definition audit_line (r : auditRecord) : string := (Marshal r +:+ String newline EmptyString)%string.

(** ** A reader *)

Definition hex_digit (c : ascii) : option Z := unhex c.

(** The UTF-8 encoding of a code point of the basic plane. *)
Definition utf8_encode (n : Z) : string :=
  if n <? 0x80 then utf8 [n]
  else if n <? 0x800 then utf8 [0xc0 + n / 64; 0x80 + n mod 64]
  else utf8 [0xe0 + n / 4096; 0x80 + (n / 64) mod 64; 0x80 + n mod 64].

Definition simple_escape (c : ascii) : option ascii :=
  if Ascii.eqb c quote || Ascii.eqb c backslash || Ascii.eqb c "/" then Some c
  else if Ascii.eqb c "b" then Some "008"%char
  else if Ascii.eqb c "f" then Some "012"%char
  else if Ascii.eqb c "n" then Some "010"%char
  else if Ascii.eqb c "r" then Some "013"%char
  else if Ascii.eqb c "t" then Some "009"%char
  else None.

Definition prepend (p : string) (r : option (string * string)) : option (string * string) :=
  match r with Some (s, rest) => Some ((p +:+ s)%string, rest) | None => None end.

(** The rest of a string after its opening quote: its value, and what follows. *)
Fixpoint read_string (s : string) : option (string * string) :=
  match s with
  | EmptyString => None
  | String c s =>
      if Ascii.eqb c quote then Some (EmptyString, s)
      else if Ascii.eqb c backslash then
        match s with
        | EmptyString => None
        | String e s =>
            if Ascii.eqb e "u" then
              match s with
              | String h1 (String h2 (String h3 (String h4 s))) =>
                  match hex_digit h1, hex_digit h2, hex_digit h3, hex_digit h4 with
                  | Some d1, Some d2, Some d3, Some d4 =>
                      prepend (utf8_encode (((d1 * 16 + d2) * 16 + d3) * 16 + d4)) (read_string s)
                  | _, _, _, _ => None
                  end
              | _ => None
              end
            else match simple_escape e with
                 | Some c => prepend (String c EmptyString) (read_string s)
                 | None => None
                 end
        end
      else if byte_of c <? 32 then None
      else prepend (String c EmptyString) (read_string s)
  end.

(** A string with its opening quote. *)
Definition read_quoted (s : string) : option (string * string) :=
  match s with
  | String c s => if Ascii.eqb c quote then read_string s else None
  | EmptyString => None
  end.

(** The members of an object of strings, after its opening brace; [fuel] bounds
    their number. *)
Fixpoint read_members (fuel : nat) (s : string) : option (list (string * string) * string) :=
  match fuel with
  | O => None
  | S fuel =>
      match read_quoted s with
      | Some (k, String ":" s) =>
          match read_quoted s with
          | Some (v, String "}" s) => Some ([(k, v)], s)
          | Some (v, String "," s) =>
              match read_members fuel s with Some (l, s) => Some ((k, v) :: l, s) | None => None end
          | _ => None
          end
      | _ => None
      end
  end.

Definition read_object (s : string) : option (list (string * string) * string) :=
  match s with String "{" s => read_members (String.length s) s | _ => None end.

(** What the escaping keeps of a string: bytes that are not UTF-8 become the
    replacement character. *)
Definition sanitize_chunk (k : chunk) : string :=
  match k with Byte c => String c EmptyString | BadByte => utf8_encode 0xfffd | Rune s => s end.
Definition sanitize (s : string) : string := concat_map sanitize_chunk (runes s).

Definition valid_utf8 (s : string) : bool :=
  forallb (fun k => match k with BadByte => false | _ => true end) (runes s).

(** ** Lemmas *)

Definition high (c : ascii) : bool := 128 <=? byte_of c.

Definition chunk_ok (k : chunk) : Prop :=
  match k with
  | Byte c => is_ascii_byte c = true
  | BadByte => True
  | Rune s => str_all high s = true
  end.

Definition chunk_text (k : chunk) : string :=
  match k with Byte c => String c EmptyString | BadByte => EmptyString | Rune s => s end.

Lemma between_high lo hi c : 128 <= lo -> between lo hi c = true -> high c = true.
Proof. unfold between, high. intros Hl Hb. bool_to_prop. lia. Qed.

Ltac second_byte :=
  repeat match goal with H : (if ?b then _ else _) = true |- _ => destruct b end; bool_to_prop;
  unfold continuation in *;
  match goal with H : between ?lo ?hi ?c = true |- high ?c = true => exact (between_high lo hi c ltac:(lia) H) end.

(** The cases of one decoding step. *)
Lemma runes_step c s :
  exists k t, runes (String c s) = k :: runes t /\ chunk_ok k /\ (String.length t <= String.length s)%nat /\
    (k <> BadByte -> String c s = (chunk_text k +:+ t)%string).
Proof.
  assert (exists k t, BadByte :: runes s = k :: runes t /\ chunk_ok k /\ (String.length t <= String.length s)%nat /\
    (k <> BadByte -> String c s = (chunk_text k +:+ t)%string)) as Hbad.
  { exists BadByte, s. by split_and!. }
  cbn [runes]. destruct (is_ascii_byte c) eqn:Ea; [exists (Byte c), s; by split_and!|].
  assert (high c = true) as Hc by (unfold high, is_ascii_byte in *; lia).
  destruct s as [|c1 s2]; [done|]. destruct (rune2 c c1) eqn:E2.
  { eexists _, s2. split_and!; [done| |simpl; lia|done]. unfold rune2 in E2. bool_to_prop.
    simpl. by rewrite Hc, (between_high 0x80 0xbf c1). }
  destruct s2 as [|c2 s3]; [done|]. destruct (rune3 c c1 c2) eqn:E3.
  { eexists _, s3. split_and!; [done| |simpl; lia|done]. unfold rune3 in E3. bool_to_prop.
    assert (high c1 = true) as Hc1 by second_byte.
    simpl. by rewrite Hc, Hc1, (between_high 0x80 0xbf c2). }
  destruct s3 as [|c3 s4]; [done|]. destruct (rune4 c c1 c2 c3) eqn:E4; [|done].
  eexists _, s4. split_and!; [done| |simpl; lia|done]. unfold rune4 in E4. bool_to_prop.
  assert (high c1 = true) as Hc1 by second_byte.
  simpl. by rewrite Hc, Hc1, (between_high 0x80 0xbf c2), (between_high 0x80 0xbf c3).
Qed.

Lemma string_length_ind (P : string -> Prop) :
  (forall s, (forall t, (String.length t < String.length s)%nat -> P t) -> P s) -> forall s, P s.
Proof.
  intros Hstep s. remember (String.length s) as n eqn:En. revert s En.
  induction n as [n IH] using lt_wf_ind. intros s ->. apply Hstep. intros t Ht. by apply (IH (String.length t)).
Qed.

Lemma runes_ok s : Forall chunk_ok (runes s).
Proof.
  induction s as [s IH] using string_length_ind. destruct s as [|c s]; [constructor|].
  destruct (runes_step c s) as (k & t & -> & Hk & Hl & _). constructor; [done|]. apply IH. simpl. lia.
Qed.

Lemma sanitize_valid s : valid_utf8 s = true -> sanitize s = s.
Proof.
  unfold valid_utf8, sanitize. induction s as [s IH] using string_length_ind. destruct s as [|c s]; [done|].
  destruct (runes_step c s) as (k & t & -> & Hk & Hl & Ht). cbn [forallb concat_map fold_right]. intros Hv.
  apply andb_true_iff in Hv as [Hk' Hv]. fold (concat_map sanitize_chunk (runes t)).
  rewrite IH by (simpl; lia || done). destruct k; [|done|]; by rewrite Ht.
Qed.

(** *** Reading what was escaped *)

Lemma read_high s t : str_all high s = true -> read_string (s +:+ t) = prepend s (read_string t).
Proof.
  induction s as [|c s IH]; [simpl; by destruct (read_string t) as [[? ?]|]|]. rewrite str_all_cons, andb_true_iff.
  intros [Hc Hs]. cbn [String.append read_string]. unfold high in Hc.
  assert (Ascii.eqb c quote = false /\ Ascii.eqb c backslash = false) as [-> ->].
  { split; apply Ascii.eqb_neq; intros ->; vm_compute in Hc; discriminate. }
  rewrite (proj2 (Z.ltb_ge _ _)) by lia. rewrite IH by done.
  by destruct (read_string t) as [[? ?]|].
Qed.

Lemma read_escape_byte c t :
  is_ascii_byte c = true -> read_string (escape_byte c +:+ t) = prepend (String c EmptyString) (read_string t).
Proof.
  intros Hc. destruct c as [[] [] [] [] [] [] [] []]; vm_compute in Hc; try discriminate; reflexivity.
Qed.

Lemma read_escape k t :
  chunk_ok k -> read_string (escape k +:+ t) = prepend (sanitize_chunk k) (read_string t).
Proof.
  destruct k as [c| |s]; cbn [chunk_ok escape sanitize_chunk].
  - apply read_escape_byte.
  - reflexivity.
  - intros Hs. destruct (String.eqb_spec s line_separator) as [->|_]; [reflexivity|].
    destruct (String.eqb_spec s paragraph_separator) as [->|_]; [reflexivity|]. by apply read_high.
Qed.

Lemma prepend_app a b r : prepend a (prepend b r) = prepend (a +:+ b) r.
Proof. destruct r as [[s rest]|]; [|done]. simpl. by rewrite app_string_assoc. Qed.

Lemma read_escapes ks t :
  Forall chunk_ok ks -> read_string (concat_map escape ks +:+ t) = prepend (concat_map sanitize_chunk ks) (read_string t).
Proof.
  induction ks as [|k ks IH]; intros HF; [simpl; by destruct (read_string t) as [[? ?]|]|].
  apply Forall_cons in HF as [Hk HF]. cbn [concat_map fold_right]. fold (concat_map escape ks) (concat_map sanitize_chunk ks).
  rewrite app_string_assoc, read_escape, IH, prepend_app by done. done.
Qed.

(** A JSON string reads back as what the escaping keeps. *)
Lemma json_string_reads s t : read_quoted (json_string s +:+ t) = Some (sanitize s, t).
Proof.
  unfold json_string. cbn [String.append read_quoted]. rewrite Ascii.eqb_refl.
  rewrite app_string_assoc, read_escapes by apply runes_ok. fold (sanitize s). simpl. by rewrite app_string_nil_r.
Qed.

Lemma json_members_read l t : forall fuel,
  (List.length l <= fuel)%nat -> l <> [] ->
  read_members fuel (json_members l +:+ String "}" t) =
  Some (map (fun '(k, v) => (sanitize k, sanitize v)) l, t).
Proof.
  induction l as [|[k v] l IH]; intros [|fuel] Hf Hne; try done; [simpl in Hf; lia|].
  cbn [json_members read_members]. rewrite app_string_assoc, json_string_reads. cbn [String.append].
  rewrite app_string_assoc, json_string_reads. destruct l as [|m l]; [done|].
  cbn [String.append]. rewrite IH by (done || (simpl in *; lia)). done.
Qed.

Lemma json_members_length l : (List.length l <= String.length (json_members l))%nat.
Proof.
  induction l as [|[k v] l IH]; [done|]. cbn [json_members List.length]. unfold json_string at 1.
  rewrite !length_app_string. cbn [String.length]. rewrite !length_app_string. destruct l as [|m l]; [simpl; lia|].
  cbn [String.length]. lia.
Qed.

(** *** One line *)

Lemma escape_one_line k : chunk_ok k -> contains_byte newline (escape k) = false.
Proof.
  destruct k as [c| |s]; cbn [chunk_ok escape]; [|done|].
  - intros Hc. destruct c as [[] [] [] [] [] [] [] []]; vm_compute in Hc; try discriminate; reflexivity.
  - intros Hs. assert (contains_byte newline s = false) as Hn by (by apply (str_all_not_contains high)).
    by repeat case_match.
Qed.

Lemma json_string_one_line s : contains_byte newline (json_string s) = false.
Proof.
  unfold json_string. rewrite contains_byte_cons, contains_byte_app. pose proof (runes_ok s) as HF.
  assert (contains_byte newline (concat_map escape (runes s)) = false) as ->; [|done].
  induction HF as [|k ks Hk _ IH]; [done|]. cbn [concat_map fold_right]. by rewrite contains_byte_app, escape_one_line.
Qed.

Lemma Marshal_one_line r : contains_byte newline (Marshal r) = false.
Proof.
  unfold Marshal. rewrite contains_byte_cons, contains_byte_app.
  assert (contains_byte newline (json_members (kept_fields r)) = false) as ->; [|done].
  generalize (kept_fields r). intros l. induction l as [|[k v] l IH]; [done|]. cbn [json_members].
  rewrite contains_byte_app, contains_byte_cons, contains_byte_app, !json_string_one_line.
  by destruct l.
Qed.

Lemma names_plain r k v : In (k, v) (kept_fields r) -> sanitize k = k.
Proof.
  unfold kept_fields. rewrite in_map_iff. intros ([[k' v'] o] & [= -> ->] & Hin). apply List.filter_In in Hin as [Hin _].
  unfold audit_fields in Hin. simpl in Hin. repeat destruct Hin as [[= <- <- <-]|Hin]; done.
Qed.

(** ** Properties *)

(** Claim C24: An audit record is one line that says what the boundary recorded.
    A reader of JSON objects gets, from the line of a record, exactly its fields,
    in order: the time and the decision, and every other field that is not
    empty, each name once; each value is the recorded one, with bytes that are
    not UTF-8 replaced. Whatever a guest puts into a destination or a name, it
    adds no field and no line break: the lines of a log are the records written
    to it. *)
Theorem audit_log_reads_back (r : auditRecord) (rs : list auditRecord) (rest : string) :
  read_object (audit_line r +:+ rest)%string =
    Some (map (fun '(k, v) => (k, sanitize v)) (kept_fields r), String newline rest) /\
  (forall k v, In (k, v) (kept_fields r) <->
     exists omitempty, In (k, v, omitempty) (audit_fields r) /\ (omitempty = true -> v <> EmptyString)) /\
  NoDup (map fst (kept_fields r)) /\
  (forall v, valid_utf8 v = true -> sanitize v = v) /\
  split newline (concat_map audit_line rs) = map Marshal rs ++ [EmptyString].
Proof.
  assert (forall r rest, read_object (audit_line r +:+ rest)%string =
    Some (map (fun '(k, v) => (sanitize k, sanitize v)) (kept_fields r), String newline rest)) as Hread.
  { clear. intros r rest. unfold audit_line, Marshal. cbn [String.append read_object]. rewrite !app_string_assoc.
    cbn [String.append]. apply json_members_read; [|].
    - rewrite length_app_string. pose proof (json_members_length (kept_fields r)). lia.
    - unfold kept_fields, audit_fields. simpl. discriminate. }
  split_and!.
  - rewrite Hread. do 2 f_equal. apply map_ext_in. intros [k v] Hin. by rewrite (names_plain r k v).
  - intros k v. unfold kept_fields. rewrite in_map_iff. setoid_rewrite List.filter_In. split.
    + intros ([[k' v'] o] & [= -> ->] & Hin & Ho). exists o. split; [done|]. intros -> ->. done.
    + intros (o & Hin & Ho). exists (k, v, o). split_and!; [done..|]. destruct o; [|done].
      cbn [andb]. by rewrite (proj2 (String.eqb_neq _ _) (Ho eq_refl)).
  - unfold kept_fields. rewrite map_map.
    assert (NoDup (map (fun f : string * string * bool => f.1.1) (audit_fields r))) as Hnd.
    { apply (bool_decide_eq_true_1 (NoDup _)). reflexivity. }
    revert Hnd. generalize (audit_fields r). intros l Hnd. induction l as [|[[k v] o] l IH]; [constructor|].
    cbn [map] in Hnd. apply NoDup_cons in Hnd as [Hk Hnd]. cbn [List.filter]. case_match; [|by apply IH].
    cbn [map]. apply NoDup_cons. split; [|by apply IH]. intros Hin. apply Hk.
    apply list_elem_of_In, in_map_iff in Hin as (x & Ex & Hx). apply List.filter_In in Hx as [Hx _].
    apply list_elem_of_In, in_map_iff. by exists x.
  - apply sanitize_valid.
  - induction rs as [|r' rs IH]; [done|]. cbn [concat_map fold_right map app]. fold (concat_map audit_line rs).
    unfold audit_line at 1. rewrite app_string_assoc. cbn [String.append].
    by rewrite split_app_sep, (split_no_sep newline (Marshal r')), IH by apply Marshal_one_line.
Qed.

Definition sample_record : auditRecord :=
  mkAudit "2026-01-01T00:00:00Z" "unix:///b" "s" EmptyString "1" "h1" "tcp"
    ("a" +:+ String newline (String quote (utf8 [200; 65])))%string EmptyString EmptyString "7" EmptyString "deny" "not-on-allowlist".

(** A destination with a newline, a quote and a byte that is not UTF-8. *)
Example sample_line :
  Marshal (mkAudit "t" EmptyString EmptyString EmptyString EmptyString EmptyString EmptyString
    (a_Destination sample_record) EmptyString EmptyString EmptyString EmptyString "deny" EmptyString) =
  ("{" +:+ json_string "ts" +:+ ":" +:+ json_string "t" +:+ "," +:+ json_string "destination" +:+ ":" +:+
   String quote ("a\n\" +:+ String quote "\ufffdA") +:+ String quote ("," +:+ json_string "decision" +:+ ":" +:+
   json_string "deny" +:+ "}"))%string.
Proof. vm_compute. reflexivity. Qed.
