(* ===== verification/Process.v ===== *)
(** * Programs that end the process

    The [main] functions and the launcher are computations that act on the system
    and may end the process at any point ([log.Fatal], [os.Exit]): a trace of
    events, with a value or an exit status. The lemmas say what a computation has
    done when it goes on, provided that no event of its trace is [serving]. *)

From S2P Require Import Prelude.

(** The events of a program, one of which is [log.Fatal]. *)
Class ProcessEvent (E : Type) := { Fatal : string -> E }.

Definition process (E A : Type) : Type := (list E * (A + Z))%type.

Section Process.
Context {E : Type} `{ProcessEvent E}.

Definition pret {A} (a : A) : process E A := ([], inl a).
Definition exit_with {A} (e : E) (status : Z) : process E A := ([e], inr status).
Definition fatal {A} (msg : string) : process E A := exit_with (Fatal msg) 1.
Definition act (e : E) : process E unit := ([e], inl tt).

Definition pbind {A B} (m : process E A) (f : A -> process E B) : process E B :=
  match m with
  | (t, inl a) => let (t', b) := f a in (t ++ t', b)
  | (t, inr status) => (t, inr status)
  end.

(** [if err != nil { log.Fatal(err) }] *)
Definition must {A} (r : Result A) (msg : string) : process E A :=
  match r with Ok a => pret a | Err _ => fatal msg end.

(** A call that may fail, with what it leaves in the trace. *)
Definition attempt {A} (e : E) (r : Result A) : process E (Result A) := ([e], inl r).
End Process.
Arguments fatal {E _ A} msg%_string_scope.
Arguments must {E _ A} r msg%_string_scope.

Notation "'let!' x ':=' m 'in' k" := (pbind m (fun x => k))
  (at level 10, x name, m at level 100, k at level 200) : go_scope.
Notation "m ';!' k" := (pbind m (fun _ => k)) (at level 100, k at level 200, right associativity) : go_scope.

Local Open Scope go_scope.

(** Calls in order, until one fails: the [if err := f(); err != nil { return err }]
    chains. *)
Fixpoint calls {E C : Type} (ev : C -> E) (answer : C -> Result unit) (cs : list C) : process E (Result unit) :=
  match cs with
  | [] => pret (Ok tt)
  | c :: cs =>
      let! r := attempt (ev c) (answer c) in
      match r with Ok _ => calls ev answer cs | Err e => pret (Err e) end
  end.

(** ** What a computation has done when it goes on *)

Section Passes.
Context {E : Type} `{ProcessEvent E} (serving : E -> bool).
Context (Hfatal : forall msg, serving (Fatal msg) = false).

Definition quiet (t : list E) : bool := forallb (fun e => negb (serving e)) t.

Definition passes {A} (m : process E A) (P : list E -> A -> Prop) : Prop :=
  quiet m.1 = true /\ match m.2 with inl a => P m.1 a | inr _ => True end.

Lemma passes_bind {A B} (m : process E A) (f : A -> process E B) (P : list E -> A -> Prop) (Q : list E -> B -> Prop) :
  passes m P -> (forall t a, P t a -> passes (f a) (fun t' b => Q (t ++ t') b)) -> passes (pbind m f) Q.
Proof.
  destruct m as [t [a|status]]; intros [Ht Hm] Hf; [|done]. cbn [fst snd] in *. specialize (Hf t a Hm).
  cbn [pbind]. destruct (f a) as [t' b]. destruct Hf as [Ht' Hb]. cbn [fst snd] in *. split; cbn [fst snd]; [|done].
  unfold quiet in *. by rewrite forallb_app, Ht, Ht'.
Qed.

Lemma passes_weaken {A} (m : process E A) (P Q : list E -> A -> Prop) :
  passes m P -> (forall t a, P t a -> Q t a) -> passes m Q.
Proof. intros [Ht Hm] HPQ. split; [done|]. destruct m.2; auto. Qed.

Lemma passes_fatal {A} msg (P : list E -> A -> Prop) : passes (fatal msg) P.
Proof. split; [|done]. cbn. by rewrite Hfatal. Qed.

Lemma passes_guard (b : bool) msg : passes (if b then fatal msg else pret tt) (fun t _ => t = [] /\ b = false).
Proof. destruct b; [apply passes_fatal|by split]. Qed.

Lemma passes_result {A} (r : Result A) msg : passes (must r msg) (fun t a => t = [] /\ r = Ok a).
Proof. destruct r; [by split|apply passes_fatal]. Qed.

Lemma passes_act e : serving e = false -> passes (act e) (fun t _ => t = [e]).
Proof. intros He. split; [cbn; by rewrite He|done]. Qed.

Lemma passes_attempt {A} e (r : Result A) msg :
  serving e = false -> passes (let! r := attempt e r in must r msg) (fun t a => t = [e] /\ r = Ok a).
Proof. intros He. destruct r; (split; [cbn; by rewrite He, ?Hfatal|by cbn]). Qed.

Lemma passes_calls {C} (ev : C -> E) answer cs :
  (forall c, serving (ev c) = false) ->
  passes (calls ev answer cs) (fun t r => is_ok r = true ->
    t = map ev cs /\ Forall (fun c => answer c = Ok tt) cs).
Proof.
  intros Hq. induction cs as [|c cs IH]; [by split|]. cbn [calls].
  destruct (answer c) as [[]|e] eqn:Ha; [|split; cbn; by rewrite ?Hq].
  destruct IH as [Ht Hr]. destruct (calls ev answer cs) as [t r]. cbn in Ht, Hr.
  split; [cbn; by rewrite Hq|]. cbn. destruct r as [r|]; [|done]. intros Hok.
  destruct (Hr Hok) as [-> HF]. split; [done|by constructor].
Qed.

Lemma passes_must (m : process E (Result unit)) msg (P : list E -> Prop) :
  passes m (fun t r => is_ok r = true -> P t) -> passes (let! r := m in must r msg) (fun t _ => P t).
Proof.
  intros Hm. eapply passes_bind; [exact Hm|]. intros t [a|e] Hr; [split; cbn; rewrite ?app_nil_r; auto|apply passes_fatal].
Qed.
End Passes.
Arguments passes_bind {E serving A B} m f P Q.
Arguments passes_weaken {E serving A} m P Q.
Arguments passes_guard {E _ serving} Hfatal b msg.
Arguments passes_result {E _ serving} Hfatal {A} r msg.
Arguments passes_act {E serving} e.
Arguments passes_attempt {E _ serving} Hfatal {A} e r msg.
Arguments passes_calls {E serving C} ev answer cs.
Arguments passes_must {E _ serving} Hfatal m msg P.
