(* ===== verification/Launcher.v ===== *)
(** * The sandbox launcher

    [runLauncher], [configureTUN], [dropNetAdmin] and [runChild] of
    [sdk/cmd/tun2connect/run.go], with [openTUN], [virtualDNS] and the daemon mode of
    [main.go]. The launcher is a computation that leaves a trace of what it does
    to the system, or ends the process; what the system answers is an
    environment. [runChild] is a machine, because signals and children arrive
    while it works. *)

From S2P Require Import Prelude Process GoStrings Netip Policy Http Connect VirtualDNS VirtualDNSSpec VirtualDNSFacts Ingress.

Local Open Scope go_scope.

(** ** Capabilities *)

Definition CAP_NET_ADMIN : Z := 12.

(** The first of the two words that [capget] fills, as 32-bit integers. *)
Record CapUserData := mkCaps { Effective : Z; Permitted : Z; Inheritable : Z }.

(** [^uint32(1 << unix.CAP_NET_ADMIN)] *)
Definition cap_mask : Z := Z.lxor (2 ^ 32 - 1) (Z.shiftl 1 CAP_NET_ADMIN).

Definition mask_caps (c : CapUserData) : CapUserData :=
  mkCaps (Z.land (Effective c) cap_mask) (Z.land (Permitted c) cap_mask) (Z.land (Inheritable c) cap_mask).

(** ** What the launcher does *)

Inductive netlink : Type :=
| LinkByName (name : string)
| LinkSetUp (name : string)
| ParseAddr (cidr : string)
| AddrAdd (name cidr : string)
| RouteAdd (name dst : string).

(** The calls on the TUN descriptor. *)
Inductive tun_call : Type := Open_tun | NewIfreq (name : string) | TUNSETIFF (name : string) | SetNonblock.

Inductive sys_event : Type :=
| ListInterfaces
| Listen (t : listen_target)
| Tun (c : tun_call)
| CloseTun
| Netlink (c : netlink)
| WriteFile (path text : string)
| CapBSetDrop
| CapGet
| CapSet (c : CapUserData)
| CapBSetRead
| NewTUNDevice (mtu : Z)
| NewEngine (boundary : dial_target) (sandbox_id : string) (ttl : Z) (udp : bool)
| GoServeIngress (pinned : gset Z)
| AwaitSignal
| RunChild (argv : list string)
| EngineClose
| Usage
| Fatal (msg : string).

#[export] Instance sys_event_process : ProcessEvent sys_event := { Process.Fatal := Fatal }.

Definition launch (A : Type) : Type := process sys_event A.

(** What the system answers. *)
Record system := mkSystem {
  s_interfaces : Result (list (string * bool));     (** name, and whether it is a loopback *)
  s_url_parse : string -> option (string * string * string);
  s_listen : Result unit;
  s_tun : tun_call -> Result unit;
  s_netlink : netlink -> Result unit;
  s_bset_drop : Result unit;
  s_capget : Result CapUserData;
  s_capset : Result unit;
  s_bset_read : Result Z;
  s_device : Result unit;
  s_engine : Result unit;
  s_child : Z;                                      (** the status [runChild] returns *)
}.

(** The flags of [tun2connect run], and its arguments. *)
Record run_flags := mkFlags {
  f_device : string; f_mtu : Z; f_udp : bool; f_dnsTTL : Z;
  f_ingress : string; f_ingressPorts : string; f_sandboxID : string; f_args : list string;
}.

Definition guestAddr4 : string := "100.127.255.254".
Definition pool4PrefixLen : Z := 10.
Definition resolverAddr : string := "100.127.255.253".
Definition guestAddr6 : string := "100::ffff:ffff:ffff:fffe".
Definition pool6PrefixLen : Z := 64.

Section Launcher.
Variable s : system.

(** The descriptor is closed when a call after [Open] fails. *)
Definition openTUN (name : string) : launch (Result unit) :=
  let! r := attempt (Tun Open_tun) (s_tun s Open_tun) in
  match r with
  | Err e => pret (Err e)
  | Ok _ =>
      let! r := calls Tun (s_tun s) [NewIfreq name; TUNSETIFF name; SetNonblock] in
      match r with
      | Ok _ => pret (Ok tt)
      | Err e => act CloseTun ;! pret (Err e)
      end
  end.

Definition guest_cidrs : list string :=
  [(guestAddr4 +:+ "/" +:+ format_uint pool4PrefixLen)%string;
   (guestAddr6 +:+ "/" +:+ format_uint pool6PrefixLen)%string].

Definition tun_calls (name : string) : list netlink :=
  [LinkByName name] ++
  flat_map (fun cidr => [ParseAddr cidr; AddrAdd name cidr]) guest_cidrs ++
  [LinkSetUp name; RouteAdd name "0.0.0.0/0"; RouteAdd name "::/0"].

Definition configureTUN (name : string) : launch (Result unit) :=
  let! lo := attempt (Netlink (LinkByName "lo")) (s_netlink s (LinkByName "lo")) in
  let! up := (if is_ok lo then calls Netlink (s_netlink s) [LinkSetUp "lo"] else pret (Ok tt)) in
  match up with
  | Err e => pret (Err e)
  | Ok _ => calls Netlink (s_netlink s) (tun_calls name)
  end.

Definition dropNetAdmin : launch (Result unit) :=
  let! r := attempt CapBSetDrop (s_bset_drop s) in
  match r with
  | Err e => pret (Err "bounding set: %w (needs CAP_SETPCAP and CGO_ENABLED=0)")
  | Ok _ =>
      let! data := attempt CapGet (s_capget s) in
      match data with
      | Err e => pret (Err "capget: %w")
      | Ok data =>
          let! r := attempt (CapSet (mask_caps data)) (s_capset s) in
          match r with
          | Err e => pret (Err "capset: %w")
          | Ok _ =>
              let! kept := attempt CapBSetRead (s_bset_read s) in
              match kept with
              | Ok kept => if kept =? 0 then pret (Ok tt) else pret (Err "CAP_NET_ADMIN still in bounding set (%d, %v)")
              | Err e => pret (Err "CAP_NET_ADMIN still in bounding set (%d, %v)")
              end
          end
      end
  end.

(** The loop over the interfaces. *)
Fixpoint check_interfaces (device : string) (ifaces : list (string * bool)) : launch unit :=
  match ifaces with
  | [] => pret tt
  | (name, loopback) :: ifaces =>
      if loopback || String.eqb name device then check_interfaces device ifaces
      else fatal "refusing to start: unexpected interface %q (the sandbox must have loopback only)"
  end.

(** [virtualDNS]: a resolver with the TTL; a negative one ends the process. *)
Definition virtualDNS (ttl : Z) : launch VirtualDNS :=
  if ttl <? 0 then fatal "-dns-ttl must not be negative (got %v)"
  else pret (mkVirtualDNS ttl (v4 NewVirtualDNS) (v6 NewVirtualDNS) (reverse NewVirtualDNS)
               (elements NewVirtualDNS) (next_element NewVirtualDNS)).

(** The end of the launcher, once the engine runs: [eng.Close] is deferred, and
    [os.Exit] does not run it. *)
Definition serve_or_run (ingress : bool) (pinned : gset Z) (argv : list string) : launch unit :=
  (if ingress then act (GoServeIngress pinned) else pret tt) ;!
  match argv with
  | [] => act AwaitSignal ;! act EngineClose
  | _ => exit_with (RunChild argv) (s_child s)
  end.

(** [runLauncher] up to the start of the engine. *)
Definition prepare (f : run_flags) (boundary : string) : launch (gset Z) :=
  let ingress := negb (String.eqb (f_ingress f) EmptyString) in
  let pinned := match parsePinnedPorts (f_ingressPorts f) with Ok p => p | Err _ => ∅ end in
  (if ingress && bool_decide (pinned = ∅)
   then fatal "-ingress-socket requires -ingress-port listing one or more ports in the range 1-65535"
   else pret tt) ;!
  let! dns := virtualDNS (f_dnsTTL f) in
  let! ifaces := (let! r := attempt ListInterfaces (s_interfaces s) in must r "listing interfaces: %v") in
  check_interfaces (f_device f) ifaces ;!
  let! dial := must (boundaryDialer (s_url_parse s) boundary) "%v" in
  (if ingress then
     let! t := must (listenIngress (f_ingress f)) "ingress listener %s: %v" in
     let! r := attempt (Listen t) (s_listen s) in must r "ingress listener %s: %v"
   else pret tt) ;!
  (let! r := openTUN (f_device f) in must r "%v") ;!
  (let! r := configureTUN (f_device f) in must r "configuring %s: %v") ;!
  act (WriteFile "/etc/resolv.conf" ("nameserver " +:+ resolverAddr +:+ String "010" EmptyString)%string) ;!
  (let! r := dropNetAdmin in must r "dropping CAP_NET_ADMIN after TUN setup: %v") ;!
  (let! r := attempt (NewTUNDevice (f_mtu f mod 2 ^ 32)) (s_device s) in must r "link endpoint: %v") ;!
  (let! r := attempt (NewEngine dial (f_sandboxID f) (TTL dns) (f_udp f)) (s_engine s) in must r "%v") ;!
  pret pinned.

Definition runLauncher (f : run_flags) : launch unit :=
  match parseRunArgs (f_args f) with
  | None => exit_with Usage 2
  | Some (boundary, argv) =>
      let! pinned := prepare f boundary in
      serve_or_run (negb (String.eqb (f_ingress f) EmptyString)) pinned argv
  end.

(** The flags of the daemon mode. *)
Record daemon_flags := mkDaemon {
  g_device : string; g_mtu : Z; g_proxy : string; g_udp : bool; g_dnsTTL : Z; g_sandboxID : string;
}.

(** [main] of the command: with [run] as its first argument the launcher, else
    the engine alone, on a host that keeps its network. *)
Definition daemon (g : daemon_flags) : launch unit :=
  let! dns := virtualDNS (g_dnsTTL g) in
  let! dial := must (boundaryDialer (s_url_parse s) (g_proxy g)) "%v" in
  (let! r := openTUN (g_device g) in must r "%v") ;!
  (let! r := attempt (NewTUNDevice (g_mtu g mod 2 ^ 32)) (s_device s) in must r "link endpoint: %v") ;!
  (let! r := attempt (NewEngine dial (g_sandboxID g) (TTL dns) (g_udp g)) (s_engine s) in must r "%v") ;!
  act AwaitSignal ;!
  act EngineClose.

Definition main (run_flags_of : list string -> run_flags) (daemon_flags_of : list string -> daemon_flags)
    (args : list string) : launch unit :=
  match args with
  | name :: mode :: rest =>
      if String.eqb mode "run" then runLauncher (run_flags_of rest) else daemon (daemon_flags_of (mode :: rest))
  | _ => daemon (daemon_flags_of [])
  end.
End Launcher.

(** ** The sandbox is closed before anything runs in it *)

(** From these events on, code that the launcher does not trust can act. *)
Definition serving (e : sys_event) : bool :=
  match e with GoServeIngress _ | AwaitSignal | RunChild _ => true | _ => false end.

Abbreviation quiet := (quiet serving).
Abbreviation passes := (passes serving).

Lemma fatal_quiet msg : serving (Process.Fatal msg) = false.
Proof. done. Qed.

Section Confinement.
Variables (s : system) (f : run_flags).

Lemma passes_interfaces ifaces :
  passes (check_interfaces (f_device f) ifaces)
    (fun t _ => t = [] /\ Forall (fun i => i.2 = true \/ i.1 = f_device f) ifaces).
Proof.
  induction ifaces as [|[name lo] ifaces IH]; [by split|]. cbn [check_interfaces].
  destruct (lo || String.eqb name (f_device f)) eqn:E; [|by split]. eapply passes_weaken; [exact IH|].
  intros t _ [-> HF]. split; [done|]. constructor; [|done]. apply orb_true_iff in E. cbn.
  destruct E as [E|E]; [by left|right; by apply String.eqb_eq].
Qed.

(** The calls of the set-up that may fail, written out: they are compared with what
    the launcher computes. *)
Definition expected_tun : list tun_call := [Open_tun; NewIfreq (f_device f); TUNSETIFF (f_device f); SetNonblock].

Definition expected_netlink : list netlink :=
  let dev := f_device f in
  (if is_ok (s_netlink s (LinkByName "lo")) then [LinkSetUp "lo"] else []) ++
  [LinkByName dev;
   ParseAddr "100.127.255.254/10"; AddrAdd dev "100.127.255.254/10";
   ParseAddr "100::ffff:ffff:ffff:fffe/64"; AddrAdd dev "100::ffff:ffff:ffff:fffe/64";
   LinkSetUp dev; RouteAdd dev "0.0.0.0/0"; RouteAdd dev "::/0"].

(** All the launcher does between the ingress listener and the agent. *)
Definition expected_setup (data : CapUserData) (dial : dial_target) : list sys_event :=
  map Tun expected_tun ++
  [Netlink (LinkByName "lo")] ++ map Netlink expected_netlink ++
  [WriteFile "/etc/resolv.conf" ("nameserver 100.127.255.253" +:+ String "010" EmptyString)%string;
   CapBSetDrop; CapGet; CapSet (mask_caps data); CapBSetRead; NewTUNDevice (f_mtu f mod 2 ^ 32);
   NewEngine dial (f_sandboxID f) (f_dnsTTL f) (f_udp f)].

(** Every one of those calls succeeded, but for the file, whose error is logged. *)
Record setup_succeeds (data : CapUserData) : Prop := mkSucceeds {
  ok_tun : Forall (fun c => s_tun s c = Ok tt) expected_tun;
  ok_netlink : Forall (fun c => s_netlink s c = Ok tt) expected_netlink;
  ok_drop : s_bset_drop s = Ok tt;
  ok_capget : s_capget s = Ok data;
  ok_capset : s_capset s = Ok tt;
  ok_read : s_bset_read s = Ok 0;
  ok_device : s_device s = Ok tt;
  ok_engine : s_engine s = Ok tt;
}.

Lemma passes_openTUN :
  passes (openTUN s (f_device f)) (fun t r => is_ok r = true ->
    t = map Tun expected_tun /\ Forall (fun c => s_tun s c = Ok tt) expected_tun).
Proof.
  unfold openTUN, expected_tun. cbn. destruct (s_tun s Open_tun) as [[]|] eqn:E1; [|by split]. cbn.
  destruct (s_tun s (NewIfreq (f_device f))) as [[]|] eqn:E2; [|by split]. cbn.
  destruct (s_tun s (TUNSETIFF (f_device f))) as [[]|] eqn:E3; [|by split]. cbn.
  destruct (s_tun s SetNonblock) as [[]|] eqn:E4; split; try done. intros _. split; [done|]. by repeat constructor.
Qed.

Lemma expected_netlink_eq :
  expected_netlink =
  (if is_ok (s_netlink s (LinkByName "lo")) then [LinkSetUp "lo"] else []) ++ tun_calls (f_device f).
Proof. reflexivity. Qed.

Lemma passes_configureTUN :
  passes (configureTUN s (f_device f)) (fun t r => is_ok r = true ->
    t = Netlink (LinkByName "lo") :: map Netlink expected_netlink /\
    Forall (fun c => s_netlink s c = Ok tt) expected_netlink).
Proof.
  unfold configureTUN. rewrite expected_netlink_eq.
  set (up := if is_ok (s_netlink s (LinkByName "lo")) then [LinkSetUp "lo"] else []).
  eapply (passes_bind _ _ (fun t lo => t = [Netlink (LinkByName "lo")] /\ lo = s_netlink s (LinkByName "lo"))); [by split|].
  intros t lo [-> ->]. eapply (passes_bind _ _ (fun t r => is_ok r = true -> t = map Netlink up /\
    Forall (fun c => s_netlink s c = Ok tt) up)).
  - unfold up. destruct (is_ok (s_netlink s (LinkByName "lo"))); [by apply passes_calls|]. by split.
  - intros t [[]|e] Hup; [|by split]. destruct (Hup eq_refl) as [-> HF].
    eapply passes_weaken; [by apply passes_calls|]. intros t r Hr Hok. destruct (Hr Hok) as [-> HF'].
    rewrite map_app. split; [done|]. by apply Forall_app.
Qed.

Lemma passes_dropNetAdmin :
  passes (dropNetAdmin s) (fun t r => is_ok r = true ->
    exists data, s_capget s = Ok data /\ s_bset_read s = Ok 0 /\ s_bset_drop s = Ok tt /\ s_capset s = Ok tt /\
      t = [CapBSetDrop; CapGet; CapSet (mask_caps data); CapBSetRead]).
Proof.
  unfold dropNetAdmin. cbn. destruct (s_bset_drop s) as [[]|]; [|by split]. cbn.
  destruct (s_capget s) as [data|]; [|by split]. cbn. destruct (s_capset s) as [[]|]; [|by split]. cbn.
  destruct (s_bset_read s) as [kept|]; [|by split]. destruct (Z.eqb_spec kept 0) as [->|]; split; try done.
  intros _. by exists data.
Qed.

Definition checked : Prop :=
  exists ifaces, s_interfaces s = Ok ifaces /\ Forall (fun i => i.2 = true \/ i.1 = f_device f) ifaces.

(** The ingress listener of the flags, and the ports its streams may reach. *)
Definition ingress_opened (listen : list sys_event) (pinned : gset Z) : Prop :=
  if String.eqb (f_ingress f) EmptyString then listen = []
  else exists target, listenIngress (f_ingress f) = Ok target /\ s_listen s = Ok tt /\ listen = [Listen target] /\
         parsePinnedPorts (f_ingressPorts f) = Ok pinned /\ pinned <> ∅.

Lemma passes_listen (ingress : bool) :
  passes (if ingress then
            let! t := must (listenIngress (f_ingress f)) "ingress listener %s: %v" in
            let! r := attempt (Listen t) (s_listen s) in must r "ingress listener %s: %v"
          else pret tt)
    (fun t _ => if ingress then exists target, listenIngress (f_ingress f) = Ok target /\ s_listen s = Ok tt /\ t = [Listen target]
                else t = []).
Proof.
  destruct ingress; [|by split]. eapply passes_bind; [by apply passes_result|]. intros t l [-> Hl].
  eapply passes_weaken; [by apply passes_attempt|]. intros t' [] [-> Hok]. by exists l.
Qed.

Lemma passes_prepare boundary :
  passes (prepare s f boundary) (fun t pinned =>
    checked /\ 0 <= f_dnsTTL f /\ exists data dial listen, setup_succeeds data /\ ingress_opened listen pinned /\
      boundaryDialer (s_url_parse s) boundary = Ok dial /\
      t = ListInterfaces :: listen ++ expected_setup data dial).
Proof.
  unfold prepare. eapply passes_bind; [by apply passes_guard|]. intros t1 u1 [-> Hports].
  eapply (passes_bind _ _ (fun t d => t = [] /\ TTL d = f_dnsTTL f /\ 0 <= f_dnsTTL f)).
  { unfold virtualDNS. destruct (f_dnsTTL f <? 0) eqn:E; split; try done. cbn. bool_to_prop. split_and!; [done..|lia]. }
  intros t2 dns (-> & Httl & Hpos). eapply passes_bind; [by apply passes_attempt|]. intros t3 ifaces [-> Hif].
  eapply passes_bind; [apply passes_interfaces|]. intros t4 u4 [-> HF].
  eapply passes_bind; [by apply passes_result|]. intros t5 dial [-> Hdial].
  eapply passes_bind; [apply passes_listen|]. intros t6 u6 Hlisten.
  eapply passes_bind; [apply passes_must; [done|]; apply passes_openTUN|].
  intros t7 u7 [-> Htun].
  eapply passes_bind; [apply passes_must; [done|]; apply passes_configureTUN|].
  intros t8 u8 [-> Hnet]. eapply (passes_bind _ _ (fun t _ => t = [_])); [by split|]. intros t9 u9 ->.
  eapply passes_bind; [apply passes_must; [done|]; apply passes_dropNetAdmin|].
  intros t10 u10 (data & Hget & Hread & Hdrop & Hset & ->).
  eapply passes_bind; [by apply passes_attempt|]. intros t11 [] [-> Hdev].
  eapply passes_bind; [by apply passes_attempt|]. intros t12 [] [-> Heng].
  split; [done|]. cbn [pret fst snd]. split_and!; [by exists ifaces|done|].
  exists data, dial, t6. split_and!; [by constructor| |done|].
  - unfold ingress_opened. destruct (String.eqb (f_ingress f) EmptyString); [done|].
    cbn [negb andb] in *. destruct Hlisten as (target & Ht & Hl & ->). apply bool_decide_eq_false in Hports.
    exists target. split_and!; try done. by destruct (parsePinnedPorts (f_ingressPorts f)).
  - unfold expected_setup. rewrite Httl, app_nil_r. reflexivity.
Qed.
End Confinement.

(** The capability is gone, and only it. *)
Lemma cap_mask_bit n : 0 <= n < 32 -> Z.testbit cap_mask n = negb (n =? CAP_NET_ADMIN).
Proof.
  intros Hn. unfold cap_mask. rewrite Z.lxor_spec.
  assert (Z.testbit (2 ^ 32 - 1) n = true) as ->.
  { change (2 ^ 32 - 1) with (Z.ones 32). by apply Z.ones_spec_low. }
  rewrite Z.shiftl_1_l. destruct (Z.eqb_spec n CAP_NET_ADMIN) as [->|Hne]; [done|].
  rewrite Z.pow2_bits_false by done. done.
Qed.

(** ** Running the agent: [runChild] *)

Inductive WaitStatus : Type := Exited (status : Z) | Signaled (signal : Z).

Definition child_status (ws : WaitStatus) : Z :=
  match ws with Signaled signal => 128 + signal | Exited status => status end.

(** [SIGCHLD], or one of the signals that are forwarded. *)
Inductive signal : Type := SIGCHLD | Fatal_signal (n : Z).

Inductive child_phase : Type :=
| Started                       (* before [signal.Notify] *)
| Waiting                       (* at the range over the channel *)
| Reaping                       (* in the loop of [Wait4] *)
| Returned (status : Z).

(** [c_chan]: the channel of capacity 16, whose full buffer drops a signal;
    [c_zombies]: processes that ended and were not waited for, with their
    status; [c_killed]: what was sent to the group of the child. *)
Record child_state := mkChild {
  c_phase : child_phase; c_chan : list signal; c_zombies : list (Z * WaitStatus);
  c_killed : list Z; c_reaped : list (Z * WaitStatus);
}.

Inductive child_label : Type :=
| Ends (pid : Z) (ws : WaitStatus)      (* the child, or an orphan that re-parented *)
| Sent (n : Z)                          (* a fatal signal for the launcher *)
| Notify
| Receive
| Wait4 (i : nat)                       (* the kernel reports any zombie *)
| Wait4None.                            (* no zombie: 0 or ECHILD *)

Definition sig_capacity : nat := 16.

(** What the runtime does with a signal that was asked for. *)
Definition deliver (c : child_state) (g : signal) : child_state :=
  match c_phase c with
  | Started => c
  | _ => if (List.length (c_chan c) <? sig_capacity)%nat
         then mkChild (c_phase c) (c_chan c ++ [g]) (c_zombies c) (c_killed c) (c_reaped c) else c
  end.

Definition set_phase (p : child_phase) (c : child_state) : child_state :=
  mkChild p (c_chan c) (c_zombies c) (c_killed c) (c_reaped c).

Definition child_step (child : Z) (c : child_state) (l : child_label) : option child_state :=
  match l, c_phase c with
  | Ends pid ws, _ =>
      Some (deliver (mkChild (c_phase c) (c_chan c) (c_zombies c ++ [(pid, ws)]) (c_killed c) (c_reaped c)) SIGCHLD)
  | Sent n, Started => None      (* the default action ends the launcher *)
  | Sent n, _ => Some (deliver c (Fatal_signal n))
  | Notify, Started => Some (set_phase Waiting c)
  | Receive, Waiting =>
      match c_chan c with
      | [] => None
      | SIGCHLD :: chan => Some (mkChild Reaping chan (c_zombies c) (c_killed c) (c_reaped c))
      | Fatal_signal n :: chan => Some (mkChild Waiting chan (c_zombies c) (c_killed c ++ [n]) (c_reaped c))
      end
  | Wait4 i, Reaping =>
      match c_zombies c !! i with
      | None => None
      | Some (pid, ws) =>
          Some (mkChild (if pid =? child then Returned (child_status ws) else Reaping)
                  (c_chan c) (delete i (c_zombies c)) (c_killed c) (c_reaped c ++ [(pid, ws)]))
      end
  | Wait4None, Reaping => match c_zombies c with [] => Some (set_phase Waiting c) | _ => None end
  | _, _ => None
  end.

Fixpoint child_run (child : Z) (c : child_state) (ls : list child_label) : option child_state :=
  match ls with
  | [] => Some c
  | l :: ls => match child_step child c l with Some c => child_run child c ls | None => None end
  end.

Definition child_start : child_state := mkChild Started [] [] [] [].

(** *** Lemmas on [runChild] *)

(** The launcher's own steps. *)
Definition own_child (l : child_label) : bool :=
  match l with Receive | Wait4 _ | Wait4None => true | _ => false end.

(** No end of a process goes unnoticed: the child does not end before the
    launcher asks for [SIGCHLD], and a full channel holds one already. *)
Definition noticed (child : Z) (c : child_state) (l : child_label) : Prop :=
  match l with
  | Ends pid _ =>
      match c_phase c with
      | Started => pid <> child
      | _ => (List.length (c_chan c) < sig_capacity)%nat \/ In SIGCHLD (c_chan c)
      end
  | _ => True
  end.

Fixpoint all_noticed (child : Z) (c : child_state) (ls : list child_label) : Prop :=
  match ls with
  | [] => True
  | l :: ls => noticed child c l /\
      match child_step child c l with Some c => all_noticed child c ls | None => True end
  end.

Definition child_inv (child : Z) (c : child_state) : Prop :=
  (c_phase c = Started -> ~ In child (map fst (c_zombies c))) /\
  (c_phase c = Waiting -> In child (map fst (c_zombies c)) -> In SIGCHLD (c_chan c)).

(** Where the statuses come from. *)
Definition child_source (child : Z) (ended : list (Z * WaitStatus)) (c : child_state) : Prop :=
  (forall x, In x (c_zombies c ++ c_reaped c) -> In x ended) /\
  (forall st, c_phase c = Returned st -> exists ws, In (child, ws) ended /\ st = child_status ws).

Definition ended_of (ls : list child_label) : list (Z * WaitStatus) :=
  flat_map (fun l => match l with Ends pid ws => [(pid, ws)] | _ => [] end) ls.

Lemma deliver_fields c g :
  c_phase (deliver c g) = c_phase c /\ c_zombies (deliver c g) = c_zombies c /\ c_reaped (deliver c g) = c_reaped c /\
  (forall x, In x (c_chan c) -> In x (c_chan (deliver c g))).
Proof.
  unfold deliver. destruct (c_phase c) eqn:E; try (by split_and!); destruct (_ <? _)%nat; cbn; split_and!; try done;
    intros x Hx; apply in_app_iff; by left.
Qed.

Lemma deliver_chld c :
  c_phase c <> Started -> (List.length (c_chan c) < sig_capacity)%nat \/ In SIGCHLD (c_chan c) ->
  In SIGCHLD (c_chan (deliver c SIGCHLD)).
Proof.
  intros Hp H. unfold deliver. destruct (c_phase c); [done|..];
    (destruct (Nat.ltb_spec (List.length (c_chan c)) sig_capacity); [cbn; apply in_app_iff; right; by left|];
     destruct H; [lia|done]).
Qed.

Lemma in_delete {A} (x : A) i l : In x (delete i l) -> In x l.
Proof.
  revert i. induction l as [|y l IH]; intros [|i] H; [done|done|by right|].
  destruct H as [->|H]; [by left|right; by apply (IH i)].
Qed.

Lemma in_delete_other {A} (x y : A) i l : l !! i = Some y -> x <> y -> In x l -> In x (delete i l).
Proof.
  revert i. induction l as [|z l IH]; intros i Hi Hne Hin; [done|].
  destruct i as [|i]; cbn in *; [injection Hi as ->; by destruct Hin|].
  destruct Hin as [->|Hin]; [by left|right; by apply IH].
Qed.

Lemma child_step_inv child c l c' :
  child_inv child c -> noticed child c l -> child_step child c l = Some c' -> child_inv child c'.
Proof.
  intros [H1 H2] Hn Hs. unfold child_step in Hs. destruct l as [pid ws|n| | |i|].
  - injection Hs as <-. set (c1 := mkChild _ _ _ _ _). destruct (deliver_fields c1 SIGCHLD) as (Ep & Ez & _ & _).
    split; rewrite Ep, Ez; cbn [c_phase c_zombies c1]; intros Hp; rewrite map_app, in_app_iff.
    + cbn in Hn. rewrite Hp in Hn. intros [Hin|[Hin|[]]]; [by apply H1|by apply Hn].
    + intros _. apply deliver_chld; cbn [c_phase c_chan c1]; [by rewrite Hp|]. cbn in Hn. by rewrite Hp in Hn.
  - destruct (c_phase c) eqn:Ep; try done; injection Hs as <-;
      destruct (deliver_fields c (Fatal_signal n)) as (Ep' & Ez & _ & Hc); split; rewrite Ep', Ez, Ep; try done;
      intros _ Hin; apply Hc; by apply H2.
  - destruct (c_phase c) eqn:Ep; try done. injection Hs as <-. split; [done|]. cbn. intros _ Hin. by destruct (H1 eq_refl).
  - destruct (c_phase c) eqn:Ep; try done. destruct (c_chan c) as [|[|n] chan] eqn:Ec; try done; injection Hs as <-; split; try done.
    cbn. intros _ Hin. by destruct (H2 eq_refl Hin) as [?|?].
  - destruct (c_phase c) eqn:Ep; try done. destruct (c_zombies c !! i) as [[pid ws]|]; [|done]. injection Hs as <-.
    by split; cbn; destruct (pid =? child).
  - destruct (c_phase c) eqn:Ep; try done. destruct (c_zombies c) as [|z zs] eqn:Ez; [|done]. injection Hs as <-.
    split; [done|]. cbn. by rewrite Ez.
Qed.

Lemma child_step_source child ended c l c' :
  child_source child ended c -> child_step child c l = Some c' -> child_source child (ended ++ ended_of [l]) c'.
Proof.
  intros [H1 H2] Hs. assert (child_source child (ended ++ ended_of [l]) c) as [G1 G2].
  { split; [intros x Hx; apply in_app_iff; left; by apply H1|].
    intros st Hst. destruct (H2 st Hst) as (ws & Hin & Est). exists ws. split; [apply in_app_iff; by left|done]. }
  clear H1 H2. unfold child_step in Hs. destruct l as [pid ws|n| | |i|].
  - injection Hs as <-. set (c1 := mkChild _ _ _ _ _). destruct (deliver_fields c1 SIGCHLD) as (Ep & Ez & Er & _).
    split; rewrite ?Ep, ?Ez, ?Er; cbn [c_phase c_zombies c_reaped c1]; [|done].
    intros x. rewrite !in_app_iff. intros [[Hx|[<-|[]]]|Hx].
    + apply in_app_iff, G1, in_app_iff. by left.
    + right. by left.
    + apply in_app_iff, G1, in_app_iff. by right.
  - destruct (c_phase c) eqn:Ep; try done; injection Hs as <-;
      destruct (deliver_fields c (Fatal_signal n)) as (Ep' & Ez & Er & _); split; by rewrite ?Ep', ?Ez, ?Er, ?Ep.
  - destruct (c_phase c) eqn:Ep; try done. injection Hs as <-. by split.
  - destruct (c_phase c) eqn:Ep; try done. destruct (c_chan c) as [|[|n] chan]; try done; injection Hs as <-; by split.
  - destruct (c_phase c) eqn:Ep; try done. destruct (c_zombies c !! i) as [[pid ws]|] eqn:Ei; [|done]. injection Hs as <-.
    assert (In (pid, ws) (c_zombies c)) as Hin by (apply list_elem_of_In; by eapply list_elem_of_lookup_2).
    split; cbn.
    + intros x. rewrite in_app_iff. intros [Hx|Hx]; [apply G1, in_app_iff; left; by eapply in_delete|].
      apply in_app_iff in Hx as [Hx|[<-|[]]]; apply G1, in_app_iff; auto.
    + intros st. destruct (Z.eqb_spec pid child) as [->|]; [|done]. intros [= <-]. exists ws.
      split; [apply G1, in_app_iff; by left|done].
  - destruct (c_phase c) eqn:Ep; try done. destruct (c_zombies c) eqn:Ez; [|done]. injection Hs as <-.
    split; cbn; [by rewrite Ez|done].
Qed.

Lemma child_run_inv child ls : forall ended c c',
  child_inv child c -> child_source child ended c -> all_noticed child c ls -> child_run child c ls = Some c' ->
  child_inv child c' /\ child_source child (ended ++ ended_of ls) c'.
Proof.
  induction ls as [|l ls IH]; intros ended c c' Hi Hs Ha; cbn [child_run].
  { intros [= <-]. cbn. by rewrite app_nil_r. }
  destruct Ha as [Hn Ha]. destruct (child_step child c l) as [c1|] eqn:E; [|done]. intros Hrun.
  destruct (IH (ended ++ ended_of [l]) c1 c') as [H1 H2]; try done.
  - by apply (child_step_inv child c l).
  - by apply (child_step_source child ended c l).
  - split; [done|]. rewrite <- app_assoc in H2. cbn [ended_of flat_map] in *. by rewrite app_nil_r in H2.
Qed.

Definition child_work (c : child_state) : Z :=
  2 * Z.of_nat (List.length (c_chan c)) + Z.of_nat (List.length (c_zombies c)) +
  (match c_phase c with Reaping => 1 | _ => 0 end).

Lemma child_step_own child c l c' :
  own_child l = true -> child_step child c l = Some c' ->
  child_work c' < child_work c /\ c_phase c' <> Started /\
  (In child (map fst (c_zombies c)) -> In child (map fst (c_zombies c')) \/ exists st, c_phase c' = Returned st).
Proof.
  intros Ho Hs. unfold child_step, child_work in *. destruct l as [pid ws|n| | |i|]; try done;
    destruct (c_phase c) eqn:Ep; try done.
  - destruct (c_chan c) as [|[|n] chan]; try done; injection Hs as <-;
      cbn [c_chan c_zombies c_phase List.length]; (split; [lia|]); (split; [done|]); by left.
  - destruct (c_zombies c !! i) as [[pid ws]|] eqn:Ei; [|done]. injection Hs as <-. cbn [c_chan c_zombies c_phase].
    assert (List.length (delete i (c_zombies c)) = (List.length (c_zombies c) - 1)%nat) as ->
      by (apply length_delete; by rewrite Ei).
    assert ((0 < List.length (c_zombies c))%nat) by (destruct (c_zombies c); [done|simpl; lia]).
    split; [destruct (pid =? child); lia|]. split; [by destruct (pid =? child)|]. intros Hin.
    destruct (Z.eqb_spec pid child) as [->|Hne]; [right; by eexists|left].
    apply in_map_iff in Hin as ([p w] & <- & Hx). apply in_map_iff. exists (p, w). split; [done|].
    apply (in_delete_other _ (pid, ws)); try done. intros [= -> ->]. done.
  - destruct (c_zombies c) eqn:Ez; [|done]. injection Hs as <-. cbn [set_phase c_chan c_zombies c_phase]. rewrite ?Ez.
    cbn [List.length]. split; [lia|]. by split; [|left].
Qed.

Lemma own_noticed child c l : own_child l = true -> noticed child c l /\ ended_of [l] = [].
Proof. by destruct l. Qed.

(** A child that is a zombie lets the launcher step. *)
Lemma zombie_progress child c :
  child_inv child c -> c_phase c <> Started -> In child (map fst (c_zombies c)) ->
  (exists st, c_phase c = Returned st) \/ exists l, own_child l = true /\ is_Some (child_step child c l).
Proof.
  intros [_ H2] Hp Hin. unfold child_step. destruct (c_phase c) eqn:Ep; [done| | |left; by eexists]; right.
  - specialize (H2 eq_refl Hin). exists Receive. split; [done|].
    destruct (c_chan c) as [|[|n] chan]; [done|by eexists..].
  - exists (Wait4 0). split; [done|]. destruct (c_zombies c) as [|[pid ws] zs]; [done|]. by eexists.
Qed.

Lemma child_own_run child E ls : forall c c',
  child_inv child c -> child_source child E c -> c_phase c <> Started ->
  In child (map fst (c_zombies c)) \/ (exists st, c_phase c = Returned st) ->
  Forall (fun l => own_child l = true) ls -> child_run child c ls = Some c' ->
  Z.of_nat (List.length ls) <= child_work c /\
  ((exists l, own_child l = true /\ is_Some (child_step child c' l)) \/
   exists ws, In (child, ws) E /\ c_phase c' = Returned (child_status ws)).
Proof.
  induction ls as [|l ls IH]; intros c c' Hi Hs Hp Hin Ho; cbn [child_run].
  - intros [= <-]. split; [unfold child_work; destruct (c_phase c); simpl; lia|].
    assert ((exists st, c_phase c = Returned st) \/ exists l, own_child l = true /\ is_Some (child_step child c l)) as [[st Hst]|Hl].
    { destruct Hin as [Hin|Hst]; [by apply zombie_progress|by left]. }
    + right. destruct Hs as [_ Hs]. destruct (Hs st Hst) as (ws & Hws & ->). by exists ws.
    + by left.
  - apply Forall_cons in Ho as [Hl Ho]. destruct (child_step child c l) as [c1|] eqn:E1; [|done]. intros Hrun.
    destruct (own_noticed child c l Hl) as [Hn He].
    destruct (child_step_own child c l c1 Hl E1) as (Hw & Hp1 & Hkeep).
    pose proof (child_step_source child E c l c1 Hs E1) as Hs1. rewrite He, app_nil_r in Hs1.
    destruct (IH c1 c') as [Hlen Hend]; try done.
    + by apply (child_step_inv child c l).
    + destruct Hin as [Hin|[st Hst]]; [by apply Hkeep|]. unfold child_step in E1. rewrite Hst in E1. by destruct l.
    + split; [cbn [List.length]; lia|done].
Qed.

(** ** Properties *)


(** Claim C32: The launcher reports its agent's status. Once it waits for
    signals, and if no end of a process went unnoticed, then in every
    interleaving of signals and ends the launcher is never stuck while its
    child is a zombie: it takes at most [child_work] steps of its own, one of
    them is enabled until it returns, and what it returns is the status its
    child ended with, or 128 and the signal that killed it. *)
Theorem runChild_returns_status (child : Z) (ls ls' : list child_label) (c c' : child_state) :
  all_noticed child child_start ls -> child_run child child_start ls = Some c ->
  c_phase c <> Started -> In child (map fst (c_zombies c)) ->
  Forall (fun l => own_child l = true) ls' -> child_run child c ls' = Some c' ->
  Z.of_nat (List.length ls') <= child_work c /\
  ((exists l, own_child l = true /\ is_Some (child_step child c' l)) \/
   exists ws, In (child, ws) (ended_of ls) /\ c_phase c' = Returned (child_status ws)).
Proof.
  intros Hn Hrun Hp Hin Ho Hrun'.
  destruct (child_run_inv child ls [] child_start c) as [Hi Hs]; [|by split; [intros x []|]|done..|].
  { split; [by intros _ []|done]. }
  apply (child_own_run child (ended_of ls) ls'); try done. by left.
Qed.

(** An agent that ends at once is missed. [runChild] asks for SIGCHLD
    after it has started the agent: if the agent ends in between, the launcher
    waits for a signal that was not kept, with the agent's status unread, and
    no step of its own is enabled. *)
Theorem runChild_misses_early_exit (child status : Z) :
  exists c, child_run child child_start [Ends child (Exited status); Notify] = Some c /\
    In (child, Exited status) (c_zombies c) /\
    forall l, own_child l = true -> child_step child c l = None.
Proof.
  eexists. split; [reflexivity|]. split; [by left|]. intros [] Ho; done.
Qed.

(** The launcher's own addresses are never handed out. The addresses of
    the device lie in the pools that its routes cover, and neither they nor the
    resolver's address are ever the answer of the virtual DNS, in any state that
    it reaches, for any name. *)
Theorem guest_addresses_reserved `{GoUnicode} (os : list op) (xs : list outcome) (d d' : VirtualDNS)
    (name : string) (v6flag : bool) (a : Addr) :
  run NewVirtualDNS os = Some (xs, d) -> resolve d name v6flag = Some (Ok a, d') ->
  exists guest4 resolver guest6,
    Netip.ParseAddr guestAddr4 = Some guest4 /\ Netip.ParseAddr resolverAddr = Some resolver /\
    Netip.ParseAddr guestAddr6 = Some guest6 /\ p_bits v4Pool = pool4PrefixLen /\ p_bits v6Pool = pool6PrefixLen /\
    Contains v4Pool guest4 = true /\ Contains v4Pool resolver = true /\ Contains v6Pool guest6 = true /\
    a <> guest4 /\ a <> resolver /\ a <> guest6.
Proof.
  intros Hrun Hres. destruct (resolve_allocated _ _ _ _ _ _ _ Hrun Hres) as (z & -> & Hz).
  eexists _, _, _. do 3 (split; [vm_compute; reflexivity|]). do 5 (split; [vm_compute; reflexivity|]).
  unfold pool_base, pool_limit in Hz. destruct v6flag; cbn [mk_addr] in *; split_and!; try discriminate;
    intros [= ->]; vm_compute in Hz; destruct Hz; discriminate.
Qed.

(** ** Witnesses *)

Definition sample_system : system :=
  mkSystem (Ok [("lo"%string, true)]) (fun _ => Some ("unix"%string, EmptyString, "/b.sock"%string)) (Ok tt)
    (fun _ => Ok tt) (fun _ => Ok tt) (Ok tt) (Ok (mkCaps (2 ^ 32 - 1) 4096 0)) (Ok tt) (Ok 0) (Ok tt) (Ok tt) 3.

Definition sample_flags : run_flags :=
  mkFlags "tun0" 1500 true DefaultTTL "/run/in.sock" "8080, 9090" "box" ["/b.sock"; "agent"; "-x"]%string.


(** An orphan and then the agent end while a signal is pending. *)
Definition sample_child_labels : list child_label :=
  [Notify; Sent 15; Ends 40 (Exited 0); Receive; Receive; Ends 7 (Signaled 9)].

Definition sample_child : child_state := default child_start (child_run 7 child_start sample_child_labels).

Lemma runChild_returns_status_witness :
  exists c', child_run 7 sample_child [Wait4 1] = Some c' /\
    ((exists l, own_child l = true /\ is_Some (child_step 7 c' l)) \/
     exists ws, In (7, ws) (ended_of sample_child_labels) /\ c_phase c' = Returned (child_status ws)).
Proof.
  eexists. split; [vm_compute; reflexivity|].
  refine (proj2 (runChild_returns_status 7 sample_child_labels [Wait4 1] sample_child _ _ _ _ _ _ _)).
  - simpl. split_and!; try exact I; left; unfold sig_capacity; lia.
  - vm_compute. reflexivity.
  - discriminate.
  - vm_compute. right. left. reflexivity.
  - repeat constructor.
  - vm_compute. reflexivity.
Defined.

Lemma guest_addresses_reserved_witness :
  exists a d, resolve (H := ascii_unicode) NewVirtualDNS "a.example" false = Some (Ok a, d) /\ a <> Addr4 1686110206.
Proof.
  eexists _, _. split; [vm_compute; reflexivity|].
  destruct (guest_addresses_reserved (H := ascii_unicode) [] [] NewVirtualDNS _ "a.example" false _ eq_refl eq_refl)
    as (g4 & re & g6 & E4 & _ & _ & _ & _ & _ & _ & _ & Hne & _).
  vm_compute in E4. injection E4 as <-. exact Hne.
Defined.
