(* ===== verification/Start.v ===== *)
(** * How the programs start

    [main] and [boundaryTLSConfig] of [sdk/cmd/connect-proxy/main.go], with
    [loadPolicyFile] of [policy.go], and the start of [sdk/cmd/qemuproxy] and
    [sdk/cmd/netnsproxy]: what each checks before it serves. Flags are records;
    files, certificates, [url.Parse] and sockets are an environment. *)

From S2P Require Import Prelude Process GoStrings Netip Policy PolicyLoad Capsule Engine QemuFrames Netns.

Local Open Scope go_scope.

(** [strings.Contains(s, sub)] *)
Definition contains (sub s : string) : bool :=
  match String.index 0 sub s with Some _ => true | None => false end.

(** ** The boundary *)

Record boundary_flags := mkBoundaryFlags {
  b_listen : string; b_policy : string; b_generation : string; b_resolver : string;
  b_maxConnections : Z; b_maxStreams : Z; b_idle : Z; b_h2 : bool;
  b_tlsCert : string; b_tlsKey : string; b_clientCA : string;
}.

Inductive ClientAuthType : Type := NoClientCert | RequireAndVerifyClientCert.

(** [keypair]: a loaded certificate and key; [ClientCAs]: the text of the bundle. *)
Record tls_config (keypair : Type) := mkTLSConfig {
  MinVersion : Z; Certificates : list keypair; tls_NextProtos : list string;
  ClientCAs : option string; ClientAuth : ClientAuthType;
}.
Arguments mkTLSConfig {keypair}.
Arguments MinVersion {keypair}.
Arguments tls_NextProtos {keypair}.
Arguments Certificates {keypair}.
Arguments ClientCAs {keypair}.
Arguments ClientAuth {keypair}.

Definition VersionTLS12 : Z := 0x0303.

Section Boundary.
Context {keypair : Type}.

Inductive start_event : Type :=
| SetIdleTimeout (d : Z)
| SetListenerName (name : string)
| StorePolicy (p : policy)
| PinResolver (server : string)
| Exec (godebug : string)
| Remove (path : string)
| Listen (network address : string)
| TLSListener (config : tls_config keypair)
| ServeListener (h2 : bool) (maxConnections maxStreams : Z)
| FatalExit (msg : string).

#[export] Instance start_process : ProcessEvent start_event := { Process.Fatal := FatalExit }.

(** What the system answers. *)
Record host := mkHost {
  h_ReadFile : string -> Result string;
  h_LoadX509KeyPair : string -> string -> Result keypair;
  h_AppendCertsFromPEM : string -> bool;
  h_url_parse : string -> option (string * string * string);   (** scheme, host, path *)
  h_Listen : string -> string -> Result unit;                   (** network, address *)
  h_Exec : bool;                                                (** [syscall.Exec] replaces the process *)
}.

Variable env : host.
Variable load_descriptor : string -> string -> Result policy.   (** [Policy.loadDescriptor] *)

Definition boundaryTLSConfig (certPath keyPath clientCAPath : string) : Result (option (tls_config keypair)) :=
  let empty s := String.eqb s EmptyString in
  if empty certPath && empty keyPath && empty clientCAPath then Ok None
  else if empty certPath || empty keyPath
  then Err "TLS requires both -tls-cert and -tls-key; -tls-client-ca cannot be used without them"
  else match h_LoadX509KeyPair env certPath keyPath with
       | Err e => Err "load boundary certificate: %w"
       | Ok cert =>
           let config cas auth := mkTLSConfig VersionTLS12 [cert] ["h2"; "http/1.1"]%string cas auth in
           if empty clientCAPath then Ok (Some (config None NoClientCert))
           else match h_ReadFile env clientCAPath with
                | Err e => Err "load client CA: %w"
                | Ok pem =>
                    if negb (h_AppendCertsFromPEM env pem) then Err "no CA certificates in %s"
                    else Ok (Some (config (Some pem) RequireAndVerifyClientCert))
                end
       end.

(** The dial function of [pinnedResolver]: the network it is asked for, at the server
    that was configured. *)
Definition pinned_dial (server network _address : string) : string * string := (network, server).

Definition loadPolicyFile (path generation : string) : Result policy :=
  let? data := h_ReadFile env path in load_descriptor data generation.

(** The environment of the process that [main] starts instead of itself. *)
Definition next_godebug (godebug : string) : string :=
  ((if String.eqb godebug EmptyString then EmptyString else godebug +:+ ",") +:+ "http2xconnect=1")%string.

(** The re-execution: with status 0 the process is another one. *)
Definition reexec (f : boundary_flags) (godebug : string) : process start_event unit :=
  if b_h2 f && negb (contains "http2xconnect=1" godebug)
  then (if h_Exec env then exit_with (Exec (next_godebug godebug)) 0 else act (Exec (next_godebug godebug)))
  else pret tt.

Definition open_listener (f : boundary_flags) : process start_event unit :=
  let! u := must (or_err (h_url_parse env (b_listen f)) "url") "%v" in
  let '(scheme, host, path) := u in
  if String.eqb scheme "unix"
  then act (Remove path) ;! (let! r := attempt (Listen "unix" path) (h_Listen env "unix" path) in must r "%v")
  else if String.eqb scheme "tcp"
  then (let! r := attempt (Listen "tcp" host) (h_Listen env "tcp" host) in must r "%v")
  else fatal "unsupported listen scheme %q (want unix:// or tcp://)".

(** [main] up to the listener. *)
Definition boundary_setup (f : boundary_flags) (godebug : string) : process start_event unit :=
  act (SetIdleTimeout (b_idle f)) ;!
  act (SetListenerName (b_listen f)) ;!
  (if (b_maxConnections f <=? 0) || (b_maxStreams f <=? 0)
   then fatal "-max-connections and -max-streams must be positive" else pret tt) ;!
  (if String.eqb (b_policy f) EmptyString
   then fatal "-policy is required: a boundary without a policy descriptor answers every request with policy-unavailable"
   else pret tt) ;!
  let! p := must (loadPolicyFile (b_policy f) (b_generation f)) "%v" in
  act (StorePolicy p) ;!
  (if String.eqb (b_resolver f) EmptyString then pret tt else act (PinResolver (b_resolver f))) ;!
  let! config := must (boundaryTLSConfig (b_tlsCert f) (b_tlsKey f) (b_clientCA f)) "%v" in
  reexec f godebug ;!
  open_listener f ;!
  (match config with Some c => act (TLSListener c) | None => pret tt end).

Definition boundary_main (f : boundary_flags) (godebug : string) : process start_event unit :=
  boundary_setup f godebug ;!
  act (ServeListener (b_h2 f) (b_maxConnections f) (b_maxStreams f)) ;!
  fatal "serveListener".

(** *** What a boundary that serves has done *)

Definition serving (e : start_event) : bool := match e with ServeListener _ _ _ => true | _ => false end.

(** A configuration the boundary may listen with, for its TLS flags. *)
Definition tls_as_asked (f : boundary_flags) (c : option (tls_config keypair)) : Prop :=
  match c with
  | None => b_tlsCert f = EmptyString /\ b_tlsKey f = EmptyString /\ b_clientCA f = EmptyString
  | Some c =>
      b_tlsCert f <> EmptyString /\ b_tlsKey f <> EmptyString /\
      MinVersion c = VersionTLS12 /\ tls_NextProtos c = ["h2"; "http/1.1"]%string /\
      (exists pair, h_LoadX509KeyPair env (b_tlsCert f) (b_tlsKey f) = Ok pair /\ Certificates c = [pair]) /\
      (b_clientCA f <> EmptyString ->
       ClientAuth c = RequireAndVerifyClientCert /\
       exists pem, ClientCAs c = Some pem /\ h_ReadFile env (b_clientCA f) = Ok pem /\ h_AppendCertsFromPEM env pem = true)
  end.

Lemma boundaryTLSConfig_as_asked f c :
  boundaryTLSConfig (b_tlsCert f) (b_tlsKey f) (b_clientCA f) = Ok c -> tls_as_asked f c.
Proof.
  unfold boundaryTLSConfig. destruct (String.eqb (b_tlsCert f) EmptyString) eqn:Ec,
    (String.eqb (b_tlsKey f) EmptyString) eqn:Ek; cbn [andb orb]; try done;
    destruct (String.eqb (b_clientCA f) EmptyString) eqn:Ea; cbn; try done; bool_to_prop.
  - intros [= <-]. done.
  - destruct (h_LoadX509KeyPair env _ _) as [pair|] eqn:El; [|done]. intros [= <-]. cbn.
    split_and!; [done..|by exists pair|done].
  - destruct (h_LoadX509KeyPair env _ _) as [pair|] eqn:El; [|done].
    destruct (h_ReadFile env (b_clientCA f)) as [pem|] eqn:Er; [|done]. destruct (h_AppendCertsFromPEM env pem) eqn:Ep; [|done].
    intros [= <-]. cbn. split_and!; [done..|by exists pair|]. intros _. split; [done|]. by exists pem.
Qed.

(** The listener of the [-listen] flag, as [url.Parse] splits it. *)
Definition listens_as_asked (f : boundary_flags) (t : list start_event) : Prop :=
  exists scheme host path, h_url_parse env (b_listen f) = Some (scheme, host, path) /\
    ((scheme = "unix"%string /\ t = [Remove path; Listen "unix" path] /\ h_Listen env "unix" path = Ok tt) \/
     (scheme = "tcp"%string /\ t = [Listen "tcp" host] /\ h_Listen env "tcp" host = Ok tt)).

Lemma passes_open_listener f : passes serving (open_listener f) (fun t _ => listens_as_asked f t).
Proof.
  unfold open_listener. eapply passes_bind; [by apply passes_result|]. intros t [[scheme host] path] [-> Hu].
  assert (h_url_parse env (b_listen f) = Some (scheme, host, path)) as Hparse
    by (by destruct (h_url_parse env (b_listen f)); simplify_eq/=).
  destruct (String.eqb_spec scheme "unix") as [->|_].
  - eapply passes_bind; [by apply passes_act|]. intros t1 _ ->. eapply passes_weaken; [by apply passes_attempt|].
    intros t2 [] [-> Hl]. exists "unix"%string, host, path. split; [done|]. by left.
  - destruct (String.eqb_spec scheme "tcp") as [->|_]; [|by apply passes_fatal].
    eapply passes_weaken; [by apply passes_attempt|]. intros t2 [] [-> Hl].
    exists "tcp"%string, host, path. split; [done|]. by right.
Qed.

(** The stages of [main] before it serves. *)
Definition ready (f : boundary_flags) (godebug : string) (p : policy) (c : option (tls_config keypair))
    (t : list start_event) : Prop :=
  exists listener, listens_as_asked f listener /\
  t = [SetIdleTimeout (b_idle f); SetListenerName (b_listen f); StorePolicy p] ++
      (if String.eqb (b_resolver f) EmptyString then [] else [PinResolver (b_resolver f)]) ++
      (if b_h2 f && negb (contains "http2xconnect=1" godebug) then [Exec (next_godebug godebug)] else []) ++
      listener ++
      match c with Some c => [TLSListener c] | None => [] end.

Lemma passes_reexec f godebug :
  passes serving (reexec f godebug) (fun t _ =>
    t = if b_h2 f && negb (contains "http2xconnect=1" godebug) then [Exec (next_godebug godebug)] else []).
Proof. unfold reexec. destruct (b_h2 f && _); [|by split]. by destruct (h_Exec env); split. Qed.
Lemma passes_boundary_setup f godebug :
  passes serving (boundary_setup f godebug) (fun t _ =>
    (0 < b_maxConnections f /\ 0 < b_maxStreams f) /\
    exists p c, loadPolicyFile (b_policy f) (b_generation f) = Ok p /\ tls_as_asked f c /\ ready f godebug p c t).
Proof.
  unfold boundary_setup. eapply passes_bind; [by apply passes_act|]. intros t1 _ ->.
  eapply passes_bind; [by apply passes_act|]. intros t2 _ ->.
  eapply passes_bind; [by apply passes_guard|]. intros t3 _ [-> Hmax].
  eapply passes_bind; [by apply passes_guard|]. intros t4 _ [-> _].
  eapply passes_bind; [by apply passes_result|]. intros t5 p [-> Hp].
  eapply passes_bind; [by apply passes_act|]. intros t6 _ ->.
  eapply (passes_bind _ _ (fun t _ => t = if String.eqb (b_resolver f) EmptyString then [] else [PinResolver (b_resolver f)]));
    [by destruct (String.eqb (b_resolver f) EmptyString); split|]. intros t7 _ ->.
  eapply passes_bind; [by apply passes_result|]. intros t8 c [-> Hc].
  eapply passes_bind; [apply passes_reexec|]. intros t9 _ ->.
  eapply passes_bind; [apply passes_open_listener|]. intros t10 u10 Hlisten.
  apply (passes_weaken _ (fun t _ => t = match c with Some c => [TLSListener c] | None => [] end)); [by destruct c; split|].
  intros t11 _ ->. bool_to_prop. split; [done|]. exists p, c. split; [done|]. split; [by apply boundaryTLSConfig_as_asked|].
  exists t10. split; [done|]. by rewrite <- ?app_assoc.
Qed.
End Boundary.

Arguments start_event : clear implicits.
Arguments host : clear implicits.

Lemma contains_suffix a sub : sub <> EmptyString -> contains sub (a +:+ sub) = true.
Proof.
  intros Hne. unfold contains. destruct (String.index 0 sub (a +:+ sub)) eqn:E; [done|]. exfalso.
  apply (index_correct3 0 (String.length a) sub (a +:+ sub)); [done|done|lia|].
  clear. induction a as [|c a IH]; [|exact IH]. simpl. induction sub as [|c sub IH]; [done|]. simpl. by rewrite IH.
Qed.


(** ** The QEMU adapter *)

Record qemu_flags := mkQemuFlags {
  q_listen : string; q_proxy : string; q_addresses : string; q_mac : string; q_limit : Z; q_udp : bool;
}.

(** [url.URL]: the parts the program looks at. *)
Record parsed_url := mkParsed {
  u_Scheme : string; u_Host : string; u_Path : string; u_RawQuery : string; u_Fragment : string; u_User : bool;
}.

(** [filepath.IsAbs] on Unix. *)
Definition IsAbs (path : string) : bool := has_prefix "/" path.

Record qemu_config := mkQemuConfig {
  qc_MAC : list Z; qc_Addresses : list Prefix; qc_MaxConnections : Z; qc_EnableUDP : bool;
  qc_listen : string; qc_boundary : string;
}.

(** The loop over the addresses. *)
Definition gateway_prefix (prefixes : list Prefix) (value : string) : Result (list Prefix) :=
  match ParsePrefix value with
  | None => Err "invalid gateway address %q"
  | Some prefix =>
      if Is4In6 (p_addr prefix) || negb (IsGlobalUnicast (p_addr prefix))
      then Err "invalid gateway address %q" else Ok (prefixes ++ [prefix])
  end.

(** The checks of [run], and what it then listens on and hands to [qemuproxy.Run]. *)
Definition qemu_run (url_parse : string -> option parsed_url) (ParseMAC : string -> option (list Z))
    (f : qemu_flags) : Result qemu_config :=
  match url_parse (q_proxy f) with
  | None => Err "-proxy must be unix:///absolute/path"
  | Some boundary =>
      if negb (String.eqb (u_Scheme boundary) "unix") || negb (String.eqb (u_Host boundary) EmptyString)
         || negb (IsAbs (u_Path boundary)) || negb (String.eqb (u_RawQuery boundary) EmptyString)
         || negb (String.eqb (u_Fragment boundary) EmptyString) || u_User boundary
      then Err "-proxy must be unix:///absolute/path"
      else if negb (IsAbs (q_listen f)) || String.eqb (q_listen f) (u_Path boundary) || (q_limit f <=? 0)
      then Err "distinct absolute -listen path and positive -max-connections required"
      else match ParseMAC (q_mac f) with
           | None => Err "-mac must be a unicast Ethernet MAC"
           | Some hardware =>
               if negb (Z.of_nat (List.length hardware) =? 6) || negb (Z.land (hd 0 hardware) 1 =? 0)
               then Err "-mac must be a unicast Ethernet MAC"
               else
                 let? prefixes := fold_result gateway_prefix [] (split "," (q_addresses f)) in
                 Ok (mkQemuConfig hardware prefixes (q_limit f) (q_udp f) (q_listen f) (u_Path boundary))
           end
  end.

(** The engine's configuration that [qemuproxy.Run] builds. *)
Definition qemu_engine_config (c : qemu_config) : Engine.Config :=
  Engine.mkConfig true true true (qc_Addresses c) (qc_MaxConnections c) (qc_EnableUDP c) 0 0.

(** ** The namespace proxy *)

Record netns_flags := mkNetnsFlags {
  n_interface : string; n_proxy : string; n_table : string; n_udp : bool; n_ipv6 : bool; n_h2 : bool;
  n_limit : Z; n_dialTimeout : Z; n_idleTimeout : Z;
}.

(** The boundary's socket, and which client dials it. *)
Record netns_dialer := mkNetnsDialer { nd_path : string; nd_h2 : bool }.

Definition netns_boundary (url_parse : string -> option parsed_url) (f : netns_flags) : Result netns_dialer :=
  match url_parse (n_proxy f) with
  | None => Err "-proxy must be unix:///absolute/path"
  | Some address =>
      if negb (String.eqb (u_Scheme address) "unix") || String.eqb (u_Path address) EmptyString
         || negb (String.eqb (u_Host address) EmptyString)
      then Err "-proxy must be unix:///absolute/path"
      else Ok (mkNetnsDialer (u_Path address) (n_h2 f))
  end.

Definition netns_config (f : netns_flags) : Netns.Config :=
  Netns.mkConfig (n_interface f) (n_table f) true (n_udp f) (n_ipv6 f) (n_limit f).

(** *** What the adapter's checks give *)

Definition gateway_ok (p : Prefix) : Prop :=
  PrefixIsValid p = true /\ Is4In6 (p_addr p) = false /\ IsGlobalUnicast (p_addr p) = true.

Lemma gateway_prefixes values : forall prefixes out,
  Forall gateway_ok prefixes -> fold_result gateway_prefix prefixes values = Ok out ->
  Forall gateway_ok out /\ List.length out = (List.length prefixes + List.length values)%nat.
Proof.
  induction values as [|v values IH]; intros prefixes out HF; cbn [fold_result].
  { intros [= <-]. split; [done|simpl; lia]. }
  unfold gateway_prefix at 1. destruct (ParsePrefix v) as [p|] eqn:Ep; [|done].
  destruct (Is4In6 (p_addr p) || negb (IsGlobalUnicast (p_addr p))) eqn:Ec; [done|]. intros Hrun. bool_to_prop.
  destruct (IH (prefixes ++ [p]) out) as [H1 H2]; [|done|].
  - apply Forall_snoc; [done|]. destruct (ParsePrefix_wf v p Ep) as (_ & _ & _ & Hb).
    split_and!; [unfold PrefixIsValid; lia|done|done].
  - split; [done|]. rewrite H2, length_app. simpl. lia.
Qed.

(** What the QEMU command accepts, it can serve. If its flags pass, the
    packet socket and the boundary's socket are distinct absolute paths, the
    checks of [qemuproxy.Run] and of the engine's [New] pass with the flags'
    address, limit and UDP setting unchanged, and every gateway address is a
    global unicast address that is not an IPv4-mapped one. *)
Theorem qemu_accepts_runnable (url_parse : string -> option parsed_url) (ParseMAC : string -> option (list Z))
    (f : qemu_flags) (c : qemu_config) :
  qemu_run url_parse ParseMAC f = Ok c ->
  IsAbs (qc_listen c) = true /\ IsAbs (qc_boundary c) = true /\ qc_listen c <> qc_boundary c /\
  qc_listen c = q_listen f /\ 0 < qc_MaxConnections c /\
  Run_check (qc_MAC c) (qc_Addresses c) = None /\
  Forall gateway_ok (qc_Addresses c) /\ List.length (qc_Addresses c) = List.length (split "," (q_addresses f)) /\
  exists engine, Engine.New_config (qemu_engine_config c) = Ok engine /\
    Engine.Addresses engine = qc_Addresses c /\ Engine.MaxConnections engine = q_limit f /\
    Engine.EnableUDP engine = q_udp f.
Proof.
  unfold qemu_run. destruct (url_parse (q_proxy f)) as [b|]; [|done]. destruct (_ || u_User b) eqn:Eu; [done|].
  destruct (_ || (q_limit f <=? 0)) eqn:El; [done|]. destruct (ParseMAC (q_mac f)) as [mac|]; [|done].
  destruct (negb (Z.of_nat (List.length mac) =? 6) || negb (Z.land (hd 0 mac) 1 =? 0)) eqn:Em; [done|].
  destruct (fold_result gateway_prefix [] (split "," (q_addresses f))) as [prefixes|] eqn:Ep; [|done]. intros [= <-].
  destruct (gateway_prefixes _ [] prefixes ltac:(constructor) Ep) as [HF Hlen]. bool_to_prop.
  assert (List.length (split "," (q_addresses f)) <> 0%nat) as Hne.
  { pose proof (split_not_nil "," (q_addresses f)). by destruct (split "," (q_addresses f)). }
  cbn [qc_listen qc_boundary qc_MAC qc_Addresses qc_MaxConnections qc_EnableUDP qemu_engine_config].
  split_and!; try done; try lia.
  - unfold Run_check. change (len mac) with (Z.of_nat (List.length mac)).
    repeat match goal with H : (_ = _ :> Z) |- _ => rewrite H; clear H end.
    rewrite (proj2 (Z.eqb_neq (Z.of_nat (List.length prefixes)) 0)) by (simpl in Hlen; lia). done.
  - unfold Engine.New_config, qemu_engine_config. cbn.
    assert (existsb invalid_interface_address prefixes = false) as ->.
    { apply existsb_false_iff. intros p Hin. unfold invalid_interface_address.
      destruct (proj1 (List.Forall_forall _ _) HF p Hin) as (-> & -> & _). done. }
    rewrite (proj2 (Z.leb_gt _ _)) by lia. eexists. split; [done|]. done.
Qed.

(** ** Witnesses *)

#[local] Existing Instance ascii_unicode.
#[local] Existing Instance ascii_profile.

Definition sample_boundary : boundary_flags :=
  mkBoundaryFlags "tcp://127.0.0.1:8443" "policy.json" "g1" EmptyString 1024 256 3600 true "c.pem" "k.pem" "ca.pem".

Definition sample_host : host (string * string)%type :=
  mkHost (fun path => Ok path) (fun c k => Ok (c, k)) (fun _ => true)
    (fun _ => Some ("tcp"%string, "127.0.0.1:8443"%string, EmptyString)) (fun _ _ => Ok tt) false.

Definition sample_load (data generation : string) : Result policy :=
  loadDescriptor (fun _ => Some (sample_descriptor, EmptyString)) data generation.


Definition sample_qemu : qemu_flags :=
  mkQemuFlags "/run/qemu.sock" "unix:///run/boundary.sock" "10.0.2.1/24,fd00::1/64" "02:00:00:00:00:01" 64 true.

Lemma qemu_accepts_runnable_witness :
  exists c, qemu_run (fun _ => Some (mkParsed "unix" EmptyString "/run/boundary.sock" EmptyString EmptyString false))
    (fun _ => Some [2; 0; 0; 0; 0; 1]) sample_qemu = Ok c /\ Run_check (qc_MAC c) (qc_Addresses c) = None.
Proof.
  eexists. split; [vm_compute; reflexivity|].
  destruct (qemu_accepts_runnable (fun _ => Some (mkParsed "unix" EmptyString "/run/boundary.sock" EmptyString EmptyString false))
    (fun _ => Some [2; 0; 0; 0; 0; 1]) sample_qemu _ eq_refl) as (_ & _ & _ & _ & _ & Hc & _).
  exact Hc.
Defined.
