(* ===== verification/Join.v ===== *)
(** * Joining the workers of a run

    [Run] of [sdk/pkg/qemuproxy/proxy.go] and [Run] of
    [sdk/pkg/netnsproxy/proxy_linux.go] start workers that each send one error on a
    buffered channel, stop everything when the first error arrives or the context
    ends, and wait for the rest; around that, what each closes. A worker may run for
    ever unless it is stopped. One machine takes the difference between the two as a
    [join_policy]. *)

From S2P Require Import Prelude.

(** An error of a worker; [ErrClosed] is [net.ErrClosed], possibly wrapped. *)
Inductive run_error : Type := ErrClosed | CtxErr | Other (e : string).

#[export] Instance run_error_eq_dec : EqDecision run_error.
Proof. solve_decision. Defined.

(** [jp_self]: a worker that returns closes the proxy itself; [jp_result]: what
    [Run] returns, from the errors in the order it received them and whether the
    context has ended. *)
Record join_policy := mkJoin {
  jp_self : bool;
  jp_result : bool -> list run_error -> list run_error;
}.

(** [if ctx.Err() != nil { return ctx.Err() }; return err] *)
Definition qemu_result (ctx : bool) (received : list run_error) : list run_error :=
  if ctx then [CtxErr] else take 1 received.

(** [errors.Join] of the errors that are not [net.ErrClosed]. *)
Definition netns_result (ctx : bool) (received : list run_error) : list run_error :=
  List.filter (fun e => negb (bool_decide (e = ErrClosed))) received.

Definition qemu_Run : join_policy := mkJoin false qemu_result.
Definition netns_Run : join_policy := mkJoin true netns_result.

(** [j_stopped]: the context of the workers is cancelled, and what they read from is
    closed. [j_ctx]: the context of [Run] has ended. [j_result]: [Run] has returned,
    with these errors joined. *)
Record join_state := mkJoinState {
  j_running : list bool; j_chan : list run_error; j_received : list run_error;
  j_stopped : bool; j_ctx : bool; j_result : option (list run_error);
}.

Inductive join_label : Type :=
| WorkerEnds (i : nat) (e : run_error)    (** by itself, if it ever does *)
| WorkerStops (i : nat) (e : run_error)   (** because it was stopped *)
| ContextEnds                             (** before [Run] has returned *)
| ContextWatch                            (** [context.AfterFunc] stops the workers *)
| ReceiveError
| Stop                                    (** after the first error *)
| Return.

Section Join.
Variables (jp : join_policy) (n : nat).

Definition join_start : join_state := mkJoinState (repeat true n) [] [] false false None.

Definition worker_returns (s : join_state) (i : nat) (e : run_error) : option join_state :=
  match j_running s !! i with
  | Some true => Some (mkJoinState (<[i := false]> (j_running s)) (j_chan s ++ [e]) (j_received s)
                         (j_stopped s || jp_self jp) (j_ctx s) (j_result s))
  | _ => None
  end.

Definition stop_workers (s : join_state) : join_state :=
  mkJoinState (j_running s) (j_chan s) (j_received s) true (j_ctx s) (j_result s).

Definition is_nil {A} (l : list A) : bool := match l with [] => true | _ => false end.

Definition join_step (s : join_state) (l : join_label) : option join_state :=
  match l with
  | WorkerEnds i e => worker_returns s i e
  | WorkerStops i e => if j_stopped s then worker_returns s i e else None
  | ContextEnds =>
      match j_result s with
      | None => Some (mkJoinState (j_running s) (j_chan s) (j_received s) (j_stopped s) true None)
      | Some _ => None
      end
  | ContextWatch => if j_ctx s && negb (j_stopped s) then Some (stop_workers s) else None
  | ReceiveError =>
      match j_result s, j_chan s with
      | None, e :: chan =>
          if is_nil (j_received s) || j_stopped s
          then Some (mkJoinState (j_running s) chan (j_received s ++ [e]) (j_stopped s) (j_ctx s) None) else None
      | _, _ => None
      end
  | Stop => if negb (is_nil (j_received s)) && negb (j_stopped s) then Some (stop_workers s) else None
  | Return =>
      match j_result s with
      | None => if (List.length (j_received s) =? n)%nat && j_stopped s
                then Some (mkJoinState (j_running s) (j_chan s) (j_received s) true (j_ctx s)
                             (Some (jp_result jp (j_ctx s) (j_received s))))
                else None
      | Some _ => None
      end
  end.

Fixpoint join_run (s : join_state) (ls : list join_label) : option join_state :=
  match ls with
  | [] => Some s
  | l :: ls => match join_step s l with Some s => join_run s ls | None => None end
  end.

Inductive joins : list join_label -> join_state -> Prop :=
| joins_start : joins [] join_start
| joins_step ls s l s' : joins ls s -> join_step s l = Some s' -> joins (ls ++ [l]) s'.

(** The errors in the order the workers ended. *)
Definition errors_of (ls : list join_label) : list run_error :=
  flat_map (fun l => match l with WorkerEnds _ e | WorkerStops _ e => [e] | _ => [] end) ls.

Record join_inv (ls : list join_label) (s : join_state) : Prop := mkJoinInv {
  ji_workers : List.length (j_running s) = n;
  ji_errors : j_received s ++ j_chan s = errors_of ls;
  ji_count : count negb (j_running s) = Z.of_nat (List.length (errors_of ls));
  ji_ctx : j_ctx s = true <-> In ContextEnds ls;
  ji_result : forall r, j_result s = Some r ->
    List.length (j_received s) = n /\ j_stopped s = true /\ r = jp_result jp (j_ctx s) (j_received s);
}.

Lemma errors_of_snoc ls l : errors_of (ls ++ [l]) = errors_of ls ++ errors_of [l].
Proof. apply flat_map_app. Qed.

Lemma ctx_of_snoc ls l b : l <> ContextEnds -> (b = true <-> In ContextEnds ls) -> (b = true <-> In ContextEnds (ls ++ [l])).
Proof. intros Hl ->. rewrite in_app_iff. cbn. naive_solver. Qed.

Lemma count_repeat_true k : count negb (repeat true k) = 0.
Proof. unfold count. induction k as [|k IH]; [done|]. exact IH. Qed.

Ltac join_simpl := cbn [j_running j_chan j_received j_stopped j_ctx j_result stop_workers] in *.

Lemma worker_returns_inv ls s i e l s' :
  join_inv ls s -> l = WorkerEnds i e \/ l = WorkerStops i e -> worker_returns s i e = Some s' -> join_inv (ls ++ [l]) s'.
Proof.
  intros [Hw He Hc Hx Hr] Hl Hs. unfold worker_returns in Hs.
  destruct (j_running s !! i) as [[]|] eqn:Ei; try done. injection Hs as <-.
  assert (errors_of [l] = [e] /\ l <> ContextEnds) as [El Hne] by (by destruct Hl as [-> | ->]).
  constructor; join_simpl; rewrite ?errors_of_snoc, ?El.
  - by rewrite length_insert.
  - by rewrite app_assoc, He.
  - rewrite (count_insert _ _ i true false Ei), Hc, length_app. simpl. lia.
  - by apply ctx_of_snoc.
  - intros r Er. destruct (Hr r Er) as (H1 & H2 & H3). by rewrite H2.
Qed.

Lemma join_step_inv ls s l s' : join_inv ls s -> join_step s l = Some s' -> join_inv (ls ++ [l]) s'.
Proof.
  intros Hinv Hstep. pose proof Hinv as [Hw He Hc Hx Hr]. destruct l as [i e|i e| | | | |]; cbn [join_step] in Hstep.
  - by apply (worker_returns_inv ls s i e); [done|left|].
  - destruct (j_stopped s); [|done]. by apply (worker_returns_inv ls s i e); [done|right|].
  - destruct (j_result s) eqn:Er; [done|]. injection Hstep as <-.
    constructor; join_simpl; rewrite ?errors_of_snoc, ?app_nil_r; try done.
    split; [|done]. intros _. apply in_app_iff. right. by left.
  - destruct (_ && _) eqn:E; [|done]. injection Hstep as <-. apply andb_true_iff in E as [_ E].
    constructor; join_simpl; rewrite ?errors_of_snoc, ?app_nil_r; try done; [by apply ctx_of_snoc|].
    intros r Er. by destruct (Hr r Er) as (? & ? & ?).
  - destruct (j_result s) eqn:Er; [done|]. destruct (j_chan s) as [|e chan] eqn:Ec; [done|].
    destruct (_ || _); [|done]. injection Hstep as <-.
    constructor; join_simpl; rewrite ?errors_of_snoc, ?app_nil_r; try done; [by rewrite <- He, <- app_assoc|].
    by apply ctx_of_snoc.
  - destruct (_ && _) eqn:E; [|done]. injection Hstep as <-.
    constructor; join_simpl; rewrite ?errors_of_snoc, ?app_nil_r; try done; [by apply ctx_of_snoc|].
    intros r Er. by destruct (Hr r Er) as (? & ? & ?).
  - destruct (j_result s) eqn:Er; [done|]. destruct (_ && _) eqn:E; [|done].
    apply andb_true_iff in E as [El Est]. apply Nat.eqb_eq in El. injection Hstep as <-.
    constructor; join_simpl; rewrite ?errors_of_snoc, ?app_nil_r; try done; [by apply ctx_of_snoc|].
    by intros r [= <-].
Qed.

Lemma joins_inv ls s : joins ls s -> join_inv ls s.
Proof.
  induction 1 as [|ls s l s' _ IH Hstep]; [|by apply (join_step_inv ls s l)].
  constructor; cbn; try done; [by rewrite repeat_length|by rewrite count_repeat_true].
Qed.

(** The steps still to come, the end of the context apart. *)
Definition join_work (s : join_state) : Z :=
  2 * count (fun b => b) (j_running s) + Z.of_nat (List.length (j_chan s)) +
  (if j_stopped s then 0 else 1) + match j_result s with None => 1 | Some _ => 0 end.

Definition own_join (l : join_label) : bool := match l with ContextEnds => false | _ => true end.

(** The steps that wait for nothing outside the run. *)
Definition forced_join (l : join_label) : bool :=
  match l with WorkerEnds _ _ | ContextEnds => false | _ => true end.

(** Something has ended: the context, or a worker. *)
Definition ending (ls : list join_label) : Prop := In ContextEnds ls \/ errors_of ls <> [].

Lemma worker_returns_work s i e s' : worker_returns s i e = Some s' -> join_work s' < join_work s.
Proof.
  unfold worker_returns, join_work. destruct (j_running s !! i) as [[]|] eqn:Ei; try done. intros [= <-]. join_simpl.
  rewrite (count_insert _ _ i true false Ei), length_app. destruct (j_stopped s), (jp_self jp); simpl; lia.
Qed.

Lemma join_step_work s l s' :
  join_step s l = Some s' -> if own_join l then join_work s' < join_work s else join_work s' = join_work s.
Proof.
  destruct l as [i e|i e| | | | |]; cbn [join_step own_join]; intros Hs.
  - by apply (worker_returns_work s i e).
  - destruct (j_stopped s); [|done]. by apply (worker_returns_work s i e).
  - unfold join_work. destruct (j_result s) eqn:Er; [done|]. by injection Hs as <-.
  - unfold join_work. destruct (j_ctx s), (j_stopped s) eqn:Es; try done. injection Hs as <-. join_simpl. lia.
  - unfold join_work. destruct (j_result s) eqn:Er; [done|]. destruct (j_chan s) as [|e chan] eqn:Ec; [done|].
    destruct (_ || _); [|done]. injection Hs as <-. join_simpl. cbn [List.length]. lia.
  - unfold join_work. destruct (is_nil (j_received s)), (j_stopped s) eqn:Es; try done. injection Hs as <-. join_simpl. lia.
  - unfold join_work. destruct (j_result s) eqn:Er; [done|]. destruct (List.length (j_received s) =? n)%nat, (j_stopped s) eqn:Es; try done.
    injection Hs as <-. join_simpl. lia.
Qed.

Lemma count_complement (l : list bool) : count (fun b => b) l + count negb l = Z.of_nat (List.length l).
Proof. unfold count. induction l as [|[] l IH]; cbn [List.filter List.length negb]; lia. Qed.

Lemma count_none {A} (f : A -> bool) l : existsb f l = false -> count f l = 0.
Proof.
  unfold count. induction l as [|x l IH]; [done|]. cbn [existsb List.filter]. intros Hx.
  apply orb_false_iff in Hx as [-> Hx]. by apply IH.
Qed.

(** A run that is ending goes on by itself until it has returned. *)
Lemma join_progress ls s :
  join_inv ls s -> ending ls -> j_result s = None -> exists l, forced_join l = true /\ is_Some (join_step s l).
Proof.
  intros [Hw He Hc Hx _] Hend Hr. destruct (j_stopped s) eqn:Est.
  - destruct (j_chan s) as [|e chan] eqn:Ec.
    2: { exists ReceiveError. split; [done|]. cbn. rewrite Hr, Ec, Est, orb_true_r. by eexists. }
    destruct (existsb (fun b => b) (j_running s)) eqn:Ex.
    + apply existsb_exists in Ex as ([] & Hin & Eb); [|done]. apply list_elem_of_In, list_elem_of_lookup in Hin as [i Hi].
      exists (WorkerStops i ErrClosed). split; [done|]. cbn. unfold worker_returns. rewrite Est, Hi. by eexists.
    + exists Return. split; [done|]. cbn. rewrite Hr, Est, andb_true_r.
      assert (count (fun b => b) (j_running s) = 0) as H0 by (by apply count_none).
      pose proof (count_complement (j_running s)). rewrite app_nil_r in He. rewrite He.
      rewrite (proj2 (Nat.eqb_eq _ _)) by lia. by eexists.
  - destruct (j_received s) as [|x received] eqn:Erec.
    2: { exists Stop. split; [done|]. cbn. rewrite Erec, Est. by eexists. }
    destruct (j_chan s) as [|e chan] eqn:Ec.
    2: { exists ReceiveError. split; [done|]. cbn. rewrite Hr, Ec, Erec. by eexists. }
    exists ContextWatch. split; [done|]. cbn. rewrite Est. destruct Hend as [Hctx|Herr]; [|by rewrite <- He in Herr].
    rewrite (proj2 Hx Hctx). by eexists.
Qed.

Lemma join_run_joins ls : forall ls0 s s', joins ls0 s -> join_run s ls = Some s' -> joins (ls0 ++ ls) s'.
Proof.
  induction ls as [|l ls IH]; intros ls0 s s' Hj; cbn [join_run]; [intros [= <-]; by rewrite app_nil_r|].
  destruct (join_step s l) as [s1|] eqn:Es; [|done]. intros Hrun. rewrite (app_assoc ls0 [l] ls : ls0 ++ l :: ls = _).
  apply (IH _ s1); [by apply (joins_step ls0 s)|done].
Qed.

Lemma join_run_work ls : forall s s', join_run s ls = Some s' ->
  Z.of_nat (List.length (List.filter own_join ls)) + join_work s' <= join_work s.
Proof.
  induction ls as [|l ls IH]; intros s s'; cbn [join_run List.filter]; [intros [= <-]; simpl; lia|].
  destruct (join_step s l) as [s1|] eqn:Es; [|done]. intros Hrun. specialize (IH s1 s' Hrun).
  pose proof (join_step_work s l s1 Es). destruct (own_join l); cbn [List.length]; lia.
Qed.

Lemma join_work_nonneg s : 0 <= join_work s.
Proof. unfold join_work. pose proof (count_nonneg (fun b => b) (j_running s)). destruct (j_stopped s), (j_result s); lia. Qed.
End Join.

(** ** Around the join *)

(** The calls of [qemuproxy.Run] before and after its workers: it defers the end of
    each thing it starts. *)
Inductive run_call : Type :=
| OpenEndpoint | StartEngine | WatchContext | StartWorkers | Joined
| StopWatch | CancelRun | CloseEngine | CloseEndpoint | CloseConnection.

(** A return: what was done, then the deferred calls, the last first. *)
Definition returning {A} (done deferred : list run_call) (a : A) : list run_call * A :=
  (done ++ rev deferred, a).

(** [check] is the test of the configuration, [engine] what [tun2connect.New]
    returns, and [joined] what the joined workers give. *)
Definition qemu_session (check : option string) (engine : Result unit) (joined : list run_error)
  : list run_call * (list run_error + string) :=
  match check with
  | Some e => returning [] [CloseConnection] (inr e)
  | None =>
      match engine with
      | Err e => returning [OpenEndpoint; StartEngine] [CloseConnection; CloseEndpoint] (inr e)
      | Ok _ =>
          returning [OpenEndpoint; StartEngine; WatchContext; StartWorkers; CancelRun; CloseConnection; Joined]
            [CloseConnection; CloseEndpoint; CloseEngine; CancelRun; StopWatch] (inl joined)
      end
  end.

(** [Proxy.Run] runs once: the flag after the call, and whether it goes on. *)
Definition netns_enter (running : bool) : bool * Result unit :=
  (true, if running then Err "netnsproxy: Run called more than once" else Ok tt).

(** [Proxy.Close] under [closeOnce]: the context is cancelled, and the listeners of
    both kinds are closed, in order. *)
Inductive close_call : Type := CancelContext | CloseTCP (i : nat) | CloseUDP (i : nat).

Definition netns_Close (closed : bool) (tcp udp : nat) : bool * list close_call :=
  (true, if closed then [] else CancelContext :: map CloseTCP (seq 0 tcp) ++ map CloseUDP (seq 0 udp)).

(** Every call closes nothing but the first. *)
Fixpoint netns_closes (closed : bool) (tcp udp calls : nat) : list close_call :=
  match calls with
  | O => []
  | S calls => let (closed, cs) := netns_Close closed tcp udp in cs ++ netns_closes closed tcp udp calls
  end.

Lemma netns_closes_once tcp udp calls :
  netns_closes false tcp udp (S calls) = (netns_Close false tcp udp).2 /\
  NoDup (netns_closes false tcp udp (S calls)).
Proof.
  assert (forall k, netns_closes true tcp udp k = []) as H0 by (induction k as [|k IH]; [done|exact IH]).
  assert (netns_closes false tcp udp (S calls) = (netns_Close false tcp udp).2) as E
    by (cbn [netns_closes netns_Close]; by rewrite H0, app_nil_r).
  split; [done|]. rewrite E. cbn [netns_Close snd]. constructor.
  - rewrite elem_of_app, !list_elem_of_fmap. by intros [(i & [=] & _)|(i & [=] & _)].
  - apply NoDup_app. split_and!.
    + apply NoDup_fmap_2; [by intros ?? [= ->]|apply NoDup_seq].
    + intros x Hx Hy. apply list_elem_of_fmap in Hx as (i & -> & _). apply list_elem_of_fmap in Hy as (j & [=] & _).
    + apply NoDup_fmap_2; [by intros ?? [= ->]|apply NoDup_seq].
Qed.

(** Whatever [Run] returns, the connection is closed, what was opened has been
    closed, the engine before its endpoint, and nothing is closed that was not. *)
Lemma qemu_session_closes check engine joined :
  let t := (qemu_session check engine joined).1 in
  last t = Some CloseConnection /\
  (In OpenEndpoint t <-> In CloseEndpoint t) /\ (In WatchContext t <-> In StopWatch t) /\
  (In CloseEngine t -> exists a b, t = a ++ [CloseEngine; CloseEndpoint] ++ b).
Proof.
  destruct check as [e|]; [|destruct engine as [[]|e]].
  - cbn. split_and!; try done; (split; [by intros [[=]|[]]..|by intros [[=]|[]]]) || by intros [[=]|[]].
  - split_and!; [done|split; intros _; cbn; tauto..|]. intros _.
    by exists [OpenEndpoint; StartEngine; WatchContext; StartWorkers; CancelRun; CloseConnection; Joined; StopWatch; CancelRun], [CloseConnection].
  - split_and!; [done|split; intros _; cbn; tauto| |].
    + cbn. split; intros Hin; repeat (destruct Hin as [[=]|Hin]); destruct Hin.
    + cbn. intros Hin. repeat (destruct Hin as [[=]|Hin]). destruct Hin.
Qed.

(** ** Properties *)

(** Claim C33: a run ends only when its workers have, and it does end. In every
    interleaving, when [Run] of the QEMU adapter or of the namespace proxy has
    returned, each of its workers has returned and everything was stopped. The
    adapter's result is the error of its context when that had ended, whatever its
    workers gave, and otherwise the error of the first worker to end; the proxy's
    is every error but that of a closed socket. Once the context or any worker has
    ended, a run takes at most [join_work] steps, and until it has returned it can
    go on by itself: it stops the other workers, and they return because they were
    stopped, even if they never would have. *)
Theorem run_joins_workers (jp : join_policy) (n : nat) (ls ls' : list join_label) (s s' : join_state) :
  In jp [qemu_Run; netns_Run] -> (0 < n)%nat -> joins jp n ls s ->
  (forall r, j_result s = Some r ->
     Forall (fun running => running = false) (j_running s) /\ j_stopped s = true /\
     List.length (errors_of ls) = n /\
     (jp = qemu_Run -> (In ContextEnds ls -> r = [CtxErr]) /\
                       (~ In ContextEnds ls -> exists e later, errors_of ls = e :: later /\ r = [e])) /\
     (jp = netns_Run -> forall e, In e r <-> In e (errors_of ls) /\ e <> ErrClosed)) /\
  (join_run jp n s ls' = Some s' ->
   Z.of_nat (List.length (List.filter own_join ls')) <= join_work s /\
   (ending (ls ++ ls') -> j_result s' <> None \/ exists l, forced_join l = true /\ is_Some (join_step jp n s' l))).
Proof.
  intros Hjp Hn Hj. pose proof (joins_inv jp n ls s Hj) as [Hw He Hc Hx Hr]. split.
  - intros r Er. destruct (Hr r Er) as (Hlen & Hst & ->).
    pose proof (count_complement (j_running s)) as Hcc.
    assert (List.length (errors_of ls) = n) as Hlen'.
    { assert (List.length (errors_of ls) = List.length (j_received s) + List.length (j_chan s))%nat as E
        by (by rewrite <- He, length_app). pose proof (count_nonneg (fun b => b) (j_running s)). lia. }
    assert (j_received s = errors_of ls) as Erecv.
    { rewrite <- He in *. rewrite length_app in Hlen'. destruct (j_chan s); [by rewrite app_nil_r|simpl in *; lia]. }
    rewrite Erecv. split_and!; [|done..| |].
    + apply (count_zero (fun b => b)). lia.
    + intros ->. cbn. unfold qemu_result. split.
      * intros Hin. by rewrite (proj2 Hx Hin).
      * intros Hno. destruct (j_ctx s); [by destruct Hno; apply Hx|].
        destruct (errors_of ls) as [|e later]; [simpl in *; lia|]. by exists e, later.
    + intros -> e. cbn. unfold netns_result. rewrite List.filter_In, negb_true_iff, bool_decide_eq_false. done.
  - intros Hrun. pose proof (join_run_work jp n ls' s s' Hrun). pose proof (join_work_nonneg s').
    split; [lia|]. intros Hend. destruct (j_result s') eqn:Er; [by left|right].
    apply (join_progress jp n (ls ++ ls')); [|done..]. by apply joins_inv, (join_run_joins jp n ls' ls s).
Qed.

Definition sample_join : list join_label :=
  [WorkerEnds 1 (Other "EIO"); ReceiveError; WorkerStops 0 ErrClosed; ReceiveError; Return].

Definition sample_joined : join_state :=
  default (join_start 2) (join_run netns_Run 2 (join_start 2) sample_join).

Lemma run_joins_workers_witness :
  Forall (fun running => running = false) (j_running sample_joined) /\ j_stopped sample_joined = true.
Proof.
  assert (joins netns_Run 2 sample_join sample_joined) as Hj.
  { apply (join_run_joins netns_Run 2 sample_join [] (join_start 2)); [constructor|vm_compute; reflexivity]. }
  destruct (proj1 (run_joins_workers netns_Run 2 sample_join [] sample_joined sample_joined
    ltac:(right; left; reflexivity) ltac:(lia) Hj) [Other "EIO"] ltac:(vm_compute; reflexivity)) as (H1 & H2 & _).
  split; [exact H1|exact H2].
Defined.
