(* ===== verification/Scenarios.v ===== *)
(** * The scenario programs

    [src/scenarios/cmd]: the allow-list boundary ([boundary-proxy]), the vsock
    forwarder ([vsock-forwarder]) and the streaming endpoint of the target server
    ([target-server]). Their tunnels are in [Relay]. The HTTP request reader, socket
    options, dials and writers are an environment. *)

From S2P Require Import Prelude Process GoStrings Http.

Local Open Scope go_scope.

(** ** The allow-list boundary *)

Section Boundary.
Context `{GoUnicode}.

Record boundary_state := mkBoundary {
  allowAll : bool; allowedHosts : gset string; rewrites : gmap string string;
}.

(** The loop over [-allow]. *)
Definition add_allowed (st : bool * gset string) (h : string) : bool * gset string :=
  let clean := to_lower (trim_space h) in
  if String.eqb clean "*" then (true, st.2)
  else if negb (String.eqb clean EmptyString) then (st.1, {[clean]} ∪ st.2) else st.

(** The loop over [-upstream-map]. *)
Definition add_rewrite (m : gmap string string) (entry : string) : gmap string string :=
  let entry := trim_space entry in
  if String.eqb entry EmptyString then m
  else match cut "=" entry with
       | Some (name, target) => <[to_lower (trim_space name) := trim_space target]> m
       | None => m
       end.

Definition parse_flags (allow upstream_map : string) : boundary_state :=
  let '(all, hosts) := fold_left add_allowed (split "," allow) (false, ∅) in
  mkBoundary all hosts (fold_left add_rewrite (split "," upstream_map) ∅).

(** What [main] listens on. *)
Inductive boundary_listener : Type :=
| OnUnix (path : string)
| OnTCP (host : string)
| OnVSOCK (port : Z).

(** [url_parse] gives the scheme, the host and the path. *)
Definition boundary_listen (url_parse : string -> option (string * string * string)) (addr : string)
  : Result boundary_listener :=
  match url_parse addr with
  | None => Err "invalid listen URL: %v"
  | Some (scheme, host, path) =>
      if String.eqb scheme "unix" then Ok (OnUnix path)
      else if String.eqb scheme "tcp" then Ok (OnTCP host)
      else if String.eqb scheme "vsock" then
        let? port := or_err (parse_uint 32 (List.last (split ":" host) EmptyString)) "invalid vsock port %q: %v" in
        Ok (OnVSOCK port)
      else Err "unsupported scheme: %s"
  end.

(** What the socket says of its peer: the credentials of a Unix socket, or the
    context identifier of an AF_VSOCK one. *)
Record ucred := mkUcred { Pid : Z; Uid : Z }.

Definition peer_identity (syscall_conn : bool) (cred : option ucred) (peer_cid : option Z) : string * Z :=
  if negb syscall_conn then ("unknown"%string, 0)
  else
    let vsock := match peer_cid with
                 | Some cid => (("capsule-microvm-cid-" +:+ format_uint cid)%string, 0)
                 | None => ("unknown"%string, 0)
                 end in
    match cred with
    | Some c => if 0 <? Pid c
                then (("capsule-pid-" +:+ format_int (Pid c) +:+ "-uid-" +:+ format_uint (Uid c))%string, Uid c)
                else vsock
    | None => vsock
    end.

Record request := mkReq { rq_Method : string; rq_Host : string; rq_Header : Header }.

(** The guest's own identity headers go, and the observed identity is set. *)
Definition sanitize_headers (h : Header) (capsuleID : string) (peerUID : Z) : Header :=
  Set_ (Set_ (filter (fun '(k, _) => (has_prefix "x-capsule-" (to_lower k) || equal_fold k "sandbox-id") = false) h)
         "X-Capsule-Id" capsuleID) "X-Capsule-Peer-Uid" (format_uint peerUID).

(** The destination: its host, and the authority to dial. *)
Definition request_target (target : string) : string * string :=
  match split_host_port target with
  | Some (host, _) => (host, target)
  | None => (target, join_host_port target "80")
  end.

Inductive scenario_event : Type :=
| Dial (address : string) (ok : bool)
| RecordAudit (action target capsule : string)
| Respond (status : Z)
| Tunnel
| CloseUpstream
| CloseConn.

Variable st : boundary_state.
Variable dial : string -> bool.

Definition allowed (host target : string) : bool :=
  allowAll st || bool_decide (to_lower host ∈ allowedHosts st) || bool_decide (to_lower target ∈ allowedHosts st).

Definition dial_target (host target : string) : string := default target (rewrites st !! to_lower host).

(** [handleConnection]; [None] is a request that cannot be read. *)
Definition handleConnection (capsuleID : string) (req : option request) : list scenario_event :=
  match req with
  | None => [CloseConn]
  | Some req =>
      if negb (String.eqb (rq_Method req) "CONNECT") then [Respond 405; CloseConn]
      else
        let '(host, target) := request_target (rq_Host req) in
        if negb (allowed host target)
        then [RecordAudit "BLOCK not-on-allowlist" target capsuleID; Respond 403; CloseConn]
        else if dial (dial_target host target)
        then [Dial (dial_target host target) true; RecordAudit "ALLOW tcp" target capsuleID; Respond 200; Tunnel;
              CloseUpstream; CloseConn]
        else [Dial (dial_target host target) false; RecordAudit "DIAL-FAIL" target capsuleID; Respond 502; CloseConn]
  end.

(** *** Lemmas *)

Definition clean (h : string) : string := to_lower (trim_space h).

Lemma allowed_all hosts : forall s0,
  (fold_left add_allowed hosts s0).1 = s0.1 || existsb (fun h => String.eqb (clean h) "*") hosts.
Proof.
  induction hosts as [|h hosts IH]; intros s0; cbn [fold_left existsb]; [by rewrite orb_false_r|].
  rewrite IH, orb_assoc. f_equal. unfold add_allowed. fold (clean h).
  destruct (String.eqb (clean h) "*"); [by rewrite orb_true_r|]. rewrite orb_false_r. by destruct (negb _).
Qed.

Lemma allowed_hosts hosts : forall s0 x,
  x ∈ (fold_left add_allowed hosts s0).2 -> x ∈ s0.2 \/ exists h, In h hosts /\ clean h = x.
Proof.
  induction hosts as [|h hosts IH]; intros s0 x; cbn [fold_left]; [by left|]. intros Hx.
  destruct (IH _ _ Hx) as [Hx'|(h' & Hin & Hh')]; [|right; exists h'; split; [by right|done]].
  unfold add_allowed in Hx'. fold (clean h) in Hx'. destruct (String.eqb (clean h) "*"); [by left|].
  destruct (negb _); [|by left]. cbn [snd] in Hx'. apply elem_of_union in Hx' as [Hx'|Hx']; [|by left].
  apply elem_of_singleton in Hx' as ->. right. exists h. split; [by left|done].
Qed.
End Boundary.

(** ** The vsock forwarder *)

Definition parseVsockAddr (addr : string) : Result (Z * Z) :=
  match split ":" (trim_prefix "vsock://" addr) with
  | [rawCID; rawPort] =>
      let? cid := or_err (parse_uint 32 rawCID) "invalid CID %q: %w" in
      let? port := or_err (parse_uint 32 rawPort) "invalid port %q: %w" in
      Ok (cid, port)
  | _ => Err "expected <cid>:<port>, got %q"
  end.

(** What a dial function of [main] connects to. *)
Inductive forward_target : Type :=
| ToVSOCK (cid port : Z)
| ToNetwork (network address : string).

Definition forward_dialer (url_parse : string -> option (string * string * string)) (vsockDest targetAddr : string)
  : Result forward_target :=
  if String.eqb vsockDest EmptyString && String.eqb targetAddr EmptyString
  then Err "either -vsock or -target must be specified"
  else if negb (String.eqb vsockDest EmptyString) then
    match parseVsockAddr vsockDest with
    | Err e => Err "invalid vsock destination: %v"
    | Ok (cid, port) => Ok (ToVSOCK cid port)
    end
  else match url_parse targetAddr with
       | None => Ok (ToNetwork "tcp" targetAddr)
       | Some (scheme, host, path) =>
           if String.eqb scheme EmptyString then Ok (ToNetwork "tcp" targetAddr)
           else if String.eqb scheme "unix" then Ok (ToNetwork "unix" path)
           else Ok (ToNetwork scheme host)
       end.

(** [listen]: what it removes first, and where it listens. *)
Definition forward_listen (addr : string) : option string * (string * string) :=
  if has_prefix "unix://" addr
  then (Some (trim_prefix "unix://" addr), ("unix"%string, trim_prefix "unix://" addr))
  else (None, ("tcp"%string, trim_prefix "tcp://" addr)).

(** [Forwarder]: its counters, and for each accepted connection where its handler
    is: dialing, with some of the two copies of its bridge still running, or ended.
    [active] is an [int64], [total] and [bytes] wrap as [uint64]. *)
Inductive handler : Type := Dialing | Bridging (copies : nat) | Finished.

Record Forwarder := mkForwarder {
  active : Z; total : Z; bytes : Z; handlers : list handler; returned : option bool;
}.

Inductive forward_label : Type :=
| AcceptConn
| AcceptFails (ctx_done : bool)
| Dialed (i : nat) (ok : bool)
| Copied (i : nat) (n : Z)          (* a copy of the bridge ends *)
| HandlerEnds (i : nat).

Definition forward_step (f : Forwarder) (l : forward_label) : option Forwarder :=
  match l with
  | AcceptConn =>
      match returned f with
      | None => Some (mkForwarder (active f + 1) ((total f + 1) mod 2 ^ 64) (bytes f) (handlers f ++ [Dialing]) None)
      | Some _ => None
      end
  | AcceptFails ctx_done =>
      match returned f with
      | None => Some (mkForwarder (active f) (total f) (bytes f) (handlers f) (Some ctx_done))
      | Some _ => None
      end
  | Dialed i ok =>
      match handlers f !! i with
      | Some Dialing =>
          Some (mkForwarder (if ok then active f else active f - 1) (total f) (bytes f)
                  (<[i := if ok then Bridging 2 else Finished]> (handlers f)) (returned f))
      | _ => None
      end
  | Copied i n =>
      match handlers f !! i with
      | Some (Bridging (S copies)) =>
          Some (mkForwarder (active f) (total f) ((bytes f + n) mod 2 ^ 64) (<[i := Bridging copies]> (handlers f)) (returned f))
      | _ => None
      end
  | HandlerEnds i =>
      match handlers f !! i with
      | Some (Bridging O) =>
          Some (mkForwarder (active f - 1) (total f) (bytes f) (<[i := Finished]> (handlers f)) (returned f))
      | _ => None
      end
  end.

Definition NewForwarder : Forwarder := mkForwarder 0 0 0 [] None.

Inductive forwards : Forwarder -> Prop :=
| forwards_new : forwards NewForwarder
| forwards_step f l f' : forwards f -> forward_step f l = Some f' -> forwards f'.

Definition live (h : handler) : bool := match h with Finished => false | _ => true end.

Lemma forward_counters f :
  forwards f -> active f = count live (handlers f) /\ total f = Z.of_nat (List.length (handlers f)) mod 2 ^ 64.
Proof.
  induction 1 as [|f l f' _ [IHa IHt] Hs]; [done|]. destruct l as [|c|i ok|i n|i]; cbn [forward_step] in Hs.
  - destruct (returned f); [done|]. injection Hs as <-. cbn [active total handlers]. rewrite count_app, length_app, IHa, IHt.
    split; [done|]. rewrite Zplus_mod_idemp_l. f_equal. simpl. lia.
  - destruct (returned f); [done|]. by injection Hs as <-.
  - destruct (handlers f !! i) as [[]|] eqn:Ei; try done. injection Hs as <-. cbn [active total handlers].
    rewrite (count_insert live _ i Dialing _ Ei), length_insert, IHa. destruct ok; cbn [live]; split; lia || done.
  - destruct (handlers f !! i) as [[|[|k]|]|] eqn:Ei; try done. injection Hs as <-. cbn [active total handlers].
    rewrite (count_insert live _ i (Bridging (S k)) _ Ei), length_insert, IHa. cbn [live]. split; [lia|done].
  - destruct (handlers f !! i) as [[|[|k]|]|] eqn:Ei; try done. injection Hs as <-. cbn [active total handlers].
    rewrite (count_insert live _ i (Bridging O) _ Ei), length_insert, IHa. cbn [live]. split; [lia|done].
Qed.

(** ** The target server *)

(** [strconv.Atoi]: an optional sign and decimal digits, within [int64]. *)
Definition Atoi (s : string) : option Z :=
  let magnitude (neg : bool) (digits : string) :=
    match parse_uint 64 digits with
    | Some n => if neg then (if n <=? 2 ^ 63 then Some (- n) else None)
                else if n <? 2 ^ 63 then Some n else None
    | None => None
    end in
  match s with
  | String "+" digits => magnitude false digits
  | String "-" digits => magnitude true digits
  | digits => magnitude false digits
  end.

(** The size that [/stream] sends, in megabytes, for the value of [mb]. *)
Definition stream_size (mb : string) : Z :=
  if String.eqb mb EmptyString then 50
  else match Atoi mb with Some v => if 0 <? v then v else 50 | None => 50 end.

(** Two's complement of 64 bits. *)
Definition int64 (z : Z) : Z := (z + 2 ^ 63) mod 2 ^ 64 - 2 ^ 63.

Definition stream_total (sizeMB : Z) : Z := int64 (int64 (sizeMB * 1024) * 1024).

Definition chunk_size : Z := 64 * 1024.

(** The write loop: [write written n] is what the writer answers to [n] bytes. The
    sizes written, and whether the loop ended without an error. *)
Fixpoint stream_loop (fuel : nat) (write : Z -> Z -> Z * bool) (totalBytes written : Z) : option (list Z * bool) :=
  if totalBytes <=? written then Some ([], true)
  else match fuel with
       | O => None
       | S fuel =>
           let toWrite := if totalBytes <? written + chunk_size then totalBytes - written else chunk_size in
           let '(n, failed) := write written toWrite in
           if failed then Some ([n], false)
           else match stream_loop fuel write totalBytes (written + n) with
                | Some (ns, ok) => Some (n :: ns, ok)
                | None => None
                end
       end.

Definition sum (l : list Z) : Z := fold_right Z.add 0 l.

(** The contract of [io.Writer]: a short write comes with an error. *)
Definition writer_ok (write : Z -> Z -> Z * bool) : Prop :=
  forall written n, 0 < n -> let '(k, failed) := write written n in 0 <= k <= n /\ (k < n -> failed = true).

Lemma stream_loop_total write fuel : forall totalBytes written,
  writer_ok write -> 0 <= written <= totalBytes -> totalBytes - written <= chunk_size * Z.of_nat fuel ->
  exists ns ok, stream_loop fuel write totalBytes written = Some (ns, ok) /\
    (ok = true -> sum ns = totalBytes - written) /\ 0 <= sum ns <= totalBytes - written /\
    Forall (fun n => n <= chunk_size) ns.
Proof.
  induction fuel as [|fuel IH]; intros totalBytes written Hw Hr Hf; cbn [stream_loop].
  - rewrite (proj2 (Z.leb_le totalBytes written)) by lia. exists [], true. split_and!; simpl; try done; lia.
  - destruct (Z.leb_spec totalBytes written).
    { exists [], true. split_and!; simpl; try done; lia. }
    set (toWrite := if totalBytes <? written + chunk_size then totalBytes - written else chunk_size).
    assert (0 < toWrite <= chunk_size /\ written + toWrite <= totalBytes /\
      (toWrite = chunk_size \/ written + toWrite = totalBytes)) as (Ht & Hle & Hcase).
    { unfold toWrite, chunk_size in *. destruct (Z.ltb_spec totalBytes (written + 64 * 1024)); lia. }
    pose proof (Hw written toWrite ltac:(lia)) as Hk. destruct (write written toWrite) as [n failed]. destruct Hk as [Hn Hshort].
    destruct failed.
    { exists [n], false. split_and!; simpl; try done; try lia. constructor; [lia|done]. }
    assert (n = toWrite) as -> by (destruct (Z.eq_dec n toWrite); [done|]; discriminate Hshort; lia).
    destruct (IH totalBytes (written + toWrite)) as (ns & ok & -> & H1 & H2 & H3); [done|lia|clearbody toWrite; unfold chunk_size in *; lia|].
    exists (toWrite :: ns), ok. split_and!; simpl; try lia; [done|intros ->; rewrite H1 by done; lia|constructor; [lia|done]].
Qed.

Lemma stream_total_exact sizeMB : 0 < sizeMB < 2 ^ 43 -> stream_total sizeMB = sizeMB * 2 ^ 20.
Proof.
  intros Hs. unfold stream_total, int64. rewrite (Z.mod_small (sizeMB * 1024 + 2 ^ 63)) by lia.
  rewrite Z.mod_small by lia. lia.
Qed.

(** ** Properties *)

Definition is_audit (e : scenario_event) : bool := match e with RecordAudit _ _ _ => true | _ => false end.

(** Claim C36: the allow-list boundary dials what is listed. It dials only for a
    CONNECT whose host, or host and port, is an entry of [-allow] up to case and
    surrounding space, or when an entry is [*]; it dials the rewrite configured
    for that host, if there is one, and else the target; it opens a tunnel
    exactly when that dial succeeds; it records exactly one decision for each
    CONNECT and none for anything else, and closes every connection last. *)
Theorem scenario_boundary_decides `{GoUnicode} (allow upstream_map : string) (dial : string -> bool)
    (capsuleID : string) (req : request) :
  let st := parse_flags allow upstream_map in
  let '(host, target) := request_target (rq_Host req) in
  let events := handleConnection st dial capsuleID (Some req) in
  (forall address ok, In (Dial address ok) events ->
     rq_Method req = "CONNECT"%string /\ ok = dial address /\
     address = default target (rewrites st !! to_lower host) /\
     exists entry, In entry (split "," allow) /\
       (clean entry = "*"%string \/ clean entry = to_lower host \/ clean entry = to_lower target)) /\
  (In Tunnel events <-> exists address, In (Dial address true) events) /\
  count is_audit events = (if String.eqb (rq_Method req) "CONNECT" then 1 else 0) /\
  last events = Some CloseConn.
Proof.
  cbn zeta. destruct (request_target (rq_Host req)) as [host target] eqn:Et. unfold handleConnection. rewrite Et.
  destruct (String.eqb_spec (rq_Method req) "CONNECT") as [Em|Em]; cbn [negb].
  2: { split_and!; try done; [intros a ok Hin; simpl in Hin; intuition discriminate|].
       split; [simpl; intuition discriminate|intros [a Ha]; simpl in Ha; intuition discriminate]. }
  destruct (allowed (parse_flags allow upstream_map) host target) eqn:Ea; cbn [negb].
  2: { split_and!; try done; [intros a ok Hin; simpl in Hin; intuition discriminate|].
       split; [simpl; intuition discriminate|intros [a Ha]; simpl in Ha; intuition discriminate]. }
  assert (exists entry, In entry (split "," allow) /\
    (clean entry = "*"%string \/ clean entry = to_lower host \/ clean entry = to_lower target)) as Hentry.
  { unfold allowed, parse_flags in Ea. pose proof (allowed_all (split "," allow) (false, ∅)) as Hall.
    pose proof (allowed_hosts (split "," allow) (false, ∅)) as Hhosts.
    destruct (fold_left add_allowed (split "," allow) (false, ∅)) as [all hosts]. cbn [fst snd allowAll allowedHosts] in *.
    rewrite !orb_true_iff, !bool_decide_eq_true in Ea. destruct Ea as [[->|Hin]|Hin].
    - symmetry in Hall. apply existsb_exists in Hall as (h & Hin & Eh). exists h. split; [done|].
      left. by apply String.eqb_eq.
    - destruct (Hhosts _ Hin) as [?|(h & Hh & Eh)]; [set_solver|]. exists h. auto.
    - destruct (Hhosts _ Hin) as [?|(h & Hh & Eh)]; [set_solver|]. exists h. auto. }
  unfold dial_target. destruct (dial (default target (rewrites (parse_flags allow upstream_map) !! to_lower host))) eqn:Ed;
    (split_and!; try done; [intros a ok Hin; simpl in Hin; repeat destruct Hin as [Hin|Hin]; try done; injection Hin as <- <-; by split_and!|]).
  - split; [|simpl; auto 10]. intros _. eexists. by left.
  - split; [simpl; intuition discriminate|intros [a Ha]; simpl in Ha; intuition discriminate].
Qed.

(** The streaming endpoint sends what was asked. For a size of up to
    2^43 - 1 megabytes, over any writer that reports short writes, the loop ends
    after at most one write for each 64 KiB; without an error it has written
    exactly that many megabytes, and never more. *)
Theorem stream_sends_size (mb : string) (write : Z -> Z -> Z * bool) :
  writer_ok write -> stream_size mb < 2 ^ 43 ->
  exists ns ok,
    stream_loop (Z.to_nat (16 * stream_size mb)) write (stream_total (stream_size mb)) 0 = Some (ns, ok) /\
    0 <= sum ns <= stream_size mb * 2 ^ 20 /\ (ok = true -> sum ns = stream_size mb * 2 ^ 20).
Proof.
  intros Hw Hs. assert (0 < stream_size mb) as H0.
  { unfold stream_size. destruct (String.eqb mb EmptyString); [lia|]. destruct (Atoi mb) as [v|]; [|lia].
    destruct (Z.ltb_spec 0 v); lia. }
  rewrite stream_total_exact by lia.
  destruct (stream_loop_total write (Z.to_nat (16 * stream_size mb)) (stream_size mb * 2 ^ 20) 0) as (ns & ok & E & H1 & H2 & _);
    [done|lia|unfold chunk_size; lia|].
  exists ns, ok. split; [done|]. rewrite Z.sub_0_r in *. done.
Qed.

(** ** Witnesses *)

Lemma stream_sends_size_witness :
  exists ns ok, stream_loop 48 (fun _ n => (n, false)) (stream_total (stream_size "3")) 0 = Some (ns, ok) /\
    0 <= sum ns <= 3 * 2 ^ 20.
Proof.
  destruct (stream_sends_size "3" (fun _ n => (n, false))) as (ns & ok & E & H1 & _).
  - intros written n Hn. split; [lia|intros Hk; lia].
  - vm_compute. reflexivity.
  - exists ns, ok. split; [exact E|exact H1].
Defined.
