(* ===== verification/ScenarioMains.v ===== *)
(** * The scenario programs, from start to end

    [main] of [src/scenarios/cmd/boundary-proxy] and [src/scenarios/cmd/vsock-forwarder]:
    the calls each makes before it accepts, the accept loop, the AF_VSOCK sockets,
    the audit line and the shutdown of the forwarder. What a connection is worth is
    in [Scenarios]. Calls on the system are answered by an environment. *)

From S2P Require Import Prelude Process GoStrings Scenarios.

Local Open Scope go_scope.

(** ** AF_VSOCK sockets *)

Definition VMADDR_CID_ANY : Z := 2 ^ 32 - 1.

Record vsockAddr := mkVsockAddr { cid : Z; port : Z }.
Definition vsockAddr_Network : string := "vsock".
Definition vsockAddr_String (a : vsockAddr) : string :=
  (format_uint (cid a) +:+ ":" +:+ format_uint (port a))%string.

(** [vsockListener.Accept]: the local and the remote address of the connection, from
    the address of the listener and the peer's, when it is an AF_VSOCK one. *)
Definition vsock_Accept (addr : vsockAddr) (accepted : Result (option vsockAddr))
  : Result (vsockAddr * vsockAddr) :=
  match accepted with
  | Err e => Err e
  | Ok rsa => Ok (addr, match rsa with Some a => a | None => mkVsockAddr 0 0 end)
  end.

(** The calls of [dialVsock] on its descriptor. *)
Inductive vsock_call : Type := VsockSocket | VsockConnect (a : vsockAddr) | VsockClose.

(** The calls made, and the addresses of the connection. *)
Definition dialVsock (socket connect : Result unit) (c p : Z)
  : list vsock_call * Result (vsockAddr * vsockAddr) :=
  let a := mkVsockAddr c p in
  match socket with
  | Err _ => ([VsockSocket], Err "socket(AF_VSOCK): %w")
  | Ok _ =>
      match connect with
      | Err _ => ([VsockSocket; VsockConnect a; VsockClose], Err "connect(AF_VSOCK %d:%d): %w")
      | Ok _ => ([VsockSocket; VsockConnect a], Ok (mkVsockAddr VMADDR_CID_ANY 0, a))
      end
  end.

(** ** Events and answers *)

Inductive main_event : Type :=
| OpenAuditLog (path : string)
| RemovePath (path : string)
| ListenOn (network address : string)
| Chmod (path : string) (mode : Z)
| VsockOpen
| VsockBind (a : vsockAddr)
| VsockListen (backlog : Z)
| Accepting (network address : string)
| LogAcceptError
| StartHandler (conn : nat)
| FatalExit (msg : string).

#[export] Instance main_process : ProcessEvent main_event := { Process.Fatal := FatalExit }.

Record machine := mkMachine {
  m_url_parse : string -> option (string * string * string);
  m_open : string -> Result unit;
  m_listen : string -> string -> Result unit;
  m_socket : Result unit; m_bind : Result unit; m_vsock_listen : Result unit;
}.

Section Mains.
Context `{GoUnicode}.
Variable env : machine.

(** [net.Listen] on a Unix socket: the old one removed, the new one opened to all
    (mode 0666). *)
Definition listen_unix (path : string) : process main_event (Result unit) :=
  act (RemovePath path) ;!
  let! r := attempt (ListenOn "unix" path) (m_listen env "unix" path) in
  (if is_ok r then act (Chmod path 438) else pret tt) ;! pret r.

(** ** The allow-list boundary *)

Record boundary_proxy_flags := mkBoundaryProxyFlags {
  bp_listen : string; bp_allow : string; bp_upstream_map : string; bp_audit_log : string;
}.

Definition boundary_open (l : boundary_listener) : process main_event (string * string) :=
  match l with
  | OnUnix path => (let! r := listen_unix path in must r "failed to listen: %v") ;! pret ("unix"%string, path)
  | OnTCP host =>
      (let! r := attempt (ListenOn "tcp" host) (m_listen env "tcp" host) in must r "failed to listen: %v") ;!
      pret ("tcp"%string, host)
  | OnVSOCK p =>
      let a := mkVsockAddr VMADDR_CID_ANY p in
      (let! r := attempt VsockOpen (m_socket env) in must r "socket(AF_VSOCK): %v") ;!
      (let! r := attempt (VsockBind a) (m_bind env) in must r "bind(AF_VSOCK): %v") ;!
      (let! r := attempt (VsockListen 128) (m_vsock_listen env) in must r "listen(AF_VSOCK): %v") ;!
      pret (vsockAddr_Network, vsockAddr_String a)
  end.

(** [main] up to the accept loop. *)
Definition boundary_proxy_start (f : boundary_proxy_flags) : process main_event boundary_state :=
  let st := parse_flags (bp_allow f) (bp_upstream_map f) in
  (if String.eqb (bp_audit_log f) EmptyString then pret tt
   else let! r := attempt (OpenAuditLog (bp_audit_log f)) (m_open env (bp_audit_log f)) in
        must r "failed to open audit log: %v") ;!
  let! l := match boundary_listen (m_url_parse env) (bp_listen f) with Ok l => pret l | Err e => fatal e end in
  let! a := boundary_open l in
  act (Accepting a.1 a.2) ;! pret st.

(** The accept loop: it goes on after an error. *)
Fixpoint accept_loop (n : nat) (accepts : list bool) : list main_event :=
  match accepts with
  | [] => []
  | true :: accepts => StartHandler n :: accept_loop (S n) accepts
  | false :: accepts => LogAcceptError :: accept_loop n accepts
  end.

(** [recordAudit]: the line that is logged, and the line of the audit log. *)
Definition audit_message (action target capsuleID : string) : string :=
  (action +:+ " target=" +:+ target +:+ " capsule=" +:+ capsuleID)%string.

Definition recordAudit (auditLogger : bool) (action target capsuleID : string) : string * option string :=
  let msg := audit_message action target capsuleID in
  (("[AUDIT] " +:+ msg)%string, if auditLogger then Some msg else None).

(** ** The vsock forwarder *)

Record forward_flags := mkForwardFlags { ff_listen : string; ff_vsock : string; ff_target : string }.

Definition forward_open (addr : string) : process main_event (string * string) :=
  let '(remove, (network, address)) := forward_listen addr in
  (let! r := match remove with
             | Some path => listen_unix path
             | None => attempt (ListenOn network address) (m_listen env network address)
             end in
   must r "failed to listen on %s: %v") ;! pret (network, address).

(** [main] up to [Run]: what it listens on, and what its connections go to. *)
Definition forward_start (f : forward_flags) : process main_event forward_target :=
  let! target := match forward_dialer (m_url_parse env) (ff_vsock f) (ff_target f) with
                 | Ok t => pret t | Err e => fatal e
                 end in
  let! a := forward_open (ff_listen f) in
  act (Accepting a.1 a.2) ;! pret target.
End Mains.

(** *** Shutting the forwarder down *)

(** The goroutine that a signal wakes cancels the context, then closes the listener;
    [Accept] fails once the listener is closed, or for a reason of its own. *)
Record closing := mkClosing { cl_signalled : bool; cl_cancelled : bool; cl_closed : bool; cl_run : option (Result unit) }.

Inductive closing_label : Type := Signal | Cancel | CloseListener | AcceptFailed | AcceptBroken.

Definition closing_step (c : closing) (l : closing_label) : option closing :=
  let run := match cl_run c with
             | None => Some (if cl_cancelled c then Ok tt else Err "accept")
             | Some _ => None
             end in
  match l with
  | Signal => Some (mkClosing true (cl_cancelled c) (cl_closed c) (cl_run c))
  | Cancel => if cl_signalled c then Some (mkClosing true true (cl_closed c) (cl_run c)) else None
  | CloseListener => if cl_cancelled c then Some (mkClosing (cl_signalled c) true true (cl_run c)) else None
  | AcceptFailed =>
      if cl_closed c then r ← run; Some (mkClosing (cl_signalled c) (cl_cancelled c) true (Some r)) else None
  | AcceptBroken => r ← run; Some (mkClosing (cl_signalled c) (cl_cancelled c) (cl_closed c) (Some r))
  end.

Fixpoint closing_run (c : closing) (ls : list closing_label) : option closing :=
  match ls with
  | [] => Some c
  | l :: ls => match closing_step c l with Some c => closing_run c ls | None => None end
  end.

Definition NewClosing : closing := mkClosing false false false None.

(** Whether [main] ends with [log.Fatal], when [Run] has returned. *)
Definition forward_fatal (c : closing) : option bool :=
  match cl_run c with
  | None => None
  | Some r => Some (negb (is_ok r) && negb (cl_cancelled c))
  end.

(** ** Properties *)

Definition is_accepting (e : main_event) : bool := match e with Accepting _ _ => true | _ => false end.

(** What opening a listener does, and whether it succeeds. *)
Definition unix_opening (path : string) : list main_event :=
  [RemovePath path; ListenOn "unix" path; Chmod path 438].

Definition opening (l : boundary_listener) : list main_event :=
  match l with
  | OnUnix path => unix_opening path
  | OnTCP host => [ListenOn "tcp" host]
  | OnVSOCK p => [VsockOpen; VsockBind (mkVsockAddr VMADDR_CID_ANY p); VsockListen 128]
  end.

Definition opened_at (l : boundary_listener) : string * string :=
  match l with
  | OnUnix path => ("unix", path)
  | OnTCP host => ("tcp", host)
  | OnVSOCK p => ("vsock", vsockAddr_String (mkVsockAddr VMADDR_CID_ANY p))
  end%string.

Section Facts.
Context `{GoUnicode}.
Variable env : machine.

Definition opens (l : boundary_listener) : bool :=
  match l with
  | OnUnix path => is_ok (m_listen env "unix" path)
  | OnTCP host => is_ok (m_listen env "tcp" host)
  | OnVSOCK _ => is_ok (m_socket env) && is_ok (m_bind env) && is_ok (m_vsock_listen env)
  end.

(** A step of the start that succeeds exactly when [ok]: then it goes on with a value
    after exactly these events; else the program has ended with status 1 and accepts
    nothing. *)
Definition starts {A} (m : process main_event A) (ok : bool) (trace : list main_event) (P : A -> Prop) : Prop :=
  match m with
  | (t, inl a) => ok = true /\ t = trace /\ P a
  | (t, inr status) => ok = false /\ status = 1 /\ existsb is_accepting t = false
  end.

Lemma starts_bind {A B} (m : process main_event A) (f : A -> process main_event B) ok ok' t t' P Q :
  starts m ok t P -> existsb is_accepting t = false -> (forall a, P a -> starts (f a) ok' t' Q) ->
  starts (pbind m f) (ok && ok') (t ++ t') Q.
Proof.
  destruct m as [s [a|status]]; cbn; [|by intros (-> & Hs)]. intros (-> & -> & HP) Ht Hf. specialize (Hf a HP).
  destruct (f a) as [s' [b|status]]; cbn in *; [by destruct Hf as (-> & -> & Hb)|].
  destruct Hf as (-> & Hs & Hq). split; [done|]. split; [done|]. by rewrite existsb_app, Ht, Hq.
Qed.

Lemma boundary_open_starts l :
  starts (boundary_open env l) (opens l) (opening l) (fun a => a = opened_at l).
Proof.
  destruct l as [path|host|p]; unfold boundary_open, opens, listen_unix, attempt; cbn.
  - by destruct (m_listen env "unix" path) as [[]|].
  - by destruct (m_listen env "tcp" host) as [[]|].
  - destruct (m_socket env) as [[]|]; [|done]. destruct (m_bind env) as [[]|]; [|done].
    by destruct (m_vsock_listen env) as [[]|].
Qed.

(** The listener of the forwarder, in the terms of the boundary's. *)
Definition forward_listener (addr : string) : boundary_listener :=
  match forward_listen addr with
  | (Some path, _) => OnUnix path
  | (None, (_, address)) => OnTCP address
  end.

Lemma forward_open_starts addr :
  starts (forward_open env addr) (opens (forward_listener addr)) (opening (forward_listener addr))
    (fun a => a = opened_at (forward_listener addr)).
Proof.
  unfold forward_open, forward_listener, forward_listen, opens, listen_unix, attempt.
  destruct (has_prefix "unix://" addr); cbn.
  - by destruct (m_listen env "unix" _) as [[]|].
  - by destruct (m_listen env "tcp" _) as [[]|].
Qed.

Lemma starts_result {A} (r : Result A) :
  starts (match r with Ok a => pret a | Err e => fatal e end) (is_ok r) [] (fun a => r = Ok a).
Proof. by destruct r. Qed.

Lemma opening_quiet l : existsb is_accepting (opening l) = false.
Proof. by destruct l. Qed.

Definition accepts_at (l : boundary_listener) : list main_event :=
  opening l ++ [Accepting (opened_at l).1 (opened_at l).2].

(** The audit log the boundary was asked for, and whether it can be opened. *)
Definition audit_opening (f : boundary_proxy_flags) : list main_event :=
  if String.eqb (bp_audit_log f) EmptyString then [] else [OpenAuditLog (bp_audit_log f)].

Definition audit_opens (f : boundary_proxy_flags) : bool :=
  String.eqb (bp_audit_log f) EmptyString || is_ok (m_open env (bp_audit_log f)).

(** Whether every step of the start succeeds. *)
Definition can_start (f : boundary_proxy_flags) : bool :=
  audit_opens f && match boundary_listen (m_url_parse env) (bp_listen f) with Ok l => opens l | Err _ => false end.

Definition ready_boundary (f : boundary_proxy_flags) (trace : list main_event) (st : boundary_state) : Prop :=
  exists l, boundary_listen (m_url_parse env) (bp_listen f) = Ok l /\
    st = parse_flags (bp_allow f) (bp_upstream_map f) /\
    trace = audit_opening f ++ accepts_at l.

Lemma audit_starts f :
  starts (if String.eqb (bp_audit_log f) EmptyString then pret tt
          else let! r := attempt (OpenAuditLog (bp_audit_log f)) (m_open env (bp_audit_log f)) in
               must r "failed to open audit log: %v") (audit_opens f) (audit_opening f) (fun _ => True) /\
  existsb is_accepting (audit_opening f) = false.
Proof.
  unfold audit_opening, audit_opens. destruct (String.eqb _ _); [done|]. by destruct (m_open env _) as [[]|].
Qed.

Lemma boundary_proxy_starts f :
  exists trace, starts (boundary_proxy_start env f) (can_start f) trace (ready_boundary f trace).
Proof.
  unfold boundary_proxy_start, ready_boundary, can_start. destruct (audit_starts f) as [Ha Hq].
  destruct (boundary_listen (m_url_parse env) (bp_listen f)) as [l|e] eqn:El.
  - exists (audit_opening f ++ [] ++ accepts_at l). eapply starts_bind; [exact Ha|exact Hq|]. intros _ _.
    apply (starts_bind _ _ true (opens l) _ _ (fun x => x = l)); [done|done|]. intros x ->.
    assert (opens l = opens l && true) as -> by (by rewrite andb_true_r).
    eapply starts_bind; [apply boundary_open_starts|apply opening_quiet|].
    intros a ->. cbn. split; [done|]. split; [done|]. by exists l.
  - exists (audit_opening f ++ [] ++ []). eapply starts_bind; [exact Ha|exact Hq|]. intros _ _. cbn. done.
Qed.

(** Whether the forwarder's destination is valid and its listener opens. *)
Definition can_forward (f : forward_flags) : bool :=
  is_ok (forward_dialer (m_url_parse env) (ff_vsock f) (ff_target f)) && opens (forward_listener (ff_listen f)).

Definition ready_forwarder (f : forward_flags) (trace : list main_event) (target : forward_target) : Prop :=
  forward_dialer (m_url_parse env) (ff_vsock f) (ff_target f) = Ok target /\
  trace = accepts_at (forward_listener (ff_listen f)).

Lemma forward_starts f : exists trace, starts (forward_start env f) (can_forward f) trace (ready_forwarder f trace).
Proof.
  unfold forward_start, ready_forwarder, can_forward, accepts_at.
  exists ([] ++ accepts_at (forward_listener (ff_listen f))).
  eapply starts_bind; [apply starts_result|done|]. intros x Hx. rewrite <- (andb_true_r (opens _)).
  eapply starts_bind; [apply forward_open_starts|apply opening_quiet|]. intros a ->. by cbn.
Qed.

(** Claim C40: the scenario programs accept only once they are ready. The boundary
    goes on to accept exactly when the audit log it was asked for opens, its URL
    names a listener and that opens; it has then opened the log, and the listener:
    for a Unix socket the old path removed before and the mode set after, for
    AF_VSOCK bound to every context identifier; and it decides by the lists of its
    flags. The forwarder accepts exactly when its destination is valid and its
    listener opens. Whenever a step fails the program ends with status 1 and has
    accepted nothing. *)
Theorem scenario_programs_start (bf : boundary_proxy_flags) (ff : forward_flags) :
  match boundary_proxy_start env bf with
  | (trace, inl st) => can_start bf = true /\ ready_boundary bf trace st
  | (trace, inr status) => can_start bf = false /\ status = 1 /\ existsb is_accepting trace = false
  end /\
  match forward_start env ff with
  | (trace, inl target) => can_forward ff = true /\ ready_forwarder ff trace target
  | (trace, inr status) => can_forward ff = false /\ status = 1 /\ existsb is_accepting trace = false
  end.
Proof.
  destruct (boundary_proxy_starts bf) as [t Ht], (forward_starts ff) as [u Hu]. unfold starts in *. split.
  - destruct (boundary_proxy_start env bf) as [t' [st|status]]; [|exact Ht]. destruct Ht as (Ho & -> & Ht). done.
  - destruct (forward_start env ff) as [u' [target|status]]; [|exact Hu]. destruct Hu as (Ho & -> & Hu). done.
Qed.
End Facts.

(** What every state of the shutdown satisfies, and the runs that end well. *)
Definition closing_ok (c : closing) : bool :=
  implb (cl_cancelled c) (cl_signalled c) && implb (cl_closed c) (cl_cancelled c) &&
  match cl_run c with Some (Ok _) => cl_cancelled c | _ => true end.

Definition run_clean (c : closing) : bool := match cl_run c with Some (Err _) => false | _ => true end.

Lemma closing_step_ok c l c' : closing_ok c = true -> closing_step c l = Some c' ->
  closing_ok c' = true /\ (l <> AcceptBroken -> run_clean c = true -> run_clean c' = true).
Proof.
  destruct c as [sg cc cl rn], sg, cc, cl, rn as [[[]|e]|]; intros Ho; try discriminate Ho;
    destruct l; cbn; intros Hs; simplify_eq; (split; [done|by intros Hn Hc]).
Qed.

Lemma closing_run_ok ls : forall c c', closing_ok c = true -> closing_run c ls = Some c' ->
  closing_ok c' = true /\ (~ In AcceptBroken ls -> run_clean c = true -> run_clean c' = true).
Proof.
  induction ls as [|l ls IH]; intros c c' Ho Hr; [by injection Hr as <-|]. cbn [closing_run] in Hr.
  destruct (closing_step c l) as [c1|] eqn:Es; [|done]. destruct (closing_step_ok c l c1 Ho Es) as [Ho1 Hc1].
  destruct (IH c1 c' Ho1 Hr) as [Ho' Hc']. split; [done|]. intros Hn Hc. apply Hc'; [by intros Hin; apply Hn; right|].
  apply Hc1; [|done]. intros ->. apply Hn. by left.
Qed.

(** The shutdown of the forwarder. Unless the listener breaks by itself, [Run]
    returns only after a signal, without an error, and the program does not end with
    [log.Fatal]; and from every state in which the signal has come it can return. A
    listener that breaks before the signal ends the program with [log.Fatal], unless
    the context is cancelled before the result is looked at. *)
Theorem forwarder_shuts_down (ls : list closing_label) (c : closing) :
  closing_run NewClosing ls = Some c ->
  (~ In AcceptBroken ls -> forall r, cl_run c = Some r ->
     r = Ok tt /\ cl_signalled c = true /\ forward_fatal c = Some false) /\
  (cl_signalled c = true -> exists more c' r, closing_run c more = Some c' /\ cl_run c' = Some r) /\
  (cl_signalled c = false -> cl_run c = None -> forall c', closing_step c AcceptBroken = Some c' -> forward_fatal c' = Some true).
Proof.
  intros Hr. destruct (closing_run_ok ls NewClosing c eq_refl Hr) as [Ho Hc]. split_and!.
  - intros Hn r E. specialize (Hc Hn eq_refl). unfold closing_ok, run_clean, forward_fatal in *. rewrite E in *.
    destruct r as [[]|]; [|done]. cbn.
    destruct (cl_signalled c), (cl_cancelled c), (cl_closed c); try discriminate Ho; done.
  - intros Hs. destruct c as [sg cc cl [r|]]; cbn in *; subst; [by exists [], (mkClosing true cc cl (Some r)), r|].
    by exists [Cancel; CloseListener; AcceptFailed], (mkClosing true true true (Some (Ok tt))), (Ok tt).
  - intros Hs Hn c' E. destruct c as [sg cc cl rn]; cbn in *; subst. destruct cc; [done|]. by injection E as <-.
Qed.

(** A descriptor that [dialVsock] opens is closed again unless it is returned. *)
Lemma dialVsock_closes socket connect c p :
  let (t, r) := dialVsock socket connect c p in
  is_ok r = is_ok socket && is_ok connect /\
  (In VsockClose t <-> is_ok socket = true /\ is_ok r = false) /\
  (forall a b, r = Ok (a, b) -> b = mkVsockAddr c p).
Proof.
  unfold dialVsock. destruct socket; [|cbn; split; [done|]; split; [|done]; split; [by intros [[=]|[]]|by intros [[=] _]]].
  destruct connect; cbn; (split; [done|]); (split; [|by intros ? ? [= <- <-] || done]).
  - split; [by intros [[=]|[[=]|[]]]|by intros [_ [=]]].
  - split; [done|by intros _; right; right; left].
Qed.
