(* ===== verification/TargetServer.v ===== *)
(** * The target server's certificate

    [src/scenarios/cmd/target-server/main.go]: [ensureCertificate], the answer of
    [/ping] and [main]; the write loop of [/stream] is in [Scenarios]. The files are
    a store, and each call that may fail is answered by an environment. *)

From S2P Require Import Prelude Process GoStrings Netip Http.

Local Open Scope go_scope.

(** ** The certificate *)

(** [x509.Certificate], as the template sets it; times are seconds from now. *)
Record template := mkTemplate {
  t_Organization : string; t_CommonName : string;
  t_NotBefore : Z; t_NotAfter : Z;
  t_IPAddresses : list Addr; t_DNSNames : list string;
}.

(** [net.ParseIP]: no zone. *)
Definition ParseIP (s : string) : option Addr :=
  match ParseAddr s with
  | Some a => if String.eqb (Zone a) EmptyString then Some a else None
  | None => None
  end.

Definition add_san (t : template) (name : string) : template :=
  let name := trim_space name in
  match ParseIP name with
  | Some ip => mkTemplate (t_Organization t) (t_CommonName t) (t_NotBefore t) (t_NotAfter t)
                 (t_IPAddresses t ++ [ip]) (t_DNSNames t)
  | None =>
      if negb (String.eqb name EmptyString)
      then mkTemplate (t_Organization t) (t_CommonName t) (t_NotBefore t) (t_NotAfter t)
             (t_IPAddresses t) (t_DNSNames t ++ [name])
      else t
  end.

Definition certificate_template (sans : list string) : template :=
  fold_left add_san sans
    (mkTemplate "The Dome Local Test Authority" (match sans with s :: _ => s | [] => "test.example.com" end)
       (- 3600) (365 * 24 * 3600) [] []).

(** ** The files *)

(** What a file holds: a certificate signed with a key, that key, or less. *)
Inductive content : Type :=
| Empty
| Torn
| CertificateOf (key : Z) (t : template)
| KeyOf (key : Z).

Notation store := (gmap string content).

Definition os_Stat (files : store) (path : string) : bool := bool_decide (is_Some (files !! path)).

(** The calls that may fail, in the order the code makes them. *)
Inductive cert_call : Type :=
| GenerateKey
| RandomSerial
| CreateCertificate (t : template)
| CreateCertFile (path : string)
| EncodeCert (path : string) (t : template)
| OpenKeyFile (path : string)
| MarshalKey
| EncodeKey (path : string).

Definition wrapped (c : cert_call) : string :=
  match c with
  | GenerateKey => "generate private key: %w"
  | RandomSerial => "generate serial number: %w"
  | CreateCertificate _ => "create certificate: %w"
  | CreateCertFile _ => "create cert file: %w"
  | EncodeCert _ _ => "encode cert: %w"
  | OpenKeyFile _ => "create key file: %w"
  | MarshalKey => "marshal key: %w"
  | EncodeKey _ => "encode key: %w"
  end.

Definition generation (certPath keyPath : string) (t : template) : list cert_call :=
  [GenerateKey; RandomSerial; CreateCertificate t; CreateCertFile certPath; EncodeCert certPath t;
   OpenKeyFile keyPath; MarshalKey; EncodeKey keyPath].

Section Server.
(** Whether a call succeeds, and the key that is generated. *)
Variable answer : cert_call -> bool.
Variable new_key : Z.

(** What a call leaves in the files. *)
Definition file_effect (c : cert_call) (files : store) : store :=
  match c with
  | CreateCertFile path | OpenKeyFile path => if answer c then <[path := Empty]> files else files
  | EncodeCert path t => <[path := if answer c then CertificateOf new_key t else Torn]> files
  | EncodeKey path => <[path := if answer c then KeyOf new_key else Torn]> files
  | _ => files
  end.

Inductive target_event : Type :=
| Call (c : cert_call)
| Serve (addr : string)
| ServeTLS (addr certPath keyPath : string)
| FatalExit (msg : string).

#[export] Instance target_process : ProcessEvent target_event := { Process.Fatal := FatalExit }.

(** The files after the calls of a trace. *)
Definition files_after (files : store) (t : list target_event) : store :=
  fold_left (fun files e => match e with Call c => file_effect c files | _ => files end) t files.

Definition call_result (c : cert_call) : Result unit := if answer c then Ok tt else Err (wrapped c).

Definition ensureCertificate (files : store) (certPath keyPath : string) (sans : list string)
  : process target_event (Result unit) :=
  if os_Stat files certPath && os_Stat files keyPath then pret (Ok tt)
  else calls Call call_result (generation certPath keyPath (certificate_template sans)).

(** ** The program *)

Record target_flags := mkTargetFlags {
  f_host : string; f_port : Z; f_tls : bool; f_cert : string; f_key : string; f_san : string;
}.

(** How [ListenAndServe] ended: [None] is [http.ErrServerClosed]. *)
Variable served : option (Result unit).

Definition server_end : process target_event unit :=
  match served with Some (Err _) => fatal "server error: %v" | _ => pret tt end.

Definition target_main (files : store) (f : target_flags) : process target_event unit :=
  let addr := (f_host f +:+ ":" +:+ format_int (f_port f))%string in
  if f_tls f then
    (if String.eqb (f_cert f) EmptyString || String.eqb (f_key f) EmptyString
     then fatal "both -cert and -key must be specified when -tls is enabled" else pret tt) ;!
    (let! r := ensureCertificate files (f_cert f) (f_key f) (split "," (f_san f)) in
     must r "failed to prepare certificate: %v") ;!
    act (ServeTLS addr (f_cert f) (f_key f)) ;!
    server_end
  else act (Serve addr) ;! server_end.
End Server.

(** The answer of [/ping]: status, header and body. *)
Definition ping : Z * Header * string :=
  (StatusOK, Set_ ∅ "Content-Type" "text/plain", ("pong" +:+ String lf EmptyString)%string).

Example san_example :
  let t := certificate_template (split "," "test.example.com, 127.0.0.1,,::1,fe80::1%eth0") in
  (t_CommonName t, t_IPAddresses t, t_DNSNames t) =
  ("test.example.com", [Addr4 2130706433; Addr6 1 EmptyString], ["test.example.com"; "fe80::1%eth0"])%string.
Proof. vm_compute. reflexivity. Qed.

(** ** Lemmas *)

Definition is_name (name : string) : bool := negb (String.eqb name EmptyString) && negb (bool_decide (is_Some (ParseIP name))).

Lemma add_sans sans : forall t,
  let t' := fold_left add_san sans t in
  t_CommonName t' = t_CommonName t /\
  t_IPAddresses t' = t_IPAddresses t ++ omap ParseIP (map trim_space sans) /\
  t_DNSNames t' = t_DNSNames t ++ List.filter is_name (map trim_space sans).
Proof.
  induction sans as [|s sans IH]; intros t; cbn [fold_left]; [by rewrite !app_nil_r|].
  destruct (IH (add_san t s)) as (H1 & H2 & H3). cbv zeta. rewrite H1, H2, H3. clear IH H1 H2 H3.
  unfold add_san, is_name. cbn [map List.filter omap list_omap].
  destruct (ParseIP (trim_space s)) as [ip|] eqn:E; cbn [t_CommonName t_IPAddresses t_DNSNames].
  - rewrite bool_decide_eq_true_2, andb_false_r by eauto. by rewrite <- app_assoc.
  - rewrite bool_decide_eq_false_2, andb_true_r by (by intros [? [=]]).
    destruct (negb _); cbn [t_CommonName t_IPAddresses t_DNSNames]; [by rewrite <- app_assoc|done].
Qed.

Lemma template_names sans :
  (t_CommonName (certificate_template sans) = hd "test.example.com" sans /\
   t_IPAddresses (certificate_template sans) = omap ParseIP (map trim_space sans) /\
   t_DNSNames (certificate_template sans) = List.filter is_name (map trim_space sans))%string.
Proof.
  unfold certificate_template. set (t0 := mkTemplate _ _ _ _ _ _).
  destruct (add_sans sans t0) as (-> & -> & ->). by destruct sans.
Qed.

Section Facts.
Variable answer : cert_call -> bool.
Variable new_key : Z.

(** Calls in order stop at the first that fails, with its error. *)
Lemma calls_stop cs :
  (forallb answer cs = true /\ calls Call (call_result answer) cs = (map Call cs, inl (Ok tt))) \/
  exists before c after, cs = before ++ c :: after /\ forallb answer before = true /\ answer c = false /\
    calls Call (call_result answer) cs = (map Call (before ++ [c]), inl (Err (wrapped c))).
Proof.
  induction cs as [|c cs IH]; [by left|]. cbn [calls]. unfold attempt. cbn [pbind].
  assert (call_result answer c = if answer c then Ok tt else Err (wrapped c)) as -> by done.
  destruct (answer c) eqn:Ec.
  - destruct IH as [[Ha ->]|(before & d & after & -> & Hb & Hd & ->)].
    + left. cbn. by rewrite Ec, Ha.
    + right. exists (c :: before), d, after. split; [done|]. cbn. by rewrite Ec, Hb.
  - right. exists [], c, cs. by rewrite Ec.
Qed.

(** What the calls of a generation leave. *)
Lemma generation_files files certPath keyPath t before c after :
  certPath <> keyPath -> generation certPath keyPath t = before ++ c :: after -> forallb answer before = true ->
  answer c = false ->
  let files' := files_after answer new_key files (map Call (before ++ [c])) in
  (files' !! keyPath = files !! keyPath \/ files' !! certPath = Some (CertificateOf new_key t)) /\
  forall path, path <> certPath -> path <> keyPath -> files' !! path = files !! path.
Proof.
  intros Hne E Hb Hc. unfold generation in E.
  do 8 (destruct before as [|? before];
    [cbn [app] in E; injection E as <- <-; cbn [app map files_after fold_left file_effect] in *; rewrite ?andb_true_iff in Hb; destruct_and?;
     repeat match goal with H : answer _ = _ |- _ => rewrite H; clear H end;
     (split; [try (by left); try (right; rewrite ?lookup_insert_ne by done; by rewrite lookup_insert_eq); left; by rewrite ?lookup_insert_ne by done
             |intros path Hp1 Hp2; by rewrite ?lookup_insert_ne by congruence])
    |cbn [app] in E; injection E as <- E; cbn [forallb] in Hb]).
  by destruct before.
Qed.

Lemma generated_files files certPath keyPath t :
  certPath <> keyPath -> forallb answer (generation certPath keyPath t) = true ->
  files_after answer new_key files (map Call (generation certPath keyPath t)) =
  <[keyPath := KeyOf new_key]> (<[certPath := CertificateOf new_key t]> files).
Proof.
  intros Hne Ha. cbn [generation forallb] in Ha. rewrite !andb_true_iff in Ha. destruct_and!.
  cbn [generation map files_after fold_left file_effect].
  repeat match goal with H : answer _ = _ |- _ => rewrite H; clear H end. by rewrite !insert_insert_eq.
Qed.
End Facts.

(** ** Properties *)

(** Claim C39: the certificate and its key are prepared together. With both files
    present nothing is done. Otherwise the eight steps run in order: when all
    succeed the files hold a certificate and the key it was signed with, and nothing
    else has changed; when one fails the program goes no further and its error is
    that step's, no other file was touched, and the key file was touched only once
    the certificate was complete. The certificate names every listed address and
    every other non-empty name, each once and in order, and the first name as it
    was written. *)
Theorem certificate_prepared (answer : cert_call -> bool) (new_key : Z) (files : store)
    (certPath keyPath : string) (sans : list string) :
  certPath <> keyPath ->
  let t := certificate_template sans in
  let (trace, r) := ensureCertificate answer files certPath keyPath sans in
  let files' := files_after answer new_key files trace in
  (t_CommonName t = hd "test.example.com" sans /\
   t_IPAddresses t = omap ParseIP (map trim_space sans) /\
   t_DNSNames t = List.filter is_name (map trim_space sans))%string /\
  if os_Stat files certPath && os_Stat files keyPath then trace = [] /\ r = inl (Ok tt)
  else match r with
       | inl (Ok _) =>
           files' = <[keyPath := KeyOf new_key]> (<[certPath := CertificateOf new_key t]> files)
       | inl (Err e) =>
           exists before c after, generation certPath keyPath t = before ++ c :: after /\
             forallb answer before = true /\ answer c = false /\
             trace = map Call (before ++ [c]) /\ e = wrapped c /\
             (files' !! keyPath = files !! keyPath \/
              files' !! certPath = Some (CertificateOf new_key t)) /\
             forall path, path <> certPath -> path <> keyPath -> files' !! path = files !! path
       | inr _ => False
       end.
Proof.
  intros Hne t. unfold ensureCertificate. destruct (os_Stat files certPath && os_Stat files keyPath) eqn:E.
  - split; [apply template_names|done].
  - fold t. destruct (calls_stop answer (generation certPath keyPath t)) as [[Ha ->]|(before & c & after & Eg & Hb & Hc & ->)];
      (split; [apply template_names|]).
    + by apply generated_files.
    + exists before, c, after. do 5 (split; [done|]). by apply (generation_files answer new_key files certPath keyPath t before c after).
Qed.

Lemma certificate_prepared_witness :
  let answer c := match c with EncodeKey _ => false | _ => true end in
  let t := certificate_template ["a"%string] in
  let trace := (ensureCertificate answer ∅ "c" "k" ["a"%string]).1 in
  files_after answer 7 ∅ trace !! "c"%string = Some (CertificateOf 7 t) /\
  exists before c after, generation "c" "k" t = before ++ c :: after /\
    forallb answer before = true /\ answer c = false /\ trace = map Call (before ++ [c]).
Proof.
  split; [vm_compute; reflexivity|].
  destruct (certificate_prepared (fun c => match c with EncodeKey _ => false | _ => true end) 7 ∅ "c" "k" ["a"%string]
    ltac:(discriminate)) as [_ (before & c & after & Hg & Hb & Hc & Ht & _)].
  by exists before, c, after.
Defined.

(** A key file that could not be written is taken for a key: the program ends with
    an error, and leaves both files, of which the next run asks only that they
    exist. It then serves with a key file that holds no key. *)
Theorem torn_key_accepted (answer answer' : cert_call -> bool) (new_key : Z) (files : store)
    (certPath keyPath : string) (sans : list string) :
  certPath <> keyPath -> os_Stat files certPath = false ->
  (forall c, answer c = match c with EncodeKey _ => false | _ => true end) ->
  let (trace, r) := ensureCertificate answer files certPath keyPath sans in
  let files' := files_after answer new_key files trace in
  r = inl (Err "encode key: %w"%string) /\ files' !! keyPath = Some Torn /\
  ensureCertificate answer' files' certPath keyPath sans = pret (Ok tt).
Proof.
  intros Hne Hstat Ha. unfold ensureCertificate at 1. rewrite Hstat. cbn [andb].
  unfold generation, calls, call_result. rewrite !Ha. cbn. rewrite !Ha. split; [done|].
  rewrite lookup_insert_eq. split; [done|]. unfold ensureCertificate, os_Stat.
  rewrite lookup_insert_eq, lookup_insert_ne by done. rewrite lookup_insert_ne, lookup_insert_eq by done. done.
Qed.
